(* ===== verification/_CoqProject ===== *)
-Q . S2P
Prelude.v
GoStrings.v
System.v
Laws.v
Mount.v
Template.v
Json.v
Annotation.v
Resolver.v
Dedup.v
Service.v
LeaseState.v
LeaseSpec.v
Sha256.v
JsonPatch.v
Kube.v
Webhook.v
Admission.v
Patch.v
Pipeline.v
AdmissionExamples.v
Waiting.v
EndToEnd.v
Isolation.v
HostCalls.v
Patcher.v
PatcherFacts.v
TomlFragment.v
TomlTree.v
TomlText.v
TomlSections.v
ConfigRoundTrip.v
TomlPrint.v
ConfigCommand.v
ConfigContract.v
ConfigLost.v
ConfigExamples.v
RuntimeClass.v
Startup.v
StartupExamples.v
Defaults.v
Concurrent.v
Materialise.v
Survival.v
Gauge.v
Probes.v
MemWorld.v
ConcurrentExamples.v
