(* ===== verification/Prelude.v ===== *)
(** * pv-snapshotter: a verification development

    pv-snapshotter is a containerd snapshotter that redirects the writable
    layer of a pod's container to a directory the pod's annotations ask for,
    with a Kubernetes webhook that stamps those annotations and a command that
    registers the snapshotter in containerd's configuration.  This library
    models its Go sources (and the C preamble of [nsenter.go]) and proves what
    makes them correct.  This file holds what all the others share.

    ** How code is modelled

    A function that talks to the outside is a [prog]: a finite tree of calls,
    one constructor of [sysE] ([System.v]), [kubeE] ([Kube.v]), [hostE]
    ([HostCalls.v]) or [startE] ([Startup.v]) per call in the source, composed
    with [let!] and [try! .. catch ..] the way the source composes them; early
    returns and deferred calls are written out.  Functions without calls are
    plain functions.  Definitions carry the names of the source.  An [error]
    keeps its format, its arguments and what it wraps, so messages and error
    classes can be told apart.  [exec p tr a] ranges over every behaviour of
    the environment; [run h p w] runs a program against an environment [h];
    [run_exec] relates the two.  A Go map that is ranged over comes with the
    order of the range as an argument.

    ** The parts, and where they are

    - [pkg/containerd/snapshotter/mount.go]: [Mount.v] - checking the
      directory, redirecting the options, reading layer paths back.
    - [resolver.go]: [Resolver.v] - from a snapshot key through the CRI
      container and sandbox to the directory.
    - [dedup.go]: [Dedup.v] (operations), [LeaseState.v] (what they do to the
      leases), [LeaseSpec.v] (the abstract lease book they implement).  The
      state is containerd's: leases and snapshots, seen through views of the
      environment's world ([Laws.v]); the mutex is [MuLock] and [MuUnlock].
    - [service.go]: [Service.v] - every method of the snapshotter, the HTTP
      handlers, the scrape hook.  [request] and [serve] are its interface.
    - The goroutines of the gRPC and HTTP servers: [Concurrent.v] (threads that
      share a world and the mutex; one step is one call), [Materialise.v]
      (concurrent [Stat]s), [Survival.v] (leases, old and being created, under
      concurrent requests), [Gauge.v] (what one thread does in a schedule, and
      the gauge), [Probes.v] (two looks at one layer).
    - [pkg/annotation/prefix.go]: [Annotation.v].
    - [pkg/webhook/mutating.go]: [Webhook.v] (operations), [Admission.v] (what
      it decides), [Waiting.v] (a claim that is bound in time is found),
      [Patch.v] (what its patch does, against RFC 6902 in [JsonPatch.v]).
      [Pipeline.v] joins webhook and resolver; [EndToEnd.v] follows a pod from
      its admission to its first mounts, and [Isolation.v] compares the
      directories of two containers.
    - [pkg/containerd/config/patcher.go]: [Patcher.v], [PatcherFacts.v], and
      [ConfigRoundTrip.v] with its lemmas in [TomlFragment.v], [TomlTree.v],
      [TomlText.v], [TomlSections.v].
    - [wait.go], [nsenter.go], [flags.go] of that package and
      [cmd/daemon/config.go]: [ConfigCommand.v]; what a run of the command
      promises about the file and the restart: [ConfigContract.v]; what
      becomes of the file when a runtime class is named twice: [ConfigLost.v].
    - [cmd/daemon/main.go], [overlay.go], [RegisterGRPCService] and every
      [RegisterFlags]: [Startup.v].  [Defaults.v] runs the two commands with
      the flags' defaults.
    - Webhook and config command together, the RuntimeClass of a pod and the
      runtime of a node: [RuntimeClass.v].
    - The language and its library: [GoStrings.v] ([strings]), [Template.v]
      ([text/template]), [Json.v] ([encoding/json]), [Sha256.v]
      ([crypto/sha256]).
    - Concrete environments that satisfy the laws, with the theorems applied to
      them: [MemWorld.v], [AdmissionExamples.v], [ConfigExamples.v],
      [StartupExamples.v], [ConcurrentExamples.v], [TomlPrint.v].

    ** What the theorems show

    - Redirection: when [Mounts] redirects and when it does not, which
      directory is resolved and for whom, that only options [upperdir=] and
      [workdir=] change, and that nothing is created on the node's own disk.
    - End to end: the container of an admitted pod that asks for nothing itself
      has its writable overlay below its volume, or gets no mounts, except when
      a read of containerd's store fails - then it gets the native mounts; two
      containers write in common directories exactly when they share the pod
      and the volume; and an admitted pod has a RuntimeClass that the config
      command adds to the node.
    - Leases: the service refines the lease book; a sweep deletes exactly the
      orphans; a removal that fails releases the lease all the same.
    - Concurrency: under every schedule the critical section has one owner,
      nothing deadlocks, every schedule ends; a lease whose snapshot exists
      survives whatever runs beside it, and keeps the layer it holds, and so
      does one that is being created while sweeps run; the gauge follows the
      leases; a layer is materialised once; and two probes of one layer that
      overlap collide.
    - Admission: when a handler exists, that it is well formed and does not
      depend on the order of a Go map, which owner
      and claim, that the wait ends, how often it polls, that it misses no
      claim that is bound in time, when a pod is admitted, that every request is answered, and that the patch turns the
      pod's document into the pod the code means.
    - The two template layers: rendering at admission and again at mount time
      is rendering once with the data of both.
    - Configuration: what is missing, what is injected, that the file is only
      appended to, that what is appended is read back and a second run changes
      nothing, and the order of readiness, write and restart; when a run leaves
      the runtime in the file for good, that a restart that failed is not tried
      again, that a class named twice makes the file unreadable, that a file
      that was broken once stays so, and that tables below a sub-table of a base
      runtime are misplaced.
    - Startup: what is opened is closed exactly once, and requests are served
      only in between.

    ** What is assumed

    Code outside the repository is a parameter with its documented behaviour
    as a class: [LeaseLaws], [HoldLaws], [IssueLaws], [StatLaws], [SnapLaws], [ViewLaws],
    [FileLaws], [DNSLaws], [TemplateLaws], [TomlLaws], [TomlStrict] (a document
    of the fragment that opens a table twice is refused).  [TemplateLaws],
    [TomlLaws] and [TomlStrict] hold the engine and the TOML library to fragments with an executable definition
    ([frag_parse]: text and [{{.Field}}] with one function; [frag_tree]: TOML
    on single lines, ASCII, no inline tables, dates or floats), and say nothing
    elsewhere.  Each class has an instance, and each theorem with hypotheses an
    application in one of the example files.

    ** Fuel

    - [ownerLoop] runs its own bound, [maxOwnerDepth].
    - [waitLoop] takes [waitFuel]: the timeout divided by the poll interval,
      plus two; [waitBound_ends] proves that with a clock that runs it never
      runs out.
    - [waitAttempts] has no bound in the source; its fuel is the number of
      attempts looked at, and the theorems hold for every fuel.
    - [parse_nodes] and [parse_path] get one unit more than the text is long;
      [parse_items] too.

    ** Not modelled

    Log calls that no theorem is about; [extensionKeys], whose result is only
    logged; the cobra, gin, gRPC and Prometheus values, which stand behind
    calls of the model (the route tables handed to gin are modelled, and so is
    the client that dials the daemon's socket); cancellation of contexts other than
    where the source selects on it; the Helm chart.  Configuration text outside
    the TOML fragment, and runtime names that would need quoting, are outside
    the round trip (not outside the other theorems about [Apply]): the code
    writes names unquoted, so a dotted name would make a nested table. *)

From Stdlib Require Export Ascii.
From stdpp Require Export base gmap sets list strings.
From Stdlib Require Export Lia.

Declare Scope go_scope.
Delimit Scope go_scope with go.

(** ** Go results and errors *)

(** The error class containerd attaches to an error ([errdefs]): the only
    part of a foreign error that a caller can test for. *)
Inductive errcode :=
| NotFound | AlreadyExists | FailedPrecondition | Unavailable | UnknownCode.

(** An argument of a format verb. *)
Inductive arg :=
| ArgStr (s : string)
| ArgStrs (l : list string)
| ArgInt (n : Z)
| ArgDuration (ns : Z).
Coercion ArgStr : string >-> arg.
Coercion ArgInt : Z >-> arg.
(** Elements of a list are checked against the list's expected type first. *)
Arguments cons {A}%_type_scope & a l%_list_scope.

(** A Go [error]: either one that code outside the repository returned, or one
    this repository built with [fmt.Errorf]; the latter keeps its format
    string and the arguments of its verbs, and, when the format uses [%w]
    ([Wrapf]), the wrapped error. *)
Inductive error :=
| Ext (code : errcode) (msg : string)
| Errorf (format : string) (args : list arg)
| Wrapf (format : string) (args : list arg) (wrapped : error).

(** What a Go function with results [(A, error)] returns. *)
Inductive result (A : Type) :=
| Ok (a : A)
| Err (e : error).
Arguments Ok {A} a.
Arguments Err {A} e.

(** [errdefs.IsNotFound] follows the chain of wrapped errors. *)
Fixpoint is_not_found (e : error) : bool :=
  match e with
  | Ext NotFound _ => true
  | Ext _ _ => false
  | Errorf _ _ => false
  | Wrapf _ _ e' => is_not_found e'
  end.

Definition is_ok {A} (r : result A) : bool :=
  match r with Ok _ => true | Err _ => false end.

(** ** Programs over an interface

    A function of the repository that talks to the outside is a finite tree of
    calls [E X] (a call whose answer has type [X]). *)
Inductive prog (E : Type -> Type) (A : Type) : Type :=
| Ret (a : A)
| Vis (X : Type) (e : E X) (k : X -> prog E A).
Arguments Ret {E A} a.
Arguments Vis {E A X} e k.

Fixpoint bind {E A B} (p : prog E A) (f : A -> prog E B) : prog E B :=
  match p with
  | Ret a => f a
  | Vis e k => Vis e (fun x => bind (k x) f)
  end.

Definition call {E X} (e : E X) : prog E X := Vis e Ret.

Notation "'let!' x ':=' p 'in' k" := (bind p (fun x => k))
  (at level 10, x pattern, p at level 100, k at level 200,
   format "'let!'  x  ':='  p  'in' '//' k") : go_scope.
Notation "p ';;' k" := (bind p (fun _ => k))
  (at level 100, k at level 200, right associativity, format "p  ';;' '//' k") : go_scope.
(** [if x, err := p; err != nil { h }; k] *)
Notation "'try!' x ':=' p 'catch' e '=>' h 'in' k" :=
  (bind p (fun r => match r with Ok x => k | Err e => h end))
  (at level 10, x pattern, p at level 100, e name, h at level 200, k at level 200,
   format "'try!'  x  ':='  p  'catch'  e  '=>'  h  'in' '//' k") : go_scope.

(** *** Running a program against an environment

    A handler answers every call and changes a world of its own. *)
Definition handler (E : Type -> Type) (W : Type) := forall X, E X -> W -> X * W.

Fixpoint run {E W A} (h : handler E W) (p : prog E A) (w : W) : A * W :=
  match p with
  | Ret a => (a, w)
  | Vis e k => let (x, w') := h _ e w in run h (k x) w'
  end.

(** *** Every behaviour of the environment

    An event is a call with the answer it got; [exec p tr a] says that [p],
    when its calls are answered as [tr] records, returns [a].  Nothing is
    assumed of the answers. *)
Inductive event (E : Type -> Type) : Type :=
| Ev (X : Type) (e : E X) (x : X).
Arguments Ev {E X} e x.

Fixpoint exec {E A} (p : prog E A) (tr : list (event E)) (a : A) : Prop :=
  match p with
  | Ret a' => tr = [] /\ a' = a
  | Vis e k => exists x tr', tr = Ev e x :: tr' /\ exec (k x) tr' a
  end.

Fixpoint trace {E W A} (h : handler E W) (p : prog E A) (w : W) : list (event E) :=
  match p with
  | Ret _ => []
  | Vis e k => let (x, w') := h _ e w in Ev e x :: trace h (k x) w'
  end.

(** How many events of a trace satisfy a boolean test. *)
Fixpoint count {E} (P : event E -> bool) (tr : list (event E)) : nat :=
  match tr with
  | [] => 0
  | ev :: tr' => (if P ev then 1 else 0) + count P tr'
  end.

(** ** Laws of programs *)

Lemma bind_ret_r {E A} (p : prog E A) tr a :
  exec (bind p Ret) tr a <-> exec p tr a.
Proof.
  revert tr. induction p as [a'|X e k IH]; intros tr; simpl; [done|].
  by setoid_rewrite IH.
Qed.

(** Sequencing splits the trace in two. *)
Lemma exec_bind {E A B} (p : prog E A) (f : A -> prog E B) tr b :
  exec (bind p f) tr b <->
  exists tr1 a tr2, tr = tr1 ++ tr2 /\ exec p tr1 a /\ exec (f a) tr2 b.
Proof.
  revert tr. induction p as [a'|X e k IH]; intros tr; simpl; split.
  - intros H. exists [], a', tr. done.
  - intros (tr1 & a & tr2 & -> & [-> ->] & H). done.
  - intros (x & tr' & -> & H). apply IH in H as (tr1 & a & tr2 & -> & H1 & H2).
    exists (Ev e x :: tr1), a, tr2. split_and!; [done| |done]. by exists x, tr1.
  - intros (tr1 & a & tr2 & -> & (x & tr' & -> & H1) & H2).
    exists x, (tr' ++ tr2). split; [done|]. apply IH. by exists tr', a, tr2.
Qed.

Lemma exec_call {E X} (e : E X) tr x : exec (call e) tr x <-> tr = [Ev e x].
Proof.
  simpl; split.
  - by intros (y & ? & -> & -> & ->).
  - intros ->. by exists x, [].
Qed.

Lemma run_bind {E W A B} (h : handler E W) (p : prog E A) (f : A -> prog E B) w :
  run h (bind p f) w = let (a, w') := run h p w in run h (f a) w'.
Proof.
  revert w. induction p as [a|X e k IH]; intros w; simpl; [done|].
  destruct (h X e w) as [x w']. apply IH.
Qed.

Lemma trace_bind {E W A B} (h : handler E W) (p : prog E A) (f : A -> prog E B) w :
  trace h (bind p f) w =
  trace h p w ++ let (a, w') := run h p w in trace h (f a) w'.
Proof.
  revert w. induction p as [a|X e k IH]; intros w; simpl; [done|].
  destruct (h X e w) as [x w']; simpl. by rewrite IH.
Qed.

(** A run is one of the behaviours: what holds of every [exec] holds of it. *)
Lemma run_exec {E W A} (h : handler E W) (p : prog E A) w :
  exec p (trace h p w) (fst (run h p w)).
Proof.
  revert w. induction p as [a|X e k IH]; intros w; simpl; [done|].
  destruct (h X e w) as [x w']. by exists x, (trace h (k x) w').
Qed.

Lemma count_app {E} (P : event E -> bool) tr1 tr2 :
  count P (tr1 ++ tr2) = count P tr1 + count P tr2.
Proof. induction tr1 as [|ev tr1 IH]; simpl; [done|]. lia. Qed.

Lemma count_zero {E} (P : event E -> bool) tr :
  Forall (fun ev => P ev = false) tr -> count P tr = 0.
Proof. induction 1 as [|ev tr Hev _ IH]; simpl; [done|]. by rewrite Hev. Qed.

Lemma count_zero_iff {E} (P : event E -> bool) tr :
  count P tr = 0 <-> Forall (fun ev => P ev = false) tr.
Proof.
  induction tr as [|ev tr IH]; simpl; [by split|]. rewrite Forall_cons, <-IH.
  destruct (P ev); split; intros; split_and?; try done; lia.
Qed.

(** Every event with [P] comes after one with [Q]. *)
Definition preceded {E} (Q P : event E -> Prop) (tr : list (event E)) : Prop :=
  forall before ev after, tr = before ++ ev :: after -> P ev ->
  exists q, q ∈ before /\ Q q.

Lemma preceded_none {E} (Q P : event E -> Prop) tr :
  Forall (fun ev => ~ P ev) tr -> preceded Q P tr.
Proof.
  intros Hf before ev after -> HP. apply Forall_app in Hf as [_ Hf].
  apply Forall_cons in Hf as [Hf _]. done.
Qed.

Lemma preceded_app {E} (Q P : event E -> Prop) tr1 tr2 :
  preceded Q P tr1 -> (preceded Q P tr2 \/ exists q, q ∈ tr1 /\ Q q) ->
  preceded Q P (tr1 ++ tr2).
Proof.
  intros H1 H2 before ev after Heq HP.
  apply app_eq_inv in Heq as [(k & -> & Heq)|(k & -> & Heq)].
  - destruct k as [|ev' k]; simpl in Heq.
    + subst tr2. rewrite app_nil_r in H1, H2. destruct H2 as [H2|H2]; [|done].
      destruct (H2 [] ev after eq_refl HP) as (q & Hq & _). by apply not_elem_of_nil in Hq.
    + injection Heq as <- _. by eapply H1.
  - destruct H2 as [H2|(q & Hq & HQ)].
    + destruct (H2 k ev after Heq HP) as (q & Hq & HQ). exists q. split; [|done].
      apply elem_of_app. by right.
    + exists q. split; [|done]. apply elem_of_app. by left.
Qed.

(** A relation between worlds that every call respects and that is closed
    under composition holds between the ends of a run. *)
Lemma run_invariant {E W A} (h : handler E W) (R : W -> W -> Prop) (p : prog E A) w :
  (forall w, R w w) -> (forall w1 w2 w3, R w1 w2 -> R w2 w3 -> R w1 w3) ->
  (forall X (e : E X) w, R w (snd (h X e w))) ->
  R w (snd (run h p w)).
Proof.
  intros Hrefl Htrans Hstep. revert w.
  induction p as [a|X e k IH]; intros w; simpl; [apply Hrefl|].
  specialize (Hstep X e w). destruct (h X e w) as [x w']; simpl in *.
  eapply Htrans; [exact Hstep|]. apply IH.
Qed.

(** ** Automation *)

Create HintDb go.

Create Rewrite HintDb go_rw.
#[export] Hint Rewrite @count_app : go_rw.

(** Read off everything that [H : exec p tr a] says: name the answers and the
    rest of the trace, split on the answers and on the tests of the program. *)
Ltac exec_split x :=
  lazymatch x with
  | decide ?P => destruct (decide P)
  | _ => first [is_var x; destruct x | let Hx := fresh "Hx" in destruct x eqn:Hx; try discriminate Hx]
  end.
Ltac exec_head p :=
  lazymatch p with
  | bind ?q _ => exec_head q
  | match ?x with _ => _ end => exec_split x
  end.
Ltac exec_step H :=
  cbn [exec bind call] in H;
  lazymatch type of H with
  | exists _, _ =>
      let x := fresh "x" in let tr := fresh "tr" in
      destruct H as (x & tr & -> & H)
  | _ = [] /\ _ = _ =>
      let H' := fresh "Hret" in destruct H as [-> H']; simplify_eq
  | exec ?p _ _ => exec_head p
  end.
Ltac exec_inv H := repeat exec_step H.

(** Show that a program can behave as a given trace says. *)
Ltac exec_run :=
  repeat first
    [ progress cbn [exec bind call]
    | match goal with
      | |- exists x tr', Ev _ ?y :: ?t = Ev _ x :: tr' /\ _ => exists y, t; split; [reflexivity|]
      | |- [] = [] /\ _ => split; [reflexivity|]
      end ].

(** The same for a concrete program and trace, by computation. *)
Ltac exec_compute :=
  repeat (do 2 eexists; split; [reflexivity|]); split; reflexivity.

(** Take a hypothesis apart into its conjuncts, witnesses and cases. *)
Ltac split_hyps :=
  repeat match goal with
  | H : ex _ |- _ => destruct H
  | H : _ /\ _ |- _ => destruct H
  | H : _ \/ _ |- _ => destruct H
  end.

(** [exec (Ret a) tr b <-> P] where neither side can hold. *)
Ltac no_result := cbn [exec]; split; intros; split_hyps; simplify_eq; try congruence.

(** Membership of an event in an explicit trace: as a goal, and as a
    hypothesis (one case per event). *)
Ltac in_trace :=
  solve [repeat first [apply list_elem_of_here | apply list_elem_of_further]].
Ltac trace_cases H :=
  repeat (apply elem_of_cons in H as [H|H]; [subst|]);
  try (by apply not_elem_of_nil in H).
