(* ===== verification/GoStrings.v ===== *)
(** * Go's [strings] package, as far as the repository uses it

    A Go string is a sequence of bytes, modelled by [string].  Each function
    below carries the name it has in the package [strings]; the lemmas
    characterise it by concatenation, so that client proofs never unfold it. *)

From S2P Require Import Prelude.

(** ** Definitions *)

(** [strings.CutPrefix]: [Some rest] when [prefix] was present. *)
Fixpoint CutPrefix (s prefix : string) {struct prefix} : option string :=
  match prefix, s with
  | "", _ => Some s
  | String c prefix', String d s' =>
      if decide (c = d) then CutPrefix s' prefix' else None
  | String _ _, "" => None
  end.

Definition HasPrefix (s prefix : string) : bool :=
  match CutPrefix s prefix with Some _ => true | None => false end.

Definition TrimPrefix (s prefix : string) : string :=
  default s (CutPrefix s prefix).

Fixpoint HasSuffix (s suffix : string) : bool :=
  bool_decide (s = suffix) ||
  match s with "" => false | String _ s' => HasSuffix s' suffix end.

(** [strings.Cut]: the text before and after the first [sep], if any. *)
Fixpoint Cut (s sep : string) : option (string * string) :=
  match CutPrefix s sep with
  | Some after => Some ("", after)
  | None =>
      match s with
      | "" => None
      | String c s' =>
          match Cut s' sep with
          | Some (before, after) => Some (String c before, after)
          | None => None
          end
      end
  end.

Definition Contains (s sub : string) : bool :=
  match Cut s sub with Some _ => true | None => false end.

(** [strings.SplitN] for a positive [n]: at most [n] substrings. *)
Fixpoint SplitN (s sep : string) (n : nat) : list string :=
  match n with
  | 0 => []
  | 1 => [s]
  | S n' =>
      match Cut s sep with
      | Some (before, after) => before :: SplitN after sep n'
      | None => [s]
      end
  end.

(** [strings.LastIndex] for a one-byte separator. *)
Fixpoint LastIndex (s : string) (c : ascii) : option nat :=
  match s with
  | "" => None
  | String d s' =>
      match LastIndex s' c with
      | Some i => Some (S i)
      | None => if decide (d = c) then Some 0 else None
      end
  end.

(** [s[:n]] *)
Fixpoint slice_to (s : string) (n : nat) : string :=
  match n, s with
  | S n', String c s' => String c (slice_to s' n')
  | _, _ => ""
  end.

(** [strings.TrimRight] for a one-byte cutset. *)
Fixpoint TrimRight (s : string) (c : ascii) : string :=
  match s with
  | "" => ""
  | String d s' =>
      match TrimRight s' c with
      | "" => if decide (d = c) then "" else String d ""
      | t => String d t
      end
  end.

(** [strings.ReplaceAll] for a one-byte pattern. *)
Fixpoint ReplaceAll (s : string) (old : ascii) (new : string) : string :=
  match s with
  | "" => ""
  | String d s' =>
      if decide (d = old) then new +:+ ReplaceAll s' old new
      else String d (ReplaceAll s' old new)
  end.

(** [strings.Join] *)
Fixpoint Join (elems : list string) (sep : string) : string :=
  match elems with
  | [] => ""
  | [s] => s
  | s :: elems' => s +:+ sep +:+ Join elems' sep
  end.

(** [strings.TrimSpace]: the encodings of the Unicode white space characters,
    cut from both ends; [n] bounds the number of characters cut. *)
Definition spaces : list string :=
  (map (fun n => String (ascii_of_nat n) "") [9; 10; 11; 12; 13; 32] ++
   map (fun n => String "194" (String (ascii_of_nat n) "")) [133; 160] ++
   [String "225" (String "154" (String "128" ""))] ++
   map (fun n => String "226" (String "128" (String (ascii_of_nat n) "")))
       [128; 129; 130; 131; 132; 133; 134; 135; 136; 137; 138; 168; 169; 175] ++
   [String "226" (String "129" (String "159" "")); String "227" (String "128" (String "128" ""))])%nat.

Fixpoint cutAny (s : string) (prefixes : list string) : option string :=
  match prefixes with
  | [] => None
  | p :: prefixes' =>
      match CutPrefix s p with Some rest => Some rest | None => cutAny s prefixes' end
  end.

Fixpoint cutAll (n : nat) (s : string) (prefixes : list string) : string :=
  match n with
  | 0 => s
  | S n' => match cutAny s prefixes with Some rest => cutAll n' rest prefixes | None => s end
  end.

Fixpoint reverse (s : string) : string :=
  match s with
  | "" => ""
  | String c s' => reverse s' +:+ String c ""
  end.

Definition TrimSpace (s : string) : string :=
  let s := cutAll (String.length s) s spaces in
  reverse (cutAll (String.length s) (reverse s) (map reverse spaces)).

(** The bytes of a string; [c ∉ bytes s] is "the byte [c] is not in [s]". *)
Fixpoint bytes (s : string) : list ascii :=
  match s with "" => [] | String c s' => c :: bytes s' end.

Notation byte c := (String c "") (only parsing).

(** ** Concatenation *)

Lemma app_cons_str c s1 s2 : String c s1 +:+ s2 = String c (s1 +:+ s2).
Proof. done. Qed.

Lemma app_nil_l_str s : "" +:+ s = s.
Proof. done. Qed.

Lemma byte_app c s : byte c +:+ s = String c s.
Proof. done. Qed.

(** [String.append] does not reduce by [simpl]; this does its steps. *)
Ltac simpl_app := rewrite ?byte_app, ?app_cons_str, ?app_nil_l_str in *.

Lemma app_nil_r_str s : s +:+ "" = s.
Proof. induction s as [|c s IH]; simpl_app; [done|]. by rewrite IH. Qed.

Lemma app_assoc_str s1 s2 s3 : (s1 +:+ s2) +:+ s3 = s1 +:+ s2 +:+ s3.
Proof. induction s1 as [|c s1 IH]; simpl_app; [done|]. by rewrite IH. Qed.

Lemma bytes_app s1 s2 : bytes (s1 +:+ s2) = bytes s1 ++ bytes s2.
Proof. induction s1 as [|c s1 IH]; simpl_app; simpl; [done|]. by rewrite IH. Qed.

Lemma bytes_inj s1 s2 : bytes s1 = bytes s2 -> s1 = s2.
Proof.
  revert s2. induction s1 as [|c s1 IH]; intros [|d s2]; simpl; try done.
  intros [= -> H]. by rewrite (IH s2 H).
Qed.

Lemma app_inj_r_str s1 s2 t : s1 +:+ t = s2 +:+ t -> s1 = s2.
Proof.
  intros H. apply bytes_inj, (app_inv_tail (bytes t)).
  by rewrite <-!bytes_app, H.
Qed.

Lemma app_eq_nil_str s1 s2 : s1 +:+ s2 = "" -> s1 = "" /\ s2 = "".
Proof. by destruct s1. Qed.

#[export] Hint Rewrite app_nil_r_str app_nil_l_str app_assoc_str app_cons_str bytes_app : go_rw.

(** ** Prefixes and suffixes *)

Lemma CutPrefix_Some s p r : CutPrefix s p = Some r <-> s = p +:+ r.
Proof.
  revert s. induction p as [|c p IH]; intros s; simpl.
  - simpl_app. destruct s; naive_solver.
  - destruct s as [|d s]; simpl; [done|]. case_decide as Hc.
    + subst d. rewrite IH, app_cons_str. split; [by intros ->|by intros [= ->]].
    + rewrite app_cons_str. split; [done|]. intros [= -> _]. done.
Qed.

Lemma CutPrefix_cons c d s p :
  CutPrefix (String d s) (String c p) = if decide (c = d) then CutPrefix s p else None.
Proof. done. Qed.

Lemma CutPrefix_app p r : CutPrefix (p +:+ r) p = Some r.
Proof. by apply CutPrefix_Some. Qed.

Lemma HasPrefix_spec s p : HasPrefix s p = true <-> exists r, s = p +:+ r.
Proof.
  unfold HasPrefix. destruct (CutPrefix s p) as [r|] eqn:H.
  - apply CutPrefix_Some in H. naive_solver.
  - split; [done|]. intros [r Hr]. apply CutPrefix_Some in Hr. congruence.
Qed.

Lemma HasPrefix_app p r : HasPrefix (p +:+ r) p = true.
Proof. apply HasPrefix_spec. eauto. Qed.

Lemma TrimPrefix_app p r : TrimPrefix (p +:+ r) p = r.
Proof. unfold TrimPrefix. by rewrite CutPrefix_app. Qed.

Lemma HasSuffix_spec s p : HasSuffix s p = true <-> exists r, s = r +:+ p.
Proof.
  induction s as [|c s IH]; simpl; rewrite orb_true_iff, bool_decide_eq_true.
  - split; [intros [<-|]; [by exists ""|done]|].
    intros [r Hr]. symmetry in Hr. apply app_eq_nil_str in Hr as [_ ->]. by left.
  - rewrite IH. split.
    + intros [<-|[r ->]]; [by exists ""|by exists (String c r)].
    + intros [[|d r] Hr]; simpl_app; simplify_eq; eauto.
Qed.

(** ** Cutting at a separator *)

Lemma Cut_sound s sep b a : Cut s sep = Some (b, a) -> s = b +:+ sep +:+ a.
Proof.
  revert b. induction s as [|c s IH]; intros b; cbn [Cut].
  - destruct (CutPrefix "" sep) as [r|] eqn:H; [|done].
    apply CutPrefix_Some in H. intros [= <- <-]. done.
  - destruct (CutPrefix (String c s) sep) as [r|] eqn:H.
    + apply CutPrefix_Some in H. intros [= <- <-]. done.
    + destruct (Cut s sep) as [[b' a']|]; [|done].
      intros [= <- <-]. simpl_app. by rewrite (IH b').
Qed.

(** For a one-byte separator [Cut] splits at its first occurrence. *)
Lemma Cut_byte_Some s c b a :
  Cut s (byte c) = Some (b, a) <-> s = b +:+ byte c +:+ a /\ c ∉ bytes b.
Proof.
  revert b. induction s as [|d s IH]; intros b; simpl.
  - split; [done|]. intros [H _]. symmetry in H.
    apply app_eq_nil_str in H as [_ H]. done.
  - case_decide as Hc.
    + subst d. split.
      * intros [= <- <-]. split; [done|]. apply not_elem_of_nil.
      * intros [H Hb]. destruct b as [|e b]; simpl_app; simplify_eq; [done|].
        simpl in Hb. set_solver.
    + destruct (Cut s (byte c)) as [[b' a']|] eqn:Hcut; split.
      * intros [= <- <-]. destruct (proj1 (IH b') eq_refl) as [-> Hb].
        split; [done|]. simpl. set_solver.
      * intros [H Hb]. destruct b as [|e b]; simpl_app; simplify_eq.
        assert (Some (b', a') = Some (b, a)) as Heq.
        { apply IH. split; [done|]. simpl in Hb. set_solver. }
        by simplify_eq.
      * done.
      * intros [H Hb]. destruct b as [|e b]; simpl_app; simplify_eq.
        enough (None = Some (b, a)) by done. apply IH.
        split; [done|]. simpl in Hb. set_solver.
Qed.

Lemma Cut_byte_None s c : Cut s (byte c) = None <-> c ∉ bytes s.
Proof.
  induction s as [|d s IH]; simpl.
  - split; [|done]. intros _. apply not_elem_of_nil.
  - case_decide as Hc; [subst; set_solver|].
    destruct (Cut s (byte c)) as [[b' a']|]; set_solver.
Qed.

Lemma Contains_byte s c : Contains s (byte c) = true <-> c ∈ bytes s.
Proof.
  unfold Contains. destruct (Cut s (byte c)) as [[b a]|] eqn:H.
  - apply Cut_byte_Some in H as [-> _]. autorewrite with go_rw. set_solver.
  - apply Cut_byte_None in H. set_solver.
Qed.

(** ** Trimming, indexing and replacing *)

Lemma LastIndex_Some s c i :
  LastIndex s c = Some i <->
  exists a b, s = a +:+ byte c +:+ b /\ c ∉ bytes b /\ slice_to s i = a /\ i = String.length a.
Proof.
  revert i. induction s as [|d s IH]; intros i; simpl.
  - split; [done|]. intros (a & b & H & _). symmetry in H.
    by apply app_eq_nil_str in H as [_ ?].
  - destruct (LastIndex s c) as [j|] eqn:Hj; [|case_decide as Hd]; split.
    + intros [= <-]. destruct (proj1 (IH j) eq_refl) as (a & b & -> & Hb & Ha & ->).
      exists (String d a), b. simpl. by rewrite Ha.
    + intros (a & b & H & Hb & Hi & ->). destruct a as [|e a]; simpl_app; simplify_eq.
      * destruct (proj1 (IH j) eq_refl) as (a' & b' & -> & _).
        rewrite !bytes_app in Hb. simpl in Hb. set_solver.
      * simpl. f_equal. enough (Some j = Some (String.length a)) by congruence.
        apply IH. exists a, b. simpl in Hi. split_and!; [done|done|by simplify_eq|done].
    + intros [= <-]. subst d. exists "", s. split_and!; [done| |done|done].
      intros Hin. clear IH. revert Hj.
      induction s as [|e s IHs]; simpl; [set_solver|].
      destruct (LastIndex s c) eqn:?; [done|]. case_decide; [done|].
      intros _. apply IHs; [|done]. simpl in Hin. set_solver.
    + intros (a & b & H & Hb & Hi & ->). destruct a as [|e a]; simpl_app; simplify_eq; [done|].
      enough (None = Some (String.length a)) by done.
      apply IH. exists a, b. simpl in Hi. split_and!; [done|done|by simplify_eq|done].
    + done.
    + intros (a & b & H & Hb & Hi & ->). destruct a as [|e a]; simpl_app; simplify_eq.
      enough (None = Some (String.length a)) by done.
      apply IH. exists a, b. simpl in Hi. split_and!; [done|done|by simplify_eq|done].
Qed.

Lemma LastIndex_None s c : LastIndex s c = None -> c ∉ bytes s.
Proof.
  induction s as [|d s IH]; simpl; [set_solver|].
  destruct (LastIndex s c) eqn:?; [done|]. case_decide; [done|]. set_solver.
Qed.

Lemma TrimRight_nil s c : Forall (eq c) (bytes s) -> TrimRight s c = "".
Proof.
  induction s as [|d s IH]; simpl; [done|].
  intros [-> H]%Forall_cons. rewrite IH by done. by case_decide.
Qed.

(** A string that does not end in [c] keeps exactly that much. *)
Lemma TrimRight_app s d t c :
  d <> c -> Forall (eq c) (bytes t) ->
  TrimRight (s +:+ byte d +:+ t) c = s +:+ byte d.
Proof.
  intros Hd Ht. induction s as [|e s IH]; simpl_app; simpl.
  - rewrite TrimRight_nil by done. by case_decide.
  - rewrite IH. destruct (s +:+ String d "") eqn:Hs; [|done].
    apply app_eq_nil_str in Hs as [_ ?]. done.
Qed.

Lemma ReplaceAll_not_in s c new : c ∉ bytes s -> ReplaceAll s c new = s.
Proof.
  induction s as [|d s IH]; simpl; [done|]. intros H.
  case_decide; [set_solver|]. rewrite IH; set_solver.
Qed.

(** A non-empty string has a last byte. *)
Lemma string_snoc s : s <> "" -> exists s' c, s = s' +:+ byte c.
Proof.
  induction s as [|c s IH]; [done|]. intros _. destruct (decide (s = "")) as [->|Hs].
  - by exists "", c.
  - destruct (IH Hs) as (s' & d & ->). by exists (String c s'), d.
Qed.

Lemma slice_to_app a b : slice_to (a +:+ b) (String.length a) = a.
Proof.
  induction a as [|c a IH]; simpl_app; [by destruct b|]. simpl. by rewrite IH.
Qed.

Lemma LastIndex_app a c b :
  c ∉ bytes b -> LastIndex (a +:+ byte c +:+ b) c = Some (String.length a).
Proof. intros Hb. apply LastIndex_Some. exists a, b. by rewrite slice_to_app. Qed.

Lemma TrimRight_not_in s c : c ∉ bytes s -> TrimRight s c = s.
Proof.
  induction s as [|d s IH]; simpl; [done|]. intros H.
  rewrite IH by set_solver. destruct s; [|done]. rewrite decide_False by set_solver. done.
Qed.

#[global] Arguments CutPrefix : simpl never.

(** A separator is found where its first byte first occurs. *)
Lemma Cut_app c sep b t :
  c ∉ bytes b -> Cut (b +:+ String c sep +:+ t) (String c sep) = Some (b, t).
Proof.
  induction b as [|d b IH]; intros Hb; simpl_app.
  - cbn [Cut]. rewrite CutPrefix_cons, decide_True by done. by rewrite CutPrefix_app.
  - cbn [Cut]. rewrite CutPrefix_cons. simpl in Hb.
    rewrite decide_False by set_solver. by rewrite IH by set_solver.
Qed.
