(* ===== verification/System.v ===== *)
(** * The outside of the snapshotter daemon

    The data the daemon exchanges with containerd and the operating system,
    and the calls it makes ([sysE], one constructor per call in
    [pkg/containerd/snapshotter]).  The services behind the calls are not part
    of the repository: programs are run against an arbitrary handler, and what
    a theorem needs of a service is a named law ([Laws.v]). *)

From S2P Require Import Prelude.

(** ** containerd's data *)

(** [mount.Mount] *)
Record Mount := mkMount {
  mnt_Type : string;
  mnt_Source : string;
  mnt_Target : string;
  mnt_Options : list string
}.

(** [snapshots.Kind] and [snapshots.Info] (timestamps left out: no operation
    of the repository reads them). *)
Inductive Kind := KindUnknown | KindView | KindActive | KindCommitted.

Record Info := mkInfo {
  info_Kind : Kind;
  info_Name : string;
  info_Parent : string;
  info_Labels : gmap string string
}.

Record Usage := mkUsage { usage_Inodes : Z; usage_Size : Z }.

(** [snapshots.Opt]: a function that edits an [Info] in place and may fail. *)
Definition Opt := Info -> Info * option error.

(** [snapshots.WalkFunc] *)
Definition WalkFunc := Info -> option error.

(** The part of a [context.Context] that matters: the containerd namespace it
    carries, [""] when it carries none. *)
Record Ctx := mkCtx { ctx_namespace : string }.

(** [leases.Lease] (creation time in seconds since the epoch) and
    [leases.Resource] *)
Record Lease := mkLease {
  lease_ID : string;
  lease_CreatedAt : Z;
  lease_Labels : gmap string string
}.
Record Resource := mkResource { res_ID : string; res_Type : string }.

(** A lease filter [labels.<key>==<value>]. *)
Record LabelFilter := mkLabelFilter { lf_key : string; lf_value : string }.

(** A container handle of the client, and [containers.Container] as far as
    it is read. *)
Record Container := mkContainer { ctr_ID : string }.
Record ContainerInfo := mkContainerInfo {
  ci_Labels : gmap string string;
  ci_SandboxID : string
}.

(** ** Calls *)

Inductive sysE : Type -> Type :=
(** the native overlay snapshotter ([snapshots.Snapshotter], [snapshots.Cleaner]) *)
| SnStat (ctx : Ctx) (key : string) : sysE (result Info)
| SnUpdate (ctx : Ctx) (info : Info) (fieldpaths : list string) : sysE (result Info)
| SnUsage (ctx : Ctx) (key : string) : sysE (result Usage)
| SnMounts (ctx : Ctx) (key : string) : sysE (result (list Mount))
| SnPrepare (ctx : Ctx) (key parent : string) (opts : list Opt) : sysE (result (list Mount))
| SnView (ctx : Ctx) (key parent : string) (opts : list Opt) : sysE (result (list Mount))
| SnCommit (ctx : Ctx) (name key : string) (opts : list Opt) : sysE (result unit)
| SnRemove (ctx : Ctx) (key : string) : sysE (result unit)
| SnWalk (ctx : Ctx) (fn : WalkFunc) (filters : list string) : sysE (result unit)
| SnClose : sysE (result unit)
| SnCleanup (ctx : Ctx) : sysE (result unit)
(** containerd's overlayfs snapshotter, reached through the client *)
| OvlStat (ns key : string) : sysE (result Info)
| OvlView (ns key parent : string) : sysE (result (list Mount))
| OvlRemove (ns key : string) : sysE (result unit)
(** containerd's leases service *)
| LeaseCreate (ns : string) (labels : gmap string string) : sysE (result Lease)
| LeaseAddResource (ns : string) (l : Lease) (r : Resource) : sysE (result unit)
| LeaseDelete (ns id : string) : sysE (result unit)
| LeaseList (ns : string) (filter : LabelFilter) : sysE (result (list Lease))
(** containerd's container store *)
| CtrContainers (ns filter : string) : sysE (result (list Container))
| CtrInfo (ns : string) (c : Container) : sysE (result ContainerInfo)
| CtrExtensions (ns : string) (c : Container) : sysE (result (gmap string string))
| ClientClose : sysE (result unit)
(** the operating system *)
| OsStat (path : string) : sysE (result unit)
| SyscallStat (path : string) : sysE (result Z)  (** the device id [st_dev] *)
| OsMkdirAll (path : string) (perm : Z) : sysE (result unit)
| OsRemoveAll (path : string) : sysE (result unit)
| OsSymlink (target path : string) : sysE (result unit)
(** Prometheus metrics, by node name *)
| PinnedInc (node : string) : sysE unit
| PinnedDec (node : string) : sysE unit
| UnpinFailuresInc (node : string) : sysE unit
| OrphanSet (node : string) (n : Z) : sysE unit
(** the mutex [dedupManager.mu] *)
| MuLock : sysE unit
| MuUnlock : sysE unit.

#[export] Instance Kind_eq_dec : EqDecision Kind.
Proof. solve_decision. Defined.
#[export] Instance errcode_eq_dec : EqDecision errcode.
Proof. solve_decision. Defined.
#[export] Instance Mount_eq_dec : EqDecision Mount.
Proof. solve_decision. Defined.
#[export] Instance Lease_eq_dec : EqDecision Lease.
Proof. solve_decision. Defined.
#[export] Instance Resource_eq_dec : EqDecision Resource.
Proof. solve_decision. Defined.
#[export] Instance Resource_countable : Countable Resource.
Proof.
  by refine (inj_countable' (fun r => (res_ID r, res_Type r)) (fun p => mkResource p.1 p.2) _);
    intros [].
Defined.

(** ** Classes of calls *)

(** Calls that change the file system under a caller-provided path. *)
Definition is_fs_write (ev : event sysE) : bool :=
  match ev with
  | Ev (OsMkdirAll _ _) _ | Ev (OsRemoveAll _) _ | Ev (OsSymlink _ _) _ => true
  | _ => false
  end.

(** Calls that change the native snapshotter's own state. *)
Definition is_sn_write (ev : event sysE) : bool :=
  match ev with
  | Ev (SnUpdate _ _ _) _ | Ev (SnPrepare _ _ _ _) _ | Ev (SnView _ _ _ _) _
  | Ev (SnCommit _ _ _ _) _ | Ev (SnRemove _ _) _ | Ev (SnCleanup _) _ => true
  | _ => false
  end.

(** Calls that change the leases. *)
Definition is_lease_write (ev : event sysE) : bool :=
  match ev with
  | Ev (LeaseCreate _ _) _ | Ev (LeaseAddResource _ _ _) _ | Ev (LeaseDelete _ _) _ => true
  | _ => false
  end.
