(* ===== verification/Laws.v ===== *)
(** * What the daemon relies on

    The services behind [sysE] are arbitrary handlers; each class below states
    the documented behaviour of one of them over a view of the handler's world.
    The lemmas lift a law from one call to whole programs. *)

From S2P Require Import Prelude System.

(** ** Leases

    [lv w] is the content of the leases service, by namespace and id. *)
Abbreviation leases_view := (gmap (string * string) (gmap string string)).

Definition is_create_ok (ev : event sysE) : bool :=
  match ev with Ev (LeaseCreate _ _) (Ok _) => true | _ => false end.
Definition is_add_err (ev : event sysE) : bool :=
  match ev with Ev (LeaseAddResource _ _ _) (Err _) => true | _ => false end.
Definition is_delete_ok (ev : event sysE) : bool :=
  match ev with Ev (LeaseDelete _ _) (Ok _) => true | _ => false end.
Definition is_inc (ev : event sysE) : bool :=
  match ev with Ev (PinnedInc _) _ => true | _ => false end.
Definition is_dec (ev : event sysE) : bool :=
  match ev with Ev (PinnedDec _) _ => true | _ => false end.

(** Calls that cannot change which leases there are. *)
Definition keeps_leases {X} (e : sysE X) : bool :=
  match e with LeaseCreate _ _ | LeaseDelete _ _ => false | _ => true end.

Class LeaseLaws {W} (h : handler sysE W) (lv : W -> leases_view) : Prop := {
  lease_create : forall ns labels w,
    match h _ (LeaseCreate ns labels) w with
    | (Ok l, w') =>
        lv w !! (ns, lease_ID l) = None /\ lease_Labels l = labels /\
        lv w' = <[(ns, lease_ID l) := labels]> (lv w)
    | (Err _, w') => lv w' = lv w
    end;
  lease_delete : forall ns id w,
    match h _ (LeaseDelete ns id) w with
    | (Ok _, w') => is_Some (lv w !! (ns, id)) /\ lv w' = delete (ns, id) (lv w)
    | (Err _, w') => lv w' = lv w
    end;
  lease_list : forall ns f w ls,
    fst (h _ (LeaseList ns f) w) = Ok ls ->
    NoDup (lease_ID <$> ls) /\
    forall l, l ∈ ls ->
      lv w !! (ns, lease_ID l) = Some (lease_Labels l) /\
      lease_Labels l !! lf_key f = Some (lf_value f);
  lease_list_complete : forall ns f w ls id labels,
    fst (h _ (LeaseList ns f) w) = Ok ls ->
    lv w !! (ns, id) = Some labels -> labels !! lf_key f = Some (lf_value f) ->
    exists l, l ∈ ls /\ lease_ID l = id;
  lease_keep : forall X (e : sysE X) w,
    keeps_leases e = true -> lv (snd (h _ e w)) = lv w
}.

(** ** The local snapshotter's [Stat]

    [sv w] is the set of its snapshots.  [Stat] changes nothing, and a
    snapshot it describes exists.  [stat_reliable] holds of a snapshotter
    whose [Stat] fails only for a missing snapshot. *)
Class StatLaws {W} (h : handler sysE W) (sv : W -> gset string) : Prop := {
  stat_pure : forall ctx key w, sv (snd (h _ (SnStat ctx key) w)) = sv w;
  stat_ok : forall ctx key w i, fst (h _ (SnStat ctx key) w) = Ok i -> key ∈ sv w;
  lease_calls_keep_snapshots : forall X (e : sysE X) w,
    keeps_leases e = false -> sv (snd (h _ e w)) = sv w;
  list_keeps_snapshots : forall ns f w, sv (snd (h _ (LeaseList ns f) w)) = sv w;
  metrics_keep_snapshots : forall node w,
    sv (snd (h _ (PinnedDec node) w)) = sv w /\
    sv (snd (h _ (PinnedInc node) w)) = sv w /\
    sv (snd (h _ (UnpinFailuresInc node) w)) = sv w
}.

Definition stat_reliable {W} (h : handler sysE W) (sv : W -> gset string) : Prop :=
  forall ctx key w e, fst (h _ (SnStat ctx key) w) = Err e -> key ∉ sv w.

(** ** The local snapshotter's writes

    Preparing a snapshot adds its key, committing renames it, removing deletes
    it; a failed call changes nothing, and no other call does. *)
Definition keeps_snaps {X} (e : sysE X) : bool :=
  match e with
  | SnPrepare _ _ _ _ | SnView _ _ _ _ | SnCommit _ _ _ _ | SnRemove _ _ => false
  | _ => true
  end.

Class SnapLaws {W} (h : handler sysE W) (sv : W -> gset string) : Prop := {
  snap_prepare : forall ctx key parent opts w,
    let (r, w') := h _ (SnPrepare ctx key parent opts) w in
    sv w' = if is_ok r then {[key]} ∪ sv w else sv w;
  snap_view : forall ctx key parent opts w,
    let (r, w') := h _ (SnView ctx key parent opts) w in
    sv w' = if is_ok r then {[key]} ∪ sv w else sv w;
  snap_commit : forall ctx name key opts w,
    let (r, w') := h _ (SnCommit ctx name key opts) w in
    sv w' = if is_ok r then {[name]} ∪ sv w ∖ {[key]} else sv w;
  snap_remove : forall ctx key w,
    let (r, w') := h _ (SnRemove ctx key) w in
    sv w' = if is_ok r then sv w ∖ {[key]} else sv w;
  snap_keep : forall X (e : sysE X) w, keeps_snaps e = true -> sv (snd (h _ e w)) = sv w
}.

(** ** Lease ids

    [issued w] are the ids that were ever given to a lease: an id is not given
    away twice. *)
Class IssueLaws {W} (h : handler sysE W) (lv : W -> leases_view)
    (issued : W -> gset (string * string)) : Prop := {
  issue_fresh : forall ns labels w l w',
    h _ (LeaseCreate ns labels) w = (Ok l, w') -> (ns, lease_ID l) ∉ issued w;
  issue_lease : forall w k labels, lv w !! k = Some labels -> k ∈ issued w;
  issue_mono : forall X (e : sysE X) w, issued w ⊆ issued (snd (h _ e w))
}.

(** ** What a lease holds

    [rv w k] are the resources of the lease [k]: what was added to it, until
    the lease is deleted.  Containerd does not collect them. *)
Definition deletes (k : string * string) (ev : event sysE) : bool :=
  match ev with Ev (LeaseDelete ns id) (Ok _) => bool_decide ((ns, id) = k) | _ => false end.

Class HoldLaws {W} (h : handler sysE W) (rv : W -> string * string -> gset Resource) : Prop := {
  hold_add : forall ns l r w u w',
    h _ (LeaseAddResource ns l r) w = (Ok u, w') -> r ∈ rv w' (ns, lease_ID l);
  hold_keep : forall X (e : sysE X) w k,
    deletes k (Ev e (fst (h X e w))) = false -> rv w k ⊆ rv (snd (h X e w)) k
}.

(** ** Views of overlayfs

    [vv w] are the views of overlayfs there are, by namespace and key.  A key is
    taken until its view is removed: making a second one fails, with an error
    that is not of the not-found class. *)
Definition keeps_views {X} (e : sysE X) : bool :=
  match e with OvlView _ _ _ | OvlRemove _ _ => false | _ => true end.

Class ViewLaws {W} (h : handler sysE W) (vv : W -> gset (string * string)) : Prop := {
  view_taken : forall ns key parent w, (ns, key) ∈ vv w ->
    exists e, fst (h _ (OvlView ns key parent) w) = Err e /\ is_not_found e = false;
  view_made : forall ns key parent w,
    let (r, w') := h _ (OvlView ns key parent) w in
    vv w ⊆ vv w' /\ (is_ok r = true -> (ns, key) ∈ vv w');
  view_removed : forall ns key w, vv w ∖ {[(ns, key)]} ⊆ vv (snd (h _ (OvlRemove ns key) w));
  view_keep : forall X (e : sysE X) w, keeps_views e = true -> vv (snd (h X e w)) = vv w
}.

(** ** Lifting *)

Section Lifting.
Context {W} (h : handler sysE W) (lv : W -> leases_view) `{!LeaseLaws h lv}.

(** One call changes the number of leases as its event says. *)
Lemma call_size X (e : sysE X) w :
  let (x, w') := h X e w in
  size (lv w') + (if is_delete_ok (Ev e x) then 1 else 0) =
  size (lv w) + (if is_create_ok (Ev e x) then 1 else 0).
Proof.
  destruct (h X e w) as [x w'] eqn:He.
  assert (Hkeep : keeps_leases e = true -> lv w' = lv w).
  { intros Hk. pose proof (lease_keep X e w Hk) as H. by rewrite He in H. }
  destruct e; simpl in *; try (by rewrite Hkeep).
  - pose proof (lease_create ns labels w) as H. rewrite He in H. destruct x as [l|].
    + destruct H as (Hnone & _ & ->). rewrite map_size_insert_None by done. lia.
    + by rewrite H.
  - pose proof (lease_delete ns id w) as H. rewrite He in H. destruct x as [u|].
    + destruct H as (Hv & ->). rewrite map_size_delete_Some by done.
      destruct Hv as [v Hv]. assert (size (lv w) <> 0) by (intros H0%map_size_empty_inv; rewrite H0 in Hv;
                                    by rewrite lookup_empty in Hv).
      lia.
    + by rewrite H.
Qed.

(** A run changes it by the creations and deletions on its trace. *)
Lemma run_size {A} (p : prog sysE A) w :
  size (lv (snd (run h p w))) + count is_delete_ok (trace h p w) =
  size (lv w) + count is_create_ok (trace h p w).
Proof.
  revert w. induction p as [a|X e k IH]; intros w; cbn [run trace]; [done|].
  pose proof (call_size X e w) as Hc. destruct (h X e w) as [x w'].
  specialize (IH x w'). cbn [count]. lia.
Qed.

(** One call that deletes nothing keeps every lease there is. *)
Lemma call_keeps_lease X (e : sysE X) w k v :
  let (x, w') := h X e w in
  is_delete_ok (Ev e x) = false -> lv w !! k = Some v -> lv w' !! k = Some v.
Proof.
  destruct (h X e w) as [x w'] eqn:He. intros Hd Hv.
  assert (Hkeep : keeps_leases e = true -> lv w' = lv w).
  { intros Hk. pose proof (lease_keep X e w Hk) as H. by rewrite He in H. }
  destruct e; try (by rewrite Hkeep); clear Hkeep.
  - pose proof (lease_create ns labels w) as H. rewrite He in H. destruct x as [l|].
    + destruct H as (Hnone & _ & ->). by rewrite lookup_insert_ne by congruence.
    + by rewrite H.
  - pose proof (lease_delete ns id w) as H. rewrite He in H. destruct x as [u|]; [done|].
    by rewrite H.
Qed.

Lemma run_keeps_lease {A} (p : prog sysE A) w k v :
  count is_delete_ok (trace h p w) = 0 -> lv w !! k = Some v ->
  lv (snd (run h p w)) !! k = Some v.
Proof.
  revert w. induction p as [a|X e c IH]; intros w; cbn [run trace]; [done|].
  pose proof (call_keeps_lease X e w k v) as Hc. destruct (h X e w) as [x w'].
  cbn [count]. intros Hn Hv. destruct (is_delete_ok (Ev e x)); [lia|]. eauto.
Qed.
End Lifting.
