(* ===== verification/Mount.v ===== *)
(** * Overlay mount options ([pkg/containerd/snapshotter/mount.go], and the
    mount readers of [dedup.go])

    [ensureUpperdirReady] checks and prepares the caller's directory,
    [replaceUpperdirOptions] redirects the writable layer of a mount to it,
    [layerPathFromMounts] and [upperdirFromMounts] read a layer's directory
    back out of mount options. *)

From S2P Require Import Prelude GoStrings System.
Local Open Scope go_scope.

(** ** Preparing the directory *)

(** The [parent] that [ensureUpperdirReady] compares device ids with. *)
Definition parentDir (upperdirRoot : string) : string :=
  let parent := TrimRight upperdirRoot "/" in
  let parent :=
    match LastIndex parent "/" with
    | Some idx => slice_to parent idx
    | None => parent
    end in
  if decide (parent = "") then "/" else parent.

(** [for _, sub := range []string{"upper", "work"}] *)
Fixpoint mkSubdirs (upperdirRoot : string) (subs : list string) : prog sysE (result unit) :=
  match subs with
  | [] => Ret (Ok tt)
  | sub :: subs' =>
      let dir := upperdirRoot +:+ "/" +:+ sub in
      try! _ := call (OsMkdirAll dir 493) (* 0o755 *)
      catch err => Ret (Err (Wrapf "creating %s dir %q: %w" [sub; dir] err)) in
      mkSubdirs upperdirRoot subs'
  end.

Definition ensureUpperdirReady (upperdirRoot : string) : prog sysE (result unit) :=
  try! _ := call (OsStat upperdirRoot)
  catch err => Ret (Err (Wrapf "upperdir root %q not accessible: %w" [upperdirRoot] err)) in
  try! rootDev := call (SyscallStat upperdirRoot)
  catch err => Ret (Err (Wrapf "stat upperdir root %q: %w" [upperdirRoot] err)) in
  try! parentDev := call (SyscallStat (parentDir upperdirRoot))
  catch err => Ret (Err (Wrapf "stat parent of upperdir root %q: %w" [upperdirRoot] err)) in
  if decide (rootDev = parentDev)
  then Ret (Err (Errorf "upperdir root %q is not a mountpoint (CSI volume not yet mounted)"
                        [upperdirRoot]))
  else mkSubdirs upperdirRoot ["upper"; "work"].

(** ** Redirecting the writable layer *)

(** The [switch] of the option loop. *)
Definition replaceOption (upperdirRoot opt : string) : string :=
  if HasPrefix opt "upperdir=" then "upperdir=" +:+ upperdirRoot +:+ "/upper"
  else if HasPrefix opt "workdir=" then "workdir=" +:+ upperdirRoot +:+ "/work"
  else opt.

Definition replaceUpperdirOptions (mounts : list Mount) (upperdirRoot : string) : list Mount :=
  match mounts with
  | [] => mounts
  | m :: rest =>
      if decide (mnt_Type m <> "overlay") then mounts
      else if negb (existsb (fun opt => HasPrefix opt "upperdir=") (mnt_Options m)) then mounts
      else mkMount (mnt_Type m) (mnt_Source m) (mnt_Target m)
                   (map (replaceOption upperdirRoot) (mnt_Options m)) :: rest
  end.

(** ** Reading a layer's directory back *)

(** The first option with the prefix, cut. *)
Fixpoint findOption (opts : list string) (prefix : string) : option string :=
  match opts with
  | [] => None
  | opt :: opts' =>
      match CutPrefix opt prefix with
      | Some after => Some after
      | None => findOption opts' prefix
      end
  end.

(** [layerPathFromMounts] on the slice [m :: rest]; its caller has checked that
    the slice is not empty. *)
Definition layerPathFromMounts (m : Mount) (rest : list Mount) : result string :=
  if decide (mnt_Type m = "overlay") then
    match findOption (mnt_Options m) "lowerdir=" with
    | Some after =>
        match Cut after ":" with
        | Some (first, _) => Ok first
        | None => Ok after
        end
    | None => Err (Errorf "overlay mount missing lowerdir option: %v" [ArgStrs (mnt_Options m)])
    end
  else if decide (mnt_Type m = "bind") then Ok (mnt_Source m)
  else Err (Errorf "unexpected mount type %q for probe view" [mnt_Type m]).

Definition upperdirFromMounts (mounts : list Mount) : result string :=
  match mounts with
  | [] => Err (Errorf "no mounts" [])
  | m :: _ =>
      match findOption (mnt_Options m) "upperdir=" with
      | Some after => Ok after
      | None => Err (Errorf "no upperdir option in mounts: %v" [ArgStrs (mnt_Options m)])
      end
  end.

(** ** The directory: what success and failure mean *)

(** The directory is accepted exactly when it exists, its device id differs
    from its parent's (it is a mountpoint) and [upper] and [work] could be
    created in it; these five calls are then all that was done. *)
Theorem ensureUpperdirReady_ok_iff root tr :
  exec (ensureUpperdirReady root) tr (Ok tt) <->
  exists rootDev parentDev,
    rootDev <> parentDev /\
    tr = [Ev (OsStat root) (Ok tt);
          Ev (SyscallStat root) (Ok rootDev);
          Ev (SyscallStat (parentDir root)) (Ok parentDev);
          Ev (OsMkdirAll (root +:+ "/upper") 493) (Ok tt);
          Ev (OsMkdirAll (root +:+ "/work") 493) (Ok tt)].
Proof.
  split.
  - intros H. unfold ensureUpperdirReady, mkSubdirs in H. exec_inv H.
    repeat match goal with u : unit |- _ => destruct u end. eauto.
  - intros (d1 & d2 & Hne & ->). unfold ensureUpperdirReady, mkSubdirs. exec_run.
    destruct (decide (d1 = d2)); [done|]. by exec_run.
Qed.

(** For a path [dir/base] (with any number of trailing slashes) the parent
    whose device id [ensureUpperdirReady] compares with is [dir], or [/] for a
    path at the root. *)
Theorem parentDir_spec dir base slashes :
  base <> "" -> "/"%char ∉ bytes base -> Forall (eq "/"%char) (bytes slashes) ->
  parentDir (dir +:+ "/" +:+ base +:+ slashes) = if decide (dir = "") then "/" else dir.
Proof.
  intros Hne Hb Hs. unfold parentDir.
  destruct (string_snoc base Hne) as (base' & c & ->).
  replace (dir +:+ "/" +:+ (base' +:+ byte c) +:+ slashes)
    with ((dir +:+ "/" +:+ base') +:+ byte c +:+ slashes)
    by (by rewrite !app_assoc_str).
  rewrite TrimRight_app; [|intros ->; rewrite bytes_app in Hb; simpl in Hb; set_solver|done].
  rewrite !app_assoc_str. change "/" with (byte "/").
  by rewrite LastIndex_app, slice_to_app.
Qed.

Lemma parentDir_spec_witness :
  "vol" <> "" /\ parentDir ("/mnt" +:+ "/" +:+ "vol" +:+ "//") = "/mnt".
Proof.
  split; [done|]. apply (parentDir_spec "/mnt" "vol" "//"); [done| |by repeat constructor].
  apply (bool_decide_unpack _). vm_compute. exact I.
Defined.

(** C7 No directory is created before the root has been seen to be a mountpoint:
    whatever the operating system answers and however the call ends, every
    write comes after the two device ids were read and differ, and creates
    [root/upper] or [root/work]. *)
Theorem ensureUpperdirReady_writes_only_on_mountpoint root tr r :
  exec (ensureUpperdirReady root) tr r ->
  forall before ev after, tr = before ++ ev :: after -> is_fs_write ev = true ->
  exists rootDev parentDev,
    rootDev <> parentDev /\
    Ev (SyscallStat root) (Ok rootDev) ∈ before /\
    Ev (SyscallStat (parentDir root)) (Ok parentDev) ∈ before /\
    (exists sub y, (sub = "/upper" \/ sub = "/work") /\
                   ev = Ev (OsMkdirAll (root +:+ sub) 493) y).
Proof.
  intros H before ev after Htr Hw. unfold ensureUpperdirReady, mkSubdirs in H.
  exec_inv H; repeat (destruct before as [|? before]; simpl in Htr;
                      [|first [discriminate Htr | injection Htr as <- Htr]]);
    try discriminate Htr; injection Htr as <- Htr; try discriminate Hw;
    (eexists _, _; split_and!; [eassumption|in_trace|in_trace|eauto 10]).
Qed.

Lemma ensureUpperdirReady_writes_only_on_mountpoint_witness :
  let tr := [Ev (OsStat "/mnt/vol") (Ok tt); Ev (SyscallStat "/mnt/vol") (Ok 7%Z);
             Ev (SyscallStat "/mnt") (Ok 1%Z);
             Ev (OsMkdirAll "/mnt/vol/upper" 493) (Err (Ext UnknownCode "no space"))] in
  exists r, exec (ensureUpperdirReady "/mnt/vol") tr (Err r) /\
    exists rootDev parentDev, rootDev <> parentDev /\
      Ev (SyscallStat "/mnt/vol") (Ok rootDev) ∈ take 3 tr /\
      Ev (SyscallStat (parentDir "/mnt/vol")) (Ok parentDev) ∈ take 3 tr /\
      (exists sub y, (sub = "/upper" \/ sub = "/work") /\
         Ev (OsMkdirAll "/mnt/vol/upper" 493) (Err (Ext UnknownCode "no space")) =
         Ev (OsMkdirAll ("/mnt/vol" +:+ sub) 493) y).
Proof.
  intros tr. eexists.
  assert (Hex : exec (ensureUpperdirReady "/mnt/vol") tr
    (Err (Wrapf "creating %s dir %q: %w" ["upper"; "/mnt/vol/upper"]
           (Ext UnknownCode "no space")))) by exec_compute.
  split; [exact Hex|].
  exact (ensureUpperdirReady_writes_only_on_mountpoint _ _ _ Hex (take 3 tr) _ [] eq_refl eq_refl).
Defined.

(** ** The options *)

Lemma replaceOption_upper root opt r :
  opt = "upperdir=" +:+ r -> replaceOption root opt = "upperdir=" +:+ root +:+ "/upper".
Proof. intros ->. unfold replaceOption. by rewrite HasPrefix_app. Qed.

Lemma replaceOption_work root opt r :
  opt = "workdir=" +:+ r -> replaceOption root opt = "workdir=" +:+ root +:+ "/work".
Proof. intros ->. done. Qed.

Lemma replaceOption_other root opt :
  HasPrefix opt "upperdir=" = false -> HasPrefix opt "workdir=" = false ->
  replaceOption root opt = opt.
Proof. unfold replaceOption. by intros -> ->. Qed.

(** Case analysis on what kind of option [opt] is. *)
Lemma option_cases opt :
  (exists r, opt = "upperdir=" +:+ r) \/ (exists r, opt = "workdir=" +:+ r) \/
  (HasPrefix opt "upperdir=" = false /\ HasPrefix opt "workdir=" = false).
Proof.
  destruct (HasPrefix opt "upperdir=") eqn:Hu; [by left; apply HasPrefix_spec|].
  destruct (HasPrefix opt "workdir=") eqn:Hw; [by right; left; apply HasPrefix_spec|].
  auto.
Qed.

Lemma replaceOption_idemp r1 r2 opt :
  replaceOption r2 (replaceOption r1 opt) = replaceOption r2 opt.
Proof.
  destruct (option_cases opt) as [[r ->]|[[r ->]|[Hu Hw]]]; [done|done|].
  by rewrite (replaceOption_other r1).
Qed.

Lemma replaceOption_upperdir_kept root opt :
  HasPrefix (replaceOption root opt) "upperdir=" = HasPrefix opt "upperdir=".
Proof.
  destruct (option_cases opt) as [[r ->]|[[r ->]|[Hu Hw]]]; [done|done|].
  by rewrite replaceOption_other.
Qed.

Lemma findOption_existsb opts p :
  existsb (fun opt => HasPrefix opt p) opts = true <-> is_Some (findOption opts p).
Proof.
  induction opts as [|o opts IH]; simpl.
  - split; [done|by intros []].
  - unfold HasPrefix at 1. destruct (CutPrefix o p); [|exact IH].
    split; [intros _; eauto|done].
Qed.

(** An option of one kind has none of the other prefixes. *)
Lemma cut_upper r :
  CutPrefix ("upperdir=" +:+ r) "workdir=" = None /\
  CutPrefix ("upperdir=" +:+ r) "lowerdir=" = None.
Proof. done. Qed.

Lemma cut_work r :
  CutPrefix ("workdir=" +:+ r) "upperdir=" = None /\
  CutPrefix ("workdir=" +:+ r) "lowerdir=" = None.
Proof. done. Qed.

(** One step of the three lemmas below: split on the kind of the option. *)
Ltac replaced_step o root :=
  destruct (option_cases o) as [[r ->]|[[r ->]|[Hu Hw]]];
  [ rewrite (replaceOption_upper root _ r eq_refl);
    rewrite ?CutPrefix_app, ?(proj1 (cut_upper _)), ?(proj2 (cut_upper _))
  | rewrite (replaceOption_work root _ r eq_refl);
    rewrite ?CutPrefix_app, ?(proj1 (cut_work _)), ?(proj2 (cut_work _))
  | rewrite (replaceOption_other root) by done ].

Lemma findOption_replaced_upper root opts :
  is_Some (findOption opts "upperdir=") ->
  findOption (map (replaceOption root) opts) "upperdir=" = Some (root +:+ "/upper").
Proof.
  induction opts as [|o opts IH]; simpl; [by intros []|].
  replaced_step o root; [done|exact IH|].
  unfold HasPrefix in Hu. destruct (CutPrefix o "upperdir="); [done|exact IH].
Qed.

Lemma findOption_replaced_work root opts :
  is_Some (findOption opts "workdir=") ->
  findOption (map (replaceOption root) opts) "workdir=" = Some (root +:+ "/work").
Proof.
  induction opts as [|o opts IH]; simpl; [by intros []|].
  replaced_step o root; [exact IH|done|].
  unfold HasPrefix in Hw. destruct (CutPrefix o "workdir="); [done|exact IH].
Qed.

Lemma findOption_replaced_lower root opts :
  findOption (map (replaceOption root) opts) "lowerdir=" = findOption opts "lowerdir=".
Proof.
  induction opts as [|o opts IH]; simpl; [done|].
  replaced_step o root; [exact IH|exact IH|]. by rewrite IH.
Qed.

(** The two kinds of option that [replaceUpperdirOptions] may change. *)
Definition is_writable_option (opt : string) : bool :=
  HasPrefix opt "upperdir=" || HasPrefix opt "workdir=".

Lemma filter_replaced root opts :
  List.filter (fun o => negb (is_writable_option o)) (map (replaceOption root) opts) =
  List.filter (fun o => negb (is_writable_option o)) opts.
Proof.
  induction opts as [|o opts IH]; simpl; [done|].
  destruct (option_cases o) as [[r ->]|[[r ->]|[Hu Hw]]]; [exact IH|exact IH|].
  rewrite replaceOption_other by done. by rewrite IH.
Qed.

Lemma replaceUpperdirOptions_overlay m rest root :
  mnt_Type m = "overlay" -> is_Some (findOption (mnt_Options m) "upperdir=") ->
  replaceUpperdirOptions (m :: rest) root =
  mkMount (mnt_Type m) (mnt_Source m) (mnt_Target m)
          (map (replaceOption root) (mnt_Options m)) :: rest.
Proof.
  intros Ht Hu. unfold replaceUpperdirOptions.
  rewrite decide_False by (intros H; by apply H).
  apply findOption_existsb in Hu. by rewrite Hu.
Qed.

(** C24 On a writable overlay mount the redirection sends [upperdir=] and
    [workdir=] to [root/upper] and [root/work] and changes nothing else: the
    remaining options keep their text and order, so the layer stack
    ([lowerdir=]) is the same, and the other fields and mounts are untouched. *)
Theorem replaceUpperdirOptions_redirects m rest root :
  mnt_Type m = "overlay" -> is_Some (findOption (mnt_Options m) "upperdir=") ->
  exists m',
    replaceUpperdirOptions (m :: rest) root = m' :: rest /\
    upperdirFromMounts (m' :: rest) = Ok (root +:+ "/upper") /\
    (is_Some (findOption (mnt_Options m) "workdir=") ->
       findOption (mnt_Options m') "workdir=" = Some (root +:+ "/work")) /\
    (forall path, layerPathFromMounts m' rest = Ok path <->
                  layerPathFromMounts m rest = Ok path) /\
    length (mnt_Options m') = length (mnt_Options m) /\
    List.filter (fun o => negb (is_writable_option o)) (mnt_Options m') =
      List.filter (fun o => negb (is_writable_option o)) (mnt_Options m) /\
    (mnt_Type m', mnt_Source m', mnt_Target m') =
      (mnt_Type m, mnt_Source m, mnt_Target m).
Proof.
  intros Ht Hu. rewrite replaceUpperdirOptions_overlay by done.
  eexists. split; [reflexivity|]. unfold upperdirFromMounts, layerPathFromMounts; simpl.
  rewrite findOption_replaced_upper, findOption_replaced_lower, filter_replaced, length_map, Ht
    by done.
  split_and!; auto using findOption_replaced_work.
  intros path. by destruct (findOption (mnt_Options m) "lowerdir=").
Qed.

Lemma replaceUpperdirOptions_redirects_witness :
  let m := mkMount "overlay" "overlay" "" ["index=off"; "workdir=/s/1/work"; "upperdir=/s/1/fs";
                                           "lowerdir=/s/2/fs:/s/3/fs"] in
  is_Some (findOption (mnt_Options m) "upperdir=") /\
  exists m', replaceUpperdirOptions [m] "/vol" = [m'] /\
    upperdirFromMounts [m'] = Ok "/vol/upper" /\
    findOption (mnt_Options m') "workdir=" = Some "/vol/work" /\
    layerPathFromMounts m' [] = Ok "/s/2/fs".
Proof.
  intros m. split; [by eexists|].
  destruct (replaceUpperdirOptions_redirects m [] "/vol" eq_refl) as (m' & H1 & H2 & H3 & H4 & _);
    [by eexists|].
  exists m'. split_and!; [exact H1|exact H2|apply H3; by eexists|by apply H4].
Defined.

(** Redirecting twice is redirecting to the last directory: a second
    redirection leaves no trace of the first. *)
Theorem replaceUpperdirOptions_absorbs ms r1 r2 :
  replaceUpperdirOptions (replaceUpperdirOptions ms r1) r2 = replaceUpperdirOptions ms r2.
Proof.
  destruct ms as [|m rest]; [done|]. simpl.
  destruct (decide (mnt_Type m <> "overlay")) as [Ht|Ht]; simpl.
  - by rewrite decide_True.
  - destruct (existsb _ (mnt_Options m)) eqn:He; simpl.
    + rewrite decide_False by done.
      assert (existsb (fun o => HasPrefix o "upperdir=")
                (map (replaceOption r1) (mnt_Options m)) = true) as ->.
      { apply findOption_existsb. apply findOption_existsb in He.
        rewrite findOption_replaced_upper by done. eauto. }
      simpl. rewrite map_map. do 2 f_equal. apply map_ext, replaceOption_idemp.
    + rewrite decide_False by done. by rewrite He.
Qed.

(** ** Where the kernel writes *)

(** The directories that an option gives to the kernel to write in. *)
Definition writable_dir (opt : string) : option string :=
  match CutPrefix opt "upperdir=" with
  | Some dir => Some dir
  | None => CutPrefix opt "workdir="
  end.

Definition writable_dirs (ms : list Mount) : list string :=
  match ms with
  | [] => []
  | m :: _ => omap writable_dir (mnt_Options m)
  end.

(** What a redirected mount writes to. *)
Lemma writable_dir_replaced root opt :
  writable_dir (replaceOption root opt) =
  if HasPrefix opt "upperdir=" then Some (root +:+ "/upper")
  else if HasPrefix opt "workdir=" then Some (root +:+ "/work") else None.
Proof.
  destruct (option_cases opt) as [[r ->]|[[r ->]|[Hu Hw]]];
    [by rewrite (replaceOption_upper _ _ r)|by rewrite (replaceOption_work _ _ r)|].
  rewrite replaceOption_other, Hu, Hw by done. unfold writable_dir, HasPrefix in *.
  by destruct (CutPrefix opt "upperdir="), (CutPrefix opt "workdir=").
Qed.

(** The native mount of a writable snapshot. *)
Definition writable (ms : list Mount) : Prop :=
  match ms with
  | [] => False
  | m :: _ => mnt_Type m = "overlay" /\ is_Some (findOption (mnt_Options m) "upperdir=")
  end.

Lemma writable_redirected ms root :
  writable ms ->
  root +:+ "/upper" ∈ writable_dirs (replaceUpperdirOptions ms root) /\
  forall d, d ∈ writable_dirs (replaceUpperdirOptions ms root) ->
    d = root +:+ "/upper" \/ d = root +:+ "/work".
Proof.
  destruct ms as [|m rest]; [done|]. intros [Ht Hu].
  rewrite replaceUpperdirOptions_overlay by done. cbn [writable_dirs mnt_Options].
  split; [|intros d]; rewrite list_elem_of_omap.
  - apply findOption_existsb, existsb_exists in Hu as (opt & Hin & Hopt).
    exists (replaceOption root opt). rewrite writable_dir_replaced, Hopt. split; [|done].
    by apply list_elem_of_In, in_map.
  - intros (o & (opt & <- & _)%list_elem_of_In%in_map_iff & Hd). rewrite writable_dir_replaced in Hd.
    repeat case_match; naive_solver.
Qed.

(** Any other mount is left alone. *)
Lemma not_writable_unchanged ms root : ~ writable ms -> replaceUpperdirOptions ms root = ms.
Proof.
  destruct ms as [|m rest]; [done|]. cbn [writable]. intros Hw. simpl.
  case_decide as Ht; [done|]. destruct (existsb _ (mnt_Options m)) eqn:He; [|done].
  destruct Hw. split; [by destruct (decide (mnt_Type m = "overlay"))|by apply findOption_existsb].
Qed.
