(* ===== verification/Template.v ===== *)
(** * Templates ([text/template])

    Both the snapshotter and the webhook render Go templates that their users
    write.  [TemplateEngine] is the interface they use; an engine is free on
    templates outside the fragment below.  The fragment - literal text and
    actions [{{ .Field }}] or [{{ .Field | func }}], the ones the
    documentation and the defaults use - is given its [text/template]
    semantics here, [TemplateLaws] says that an engine has that semantics on
    the fragment, and [fragEngine] is an engine that does. *)

From S2P Require Import Prelude GoStrings.

(** ** The interface *)

(** A [template.FuncMap] of one-argument string functions. *)
Definition FuncMap := list (string * (string -> string)).

(** Template data: the resolver passes a [map[string]string], the webhook a
    struct, and [text/template] treats a missing name differently. *)
Inductive tdata :=
| DMap (m : gmap string string)
| DStruct (fields : list (string * string)).

(** [template.New(name).Funcs(fm).Parse(text)] and [tmpl.Execute(&buf, data)]. *)
Class TemplateEngine := {
  template : Type;
  template_Parse : FuncMap -> string -> result template;
  template_Execute : template -> tdata -> result string
}.

(** ** The fragment: syntax *)

Inductive node :=
| NText (s : string)
| NField (f : string) (funcs : list string).

(** Parsing succeeds, fails with a syntax error, or leaves the fragment. *)
Inductive parsed :=
| POk (ns : list node)
| PSyntax
| POutside.

Definition is_letter (c : ascii) : bool :=
  let n := nat_of_ascii c in
  (Nat.leb 65 n && Nat.leb n 90) || (Nat.leb 97 n && Nat.leb n 122) || Nat.eqb n 95.
Definition is_digit (c : ascii) : bool :=
  let n := nat_of_ascii c in Nat.leb 48 n && Nat.leb n 57.

(** An ASCII identifier. *)
Definition is_ident (s : string) : bool :=
  match s with
  | "" => false
  | String c s' => is_letter c && forallb (fun c => is_letter c || is_digit c) (bytes s')
  end.

Fixpoint TrimLeftSpace (s : string) : string :=
  match s with
  | String c s' => if decide (c = " "%char) then TrimLeftSpace s' else s
  | "" => ""
  end.
Definition TrimSpaces (s : string) : string := TrimRight (TrimLeftSpace s) " ".

(** The function names after the first [|] of an action. *)
Fixpoint parse_pipe (funcs : list string) (segs : list string) : option (list string) :=
  match segs with
  | [] => Some []
  | seg :: segs' =>
      let name := TrimSpaces seg in
      if bool_decide (name ∈ funcs)
      then match parse_pipe funcs segs' with
           | Some names => Some (name :: names)
           | None => None
           end
      else None
  end.

(** The text between the delimiters of an action. *)
Definition parse_action (funcs : list string) (body : string) : option node :=
  match SplitN body "|" (S (String.length body)) with
  | [] => None
  | seg :: segs =>
      match CutPrefix (TrimSpaces seg) "." with
      | Some f =>
          if is_ident f
          then match parse_pipe funcs segs with
               | Some names => Some (NField f names)
               | None => None
               end
          else None
      | None => None
      end
  end.

Definition text_node (s : string) (ns : list node) : list node :=
  if decide (s = "") then ns else NText s :: ns.

(** [fuel] bounds the number of actions; [frag_parse] gives more than there
    can be. *)
Fixpoint parse_nodes (funcs : list string) (fuel : nat) (s : string) : parsed :=
  match fuel with
  | 0 => POutside
  | S fuel' =>
      match Cut s "{{" with
      | None => POk (text_node s [])
      | Some (txt, rest) =>
          match Cut rest "}}" with
          | None => PSyntax (* unclosed action *)
          | Some (body, rest') =>
              match parse_action funcs body with
              | None => POutside
              | Some n =>
                  match parse_nodes funcs fuel' rest' with
                  | POk ns => POk (text_node txt (n :: ns))
                  | r => r
                  end
              end
          end
      end
  end.

Definition frag_parse (funcs : list string) (text : string) : parsed :=
  parse_nodes funcs (S (String.length text)) text.

(** ** The fragment: semantics *)

Fixpoint assoc {A} (k : string) (l : list (string * A)) : option A :=
  match l with
  | [] => None
  | (k', v) :: l' => if decide (k = k') then Some v else assoc k l'
  end.

Lemma assoc_elem {A} f (l : list (string * A)) v : assoc f l = Some v -> (f, v) ∈ l.
Proof.
  induction l as [|[k x] l IH]; simpl; [done|]. case_decide as H.
  - intros [= ->]. subst. set_solver.
  - intros Hl. set_solver.
Qed.

Lemma assoc_elem_of {A} k v (m : list (string * A)) :
  NoDup (m.*1) -> (k, v) ∈ m <-> assoc k m = Some v.
Proof.
  intros Hnd. split; [|apply assoc_elem].
  induction m as [|[k' v'] m IH]; [by intros ?%not_elem_of_nil|]. simpl in *.
  apply NoDup_cons in Hnd as [Hni Hnd]. intros [[= -> ->]|Hin]%elem_of_cons;
    [by rewrite decide_True|].
  rewrite decide_False; [by apply IH|]. intros ->. apply Hni, list_elem_of_fmap. by exists (k', v).
Qed.

Lemma assoc_map_to_list {A} (m : gmap string A) range k :
  range ≡ₚ map_to_list m -> assoc k range = m !! k.
Proof.
  intros Hp. assert (Hnd : NoDup (range.*1)) by (rewrite Hp; apply NoDup_fst_map_to_list).
  apply option_eq. intros v. by rewrite <-(assoc_elem_of _ _ _ Hnd), Hp, elem_of_map_to_list.
Qed.

Lemma assoc_app {A} f (l1 l2 : list (string * A)) :
  assoc f (l1 ++ l2) = match assoc f l1 with Some v => Some v | None => assoc f l2 end.
Proof. induction l1 as [|[k x] l1 IH]; simpl; [done|]. by case_decide. Qed.

Lemma assoc_map {A} f (g : string -> A) l :
  assoc f (map (fun k => (k, g k)) l) = if decide (f ∈ l) then Some (g f) else None.
Proof.
  induction l as [|k l IH]; simpl; [done|]. rewrite IH.
  repeat case_decide; subst; set_solver.
Qed.

(** [.f]: a name missing from a map is "no value", one missing from a struct
    is an execution error. *)
Definition eval_field (d : tdata) (f : string) : result (option string) :=
  match d with
  | DMap m => Ok (m !! f)
  | DStruct fields =>
      match assoc f fields with
      | Some v => Ok (Some v)
      | None => Err (Errorf "can't evaluate field %s" [f])
      end
  end.

Fixpoint apply_funcs (fm : FuncMap) (names : list string) (v : string) : result string :=
  match names with
  | [] => Ok v
  | name :: names' =>
      match assoc name fm with
      | Some f => apply_funcs fm names' (f v)
      | None => Err (Errorf "function %q not defined" [name])
      end
  end.

Definition exec_node (fm : FuncMap) (d : tdata) (n : node) : result string :=
  match n with
  | NText s => Ok s
  | NField f names =>
      match eval_field d f with
      | Ok (Some v) => apply_funcs fm names v
      | Ok None =>
          match names with
          | [] => Ok "<no value>"
          | _ => Err (Errorf "invalid value; expected string" [])
          end
      | Err e => Err e
      end
  end.

Fixpoint frag_exec (fm : FuncMap) (ns : list node) (d : tdata) : result string :=
  match ns with
  | [] => Ok ""
  | n :: ns' =>
      match exec_node fm d n with
      | Ok s =>
          match frag_exec fm ns' d with
          | Ok s' => Ok (s +:+ s')
          | Err e => Err e
          end
      | Err e => Err e
      end
  end.

(** ** Engines *)

(** What an engine does on the fragment; nothing is said outside it. *)
Class TemplateLaws (T : TemplateEngine) : Prop := {
  engine_ok : forall fm text ns,
    frag_parse (map fst fm) text = POk ns ->
    exists t, template_Parse fm text = Ok t /\
      forall d, match frag_exec fm ns d with
                | Ok s => template_Execute t d = Ok s
                | Err _ => exists e, template_Execute t d = Err e
                end;
  engine_syntax : forall fm text,
    frag_parse (map fst fm) text = PSyntax -> exists e, template_Parse fm text = Err e
}.

(** The engine of the fragment alone: it rejects what lies outside. *)
#[export] Instance fragEngine : TemplateEngine := {
  template := FuncMap * list node;
  template_Parse fm text :=
    match frag_parse (map fst fm) text with
    | POk ns => Ok (fm, ns)
    | PSyntax => Err (Errorf "unclosed action" [])
    | POutside => Err (Errorf "template outside the fragment" [])
    end;
  template_Execute t d := frag_exec (fst t) (snd t) d
}.

#[export] Instance fragEngine_laws : TemplateLaws fragEngine.
Proof.
  split; simpl.
  - intros fm text ns ->. eexists; split; [done|]. intros d; simpl.
    destruct (frag_exec fm ns d); eauto.
  - intros fm text ->. eauto.
Qed.

(** ** Parsing what was rendered

    [clean s]: every ['{'] of [s] is followed, within [s], by another byte
    that is not ['{'], so that no action can begin inside [s] or at its end. *)
Fixpoint clean (s : string) : bool :=
  match s with
  | "" => true
  | String c s' =>
      (if decide (c = "{"%char)
       then match s' with "" => false | String d _ => bool_decide (d <> "{"%char) end
       else true) && clean s'
  end.

Definition no_brace (s : string) : bool := bool_decide ("{"%char ∉ bytes s).

(** The action text that renders to itself at the first layer. *)
Definition action_text (f : string) : string := "{{." +:+ f +:+ "}}".

Lemma no_brace_clean s : no_brace s = true -> clean s = true.
Proof.
  unfold no_brace. rewrite bool_decide_eq_true.
  induction s as [|c s IH]; simpl; [done|]. intros H.
  rewrite decide_False by set_solver. apply IH. set_solver.
Qed.

Lemma cut_brace_step c s :
  CutPrefix (String c s) "{{" =
  if decide (c = "{"%char) then CutPrefix s "{" else None.
Proof. rewrite CutPrefix_cons. by case_decide as H; case_decide; subst. Qed.

Lemma cut_brace1 s :
  CutPrefix s "{" =
  match s with String d s' => if decide (d = "{"%char) then Some s' else None | "" => None end.
Proof.
  destruct s as [|d s]; [done|]. rewrite CutPrefix_cons.
  by case_decide as H; case_decide; subst.
Qed.

(** A clean text is skipped by the search for an action. *)
Lemma Cut_clean s t :
  clean s = true ->
  Cut (s +:+ t) "{{" =
  match Cut t "{{" with Some (b, a) => Some (s +:+ b, a) | None => None end.
Proof.
  induction s as [|c s IH]; simpl_app; intros Hs.
  - by destruct (Cut t "{{") as [[??]|].
  - simpl in Hs. apply andb_true_iff in Hs as [Hc Hs]. cbn [Cut].
    assert (CutPrefix (String c (s +:+ t)) "{{" = None) as ->.
    { rewrite cut_brace_step. case_decide; [|done].
      destruct s as [|d s]; [done|]. rewrite app_cons_str, cut_brace1.
      apply bool_decide_eq_true in Hc. by rewrite decide_False. }
    rewrite IH by done. by destruct (Cut t "{{") as [[??]|].
Qed.

(** The text before the first action is clean. *)
Lemma Cut_before_clean s b a : Cut s "{{" = Some (b, a) -> clean b = true.
Proof.
  revert b. induction s as [|c s IH]; intros b; cbn [Cut]; [done|].
  destruct (CutPrefix (String c s) "{{") eqn:Hp; [by intros [= <- <-]|].
  destruct (Cut s "{{") as [[b' a']|] eqn:Hc; [|done].
  intros [= <- <-]. simpl. rewrite IH by done.
  case_decide as H; [subst|done]. rewrite cut_brace_step, decide_True in Hp by done.
  apply Cut_sound in Hc. destruct b' as [|d b']; subst s; simpl_app.
  - done.
  - rewrite cut_brace1 in Hp. case_decide; [done|]. by rewrite bool_decide_eq_true_2.
Qed.

Lemma clean_app s t : clean s = true -> clean (s +:+ t) = clean t.
Proof.
  induction s as [|c s IH]; simpl_app; [done|]. simpl.
  intros [Hc Hs]%andb_true_iff. rewrite IH by done.
  case_decide; [|done]. destruct s as [|d s]; [done|]. by rewrite app_cons_str, Hc.
Qed.

(** What [parse_nodes] returns: clean texts before actions, identifiers in
    them, and a last text without an action. *)
Fixpoint wf_nodes (ns : list node) : Prop :=
  match ns with
  | [] => True
  | NText s :: ns' =>
      match ns' with
      | [] => Cut s "{{" = None
      | NField _ _ :: _ => clean s = true /\ wf_nodes ns'
      | NText _ :: _ => False
      end
  | NField f _ :: ns' => is_ident f = true /\ wf_nodes ns'
  end.

Lemma parse_action_ident funcs body n :
  parse_action funcs body = Some n -> exists f names, n = NField f names /\ is_ident f = true.
Proof.
  unfold parse_action. intros H. repeat case_match; simplify_eq; eauto.
Qed.

Lemma text_node_wf s f names ns :
  clean s = true -> is_ident f = true -> wf_nodes ns ->
  wf_nodes (text_node s (NField f names :: ns)).
Proof. intros. unfold text_node. by case_decide. Qed.

Lemma parse_nodes_wf funcs fuel s ns : parse_nodes funcs fuel s = POk ns -> wf_nodes ns.
Proof.
  revert s ns. induction fuel as [|fuel IH]; intros s ns; simpl; [done|].
  destruct (Cut s "{{") as [[txt rest]|] eqn:Hc.
  - apply Cut_before_clean in Hc.
    destruct (Cut rest "}}") as [[body rest']|]; [|done].
    destruct (parse_action funcs body) as [n|] eqn:Hn; [|done].
    apply parse_action_ident in Hn as (f & names & -> & Hf).
    destruct (parse_nodes funcs fuel rest') as [ns'| |] eqn:Hr; [|done|done].
    intros [= <-]. apply text_node_wf; eauto.
  - intros [= <-]. unfold text_node. by case_decide.
Qed.

(** More fuel than actions changes nothing. *)
Lemma Cut_length s sep b a :
  Cut s sep = Some (b, a) -> String.length a + String.length sep <= String.length s.
Proof.
  intros ->%Cut_sound.
  assert (Hl : forall s1 s2, String.length (s1 +:+ s2) = String.length s1 + String.length s2).
  { induction s1 as [|c s1 IH]; intros s2; simpl_app; simpl; [done|]. by rewrite IH. }
  rewrite !Hl. lia.
Qed.

Lemma parse_nodes_fuel funcs n m s :
  String.length s < n -> String.length s < m -> parse_nodes funcs n s = parse_nodes funcs m s.
Proof.
  revert m s. induction n as [|n IH]; intros [|m] s Hn Hm; simpl; try lia.
  destruct (Cut s "{{") as [[txt rest]|] eqn:Hc; [|done].
  destruct (Cut rest "}}") as [[body rest']|] eqn:Hc'; [|done].
  apply Cut_length in Hc, Hc'. simpl in Hc, Hc'.
  destruct (parse_action funcs body); [|done]. by rewrite (IH m) by lia.
Qed.

(** ** Two layers of rendering *)

Lemma ident_bytes f c :
  is_ident f = true -> c ∈ bytes f -> is_letter c || is_digit c = true.
Proof.
  destruct f as [|d f]; simpl; [done|]. intros [Hd Hf]%andb_true_iff Hc.
  apply elem_of_cons in Hc as [->|Hc]; [by rewrite Hd|].
  rewrite forallb_forall in Hf. apply Hf. by apply list_elem_of_In.
Qed.

(** An identifier has none of the bytes that mean something in an action. *)
Lemma ident_not_in f c :
  is_ident f = true -> is_letter c || is_digit c = false -> c ∉ bytes f.
Proof. intros Hf Hc Hin. by rewrite (ident_bytes f c) in Hc. Qed.

Lemma parse_action_field funcs f :
  is_ident f = true -> parse_action funcs ("." +:+ f) = Some (NField f []).
Proof.
  intros Hf. unfold parse_action. rewrite app_cons_str, app_nil_l_str.
  assert (Hbar : "|"%char ∉ bytes (String "." f)).
  { simpl. pose proof (ident_not_in f "|" Hf eq_refl). set_solver. }
  cbn [String.length SplitN].
  rewrite (proj2 (Cut_byte_None _ "|") Hbar : Cut (String "." f) "|" = None).
  assert (TrimSpaces (String "." f) = "." +:+ f) as ->.
  { unfold TrimSpaces. simpl. apply (TrimRight_not_in (String "." f)). simpl.
    pose proof (ident_not_in f " " Hf eq_refl). set_solver. }
  rewrite CutPrefix_app, Hf. done.
Qed.

Lemma text_node_exec fm s ns d :
  frag_exec fm (text_node s ns) d =
  match frag_exec fm ns d with Ok t => Ok (s +:+ t) | Err e => Err e end.
Proof.
  unfold text_node. case_decide as H; [subst|done].
  by destruct (frag_exec fm ns d).
Qed.

(** Parsing resumes after an action that the first layer left in place. *)
Lemma parse_after_action acc f t ns :
  clean acc = true -> is_ident f = true -> frag_parse [] t = POk ns ->
  frag_parse [] (acc +:+ action_text f +:+ t) = POk (text_node acc (NField f [] :: ns)).
Proof.
  intros Hacc Hf Ht. unfold frag_parse in *. cbn [parse_nodes].
  rewrite Cut_clean by done. unfold action_text. rewrite !app_assoc_str.
  assert (Cut ("{{." +:+ f +:+ "}}" +:+ t) "{{" = Some ("", "." +:+ f +:+ "}}" +:+ t)) as ->
    by done.
  rewrite app_nil_r_str, <-(app_assoc_str "." f).
  rewrite Cut_app by (pose proof (ident_not_in f "}" Hf eq_refl) as Hn;
                      rewrite bytes_app; set_solver).
  rewrite parse_action_field by done.
  rewrite (parse_nodes_fuel [] _ (S (String.length t)));
    [by rewrite Ht| |lia].
  assert (Hl : forall s1 s2, String.length (s1 +:+ s2) = String.length s1 + String.length s2).
  { induction s1 as [|c s1 IH]; intros s2; simpl_app; simpl; [done|]. by rewrite IH. }
  rewrite !Hl. simpl. lia.
Qed.

Lemma parse_no_action s :
  Cut s "{{" = None -> frag_parse [] s = POk (text_node s []).
Proof. intros H. unfold frag_parse. simpl. by rewrite H. Qed.

Section TwoLayers.
(** Fields the first layer resolves, and fields it passes through. *)
Context (resolved : list (string * string)) (deferred : list string).
Context (fm : FuncMap) (m : gmap string string).

(** The data of the first layer, and of a rendering in one go. *)
Definition layer_data : tdata :=
  DStruct (resolved ++ map (fun f => (f, action_text f)) deferred).
Definition joint_data : tdata :=
  DStruct (resolved ++ map (fun f => (f, default "<no value>" (m !! f))) deferred).

Hypothesis resolved_plain : forall f v, (f, v) ∈ resolved -> no_brace v = true.
Hypothesis deferred_ident : forall f, f ∈ deferred -> is_ident f = true.
Hypothesis funcs_plain : forall name g v,
  (name, g) ∈ fm -> no_brace v = true -> no_brace (g v) = true.

(** A passed-through field is not piped into a function. *)
Definition deferred_unpiped (n : node) : Prop :=
  match n with
  | NText _ => True
  | NField f names => assoc f resolved = None -> names = []
  end.

Lemma apply_funcs_plain names v w :
  no_brace v = true -> apply_funcs fm names v = Ok w -> no_brace w = true.
Proof.
  revert v. induction names as [|name names IH]; intros v Hv; simpl; [by intros [= <-]|].
  destruct (assoc name fm) as [g|] eqn:Hg; [|done].
  apply IH. eauto using assoc_elem.
Qed.

(** A field renders to brace-free text that the second layer keeps, or to
    the action of a deferred field. *)
Lemma field_cases f names v :
  deferred_unpiped (NField f names) ->
  exec_node fm layer_data (NField f names) = Ok v ->
  (no_brace v = true /\ exec_node fm joint_data (NField f names) = Ok v) \/
  (is_ident f = true /\ v = action_text f /\
   exec_node fm joint_data (NField f names) = Ok (default "<no value>" (m !! f))).
Proof.
  intros Hdef Hex. simpl in Hdef, Hex |- *. rewrite assoc_app, assoc_map in *.
  destruct (assoc f resolved) as [x|] eqn:Hf.
  - left. split; [|done]. eauto using apply_funcs_plain, assoc_elem.
  - right. rewrite (Hdef eq_refl) in *. case_decide; [|done]. simpl in *.
    simplify_eq. eauto.
Qed.

Lemma relayer ns acc t2 :
  wf_nodes ns -> Forall deferred_unpiped ns -> clean acc = true ->
  frag_exec fm ns layer_data = Ok t2 ->
  exists ns2 t3,
    frag_parse [] (acc +:+ t2) = POk ns2 /\
    frag_exec [] ns2 (DMap m) = Ok (acc +:+ t3) /\
    frag_exec fm ns joint_data = Ok t3.
Proof.
  revert acc t2. induction ns as [|n ns IH]; intros acc t2 Hwf Hd Hacc Hex.
  - simpl in Hex. simplify_eq. exists (text_node (acc +:+ "") []), "".
    rewrite parse_no_action by (by rewrite Cut_clean).
    rewrite text_node_exec. simpl. by rewrite !app_nil_r_str.
  - apply Forall_cons in Hd as [Hd Hds].
    cbn [frag_exec] in Hex. destruct (exec_node fm layer_data n) as [v|] eqn:Hv; [|done].
    destruct (frag_exec fm ns layer_data) as [t|] eqn:Ht; [|done]. simplify_eq.
    assert (Hkeep : clean (acc +:+ v) = true -> wf_nodes ns ->
      exec_node fm joint_data n = Ok v ->
      exists ns2 t3, frag_parse [] (acc +:+ v +:+ t) = POk ns2 /\
        frag_exec [] ns2 (DMap m) = Ok (acc +:+ t3) /\
        frag_exec fm (n :: ns) joint_data = Ok t3).
    { intros Hc Hw Hj. destruct (IH (acc +:+ v) t Hw Hds Hc eq_refl) as (ns2 & t3 & Hp & He & Hf).
      rewrite !app_assoc_str in *. exists ns2, (v +:+ t3). split_and!; [done|done|].
      cbn [frag_exec]. by rewrite Hj, Hf. }
    destruct n as [s|f names].
    + simpl in Hv. simplify_eq. destruct ns as [|[s'|f names] ns]; [|done|].
      * simpl in Hwf, Ht. simplify_eq. exists (text_node (acc +:+ v +:+ "") []), v.
        rewrite app_nil_r_str.
        rewrite parse_no_action by (rewrite Cut_clean by done; simpl in Hwf; by rewrite Hwf).
        rewrite text_node_exec. simpl. by rewrite !app_nil_r_str.
      * destruct Hwf as [Hs Hwf]. apply Hkeep; [|done|done]. by rewrite clean_app.
    + destruct Hwf as [Hf Hwf].
      destruct (field_cases f names v Hd Hv) as [[Hnb Hj]|(_ & -> & Hj)].
      * apply Hkeep; [|done|done]. rewrite clean_app by done. by apply no_brace_clean.
      * destruct (IH "" t Hwf Hds eq_refl eq_refl) as (ns2 & t3 & Hp & He & Hj').
        rewrite app_nil_l_str in Hp, He.
        exists (text_node acc (NField f [] :: ns2)), (default "<no value>" (m !! f) +:+ t3).
        split_and!; [by apply parse_after_action| |].
        -- rewrite text_node_exec. cbn [frag_exec exec_node eval_field].
           destruct (m !! f) as [x|]; simpl; by rewrite He.
        -- cbn [frag_exec]. by rewrite Hj, Hj'.
Qed.
End TwoLayers.
