(* ===== verification/Json.v ===== *)
(** * JSON values and their decoding ([encoding/json])

    A JSON document is modelled as its tree; [JsonParser] is the step from
    bytes to that tree.  The decoders below follow [json.Unmarshal] into
    strings, maps, pointers and structs: keys match case-insensitively, unknown
    keys are skipped, [null] leaves a value alone (and empties a pointer or a
    map), a value of the wrong kind is an error. *)

From S2P Require Import Prelude GoStrings.

(** ** Trees *)

Inductive json :=
| JNull
| JBool (b : bool)
| JNumber (literal : string)
| JString (s : string)
| JArray (elems : list json)
| JObject (members : list (string * json)).

Class JsonParser := { json_parse : string -> result json }.

(** ** Case-insensitive keys *)

Definition lower (c : ascii) : ascii :=
  let n := nat_of_ascii c in
  if decide (65 <= n <= 90) then ascii_of_nat (n + 32) else c.

(** [foldName]: besides the ASCII letters, U+017F and U+212A (in UTF-8) fold
    to [s] and [k]. *)
Fixpoint foldName (s : string) : string :=
  match s with
  | String "197" (String "191" s') => String "s" (foldName s')
  | String "226" (String "132" (String "170" s')) => String "k" (foldName s')
  | String c s' => String (lower c) (foldName s')
  | "" => ""
  end.

Definition key_matches (key field : string) : bool :=
  bool_decide (foldName key = foldName field).

(** ** Decoders: the current value, updated from the document *)

Definition type_error {A} : result A :=
  Err (Errorf "json: cannot unmarshal value into Go value" []).

Definition decodeString (cur : string) (j : json) : result string :=
  match j with
  | JNull => Ok cur
  | JString s => Ok s
  | _ => type_error
  end.

(** The members of an object, in order; [set] updates one field. *)
Fixpoint decodeMembers {A} (set : A -> string -> json -> result A)
    (cur : A) (members : list (string * json)) : result A :=
  match members with
  | [] => Ok cur
  | (k, j) :: members' =>
      match set cur k j with
      | Ok cur' => decodeMembers set cur' members'
      | Err e => Err e
      end
  end.

Definition decodeStruct {A} (set : A -> string -> json -> result A)
    (cur : A) (j : json) : result A :=
  match j with
  | JNull => Ok cur
  | JObject members => decodeMembers set cur members
  | _ => type_error
  end.

Definition decodePtr {A} (zero : A) (decode : A -> json -> result A)
    (cur : option A) (j : json) : result (option A) :=
  match j with
  | JNull => Ok None
  | _ =>
      match decode (default zero cur) j with
      | Ok a => Ok (Some a)
      | Err e => Err e
      end
  end.

(** [map[string]string] *)
Definition decodeStringMap (cur : gmap string string) (j : json)
    : result (gmap string string) :=
  match j with
  | JNull => Ok ∅
  | JObject members =>
      decodeMembers (fun m k v =>
        match decodeString "" v with
        | Ok s => Ok (<[k := s]> m)
        | Err e => Err e
        end) cur members
  | _ => type_error
  end.
