(* ===== verification/Annotation.v ===== *)
(** * The annotation prefix ([pkg/annotation/prefix.go])

    One configurable DNS-subdomain prefix from which the resolver and the
    webhook derive their annotation keys.  [IsDNS1123Subdomain] is Kubernetes'
    validation function; [viper] is the configuration store, read by flag
    name. *)

From S2P Require Import Prelude GoStrings.

(** ** Configuration *)

(** The getters of [viper] that the repository calls. *)
Record Viper := {
  GetString : string -> string;
  GetBool : string -> bool;
  GetInt : string -> Z;
  GetDuration : string -> Z;
  GetStringSlice : string -> list string;
  GetStringMapString : string -> gmap string string
}.

(** [validation.IsDNS1123Subdomain]: the list of violations. *)
Class DNSValidation := { IsDNS1123Subdomain : string -> list string }.

(** What its documentation says of an accepted name: it is made of lower-case
    alphanumeric characters, [-] and [.]. *)
Definition is_dns_byte (c : ascii) : bool :=
  let n := nat_of_ascii c in
  (Nat.leb 97 n && Nat.leb n 122) || (Nat.leb 48 n && Nat.leb n 57) ||
  Nat.eqb n 45 || Nat.eqb n 46.
Class DNSLaws (V : DNSValidation) : Prop := {
  dns_bytes : forall s, IsDNS1123Subdomain s = [] ->
    forallb is_dns_byte (bytes s) = true
}.

(** A validation function that has that property: the RFC 1123 grammar that the
    Kubernetes documentation gives. *)
Definition is_dns_alnum (c : ascii) : bool :=
  let n := nat_of_ascii c in
  (Nat.leb 97 n && Nat.leb n 122) || (Nat.leb 48 n && Nat.leb n 57).
Definition is_dns_label (s : string) : bool :=
  match bytes s, last (bytes s) with
  | c :: _, Some d =>
      is_dns_alnum c && is_dns_alnum d &&
      forallb (fun c => is_dns_alnum c || Nat.eqb (nat_of_ascii c) 45) (bytes s)
  | _, _ => false
  end.
Definition dns1123 (s : string) : list string :=
  (if Nat.ltb 253 (String.length s) then ["must be no more than 253 characters"] else []) ++
  (if forallb is_dns_label (SplitN s "." (S (String.length s)))
      && forallb is_dns_byte (bytes s)
   then []
   else ["a lowercase RFC 1123 subdomain must consist of lower case alphanumeric characters, '-' or '.', and must start and end with an alphanumeric character"]).
Definition dns1123Validation : DNSValidation := {| IsDNS1123Subdomain := dns1123 |}.

Lemma dns1123_laws : DNSLaws dns1123Validation.
Proof.
  split. intros s. simpl. unfold dns1123. intros [_ H]%app_eq_nil.
  destruct (forallb is_dns_byte (bytes s)); [done|]. by rewrite andb_false_r in H.
Qed.

(** ** Constants *)

Definition flagPrefix := "annotation-prefix".
Definition defaultPrefix := "pv-snapshotter.humble-mun.io".
Definition reservedPrefixKubernetes := "kubernetes.io".
Definition reservedPrefixK8s := "k8s.io".

(** ** Operations *)

Section Operations.
Context `{DNSValidation}.

Definition validatePrefix (prefix : string) : result unit :=
  if HasSuffix prefix "/" then
    Err (Errorf "annotation prefix must not include a trailing slash: %q" [prefix])
  else
    match IsDNS1123Subdomain prefix with
    | [] =>
        if bool_decide (prefix = reservedPrefixKubernetes) ||
           bool_decide (prefix = reservedPrefixK8s) ||
           HasSuffix prefix ("." +:+ reservedPrefixKubernetes) ||
           HasSuffix prefix ("." +:+ reservedPrefixK8s)
        then Err (Errorf "annotation prefix %q uses a reserved Kubernetes domain" [prefix])
        else Ok tt
    | errs =>
        Err (Errorf "annotation prefix %q is not a valid DNS subdomain: %s"
                    [prefix; Join errs "; "])
    end.

Definition ResolvePrefix (viper : Viper) : result string :=
  let prefix := GetString viper flagPrefix in
  match validatePrefix prefix with
  | Err err => Err (Wrapf "invalid --%s: %w" [flagPrefix] err)
  | Ok tt => Ok prefix
  end.
End Operations.

Definition Key (prefix suffix : string) : string := prefix +:+ "/" +:+ suffix.

(** ** Lemmas *)

Section Lemmas.
Context `{V : DNSValidation} `{!DNSLaws V}.

Lemma dns_no_slash s : IsDNS1123Subdomain s = [] -> "/"%char ∉ bytes s.
Proof.
  intros Hs Hin. apply dns_bytes in Hs. rewrite forallb_forall in Hs.
  apply list_elem_of_In, Hs in Hin. done.
Qed.

Lemma validatePrefix_valid p : validatePrefix p = Ok tt -> IsDNS1123Subdomain p = [].
Proof. unfold validatePrefix. repeat case_match; done. Qed.

Lemma ResolvePrefix_Ok v p :
  ResolvePrefix v = Ok p -> p = GetString v flagPrefix /\ validatePrefix p = Ok tt.
Proof. unfold ResolvePrefix. repeat case_match; intros; by simplify_eq. Qed.

Lemma Key_inj_valid p1 p2 s1 s2 :
  "/"%char ∉ bytes p1 -> "/"%char ∉ bytes p2 ->
  Key p1 s1 = Key p2 s2 -> p1 = p2 /\ s1 = s2.
Proof.
  unfold Key. intros H1 H2 Heq.
  assert (H : Cut (p1 +:+ "/" +:+ s1) "/" = Cut (p2 +:+ "/" +:+ s2) "/") by by rewrite Heq.
  rewrite !Cut_app in H by done. by simplify_eq.
Qed.

(** Annotation keys derived from accepted prefixes are unambiguous: two
    keys are equal only when both the prefixes and the suffixes are. *)
Theorem Key_unambiguous p1 p2 s1 s2 :
  validatePrefix p1 = Ok tt -> validatePrefix p2 = Ok tt ->
  Key p1 s1 = Key p2 s2 -> p1 = p2 /\ s1 = s2.
Proof.
  intros H1 H2. apply Key_inj_valid; by apply dns_no_slash, validatePrefix_valid.
Qed.

(** [validatePrefix] accepts exactly the DNS subdomains outside the two
    reserved Kubernetes domains: not [kubernetes.io], not [k8s.io], and not
    a subdomain of either. *)
Theorem validatePrefix_ok_iff p :
  validatePrefix p = Ok tt <->
  IsDNS1123Subdomain p = [] /\
  forall d, d = "kubernetes.io" \/ d = "k8s.io" ->
    p <> d /\ forall sub, p <> sub +:+ "." +:+ d.
Proof.
  unfold validatePrefix, reservedPrefixKubernetes, reservedPrefixK8s. split.
  - destruct (HasSuffix p "/") eqn:Hs; [done|].
    destruct (IsDNS1123Subdomain p) eqn:Hd; [|done].
    destruct (_ || _) eqn:Hr; [done|]. intros _. split; [done|].
    rewrite !orb_false_iff, !bool_decide_eq_false in Hr. destruct Hr as [[[H1 H2] H3] H4].
    intros d [->| ->]; split; try done; intros sub ->.
    + by rewrite (proj2 (HasSuffix_spec _ _)) in H3 by eauto.
    + by rewrite (proj2 (HasSuffix_spec _ _)) in H4 by eauto.
  - intros [Hd Hr]. rewrite Hd.
    destruct (HasSuffix p "/") eqn:Hs.
    { apply HasSuffix_spec in Hs as [r ->]. exfalso. apply (dns_no_slash _ Hd).
      rewrite bytes_app. simpl. set_solver. }
    destruct (_ || _) eqn:Hor; [|done]. exfalso.
    rewrite !orb_true_iff, !bool_decide_eq_true, !HasSuffix_spec in Hor.
    destruct Hor as [[[->| ->]|[r Hr1]]|[r Hr1]].
    + by destruct (Hr "kubernetes.io" (or_introl eq_refl)).
    + by destruct (Hr "k8s.io" (or_intror eq_refl)).
    + by eapply (proj2 (Hr "kubernetes.io" (or_introl eq_refl))).
    + by eapply (proj2 (Hr "k8s.io" (or_intror eq_refl))).
Qed.
End Lemmas.

Lemma Key_unambiguous_witness :
  validatePrefix (H:=dns1123Validation) "a.example.com" = Ok tt /\
  Key "a.example.com" "var.x" <> Key "b.example.com" "var.x".
Proof.
  split; [by vm_compute|]. intros Heq.
  apply (Key_unambiguous (V:=dns1123Validation) (DNSLaws0:=dns1123_laws)) in Heq as [? _];
    [done|by vm_compute|by vm_compute].
Defined.

Lemma validatePrefix_ok_iff_witness :
  DNSLaws dns1123Validation /\
  (forall sub, defaultPrefix <> sub +:+ "." +:+ "k8s.io") /\ "foo.k8s.io" = "foo" +:+ "." +:+ "k8s.io".
Proof.
  split; [exact dns1123_laws|].
  assert (Hok : validatePrefix (H:=dns1123Validation) defaultPrefix = Ok tt) by by vm_compute.
  apply (validatePrefix_ok_iff (V:=dns1123Validation) (DNSLaws0:=dns1123_laws)) in Hok as [_ Hr].
  split; [|done]. apply (Hr "k8s.io"). by right.
Defined.
