(* ===== verification/Resolver.v ===== *)
(** * Annotation resolution ([pkg/containerd/snapshotter/resolver.go])

    From a snapshot key to the directory the pod's annotations ask for.  The
    container store is reached through the [Ctr*] calls of [System.v], the
    pod's configuration is decoded by [Json.v], templates are rendered by the
    engine of [Template.v].  Log calls are left out. *)

From S2P Require Import Prelude GoStrings System Template Json Annotation.
Local Open Scope go_scope.

(** ** Constants *)

Definition annotationSuffixUpperdirPath := "upperdir-path".
Definition annotationSuffixUpperdirPathTemplate := "upperdir-path-template".
Definition annotationSuffixVarSubPrefix := "var.".
Definition criSandboxMetadataExtension := "io.cri-containerd.sandbox.metadata".
Definition criKindLabel := "io.cri-containerd.kind".
Definition criKindSandbox := "sandbox".
Definition criKindContainer := "container".
Definition containerdNamespaceK8s := "k8s.io".

(** ** The sandbox metadata extension *)

Record podObjectMeta := mkPodObjectMeta {
  pom_Name : string;
  pom_UID : string;
  pom_Namespace : string
}.
Record podSandboxConfig := mkPodSandboxConfig {
  psc_Metadata : option podObjectMeta;
  psc_Annotations : gmap string string
}.
Record sandboxMetadataInner := mkSandboxMetadataInner {
  smi_Config : option podSandboxConfig
}.
Record sandboxMetadata := mkSandboxMetadata { sm_Metadata : sandboxMetadataInner }.

Definition set_podObjectMeta (m : podObjectMeta) (k : string) (j : json) : result podObjectMeta :=
  let '(mkPodObjectMeta name uid ns) := m in
  if key_matches k "name" then
    match decodeString name j with Ok v => Ok (mkPodObjectMeta v uid ns) | Err e => Err e end
  else if key_matches k "uid" then
    match decodeString uid j with Ok v => Ok (mkPodObjectMeta name v ns) | Err e => Err e end
  else if key_matches k "namespace" then
    match decodeString ns j with Ok v => Ok (mkPodObjectMeta name uid v) | Err e => Err e end
  else Ok m.

Definition set_podSandboxConfig (c : podSandboxConfig) (k : string) (j : json)
    : result podSandboxConfig :=
  let '(mkPodSandboxConfig meta annots) := c in
  if key_matches k "metadata" then
    match decodePtr (mkPodObjectMeta "" "" "") (decodeStruct set_podObjectMeta) meta j with
    | Ok v => Ok (mkPodSandboxConfig v annots) | Err e => Err e end
  else if key_matches k "annotations" then
    match decodeStringMap annots j with
    | Ok v => Ok (mkPodSandboxConfig meta v) | Err e => Err e end
  else Ok c.

Definition set_sandboxMetadataInner (i : sandboxMetadataInner) (k : string) (j : json)
    : result sandboxMetadataInner :=
  if key_matches k "Config" then
    match decodePtr (mkPodSandboxConfig None ∅) (decodeStruct set_podSandboxConfig)
                    (smi_Config i) j with
    | Ok v => Ok (mkSandboxMetadataInner v) | Err e => Err e end
  else Ok i.

Definition set_sandboxMetadata (m : sandboxMetadata) (k : string) (j : json)
    : result sandboxMetadata :=
  if key_matches k "Metadata" then
    match decodeStruct set_sandboxMetadataInner (sm_Metadata m) j with
    | Ok v => Ok (mkSandboxMetadata v) | Err e => Err e end
  else Ok m.

(** ** The resolver *)

Record resolver := mkResolver {
  keyLiteral : string;   (** <prefix>/upperdir-path *)
  keyTemplate : string;  (** <prefix>/upperdir-path-template *)
  keyVarPrefix : string  (** <prefix>/var. *)
}.

Definition newResolver `{DNSValidation} (viper : Viper) : result resolver :=
  match ResolvePrefix viper with
  | Err err => Err err
  | Ok prefix =>
      Ok (mkResolver (Key prefix annotationSuffixUpperdirPath)
                     (Key prefix annotationSuffixUpperdirPathTemplate)
                     (Key prefix annotationSuffixVarSubPrefix))
  end.

(** [<namespace>/<seq>/<container-id>]; image-unpack keys are refused. *)
Definition parseSnapshotKey (key : string) : option (string * string) :=
  match SplitN key "/" 3 with
  | [ns; _; containerID] =>
      if Contains containerID " " || HasPrefix containerID "extract-"
      then None
      else Some (ns, containerID)
  | _ => None
  end.

(** [for k, v := range cfg.Annotations]: the custom variables, over the
    annotations in the order the map range yields them. *)
Fixpoint collectVars (varPrefix : string) (annots : list (string * string))
    (data : gmap string string) : gmap string string :=
  match annots with
  | [] => data
  | (k, v) :: annots' =>
      if negb (HasPrefix k varPrefix) then collectVars varPrefix annots' data
      else collectVars varPrefix annots' (<[TrimPrefix k varPrefix := v]> data)
  end.

(** The data map of a template: the built-in fields, then the custom ones. *)
Definition templateVars (r : resolver) (cfg : podSandboxConfig) : gmap string string :=
  let data :=
    match psc_Metadata cfg with
    | Some meta =>
        <["PodNamespace" := pom_Namespace meta]>
          (<["PodName" := pom_Name meta]> (<["PodUID" := pom_UID meta]> ∅))
    | None => ∅
    end in
  collectVars (keyVarPrefix r) (map_to_list (psc_Annotations cfg)) data.

Section Resolve.
Context `{TemplateEngine} `{JsonParser}.

Definition unmarshalSandboxMetadata (raw : string) : result sandboxMetadata :=
  match json_parse raw with
  | Ok j => decodeStruct set_sandboxMetadata
              (mkSandboxMetadata (mkSandboxMetadataInner None)) j
  | Err e => Err e
  end.

Definition renderUpperdirTemplate (r : resolver) (tmplStr : string)
    (cfg : podSandboxConfig) (key : string) : result string :=
  match template_Parse [] tmplStr with
  | Err err => Err (Wrapf "parsing upperdir-path-template (key=%s): %w" [key] err)
  | Ok tmpl =>
      match template_Execute tmpl (DMap (templateVars r cfg)) with
      | Err err => Err (Wrapf "rendering upperdir-path-template (key=%s): %w" [key] err)
      | Ok result => Ok result
      end
  end.

(** The annotations' answer: the literal path first, then the template. *)
Definition upperdirFromConfig (r : resolver) (cfg : podSandboxConfig) (key : string)
    : result string :=
  let v := default "" (psc_Annotations cfg !! keyLiteral r) in
  if decide (v <> "") then Ok v
  else
    let tmplStr := default "" (psc_Annotations cfg !! keyTemplate r) in
    if decide (tmplStr = "") then Ok ""
    else renderUpperdirTemplate r tmplStr cfg key.

Definition upperdirFromSandboxContainer (r : resolver) (ns : string) (ctr : Container)
    (key : string) : prog sysE (result string) :=
  try! exts := call (CtrExtensions ns ctr)
  catch err => Ret (Err (Wrapf "reading extensions for sandbox (key=%s): %w" [key] err)) in
  match exts !! criSandboxMetadataExtension with
  | None => Ret (Ok "")
  | Some raw =>
      match unmarshalSandboxMetadata raw with
      | Err err => Ret (Err (Wrapf "unmarshaling sandbox metadata (key=%s): %w" [key] err))
      | Ok meta =>
          match smi_Config (sm_Metadata meta) with
          | None => Ret (Ok "")
          | Some cfg => Ret (upperdirFromConfig r cfg key)
          end
      end
  end.

Definition upperdirFromSandboxID (r : resolver) (ns sandboxID key : string)
    : prog sysE (result string) :=
  try! ctrs := call (CtrContainers ns ("id==" +:+ sandboxID))
  catch err => Ret (Err (Wrapf "querying sandbox container %s: %w" [sandboxID] err)) in
  match ctrs with
  | [] => Ret (Ok "")
  | ctr :: _ => upperdirFromSandboxContainer r ns ctr key
  end.

Definition resolveAtMountsTime (r : resolver) (key : string) : prog sysE (result string) :=
  match parseSnapshotKey key with
  | None => Ret (Ok "")
  | Some (ns, containerID) =>
      try! ctrs := call (CtrContainers ns ("id==" +:+ containerID))
      catch err => Ret (Err (Wrapf "querying container %s: %w" [containerID] err)) in
      match ctrs with
      | [] => Ret (Ok "")
      | ctr :: _ =>
          try! info := call (CtrInfo ns ctr)
          catch err => Ret (Err (Wrapf "getting container info %s: %w" [containerID] err)) in
          let kind := default "" (ci_Labels info !! criKindLabel) in
          if decide (kind = criKindSandbox) then Ret (Ok "")
          else if decide (kind = criKindContainer) then
            if decide (ci_SandboxID info = "") then Ret (Ok "")
            else upperdirFromSandboxID r ns (ci_SandboxID info) key
          else Ret (Ok "")
      end
  end.
End Resolve.

(** ** Snapshot keys *)

(** A key is accepted exactly when it reads [ns/seq/id] with slash-free [ns]
    and [seq] and an [id] that is not an image-unpack key; [ns] and [id] are
    then returned as they stand. *)
Theorem parseSnapshotKey_iff key ns id :
  parseSnapshotKey key = Some (ns, id) <->
  exists seq, key = ns +:+ "/" +:+ seq +:+ "/" +:+ id /\
    "/"%char ∉ bytes ns /\ "/"%char ∉ bytes seq /\
    " "%char ∉ bytes id /\ HasPrefix id "extract-" = false.
Proof.
  unfold parseSnapshotKey. cbn [SplitN]. split.
  - destruct (Cut key "/") as [[b a]|] eqn:H1; [|done].
    destruct (Cut a "/") as [[b' a']|] eqn:H2; [|done].
    apply (Cut_byte_Some _ "/") in H1 as [-> Hb]. apply (Cut_byte_Some _ "/") in H2 as [-> Hb'].
    destruct (_ || _) eqn:Hx; [done|]. intros [= <- <-].
    apply orb_false_iff in Hx as [Hsp Hex]. exists b'. split_and!; try done.
    intros Hin. by rewrite (proj2 (Contains_byte _ " ") Hin) in Hsp.
  - intros (seq & -> & Hns & Hseq & Hid & Hex).
    rewrite !Cut_app by done. rewrite Hex.
    destruct (Contains id " ") eqn:Hc; [|done].
    by apply (Contains_byte _ " ") in Hc.
Qed.

(** ** Template variables *)

Lemma collectVars_lookup_other pre annots data x :
  (forall k v, (k, v) ∈ annots -> k <> pre +:+ x) ->
  collectVars pre annots data !! x = data !! x.
Proof.
  revert data. induction annots as [|[k v] annots IH]; intros data Hk; simpl; [done|].
  destruct (HasPrefix k pre) eqn:Hp; simpl; rewrite IH by set_solver; [|done].
  apply HasPrefix_spec in Hp as [y ->]. rewrite TrimPrefix_app.
  apply lookup_insert_ne. intros ->. by apply (Hk (pre +:+ x) v); [set_solver|].
Qed.

Lemma collectVars_lookup pre annots data x v :
  NoDup (annots.*1) -> (pre +:+ x, v) ∈ annots ->
  collectVars pre annots data !! x = Some v.
Proof.
  revert data. induction annots as [|[k w] annots IH]; intros data Hnd Hin.
  - by apply not_elem_of_nil in Hin.
  - apply NoDup_cons in Hnd as [Hk Hnd].
    apply elem_of_cons in Hin as [[= <- <-]|Hin]; simpl.
    + rewrite HasPrefix_app. simpl. rewrite TrimPrefix_app.
      rewrite collectVars_lookup_other; [apply lookup_insert_eq|].
      intros k' v' Hin' ->. apply Hk. apply list_elem_of_fmap. by exists (pre +:+ x, v').
    + destruct (HasPrefix k pre); simpl; eauto.
Qed.

Lemma collectVars_spec r cfg annots data y :
  annots ≡ₚ map_to_list (psc_Annotations cfg) ->
  collectVars (keyVarPrefix r) annots data !! y =
  match psc_Annotations cfg !! (keyVarPrefix r +:+ y) with
  | Some v => Some v | None => data !! y end.
Proof.
  intros Hperm. destruct (psc_Annotations cfg !! _) as [v|] eqn:Hv.
  - apply collectVars_lookup; rewrite Hperm; [apply NoDup_fst_map_to_list|].
    by apply elem_of_map_to_list.
  - apply collectVars_lookup_other. intros k v Hin ->.
    rewrite Hperm in Hin. apply elem_of_map_to_list in Hin. congruence.
Qed.

Lemma templateVars_get r cfg x :
  templateVars r cfg !! x =
  match psc_Annotations cfg !! (keyVarPrefix r +:+ x) with
  | Some v => Some v
  | None =>
      match psc_Metadata cfg with
      | Some meta =>
          if decide (x = "PodUID") then Some (pom_UID meta)
          else if decide (x = "PodName") then Some (pom_Name meta)
          else if decide (x = "PodNamespace") then Some (pom_Namespace meta)
          else None
      | None => None
      end
  end.
Proof.
  unfold templateVars. rewrite (collectVars_spec r cfg) by done.
  destruct (psc_Annotations cfg !! _); [done|].
  destruct (psc_Metadata cfg) as [[n u s]|]; [|apply lookup_empty]; simpl.
  repeat case_decide; subst; by simplify_map_eq.
Qed.

(** What a template can name: a variable is the value of its annotation when
    the pod carries [<prefix>/var.x], whatever the built-in fields say, and
    otherwise the built-in field.  The order in which the annotations are
    visited does not matter. *)
Theorem templateVars_lookup r cfg x :
  templateVars r cfg !! x =
  match psc_Annotations cfg !! (keyVarPrefix r +:+ x) with
  | Some v => Some v
  | None =>
      match psc_Metadata cfg with
      | Some meta =>
          if decide (x = "PodUID") then Some (pom_UID meta)
          else if decide (x = "PodName") then Some (pom_Name meta)
          else if decide (x = "PodNamespace") then Some (pom_Namespace meta)
          else None
      | None => None
      end
  end /\
  forall annots, annots ≡ₚ map_to_list (psc_Annotations cfg) -> forall data,
    collectVars (keyVarPrefix r) annots data =
    collectVars (keyVarPrefix r) (map_to_list (psc_Annotations cfg)) data.
Proof.
  split; [apply templateVars_get|].
  intros annots Hperm data. apply map_eq. intros y. by rewrite !(collectVars_spec r cfg).
Qed.

(** ** Resolution *)

(** The reads of the container store. *)
Definition is_ctr_read (ev : event sysE) : bool :=
  match ev with
  | Ev (CtrContainers _ _) _ | Ev (CtrInfo _ _) _ | Ev (CtrExtensions _ _) _ => true
  | _ => false
  end.

Section ResolveLemmas.
Context `{TemplateEngine} `{JsonParser}.

(** Resolution reads the container store and does nothing else. *)
Lemma resolve_reads r key tr res :
  exec (resolveAtMountsTime r key) tr res -> Forall (fun ev => is_ctr_read ev = true) tr.
Proof.
  unfold resolveAtMountsTime, upperdirFromSandboxID, upperdirFromSandboxContainer.
  intros Hex. exec_inv Hex; repeat constructor.
Qed.

(** The run of a workload container whose sandbox has a configuration. *)
Lemma resolve_run r key ns id c cs info s ss exts raw cfg :
  parseSnapshotKey key = Some (ns, id) ->
  ci_Labels info !! criKindLabel = Some criKindContainer -> ci_SandboxID info <> "" ->
  exts !! criSandboxMetadataExtension = Some raw ->
  unmarshalSandboxMetadata raw = Ok (mkSandboxMetadata (mkSandboxMetadataInner (Some cfg))) ->
  exec (resolveAtMountsTime r key)
    [Ev (CtrContainers ns ("id==" +:+ id)) (Ok (c :: cs));
     Ev (CtrInfo ns c) (Ok info);
     Ev (CtrContainers ns ("id==" +:+ ci_SandboxID info)) (Ok (s :: ss));
     Ev (CtrExtensions ns s) (Ok exts)]
    (upperdirFromConfig r cfg key).
Proof.
  intros Hkey Hk Hsb Hext Hum.
  unfold resolveAtMountsTime, upperdirFromSandboxID, upperdirFromSandboxContainer.
  rewrite Hkey. exec_run. rewrite Hk. simpl. rewrite decide_False by done. exec_run.
  by rewrite Hext, Hum.
Qed.

(** C27 A path is returned for exactly one situation: the key names a workload
    container that has a sandbox, and that sandbox's metadata extension
    decodes to a pod configuration whose annotations give the path.  In
    particular a sandbox container is never redirected. *)
Theorem resolveAtMountsTime_path_iff r key tr path :
  path <> "" ->
  exec (resolveAtMountsTime r key) tr (Ok path) <->
  exists ns id c cs info s ss exts raw cfg,
    parseSnapshotKey key = Some (ns, id) /\
    ci_Labels info !! criKindLabel = Some criKindContainer /\
    ci_SandboxID info <> "" /\
    exts !! criSandboxMetadataExtension = Some raw /\
    unmarshalSandboxMetadata raw =
      Ok (mkSandboxMetadata (mkSandboxMetadataInner (Some cfg))) /\
    upperdirFromConfig r cfg key = Ok path /\
    tr = [Ev (CtrContainers ns ("id==" +:+ id)) (Ok (c :: cs));
          Ev (CtrInfo ns c) (Ok info);
          Ev (CtrContainers ns ("id==" +:+ ci_SandboxID info)) (Ok (s :: ss));
          Ev (CtrExtensions ns s) (Ok exts)].
Proof.
  intros Hne. unfold resolveAtMountsTime, upperdirFromSandboxID, upperdirFromSandboxContainer.
  split.
  - intros Hex. exec_inv Hex; try done. destruct (ci_Labels _ !! _) as [k|] eqn:Hl; simpl in *;
      [subst|done].
    do 10 eexists. split_and!; try done.
    repeat match goal with m : sandboxMetadata |- _ => destruct m as [[?]] end.
    simpl in *. by subst.
  - intros (ns & id & c & cs & info & s & ss & exts & raw & cfg & Hkey & Hk & Hsb & Hext & Hum & Hup & ->).
    pose proof (resolve_run r key ns id c cs info s ss exts raw cfg Hkey Hk Hsb Hext Hum) as Hrun.
    by rewrite Hup in Hrun.
Qed.
End ResolveLemmas.
