(* ===== verification/Dedup.v ===== *)
(** * Layer sharing ([pkg/containerd/snapshotter/dedup.go])

    With [--share-overlayfs-lowers] the daemon serves image layers from the
    host's overlayfs snapshotter: [statWithLazyMaterialise] creates a local
    reference snapshot for a layer found there, [pinLayer] and
    [unpinByActiveKey] keep a containerd lease on it for the lifetime of a
    container's snapshot, and [countOrphanLeases] / [gcOrphanLeases] look after
    leases whose snapshot is gone.  Log calls are left out. *)

From S2P Require Import Prelude GoStrings System Laws Mount Resolver.
Local Open Scope go_scope.

(** ** Constants *)

Definition leaseLabelOwnerKey := "pv-snapshotter.io/owner-snapshot".
Definition leaseLabelManagedBy := "pv-snapshotter.io/managed-by".
Definition leaseLabelManagedByValue := "pv-snapshotter".
Definition overlayfsSnapshotterName := "overlayfs".

(** ** The manager

    Its client, local snapshotter and mutex are behind the calls of
    [System.v]; what is left is the node name. *)
Record dedupManager := mkDedupManager { dm_nodeName : string }.

Definition newDedupManager (nodeName : string) : dedupManager := mkDedupManager nodeName.

(** ** Layer paths *)

Definition probeKey (chainID : string) : string := "pv-snapshotter-probe-" +:+ chainID.

Definition overlayfsLayerPath (ns chainID : string) : prog sysE (result string) :=
  try! _ := call (OvlStat ns chainID)
  catch _statErr => Ret (Ok "") in
  let viewKey := probeKey chainID in
  try! mounts := call (OvlView ns viewKey chainID)
  catch viewErr => Ret (Err (Wrapf "creating probe view for chainID %s: %w" [chainID] viewErr)) in
  let path :=
    match mounts with
    | [] => Err (Errorf "no mounts returned for probe view of chainID %s" [chainID])
    | m :: rest => layerPathFromMounts m rest
    end in
  (* deferred: *)
  let! _ := call (OvlRemove ns viewKey) in
  Ret path.

Definition resolveParentChainID (ns chainID : string) : prog sysE (result string) :=
  try! info := call (OvlStat ns chainID)
  catch err => Ret (Err err) in
  Ret (Ok (info_Parent info)).

(** ** Reference snapshots *)

Definition replaceWithSymlink (path target : string) : prog sysE (result unit) :=
  try! _ := call (OsRemoveAll path)
  catch err => Ret (Err (Wrapf "removing %s: %w" [path] err)) in
  try! _ := call (OsSymlink target path)
  catch err => Ret (Err (Wrapf "symlinking %s → %s: %w" [path; target] err)) in
  Ret (Ok tt).

Definition refTmpKey (chainID : string) : string := "pv-snapshotter-ref-tmp-" +:+ chainID.

Definition materializeReference (ctx : Ctx) (chainID parent ovlLayerPath : string)
    : prog sysE (result unit) :=
  let tmpKey := refTmpKey chainID in
  try! _ := call (SnPrepare ctx tmpKey parent [])
  catch err => Ret (Err (Wrapf "preparing reference snapshot for chainID %s: %w" [chainID] err)) in
  try! localMounts := call (SnMounts ctx tmpKey)
  catch err =>
    (let! _ := call (SnRemove ctx tmpKey) in
     Ret (Err (Wrapf "getting local mounts for tmp reference %s: %w" [tmpKey] err))) in
  match upperdirFromMounts localMounts with
  | Err err =>
      let! _ := call (SnRemove ctx tmpKey) in
      Ret (Err (Wrapf "extracting upperdir from local mounts for %s: %w" [tmpKey] err))
  | Ok localFSPath =>
      try! _ := replaceWithSymlink localFSPath ovlLayerPath
      catch err =>
        (let! _ := call (SnRemove ctx tmpKey) in
         Ret (Err (Wrapf "creating symlink %s → %s: %w" [localFSPath; ovlLayerPath] err))) in
      try! _ := call (SnCommit ctx chainID tmpKey [])
      catch err =>
        (let! _ := call (SnRemove ctx tmpKey) in
         Ret (Err (Wrapf "committing reference snapshot for chainID %s: %w" [chainID] err))) in
      Ret (Ok tt)
  end.

(** ** Lazy materialisation *)

(** [sha256:] and 64 lower-case hexadecimal digits.  The source ranges over
    runes; a rune outside ASCII fails both of its range tests, as does every
    byte of its encoding here. *)
Definition is_hex (c : ascii) : bool :=
  let n := nat_of_ascii c in
  negb (((Nat.ltb n 48) || (Nat.ltb 57 n)) && ((Nat.ltb n 97) || (Nat.ltb 102 n))).

Definition isChainID (s : string) : bool :=
  match CutPrefix s "sha256:" with
  | None => false
  | Some hex =>
      if negb (Nat.eqb (String.length hex) 64) then false
      else forallb is_hex (bytes hex)
  end.

(** What runs under the mutex: the re-check, then the materialisation. *)
Definition materialiseLocked (ctx : Ctx) (ns key ovlPath : string) : prog sysE (result Info) :=
  let! again := call (SnStat ctx key) in
  match again with
  | Ok info => Ret (Ok info)
  | Err _ =>
      let! parentRes := resolveParentChainID ns key in
      let parent := match parentRes with Ok p => p | Err _ => "" end in
      try! _ := materializeReference ctx key parent ovlPath
      catch err => Ret (Err (Wrapf "materialising reference for %s: %w" [key] err)) in
      call (SnStat ctx key)
  end.

Definition statWithLazyMaterialise (ctx : Ctx) (key : string) : prog sysE (result Info) :=
  if negb (isChainID key) then Ret (Err (Errorf "not a chainID: %s" [key]))
  else
    let ns := if decide (ctx_namespace ctx = "") then containerdNamespaceK8s
              else ctx_namespace ctx in
    try! ovlPath := overlayfsLayerPath ns key
    catch err => Ret (Err (Wrapf "resolving overlayfs layer path for %s: %w" [key] err)) in
    if decide (ovlPath = "") then
      Ret (Err (Errorf "chainID %s not found in overlayfs (dedup miss)" [key]))
    else
      let! _ := call MuLock in
      let! res := materialiseLocked ctx ns key ovlPath in
      (* deferred: *)
      let! _ := call MuUnlock in
      Ret res.

(** ** Pinning *)

Definition leaseLabels (activeSnapshotKey : string) : gmap string string :=
  <[leaseLabelManagedBy := leaseLabelManagedByValue]>
    (<[leaseLabelOwnerKey := activeSnapshotKey]> ∅).

Definition pinLayer (m : dedupManager) (ns chainID activeSnapshotKey : string)
    : prog sysE (result Lease) :=
  try! l := call (LeaseCreate ns (leaseLabels activeSnapshotKey))
  catch err => Ret (Err (Wrapf "creating dedup lease for chainID %s (owner=%s): %w"
                               [chainID; activeSnapshotKey] err)) in
  let res := mkResource chainID ("snapshots/" +:+ overlayfsSnapshotterName) in
  try! _ := call (LeaseAddResource ns l res)
  catch err =>
    (let! _ := call (LeaseDelete ns (lease_ID l)) in
     Ret (Err (Wrapf "adding snapshot resource to dedup lease (owner=%s): %w"
                     [activeSnapshotKey] err))) in
  let! _ := call (PinnedInc (dm_nodeName m)) in
  Ret (Ok l).

(** The loop of [unpinByActiveKey]. *)
Fixpoint unpinLoop (m : dedupManager) (ns : string) (all : list Lease) : prog sysE unit :=
  match all with
  | [] => Ret tt
  | l :: all' =>
      let! del := call (LeaseDelete ns (lease_ID l)) in
      match del with
      | Err _ => let! _ := call (UnpinFailuresInc (dm_nodeName m)) in unpinLoop m ns all'
      | Ok _ => let! _ := call (PinnedDec (dm_nodeName m)) in unpinLoop m ns all'
      end
  end.

Definition unpinByActiveKey (m : dedupManager) (ns activeSnapshotKey : string)
    : prog sysE unit :=
  try! all := call (LeaseList ns (mkLabelFilter leaseLabelOwnerKey activeSnapshotKey))
  catch _err => Ret tt in
  unpinLoop m ns all.

(** ** Operational listing and garbage collection *)

Definition managedFilter : LabelFilter :=
  mkLabelFilter leaseLabelManagedBy leaseLabelManagedByValue.

Definition listManagedLeases (ns : string) : prog sysE (result (list Lease)) :=
  call (LeaseList ns managedFilter).

Definition deleteLease (m : dedupManager) (ns leaseID : string) : prog sysE (result unit) :=
  try! _ := call (LeaseDelete ns leaseID)
  catch err => Ret (Err (Wrapf "deleting lease %s: %w" [leaseID] err)) in
  let! _ := call (PinnedDec (dm_nodeName m)) in
  Ret (Ok tt).

Definition ownerOf (l : Lease) : string := default "" (lease_Labels l !! leaseLabelOwnerKey).

Fixpoint countLoop (ctx : Ctx) (all : list Lease) (count : Z) : prog sysE Z :=
  match all with
  | [] => Ret count
  | l :: all' =>
      if decide (ownerOf l = "") then countLoop ctx all' count
      else
        let! st := call (SnStat ctx (ownerOf l)) in
        match st with
        | Ok _ => countLoop ctx all' count
        | Err _ => countLoop ctx all' (count + 1)
        end
  end.

Definition countOrphanLeases (ctx : Ctx) (ns : string) : prog sysE Z :=
  try! all := call (LeaseList ns managedFilter)
  catch _err => Ret 0%Z in
  countLoop ctx all 0.

Fixpoint gcLoop (m : dedupManager) (ctx : Ctx) (ns : string) (all : list Lease) (deleted : Z)
    : prog sysE Z :=
  match all with
  | [] => Ret deleted
  | l :: all' =>
      if decide (ownerOf l = "") then gcLoop m ctx ns all' deleted
      else
        let! st := call (SnStat ctx (ownerOf l)) in
        match st with
        | Ok _ => gcLoop m ctx ns all' deleted
        | Err _ =>
            let! del := call (LeaseDelete ns (lease_ID l)) in
            match del with
            | Err _ => gcLoop m ctx ns all' deleted
            | Ok _ =>
                let! _ := call (PinnedDec (dm_nodeName m)) in
                gcLoop m ctx ns all' (deleted + 1)
            end
        end
  end.

Definition gcOrphanLeases (m : dedupManager) (ctx : Ctx) (ns : string) : prog sysE Z :=
  try! all := call (LeaseList ns managedFilter)
  catch _err => Ret 0%Z in
  gcLoop m ctx ns all 0.

(** ** Chain ids *)

(** A chain id is [sha256:] followed by exactly 64 lower-case hexadecimal
    digits. *)
Theorem isChainID_iff s :
  isChainID s = true <->
  exists hex, s = "sha256:" +:+ hex /\ String.length hex = 64 /\
    forall c, c ∈ bytes hex ->
      48 <= nat_of_ascii c <= 57 \/ 97 <= nat_of_ascii c <= 102.
Proof.
  unfold isChainID. split.
  - destruct (CutPrefix s "sha256:") as [hex|] eqn:Hc; [|done].
    apply CutPrefix_Some in Hc as ->.
    destruct (Nat.eqb_spec (String.length hex) 64); simpl; [|done].
    rewrite forallb_forall. intros Hall. exists hex. split_and!; [done..|].
    intros c Hin%list_elem_of_In%Hall. unfold is_hex in Hin.
    apply negb_true_iff, andb_false_iff in Hin.
    rewrite !orb_false_iff, !Nat.ltb_ge in Hin. lia.
  - intros (hex & -> & Hlen & Hall). rewrite CutPrefix_app, Hlen. simpl.
    apply forallb_forall. intros c Hin%list_elem_of_In%Hall. unfold is_hex.
    apply negb_true_iff, andb_false_iff. rewrite !orb_false_iff, !Nat.ltb_ge. lia.
Qed.

Lemma isChainID_no_slash s : isChainID s = true -> "/"%char ∉ bytes s.
Proof.
  unfold isChainID. destruct (CutPrefix s "sha256:") as [hex|] eqn:Hc; [|done].
  apply CutPrefix_Some in Hc as ->.
  destruct (Nat.eqb (String.length hex) 64); simpl; [|done].
  rewrite forallb_forall. intros Hall Hin. rewrite bytes_app in Hin.
  simpl in Hin. repeat (apply elem_of_cons in Hin as [Hin|Hin]; [done|]).
  by apply list_elem_of_In, Hall in Hin.
Qed.

(** A bare chain id is never a namespaced snapshot key. *)
Lemma isChainID_parseSnapshotKey s : isChainID s = true -> parseSnapshotKey s = None.
Proof.
  intros Hs%isChainID_no_slash. unfold parseSnapshotKey. cbn [SplitN].
  by rewrite (proj2 (Cut_byte_None s "/") Hs : Cut s "/" = None).
Qed.

(** ** Probing and materialising *)

(** The probe view does not outlive the call: it is created only for a layer
    that overlayfs has, and once created it is removed before the call
    returns, whether or not its mounts could be read. *)
Theorem overlayfsLayerPath_traces ns chainID tr res :
  exec (overlayfsLayerPath ns chainID) tr res <->
  (exists e, res = Ok "" /\ tr = [Ev (OvlStat ns chainID) (Err e)]) \/
  (exists i e, res = Err (Wrapf "creating probe view for chainID %s: %w" [chainID] e) /\
     tr = [Ev (OvlStat ns chainID) (Ok i); Ev (OvlView ns (probeKey chainID) chainID) (Err e)]) \/
  (exists i ms rm,
     res = match ms with
           | [] => Err (Errorf "no mounts returned for probe view of chainID %s" [chainID])
           | m :: rest => layerPathFromMounts m rest
           end /\
     tr = [Ev (OvlStat ns chainID) (Ok i);
           Ev (OvlView ns (probeKey chainID) chainID) (Ok ms);
           Ev (OvlRemove ns (probeKey chainID)) rm]).
Proof.
  unfold overlayfsLayerPath. split.
  - intros Hex. exec_inv Hex; [right; right|right; left|left]; eauto 10.
  - intros [(e & -> & ->)|[(i & e & -> & ->)|(i & ms & rm & -> & ->)]]; by exec_run.
Qed.

(** C32 A reference snapshot is all or nothing: if the call succeeds, the last
    thing it did was to commit the temporary snapshot under the chain id, after
    putting a symlink to the overlayfs layer where the snapshot's own
    directory was; if it fails after creating the temporary snapshot, the last
    thing it did was to remove it. *)
Theorem materializeReference_all_or_nothing ctx chainID parent ovl tr res :
  exec (materializeReference ctx chainID parent ovl) tr res ->
  match res with
  | Ok _ =>
      exists pm ms fs x1 x2 x3,
        upperdirFromMounts ms = Ok fs /\
        tr = [Ev (SnPrepare ctx (refTmpKey chainID) parent []) (Ok pm);
              Ev (SnMounts ctx (refTmpKey chainID)) (Ok ms);
              Ev (OsRemoveAll fs) (Ok x1); Ev (OsSymlink ovl fs) (Ok x2);
              Ev (SnCommit ctx chainID (refTmpKey chainID) []) (Ok x3)]
  | Err _ =>
      (exists e, tr = [Ev (SnPrepare ctx (refTmpKey chainID) parent []) (Err e)]) \/
      (exists tr' rm, tr = tr' ++ [Ev (SnRemove ctx (refTmpKey chainID)) rm])
  end.
Proof.
  unfold materializeReference, replaceWithSymlink. intros Hex. exec_inv Hex;
    first [ by do 6 eexists
          | by left; eexists
          | right; eexists (_ :: _ :: _ :: _ :: _ :: []), _; reflexivity
          | right; eexists (_ :: _ :: _ :: _ :: []), _; reflexivity
          | right; eexists (_ :: _ :: _ :: []), _; reflexivity
          | right; eexists (_ :: _ :: []), _; reflexivity ].
Qed.

(** ** Pins *)

(** [pinLayer] succeeds exactly when a lease with the two labels was created
    and the layer added to it, and then the gauge goes up by one.  When the
    layer cannot be added the new lease is deleted again and the gauge stays. *)
Theorem pinLayer_traces m ns chainID key tr res :
  exec (pinLayer m ns chainID key) tr res <->
  (exists l, res = Ok l /\
     tr = [Ev (LeaseCreate ns (leaseLabels key)) (Ok l);
           Ev (LeaseAddResource ns l (mkResource chainID "snapshots/overlayfs")) (Ok tt);
           Ev (PinnedInc (dm_nodeName m)) tt]) \/
  (exists l e rm,
     res = Err (Wrapf "adding snapshot resource to dedup lease (owner=%s): %w" [key] e) /\
     tr = [Ev (LeaseCreate ns (leaseLabels key)) (Ok l);
           Ev (LeaseAddResource ns l (mkResource chainID "snapshots/overlayfs")) (Err e);
           Ev (LeaseDelete ns (lease_ID l)) rm]) \/
  (exists e,
     res = Err (Wrapf "creating dedup lease for chainID %s (owner=%s): %w" [chainID; key] e) /\
     tr = [Ev (LeaseCreate ns (leaseLabels key)) (Err e)]).
Proof.
  unfold pinLayer. split.
  - intros Hex. exec_inv Hex; repeat match goal with u : unit |- _ => destruct u end;
      [left|right; left|right; right]; eauto 10.
  - intros [(l & -> & ->)|[(l & e & rm & -> & ->)|(e & -> & ->)]]; by exec_run.
Qed.

(** ** The books: leases against the gauge

    On any trace of the operations, the gauge rises with the leases created and
    falls with the leases deleted, except that a lease whose resource could not
    be added ([is_add_err]) may be left behind uncounted. *)
Definition balanced (tr : list (event sysE)) : Prop :=
  count is_inc tr + count is_delete_ok tr <= count is_create_ok tr + count is_dec tr /\
  count is_create_ok tr + count is_dec tr <=
    count is_inc tr + count is_delete_ok tr + count is_add_err tr.

(** An event outside the books. *)
Definition off_books (ev : event sysE) : bool :=
  negb (is_inc ev || is_dec ev || is_create_ok ev || is_delete_ok ev || is_add_err ev).

Lemma balanced_nil : balanced [].
Proof. done. Qed.

Lemma balanced_app tr1 tr2 : balanced tr1 -> balanced tr2 -> balanced (tr1 ++ tr2).
Proof. unfold balanced. autorewrite with go_rw. lia. Qed.

Lemma balanced_off_books tr : Forall (fun ev => off_books ev = true) tr -> balanced tr.
Proof.
  unfold balanced. induction 1 as [|ev tr Hev _ IH]; simpl; [lia|].
  unfold off_books in Hev. rewrite negb_true_iff, !orb_false_iff in Hev.
  destruct Hev as [[[[-> ->] ->] ->] ->]. lia.
Qed.

Lemma balanced_cons_off ev tr : off_books ev = true -> balanced tr -> balanced (ev :: tr).
Proof.
  intros Hev. apply (balanced_app [ev]). apply balanced_off_books. by repeat constructor.
Qed.

Create HintDb books.
#[export] Hint Resolve balanced_nil balanced_app balanced_off_books balanced_cons_off : books.

Lemma pinLayer_balanced m ns chainID key tr res :
  exec (pinLayer m ns chainID key) tr res -> balanced tr.
Proof. unfold pinLayer, balanced. intros Hex. exec_inv Hex; simpl; repeat case_match; lia. Qed.

Lemma unpinLoop_balanced m ns all tr res : exec (unpinLoop m ns all) tr res -> balanced tr.
Proof.
  revert tr. induction all as [|l all IH]; intros tr Hex; simpl in Hex.
  - exec_inv Hex. auto with books.
  - exec_inv Hex; apply IH in Hex; unfold balanced in *; simpl; lia.
Qed.

Lemma unpinByActiveKey_balanced m ns key tr res :
  exec (unpinByActiveKey m ns key) tr res -> balanced tr.
Proof.
  unfold unpinByActiveKey. intros Hex. do 2 exec_step Hex; [|exec_inv Hex; auto with books].
  apply unpinLoop_balanced in Hex. auto with books.
Qed.

Lemma deleteLease_balanced m ns id tr res : exec (deleteLease m ns id) tr res -> balanced tr.
Proof. unfold deleteLease, balanced. intros Hex. exec_inv Hex; simpl; repeat case_match; lia. Qed.

Lemma countLoop_balanced ctx all c tr res : exec (countLoop ctx all c) tr res -> balanced tr.
Proof.
  revert c tr. induction all as [|l all IH]; intros c tr Hex; simpl in Hex.
  - exec_inv Hex. auto with books.
  - destruct (decide _); [eauto|]. do 2 exec_step Hex; apply IH in Hex; auto with books.
Qed.

Lemma gcLoop_balanced m ctx ns all d tr res : exec (gcLoop m ctx ns all d) tr res -> balanced tr.
Proof.
  revert d tr. induction all as [|l all IH]; intros d tr Hex; simpl in Hex.
  - exec_inv Hex. auto with books.
  - destruct (decide _); [eauto|]. do 2 exec_step Hex.
    + apply IH in Hex. auto with books.
    + exec_inv Hex; apply IH in Hex; unfold balanced in *; simpl; lia.
Qed.

Lemma statWithLazyMaterialise_off_books ctx key tr res :
  exec (statWithLazyMaterialise ctx key) tr res -> Forall (fun ev => off_books ev = true) tr.
Proof.
  unfold statWithLazyMaterialise, overlayfsLayerPath, materialiseLocked, resolveParentChainID,
    materializeReference, replaceWithSymlink.
  intros Hex. exec_inv Hex; repeat constructor.
Qed.
