(* ===== verification/Service.v ===== *)
(** * The snapshotter service ([pkg/containerd/snapshotter/service.go])

    [snapshotter] wraps the native overlay snapshotter: [Mounts] redirects the
    writable layer, [Stat], [Prepare] and [Remove] drive layer sharing, the
    other methods pass through.  The HTTP handlers and the scrape hook expose
    the leases.  Log calls are left out. *)

From S2P Require Import Prelude GoStrings System Laws Mount Template Json Annotation.
From S2P Require Import Resolver Dedup.
Local Open Scope go_scope.

(** ** The service *)

Record snapshotter := mkSnapshotter {
  sn_resolver : resolver;
  sn_dedup : option dedupManager  (** [None]: [--share-overlayfs-lowers=false] *)
}.

(** [cleanerSnapshotter] adds [Cleanup] to it. *)
Record cleanerSnapshotter := mkCleanerSnapshotter { cs_snapshotter : snapshotter }.

(** A call either returns or panics. *)
Inductive outcome (A : Type) :=
| Returns (a : A)
| Panics (reason : string).
Arguments Returns {A} a.
Arguments Panics {A} reason.

(** ** Snapshotter methods *)

Definition Stat (sn : snapshotter) (ctx : Ctx) (key : string) : prog sysE (result Info) :=
  let! st := call (SnStat ctx key) in
  match st with
  | Ok info => Ret (Ok info)
  | Err err =>
      match sn_dedup sn with
      | Some _ => statWithLazyMaterialise ctx key
      | None => Ret (Err err)
      end
  end.

Definition Update (sn : snapshotter) (ctx : Ctx) (info : Info) (fieldpaths : list string)
    : prog sysE (result Info) :=
  call (SnUpdate ctx info fieldpaths).

Definition Usage_ (sn : snapshotter) (ctx : Ctx) (key : string) : prog sysE (result Usage) :=
  call (SnUsage ctx key).

(** The log call after the redirection evaluates [mounts[0].Options], which
    panics when the native snapshotter returned no mount. *)
Definition Mounts `{TemplateEngine} `{JsonParser} (sn : snapshotter) (ctx : Ctx) (key : string)
    : prog sysE (outcome (result (list Mount))) :=
  try! mounts := call (SnMounts ctx key)
  catch err => Ret (Returns (Err err)) in
  let! resolved := resolveAtMountsTime (sn_resolver sn) key in
  let upperdirPath := match resolved with Ok p => p | Err _ => "" end in
  if decide (upperdirPath <> "") then
    try! _ := ensureUpperdirReady upperdirPath
    catch err => Ret (Returns (Err err)) in
    match replaceUpperdirOptions mounts upperdirPath with
    | [] => Ret (Panics "index out of range [0] with length 0")
    | mounts' => Ret (Returns (Ok mounts'))
    end
  else Ret (Returns (Ok mounts)).

(** The scratch [Info] that the options are also applied to is only logged. *)
Definition Prepare (sn : snapshotter) (ctx : Ctx) (key parent : string) (opts : list Opt)
    : prog sysE (result (list Mount)) :=
  let! res := call (SnPrepare ctx key parent opts) in
  match sn_dedup sn with
  | None => Ret res
  | Some dedup =>
      match parseSnapshotKey key, parseSnapshotKey parent with
      | Some (ns, activeID), Some (_, parentChainID) =>
          if negb (isChainID activeID) && isChainID parentChainID then
            let! _ := pinLayer dedup ns parentChainID key in
            Ret res
          else Ret res
      | _, _ => Ret res
      end
  end.

Definition View (sn : snapshotter) (ctx : Ctx) (key parent : string) (opts : list Opt)
    : prog sysE (result (list Mount)) :=
  call (SnView ctx key parent opts).

Definition Commit (sn : snapshotter) (ctx : Ctx) (name key : string) (opts : list Opt)
    : prog sysE (result unit) :=
  call (SnCommit ctx name key opts).

Definition Remove (sn : snapshotter) (ctx : Ctx) (key : string) : prog sysE (result unit) :=
  let! res := call (SnRemove ctx key) in
  match sn_dedup sn with
  | None => Ret res
  | Some dedup =>
      match parseSnapshotKey key with
      | Some (ns, _) =>
          let! _ := unpinByActiveKey dedup ns key in
          Ret res
      | None => Ret res
      end
  end.

Definition Walk (sn : snapshotter) (ctx : Ctx) (fn : WalkFunc) (filters : list string)
    : prog sysE (result unit) :=
  call (SnWalk ctx fn filters).

(** The error of closing the client is overwritten by the second assignment. *)
Definition Close (sn : snapshotter) : prog sysE (result unit) :=
  let! _ := call ClientClose in
  call SnClose.

Definition Cleanup (sn : cleanerSnapshotter) (ctx : Ctx) : prog sysE (result unit) :=
  try! _ := call (SnCleanup ctx)
  catch err => Ret (Err err) in
  Ret (Ok tt).

(** ** Metrics and HTTP *)

Definition RegisterScrapeHook (sn : snapshotter) (ctx : Ctx) : prog sysE unit :=
  match sn_dedup sn with
  | None => Ret tt
  | Some dedup =>
      let! count := countOrphanLeases ctx containerdNamespaceK8s in
      call (OrphanSet (dm_nodeName dedup) count)
  end.

Record leaseEntry := mkLeaseEntry {
  le_ID : string;
  le_CreatedAt : string;
  le_Labels : gmap string string
}.

(** What a handler writes: a status, and a body unless [ctx.Status] was used. *)
Inductive body :=
| BodyError (e : error)
| BodyMessage (msg : string)
| BodyLeases (entries : list leaseEntry)
| BodyDeleted (n : Z)
| NoBody.
Record response := mkResponse { resp_status : Z; resp_body : body }.

Definition StatusOK : Z := 200.
Definition StatusNoContent : Z := 204.
Definition StatusBadRequest : Z := 400.
Definition StatusInternalServerError : Z := 500.
Definition StatusNotImplemented : Z := 501.

(** [CreatedAt.UTC().Format("2006-01-02T15:04:05Z")], from seconds since the
    epoch. *)
Definition civil_of_days (days : Z) : Z * Z * Z :=
  (let z := days + 719468 in
   let era := z / 146097 in
   let doe := z mod 146097 in
   let yoe := (doe - doe / 1460 + doe / 36524 - doe / 146096) / 365 in
   let doy := doe - (365 * yoe + yoe / 4 - yoe / 100) in
   let mp := (5 * doy + 2) / 153 in
   let d := doy - (153 * mp + 2) / 5 + 1 in
   let m := if mp <? 10 then mp + 3 else mp - 9 in
   (yoe + era * 400 + (if m <=? 2 then 1 else 0), m, d))%Z.

(** The last [n] decimal digits of [z]. *)
Fixpoint digits (n : nat) (z : Z) : string :=
  match n with
  | 0 => ""
  | S n' => digits n' (z / 10) +:+ String (ascii_of_nat (48 + Z.to_nat (z mod 10))) ""
  end.

Definition formatUTC (t : Z) : string :=
  let '(y, m, d) := civil_of_days (t / 86400)%Z in
  let s := (t mod 86400)%Z in
  digits 4 y +:+ "-" +:+ digits 2 m +:+ "-" +:+ digits 2 d +:+ "T" +:+
  digits 2 (s / 3600)%Z +:+ ":" +:+ digits 2 (s / 60 mod 60)%Z +:+ ":" +:+
  digits 2 (s mod 60)%Z +:+ "Z".

Definition notEnabled : response :=
  mkResponse StatusNotImplemented
    (BodyMessage "dedup not enabled (--share-overlayfs-lowers=false)").

Definition handleListLeases (sn : snapshotter) (ctx : Ctx) : prog sysE response :=
  match sn_dedup sn with
  | None => Ret notEnabled
  | Some _ =>
      try! all := listManagedLeases containerdNamespaceK8s
      catch err => Ret (mkResponse StatusInternalServerError (BodyError err)) in
      Ret (mkResponse StatusOK (BodyLeases
        (map (fun l => mkLeaseEntry (lease_ID l) (formatUTC (lease_CreatedAt l)) (lease_Labels l))
             all)))
  end.

Definition handleDeleteLease (sn : snapshotter) (ctx : Ctx) (leaseID : string)
    : prog sysE response :=
  match sn_dedup sn with
  | None => Ret notEnabled
  | Some dedup =>
      if decide (leaseID = "") then
        Ret (mkResponse StatusBadRequest (BodyMessage "leaseID is required"))
      else
        try! _ := deleteLease dedup containerdNamespaceK8s leaseID
        catch err => Ret (mkResponse StatusInternalServerError (BodyError err)) in
        Ret (mkResponse StatusNoContent NoBody)
  end.

Definition handleGCLeases (sn : snapshotter) (ctx : Ctx) : prog sysE response :=
  match sn_dedup sn with
  | None => Ret notEnabled
  | Some dedup =>
      let! deleted := gcOrphanLeases dedup ctx containerdNamespaceK8s in
      Ret (mkResponse StatusOK (BodyDeleted deleted))
  end.

(** The routes, with [:leaseID] the parameter of the handler. *)
Inductive method := GET | POST | DELETE.
Definition RegisterRoute (sn : snapshotter)
    : list (method * string * (Ctx -> string -> prog sysE response)) :=
  [(GET, "/dedup/leases", fun ctx _ => handleListLeases sn ctx);
   (DELETE, "/dedup/leases/:leaseID", fun ctx leaseID => handleDeleteLease sn ctx leaseID);
   (POST, "/dedup/leases/gc", fun ctx _ => handleGCLeases sn ctx)].

(** ** Requests

    The daemon's life is a sequence of requests: containerd's calls of the
    snapshots API, scrapes, and operators' HTTP calls. *)
Inductive request :=
| ReqStat (ctx : Ctx) (key : string)
| ReqUpdate (ctx : Ctx) (info : Info) (fieldpaths : list string)
| ReqUsage (ctx : Ctx) (key : string)
| ReqMounts (ctx : Ctx) (key : string)
| ReqPrepare (ctx : Ctx) (key parent : string) (opts : list Opt)
| ReqView (ctx : Ctx) (key parent : string) (opts : list Opt)
| ReqCommit (ctx : Ctx) (name key : string) (opts : list Opt)
| ReqRemove (ctx : Ctx) (key : string)
| ReqWalk (ctx : Ctx) (fn : WalkFunc) (filters : list string)
| ReqCleanup (ctx : Ctx)
| ReqScrape (ctx : Ctx)
| ReqListLeases (ctx : Ctx)
| ReqDeleteLease (ctx : Ctx) (leaseID : string)
| ReqGCLeases (ctx : Ctx).

Section Serve.
Context `{TemplateEngine} `{JsonParser}.

Definition serve (sn : snapshotter) (q : request) : prog sysE unit :=
  match q with
  | ReqStat ctx key => Stat sn ctx key ;; Ret tt
  | ReqUpdate ctx info fps => Update sn ctx info fps ;; Ret tt
  | ReqUsage ctx key => Usage_ sn ctx key ;; Ret tt
  | ReqMounts ctx key => Mounts sn ctx key ;; Ret tt
  | ReqPrepare ctx key parent opts => Prepare sn ctx key parent opts ;; Ret tt
  | ReqView ctx key parent opts => View sn ctx key parent opts ;; Ret tt
  | ReqCommit ctx name key opts => Commit sn ctx name key opts ;; Ret tt
  | ReqRemove ctx key => Remove sn ctx key ;; Ret tt
  | ReqWalk ctx fn filters => Walk sn ctx fn filters ;; Ret tt
  | ReqCleanup ctx => Cleanup (mkCleanerSnapshotter sn) ctx ;; Ret tt
  | ReqScrape ctx => RegisterScrapeHook sn ctx
  | ReqListLeases ctx => handleListLeases sn ctx ;; Ret tt
  | ReqDeleteLease ctx id => handleDeleteLease sn ctx id ;; Ret tt
  | ReqGCLeases ctx => handleGCLeases sn ctx ;; Ret tt
  end.

Fixpoint serveAll (sn : snapshotter) (qs : list request) : prog sysE unit :=
  match qs with
  | [] => Ret tt
  | q :: qs' => serve sn q ;; serveAll sn qs'
  end.
End Serve.

(** ** Mounts *)

Section MountsLemmas.
Context `{TemplateEngine} `{JsonParser}.

(** What [Mounts] makes of a resolution. *)
Definition pathOf (res : result string) : string :=
  match res with Ok p => p | Err _ => "" end.

(** The shape of every behaviour of [Mounts]. *)
Lemma Mounts_inv sn ctx key tr out :
  exec (Mounts sn ctx key) tr out ->
  (exists e, tr = [Ev (SnMounts ctx key) (Err e)] /\ out = Returns (Err e)) \/
  exists ms res tr1 tr2,
    exec (resolveAtMountsTime (sn_resolver sn) key) tr1 res /\
    tr = Ev (SnMounts ctx key) (Ok ms) :: tr1 ++ tr2 /\
    ((pathOf res = "" /\ tr2 = [] /\ out = Returns (Ok ms)) \/
     (exists p r, res = Ok p /\ p <> "" /\ exec (ensureUpperdirReady p) tr2 r /\
        out = match r with
              | Err e => Returns (Err e)
              | Ok _ =>
                  match replaceUpperdirOptions ms p with
                  | [] => Panics "index out of range [0] with length 0"
                  | ms' => Returns (Ok ms')
                  end
              end)).
Proof.
  unfold Mounts. intros Hex. exec_step Hex. exec_step Hex; [right|left].
  2: { exec_inv Hex. eauto. }
  apply exec_bind in Hex as (tr1 & res & tr2 & -> & Hres & Hex).
  do 4 eexists. split; [exact Hres|]. split; [reflexivity|].
  fold (pathOf res) in Hex. destruct (decide (pathOf res <> "")) as [Hp|Hp].
  - right. destruct res as [p|]; [|done]. cbn [pathOf] in *.
    apply exec_bind in Hex as (tr3 & r & tr4 & -> & Hens & Hex).
    exists p, r. destruct r as [u|e].
    + split_and!; try done.
      * destruct (replaceUpperdirOptions _ _); exec_inv Hex; by rewrite app_nil_r.
      * destruct (replaceUpperdirOptions _ _); by exec_inv Hex.
    + exec_inv Hex. by rewrite app_nil_r.
  - left. exec_inv Hex. split_and!; try done. by destruct (decide (pathOf res = "")).
Qed.

(** Once a path was resolved, the rest is [ensureUpperdirReady] and the
    redirection. *)
Lemma Mounts_redirecting sn ctx key ms p tr1 tr2 out :
  p <> "" -> exec (resolveAtMountsTime (sn_resolver sn) key) tr1 (Ok p) ->
  (exists r, exec (ensureUpperdirReady p) tr2 r /\
     out = match r with
           | Err e => Returns (Err e)
           | Ok _ =>
               match replaceUpperdirOptions ms p with
               | [] => Panics "index out of range [0] with length 0"
               | ms' => Returns (Ok ms')
               end
           end) ->
  exec (Mounts sn ctx key) (Ev (SnMounts ctx key) (Ok ms) :: tr1 ++ tr2) out.
Proof.
  intros Hp Hres (r & Hens & ->). unfold Mounts. exec_run. apply exec_bind.
  exists tr1, (Ok p), tr2. split_and!; [done..|]. rewrite decide_True by done.
  apply exec_bind. exists tr2, r, []. rewrite app_nil_r. split_and!; [done..|].
  destruct r; [|by exec_run]. by destruct (replaceUpperdirOptions ms p); exec_run.
Qed.

(** C1 What the caller gets from [Mounts]: the native mounts when the pod asks
    for nothing, and otherwise the native mounts with the writable layer
    redirected to the pod's directory, which was seen to be a mountpoint and
    now has its two subdirectories.  Nothing else is ever returned. *)
Theorem Mounts_returns_iff sn ctx key tr ms' :
  exec (Mounts sn ctx key) tr (Returns (Ok ms')) <->
  exists ms res tr1 tr2,
    tr = Ev (SnMounts ctx key) (Ok ms) :: tr1 ++ tr2 /\
    exec (resolveAtMountsTime (sn_resolver sn) key) tr1 res /\
    ((pathOf res = "" /\ tr2 = [] /\ ms' = ms) \/
     (exists p, res = Ok p /\ p <> "" /\ exec (ensureUpperdirReady p) tr2 (Ok tt) /\
        ms <> [] /\ ms' = replaceUpperdirOptions ms p)).
Proof.
  split.
  - intros [(e & _ & ?)|(ms & res & tr1 & tr2 & Hres & -> & Hout)]%Mounts_inv; [done|].
    exists ms, res, tr1, tr2. split_and!; [done..|].
    destruct Hout as [(Hp & -> & [= <-])|(p & r & -> & Hp & Hens & Hout)]; [by left|right].
    exists p. destruct r as [[]|]; [|done].
    destruct ms as [|m ms]; [done|].
    split_and!; try done. by destruct (replaceUpperdirOptions (m :: ms) p); simplify_eq.
  - intros (ms & res & tr1 & tr2 & -> & Hres & Hout).
    destruct Hout as [(Hp & -> & ->)|(p & -> & Hp & Hens & Hms & ->)].
    + unfold Mounts. exec_run. apply exec_bind. exists tr1, res, []. split_and!; [done..|].
      fold (pathOf res). by rewrite decide_False by (intros H'; by apply H').
    + eapply Mounts_redirecting; [done..|]. exists (Ok tt). split; [done|].
      destruct ms as [|m ms]; [done|]. simpl. by repeat case_match.
Qed.

(** C37 [Mounts] fails hard once the pod has asked for a directory: apart from
    the native snapshotter's own error, an error is returned exactly when the
    requested directory could not be prepared.  It panics exactly when the
    directory is ready and the native snapshotter had returned no mount. *)
Theorem Mounts_fails_iff sn ctx key tr :
  (forall e, exec (Mounts sn ctx key) tr (Returns (Err e)) <->
     tr = [Ev (SnMounts ctx key) (Err e)] \/
     exists ms p tr1 tr2, p <> "" /\
       tr = Ev (SnMounts ctx key) (Ok ms) :: tr1 ++ tr2 /\
       exec (resolveAtMountsTime (sn_resolver sn) key) tr1 (Ok p) /\
       exec (ensureUpperdirReady p) tr2 (Err e)) /\
  ((exists why, exec (Mounts sn ctx key) tr (Panics why)) <->
     exists p tr1 tr2, p <> "" /\
       tr = Ev (SnMounts ctx key) (Ok []) :: tr1 ++ tr2 /\
       exec (resolveAtMountsTime (sn_resolver sn) key) tr1 (Ok p) /\
       exec (ensureUpperdirReady p) tr2 (Ok tt)).
Proof.
  split; [intros e|]; split.
  - intros [(e' & -> & [= ->])|(ms & res & tr1 & tr2 & Hres & -> & Hout)]%Mounts_inv; [by left|].
    right. destruct Hout as [(Hp & -> & [=])|(p & r & -> & Hp & Hens & Hout)].
    destruct r as [u|e']; [|simplify_eq; eauto 10]. by destruct (replaceUpperdirOptions ms p).
  - intros [->|(ms & p & tr1 & tr2 & Hp & -> & Hres & Hens)].
    + unfold Mounts. by exec_run.
    + eapply Mounts_redirecting; [done..|]. by exists (Err e).
  - intros [why [(e' & -> & [=])|(ms & res & tr1 & tr2 & Hres & -> & Hout)]%Mounts_inv].
    destruct Hout as [(Hp & -> & [=])|(p & r & -> & Hp & Hens & Hout)].
    destruct r as [[]|e']; [|done]. exists p, tr1, tr2. split_and!; try done.
    destruct ms as [|m ms]; [done|]. simpl in Hout. by repeat case_match.
  - intros (p & tr1 & tr2 & Hp & -> & Hres & Hens). eexists.
    eapply Mounts_redirecting; [done..|]. by exists (Ok tt).
Qed.
End MountsLemmas.

(** ** Stat, Prepare, Remove *)

(** Without [--share-overlayfs-lowers], [Stat], [Prepare] and [Remove] are
    the native calls: one call each, its answer returned as it is. *)
Theorem dedup_off_transparent sn ctx key parent opts :
  sn_dedup sn = None ->
  (forall tr r, exec (Stat sn ctx key) tr r <-> tr = [Ev (SnStat ctx key) r]) /\
  (forall tr r, exec (Prepare sn ctx key parent opts) tr r <->
                tr = [Ev (SnPrepare ctx key parent opts) r]) /\
  (forall tr r, exec (Remove sn ctx key) tr r <-> tr = [Ev (SnRemove ctx key) r]).
Proof.
  intros Hd. unfold Stat, Prepare, Remove. rewrite Hd.
  split_and!; intros tr r; (split; [intros Hex; by exec_inv Hex|intros ->]); exec_run; [|done|done].
  by destruct r; exec_run.
Qed.

(** [Prepare] returns the native snapshotter's answer whatever happens to
    the lease, and tries to pin exactly when layer sharing is on, the key is a
    container's and the parent is a namespaced chain id. *)
Theorem Prepare_traces sn ctx key parent opts tr res :
  exec (Prepare sn ctx key parent opts) tr res <->
  exists tr', tr = Ev (SnPrepare ctx key parent opts) res :: tr' /\
    ((exists dm ns id ns' chainID r,
        sn_dedup sn = Some dm /\
        parseSnapshotKey key = Some (ns, id) /\ isChainID id = false /\
        parseSnapshotKey parent = Some (ns', chainID) /\ isChainID chainID = true /\
        exec (pinLayer dm ns chainID key) tr' r) \/
     ((forall dm ns id ns' chainID,
        sn_dedup sn = Some dm -> parseSnapshotKey key = Some (ns, id) ->
        parseSnapshotKey parent = Some (ns', chainID) ->
        isChainID id = true \/ isChainID chainID = false) /\ tr' = [])).
Proof.
  unfold Prepare. split.
  - intros Hex. do 1 exec_step Hex. eexists. destruct (sn_dedup sn) as [dm|] eqn:Hd.
    2: { exec_inv Hex. split; [reflexivity|]. by right. }
    destruct (parseSnapshotKey key) as [[ns id]|]; [|exec_inv Hex; split; [done|by right]].
    destruct (parseSnapshotKey parent) as [[ns' chainID]|];
      [|exec_inv Hex; split; [done|by right]].
    destruct (negb (isChainID id) && isChainID chainID) eqn:Hc.
    + apply exec_bind in Hex as (tr1 & r & tr2 & -> & Hpin & Hex). exec_inv Hex.
      rewrite app_nil_r. apply andb_true_iff in Hc as [Hc1%negb_true_iff Hc2].
      split; [done|]. left. by do 6 eexists.
    + exec_inv Hex. split; [done|]. right. split; [|done]. intros. simplify_eq.
      apply andb_false_iff in Hc as [?%negb_false_iff|?]; auto.
  - intros (tr' & -> & Hc). exec_run.
    destruct Hc as [(dm & ns & id & ns' & chainID & r & -> & -> & Hi & -> & Hch & Hpin)|[Hno ->]].
    + rewrite Hi, Hch. cbn [negb andb]. apply exec_bind. exists tr', r, []. by rewrite app_nil_r.
    + destruct (sn_dedup sn) as [dm|]; [|done].
      destruct (parseSnapshotKey key) as [[ns id]|]; [|done].
      destruct (parseSnapshotKey parent) as [[ns' chainID]|]; [|done].
      by destruct (Hno dm ns id ns' chainID eq_refl eq_refl eq_refl) as [-> | ->];
        rewrite ?andb_false_r.
Qed.

(** [Remove] returns the native snapshotter's answer: releasing the leases
    comes after it and cannot change it, and is done for every namespaced key
    when layer sharing is on. *)
Theorem Remove_traces sn ctx key tr res :
  exec (Remove sn ctx key) tr res <->
  exists tr', tr = Ev (SnRemove ctx key) res :: tr' /\
    match sn_dedup sn, parseSnapshotKey key with
    | Some dm, Some (ns, _) => exec (unpinByActiveKey dm ns key) tr' tt
    | _, _ => tr' = []
    end.
Proof.
  unfold Remove. split.
  - intros Hex. do 1 exec_step Hex. eexists. split.
    + destruct (sn_dedup sn); [|exec_inv Hex; done].
      destruct (parseSnapshotKey key) as [[ns id]|]; [|exec_inv Hex; done].
      apply exec_bind in Hex as (tr1 & [] & tr2 & -> & _ & Hex). by exec_inv Hex.
    + destruct (sn_dedup sn); [|exec_inv Hex; done].
      destruct (parseSnapshotKey key) as [[ns id]|]; [|exec_inv Hex; done].
      apply exec_bind in Hex as (tr1 & [] & tr2 & -> & Hun & Hex). exec_inv Hex.
      by rewrite app_nil_r.
  - intros (tr' & -> & Hc). exec_run.
    destruct (sn_dedup sn); [|by subst]. destruct (parseSnapshotKey key) as [[ns id]|]; [|by subst].
    apply exec_bind. exists tr', tt, []. by rewrite app_nil_r.
Qed.

(** [Stat] never invents an answer: a snapshot it describes was described, by
    that very [Info], by the local snapshotter for that key during the call. *)
Theorem Stat_info_is_local sn ctx key tr info :
  exec (Stat sn ctx key) tr (Ok info) -> Ev (SnStat ctx key) (Ok info) ∈ tr.
Proof.
  unfold Stat, statWithLazyMaterialise, overlayfsLayerPath, materialiseLocked,
    resolveParentChainID, materializeReference, replaceWithSymlink.
  intros Hex. exec_inv Hex; try discriminate; in_trace.
Qed.

(** With layer sharing on, a [Stat] of a key that is not a bare chain id -
    in particular of any namespaced key [ns/seq/id] - never reaches the
    overlayfs snapshotter, and its failure is reported as an error that is no
    longer a not-found error, whatever the local snapshotter had said. *)
Theorem Stat_dedup_not_chainID sn ctx key dm :
  sn_dedup sn = Some dm ->
  (is_Some (parseSnapshotKey key) -> isChainID key = false) /\
  (isChainID key = false -> forall tr res,
     exec (Stat sn ctx key) tr res <->
     (exists info, res = Ok info /\ tr = [Ev (SnStat ctx key) (Ok info)]) \/
     (exists e e', is_not_found e' = false /\ e' = Errorf "not a chainID: %s" [key] /\
        res = Err e' /\ tr = [Ev (SnStat ctx key) (Err e)])).
Proof.
  intros Hd. split.
  - intros [x Hx]. destruct (isChainID key) eqn:Hc; [|done].
    apply isChainID_parseSnapshotKey in Hc. congruence.
  - intros Hc tr res. unfold Stat, statWithLazyMaterialise. rewrite Hd, Hc. split.
    + intros Hex. exec_inv Hex; [left; eauto|right].
      eexists _, (Errorf "not a chainID: %s" [key]). by split_and!.
    + intros [(info & -> & ->)|(e & e' & _ & -> & -> & ->)]; by exec_run.
Qed.

(** ** Shutdown and HTTP *)

(** [Close] always closes both the client and the snapshotter, and reports
    only the snapshotter's error: a failure to close the client is lost. *)
Theorem Close_reports_snapshotter_only sn tr res :
  exec (Close sn) tr res <-> exists c, tr = [Ev ClientClose c; Ev SnClose res].
Proof.
  unfold Close. split.
  - intros Hex. exec_inv Hex. eauto.
  - intros [c ->]. by exec_run.
Qed.

(** The deletion endpoint answers 501 without layer sharing, 400 without an
    id, 204 when the lease was deleted and 500 for every failure, a missing
    lease included: it never answers 404. *)
Theorem handleDeleteLease_status sn ctx id tr resp :
  exec (handleDeleteLease sn ctx id) tr resp ->
  match sn_dedup sn with
  | None => tr = [] /\ resp_status resp = 501%Z
  | Some dm =>
      if decide (id = "") then tr = [] /\ resp_status resp = 400%Z
      else
        (tr = [Ev (LeaseDelete "k8s.io" id) (Ok tt); Ev (PinnedDec (dm_nodeName dm)) tt] /\
         resp = mkResponse 204 NoBody) \/
        (exists e, tr = [Ev (LeaseDelete "k8s.io" id) (Err e)] /\ resp_status resp = 500%Z)
  end.
Proof.
  unfold handleDeleteLease, deleteLease. intros Hex.
  destruct (sn_dedup sn) as [dm|]; [|by exec_inv Hex].
  destruct (decide (id = "")); [by exec_inv Hex|].
  exec_inv Hex; repeat match goal with u : unit |- _ => destruct u end; eauto.
Qed.

(** ** The books over the daemon's life *)

Section Books.
Context `{TemplateEngine} `{JsonParser}.

Lemma ensureUpperdirReady_off_books root tr r :
  exec (ensureUpperdirReady root) tr r -> Forall (fun ev => off_books ev = true) tr.
Proof. unfold ensureUpperdirReady, mkSubdirs. intros Hex. exec_inv Hex; repeat constructor. Qed.

Lemma ctr_reads_off_books tr :
  Forall (fun ev => is_ctr_read ev = true) tr -> Forall (fun ev => off_books ev = true) tr.
Proof. intros Htr. eapply Forall_impl; [exact Htr|]. intros [X e x]. by destruct e. Qed.

Lemma Mounts_balanced sn ctx key tr out : exec (Mounts sn ctx key) tr out -> balanced tr.
Proof.
  intros [(e & -> & _)|(ms & res & tr1 & tr2 & Hres & -> & Hout)]%Mounts_inv; [done|].
  apply balanced_cons_off; [done|]. apply balanced_app.
  - eauto using resolve_reads, ctr_reads_off_books, balanced_off_books.
  - destruct Hout as [(_ & -> & _)|(p & r & _ & _ & Hens & _)]; [done|].
    eauto using ensureUpperdirReady_off_books, balanced_off_books.
Qed.

Lemma Stat_balanced sn ctx key tr res : exec (Stat sn ctx key) tr res -> balanced tr.
Proof.
  unfold Stat. intros Hex. do 2 exec_step Hex; [by exec_inv Hex|].
  apply balanced_cons_off; [done|]. destruct (sn_dedup sn); [|by exec_inv Hex].
  apply statWithLazyMaterialise_off_books in Hex. auto with books.
Qed.

Lemma Prepare_balanced sn ctx key parent opts tr res :
  exec (Prepare sn ctx key parent opts) tr res -> balanced tr.
Proof.
  unfold Prepare. intros Hex. do 1 exec_step Hex. apply balanced_cons_off; [done|].
  repeat case_match; try (by exec_inv Hex).
  apply exec_bind in Hex as (tr1 & r & tr2 & -> & Hpin%pinLayer_balanced & Hex).
  exec_inv Hex. auto with books.
Qed.

Lemma Remove_balanced sn ctx key tr res : exec (Remove sn ctx key) tr res -> balanced tr.
Proof.
  unfold Remove. intros Hex. do 1 exec_step Hex. apply balanced_cons_off; [done|].
  repeat case_match; try (by exec_inv Hex).
  apply exec_bind in Hex as (tr1 & r & tr2 & -> & Hun%unpinByActiveKey_balanced & Hex).
  exec_inv Hex. auto with books.
Qed.

Lemma scrape_balanced sn ctx tr res : exec (RegisterScrapeHook sn ctx) tr res -> balanced tr.
Proof.
  unfold RegisterScrapeHook, countOrphanLeases. intros Hex.
  destruct (sn_dedup sn); [|by exec_inv Hex].
  do 2 exec_step Hex; [|by exec_inv Hex].
  apply exec_bind in Hex as (tr1 & r & tr2 & -> & Hc%countLoop_balanced & Hex).
  exec_inv Hex. auto with books.
Qed.

Lemma gc_balanced sn ctx tr res : exec (handleGCLeases sn ctx) tr res -> balanced tr.
Proof.
  unfold handleGCLeases, gcOrphanLeases. intros Hex.
  destruct (sn_dedup sn); [|by exec_inv Hex].
  do 2 exec_step Hex; [|by exec_inv Hex].
  apply exec_bind in Hex as (tr1 & r & tr2 & -> & Hc%gcLoop_balanced & Hex).
  exec_inv Hex. auto with books.
Qed.

Lemma delete_balanced sn ctx id tr res : exec (handleDeleteLease sn ctx id) tr res -> balanced tr.
Proof.
  unfold handleDeleteLease. intros Hex. repeat case_match; try (by exec_inv Hex).
  apply exec_bind in Hex as (tr1 & r & tr2 & -> & Hdel%deleteLease_balanced & Hex).
  apply balanced_app; [done|]. by exec_inv Hex.
Qed.

Lemma serve_balanced sn q tr : exec (serve sn q) tr tt -> balanced tr.
Proof.
  intros Hex. destruct q; cbn [serve] in Hex;
    first [ by apply scrape_balanced in Hex
          | apply exec_bind in Hex as (tr1 & r & tr2 & -> & Hop & Hex); exec_inv Hex;
            rewrite app_nil_r ].
  - by apply Stat_balanced in Hop.
  - unfold Update in Hop. by exec_inv Hop.
  - unfold Usage_ in Hop. by exec_inv Hop.
  - by apply Mounts_balanced in Hop.
  - by apply Prepare_balanced in Hop.
  - unfold View in Hop. by exec_inv Hop.
  - unfold Commit in Hop. by exec_inv Hop.
  - by apply Remove_balanced in Hop.
  - unfold Walk in Hop. by exec_inv Hop.
  - unfold Cleanup in Hop. by exec_inv Hop.
  - unfold handleListLeases, listManagedLeases in Hop.
    destruct (sn_dedup sn); by exec_inv Hop.
  - by apply delete_balanced in Hop.
  - by apply gc_balanced in Hop.
Qed.

Lemma serveAll_balanced sn qs tr : exec (serveAll sn qs) tr tt -> balanced tr.
Proof.
  revert tr. induction qs as [|q qs IH]; intros tr Hex; cbn [serveAll] in Hex;
    [by exec_inv Hex|].
  apply exec_bind in Hex as (tr1 & [] & tr2 & -> & Hq & Hex).
  eauto using balanced_app, serve_balanced.
Qed.

(** The pinned gauge keeps pace with the leases over any sequence of
    requests, whatever fails: the change of the number of leases exceeds the
    change of the gauge by at least zero and at most the number of leases
    whose layer could not be added.  Without such failures they agree. *)
Theorem gauge_tracks_leases {W} (h : handler sysE W) (lv : W -> leases_view)
    `{!LeaseLaws h lv} sn qs w :
  let tr := trace h (serveAll sn qs) w in
  let w' := snd (run h (serveAll sn qs) w) in
  let leases := (Z.of_nat (size (lv w')) - Z.of_nat (size (lv w)))%Z in
  let gauge := (Z.of_nat (count is_inc tr) - Z.of_nat (count is_dec tr))%Z in
  (gauge <= leases <= gauge + Z.of_nat (count is_add_err tr))%Z.
Proof.
  simpl. pose proof (run_exec h (serveAll sn qs) w) as Hex.
  destruct (fst (run h (serveAll sn qs) w)). apply serveAll_balanced in Hex.
  pose proof (run_size h lv (serveAll sn qs) w). unfold balanced in Hex. lia.
Qed.
End Books.
