(* ===== verification/LeaseState.v ===== *)
(** * What happens to the leases

    The lease operations of [Dedup.v] and [Service.v] against the laws of the
    leases service and of the local snapshotter ([Laws.v]): which leases an
    operation creates, deletes and keeps, and what a removal that fails does. *)

From S2P Require Import Prelude GoStrings System Laws Mount Template Json Annotation.
From S2P Require Import Resolver Dedup Service.
Local Open Scope go_scope.

(** A call to the leases service that failed. *)
Definition lease_call_failed (ev : event sysE) : bool :=
  match ev with
  | Ev (LeaseList _ _) (Err _) | Ev (LeaseDelete _ _) (Err _) => true
  | _ => false
  end.

(** The owner a lease names, [""] for none. *)
Definition ownerLabel (labels : gmap string string) : string :=
  default "" (labels !! leaseLabelOwnerKey).
Definition isManaged (labels : gmap string string) : bool :=
  bool_decide (labels !! leaseLabelManagedBy = Some leaseLabelManagedByValue).

Section LeaseState.
Context {W} (h : handler sysE W) (lv : W -> leases_view) (sv : W -> gset string).
Context `{!LeaseLaws h lv} `{!StatLaws h sv}.

(** ** One call *)

Lemma keep_step {X} (e : sysE X) w x w' :
  h X e w = (x, w') -> keeps_leases e = true -> lv w' = lv w.
Proof. intros He Hk. pose proof (lease_keep X e w Hk) as H. by rewrite He in H. Qed.

Lemma delete_step ns id w x w' :
  h _ (LeaseDelete ns id) w = (x, w') ->
  (exists u, x = Ok u /\ lv w' = delete (ns, id) (lv w)) \/
  (exists e, x = Err e /\ lv w' = lv w).
Proof.
  intros He. pose proof (lease_delete ns id w) as H. rewrite He in H.
  destruct x; naive_solver.
Qed.

(** Deletions only: every lease is as before, or gone and named by [gone]. *)
Definition only_deletes (gone : string * string -> Prop) (m m' : leases_view) : Prop :=
  forall k, m' !! k = m !! k \/ (m' !! k = None /\ gone k).

Lemma only_deletes_refl gone m : only_deletes gone m m.
Proof. intros k. by left. Qed.

Lemma only_deletes_trans (g1 g2 g : string * string -> Prop) m1 m2 m3 :
  (forall k, g1 k -> g k) -> (forall k, g2 k -> g k) ->
  only_deletes g1 m1 m2 -> only_deletes g2 m2 m3 -> only_deletes g m1 m3.
Proof.
  intros Hg1 Hg2 H12 H23 k. destruct (H12 k) as [Hk|[Hk ?]], (H23 k) as [Hk'|[Hk' ?]];
    rewrite ?Hk', ?Hk; auto.
Qed.

Lemma only_deletes_weaken (g1 g : string * string -> Prop) m m' :
  (forall k, g1 k -> g k) -> only_deletes g1 m m' -> only_deletes g m m'.
Proof. intros Hg H k. destruct (H k) as [?|[? ?]]; [by left|right; auto]. Qed.

Lemma only_deletes_delete (g : string * string -> Prop) k m :
  g k -> only_deletes g m (delete k m).
Proof.
  intros Hk k'. destruct (decide (k = k')) as [<-|Hne].
  - right. by rewrite lookup_delete_eq.
  - left. by rewrite lookup_delete_ne.
Qed.

Lemma only_deletes_None g m m' k : only_deletes g m m' -> m !! k = None -> m' !! k = None.
Proof. intros H Hk. destruct (H k) as [->|[? _]]; done. Qed.

(** ** Releasing the leases of a snapshot *)

Definition listed (ns : string) (all : list Lease) (k : string * string) : Prop :=
  exists l, l ∈ all /\ k = (ns, lease_ID l).

Lemma unpinLoop_state m ns all w :
  let w' := snd (run h (unpinLoop m ns all) w) in
  only_deletes (listed ns all) (lv w) (lv w') /\
  (count lease_call_failed (trace h (unpinLoop m ns all) w) = 0 ->
   forall l, l ∈ all -> lv w' !! (ns, lease_ID l) = None).
Proof.
  revert w. induction all as [|l all IH]; intros w; cbn [unpinLoop bind call run trace].
  { split; [apply only_deletes_refl|]. intros _ l Hl. by apply not_elem_of_nil in Hl. }
  destruct (h _ (LeaseDelete ns (lease_ID l)) w) as [x w1] eqn:H1.
  destruct (delete_step _ _ _ _ _ H1) as [(u & -> & Hlv)|(e & -> & Hlv)];
    cbn [bind run trace].
  - destruct (h _ (PinnedDec _) w1) as [y w2] eqn:H2.
    specialize (IH w2) as [IHo IHn]. rewrite (keep_step _ _ _ _ H2 eq_refl), Hlv in IHo.
    split.
    + eapply only_deletes_trans; [| |apply (only_deletes_delete (listed ns (l :: all)))|exact IHo].
      * done.
      * intros k (l' & Hl' & ->). exists l'. by split; [right|].
      * exists l. by split; [left|].
    + cbn [count]. simpl. intros Hc l' [->|Hl']%elem_of_cons; [|by apply IHn].
      eapply only_deletes_None; [exact IHo|]. apply lookup_delete_eq.
  - destruct (h _ (UnpinFailuresInc _) w1) as [y w2] eqn:H2.
    specialize (IH w2) as [IHo IHn]. rewrite (keep_step _ _ _ _ H2 eq_refl), Hlv in IHo.
    split; [|done].
    eapply only_deletes_trans; [| |apply only_deletes_refl|exact IHo]; [done|].
    intros k (l' & Hl' & ->). exists l'. by split; [right|].
Qed.

Lemma unpin_spec m ns key w :
  let w' := snd (run h (unpinByActiveKey m ns key) w) in
  only_deletes (fun k => exists labels, k.1 = ns /\ lv w !! k = Some labels /\
                  labels !! leaseLabelOwnerKey = Some key) (lv w) (lv w') /\
  (count lease_call_failed (trace h (unpinByActiveKey m ns key) w) = 0 ->
   forall id labels, lv w !! (ns, id) = Some labels ->
     labels !! leaseLabelOwnerKey = Some key -> lv w' !! (ns, id) = None).
Proof.
  unfold unpinByActiveKey. cbn [bind call run trace].
  set (f := mkLabelFilter leaseLabelOwnerKey key).
  destruct (h _ (LeaseList ns f) w) as [[all|e] w1] eqn:H1; cbn [run trace].
  2: { cbn [snd count]. rewrite (keep_step _ _ _ _ H1 eq_refl).
       split; [apply only_deletes_refl|by simpl]. }
  pose proof (unpinLoop_state m ns all w1) as [Ho Hn].
  rewrite (keep_step _ _ _ _ H1 eq_refl) in Ho.
  assert (Hls : fst (h _ (LeaseList ns f) w) = Ok all) by by rewrite H1.
  pose proof (lease_list ns f w all Hls) as [_ Hall].
  split.
  - eapply only_deletes_weaken; [|exact Ho].
    intros k (l & Hin & ->). destruct (Hall l Hin). by exists (lease_Labels l).
  - cbn [count]. simpl. intros Hc id labels Hl Hown.
    destruct (lease_list_complete ns f w all id labels Hls Hl Hown) as (l & Hin & <-).
    exact (Hn Hc l Hin).
Qed.

(** Releasing touches only the leases of that snapshot: every other lease
    is as before, none is created, and when no call to the leases service
    fails no lease of the snapshot is left. *)
Theorem unpinByActiveKey_state m ns key w :
  let w' := snd (run h (unpinByActiveKey m ns key) w) in
  (forall n id labels, lv w' !! (n, id) = Some labels -> lv w !! (n, id) = Some labels) /\
  (forall n id labels, lv w !! (n, id) = Some labels ->
     n <> ns \/ labels !! leaseLabelOwnerKey <> Some key -> lv w' !! (n, id) = Some labels) /\
  (count lease_call_failed (trace h (unpinByActiveKey m ns key) w) = 0 ->
   forall id labels, lv w' !! (ns, id) = Some labels -> labels !! leaseLabelOwnerKey <> Some key).
Proof.
  destruct (unpin_spec m ns key w) as [Ho Hn]. split_and!.
  - intros n id labels Hl. destruct (Ho (n, id)) as [Heq|[Heq _]]; congruence.
  - intros n id labels Hl Hne.
    destruct (Ho (n, id)) as [Heq|[_ (labels' & Hns & Hl' & Hown)]]; [congruence|].
    simpl in Hns. rewrite Hl in Hl'. injection Hl' as <-. by destruct Hne.
  - intros Hc id labels Hl Hown. destruct (Ho (ns, id)) as [Heq|[Heq _]]; [|congruence].
    rewrite Hl in Heq. symmetry in Heq. specialize (Hn Hc id labels Heq Hown). congruence.
Qed.

(** ** The orphan sweep *)

Lemma stat_step ctx key w x w' :
  h _ (SnStat ctx key) w = (x, w') -> sv w' = sv w /\ (forall i, x = Ok i -> key ∈ sv w).
Proof.
  intros He. split.
  - pose proof (stat_pure ctx key w) as H. by rewrite He in H.
  - intros i ->. pose proof (stat_ok ctx key w i) as H. rewrite He in H. auto.
Qed.

Lemma delete_keeps_sv ns id w x w' :
  h _ (LeaseDelete ns id) w = (x, w') -> sv w' = sv w.
Proof.
  intros He. pose proof (lease_calls_keep_snapshots _ (LeaseDelete ns id) w eq_refl) as H.
  by rewrite He in H.
Qed.

Lemma dec_keeps_sv node w x w' : h _ (PinnedDec node) w = (x, w') -> sv w' = sv w.
Proof. intros He. pose proof (metrics_keep_snapshots node w) as [H _]. by rewrite He in H. Qed.

(** The listed leases whose owner is named and missing. *)
Definition orphan_in (S : gset string) (ns : string) (all : list Lease)
    (k : string * string) : Prop :=
  exists l, l ∈ all /\ k = (ns, lease_ID l) /\ ownerOf l <> "" /\ ownerOf l ∉ S.

Lemma orphan_in_cons S ns l all k : orphan_in S ns all k -> orphan_in S ns (l :: all) k.
Proof. intros (l' & Hl' & ->  & H). exists l'. by split; [right|]. Qed.

Lemma gcLoop_state m ctx ns all d w :
  stat_reliable h sv ->
  let w' := snd (run h (gcLoop m ctx ns all d) w) in
  only_deletes (orphan_in (sv w) ns all) (lv w) (lv w') /\ sv w' = sv w /\
  (count lease_call_failed (trace h (gcLoop m ctx ns all d) w) = 0 ->
   forall k, orphan_in (sv w) ns all k -> lv w' !! k = None).
Proof.
  intros Hrel. revert d w.
  induction all as [|l all IH]; intros d w; cbn [gcLoop bind call run trace].
  { split_and!; [apply only_deletes_refl|done|]. intros _ k (l & Hl & _).
    by apply not_elem_of_nil in Hl. }
  (* the head is not deleted: the rest decides *)
  assert (Hskip : forall d1 w1, lv w1 = lv w -> sv w1 = sv w ->
    (ownerOf l = "" \/ ownerOf l ∈ sv w) ->
    let w' := snd (run h (gcLoop m ctx ns all d1) w1) in
    only_deletes (orphan_in (sv w) ns (l :: all)) (lv w) (lv w') /\ sv w' = sv w /\
    (count lease_call_failed (trace h (gcLoop m ctx ns all d1) w1) = 0 ->
     forall k, orphan_in (sv w) ns (l :: all) k -> lv w' !! k = None)).
  { intros d1 w1 Hlv Hsv Hl. destruct (IH d1 w1) as (Ho & Hs & Hn). rewrite Hlv, Hsv in *.
    split_and!; [|done|].
    - eapply only_deletes_weaken; [|exact Ho]; eauto using orphan_in_cons.
    - intros Hc k (l' & [->|Hin]%elem_of_cons & -> & Hne & Hnin); [by destruct Hl|].
      apply Hn; [done|]. by exists l'. }
  destruct (decide (ownerOf l = "")) as [Hown|Hown]; [apply Hskip; auto|].
  cbn [bind run trace].
  destruct (h _ (SnStat ctx (ownerOf l)) w) as [st w1] eqn:H1.
  destruct (stat_step _ _ _ _ _ H1) as [Hsv1 Hin].
  pose proof (keep_step _ _ _ _ H1 eq_refl) as Hlv1.
  destruct st as [i|e]; cbn [bind run trace count].
  { simpl. apply Hskip; eauto. }
  assert (Hnin : ownerOf l ∉ sv w) by (eapply Hrel; by rewrite H1).
  destruct (h _ (LeaseDelete ns (lease_ID l)) w1) as [del w2] eqn:H2.
  pose proof (delete_keeps_sv _ _ _ _ _ H2) as Hsv2. rewrite Hsv1 in Hsv2.
  destruct (delete_step _ _ _ _ _ H2) as [(u & -> & Hlv2)|(e' & -> & Hlv2)];
    rewrite Hlv1 in Hlv2; cbn [bind run trace count].
  - destruct (h _ (PinnedDec _) w2) as [y w3] eqn:H3.
    destruct (IH (d + 1)%Z w3) as (Ho & Hs & Hn).
    rewrite (dec_keeps_sv _ _ _ _ H3), (keep_step _ _ _ _ H3 eq_refl), Hlv2, Hsv2 in *.
    split_and!; [|done|].
    + eapply only_deletes_trans;
        [| |apply (only_deletes_delete (orphan_in (sv w) ns (l :: all)))|exact Ho];
        eauto using orphan_in_cons. exists l. by split; [left|].
    + simpl. intros Hc k (l' & [->|Hl']%elem_of_cons & -> & Hne & Hni).
      * eapply only_deletes_None; [exact Ho|]. apply lookup_delete_eq.
      * apply Hn; [done|]. by exists l'.
  - destruct (IH d w2) as (Ho & Hs & Hn). rewrite Hlv2, Hsv2 in *.
    split_and!; [|done|simpl; lia].
    eapply only_deletes_weaken; [|exact Ho]; eauto using orphan_in_cons.
Qed.

(** The sweep's return value is the number of deletions on its trace. *)
Lemma gcLoop_deleted m ctx ns all d tr r :
  exec (gcLoop m ctx ns all d) tr r ->
  r = (d + Z.of_nat (count is_delete_ok tr))%Z /\ count is_create_ok tr = 0.
Proof.
  revert d tr. induction all as [|l all IH]; intros d tr Hex; cbn [gcLoop] in Hex.
  - exec_inv Hex. simpl. lia.
  - destruct (decide _); [by apply IH|].
    do 2 exec_step Hex; [apply IH in Hex as [-> ?]; simpl; lia|].
    do 2 exec_step Hex; [exec_step Hex|]; apply IH in Hex as [-> ?]; simpl; lia.
Qed.

(** C25 The orphan sweep, when [Stat] fails only for missing snapshots and no
    call to the leases service fails, deletes exactly the managed leases of
    its namespace that name an owner which is not a local snapshot, keeps
    every other lease, and returns how many it deleted. *)
Theorem gcOrphanLeases_exact m ctx ns w :
  stat_reliable h sv ->
  count lease_call_failed (trace h (gcOrphanLeases m ctx ns) w) = 0 ->
  let '(deleted, w') := run h (gcOrphanLeases m ctx ns) w in
  (forall n id, lv w' !! (n, id) =
     match lv w !! (n, id) with
     | Some labels =>
         if bool_decide (n = ns) && isManaged labels &&
            bool_decide (ownerLabel labels <> "") && bool_decide (ownerLabel labels ∉ sv w)
         then None else Some labels
     | None => None
     end) /\
  deleted = (Z.of_nat (size (lv w)) - Z.of_nat (size (lv w')))%Z /\ sv w' = sv w.
Proof.
  intros Hrel. unfold gcOrphanLeases. cbn [bind call run trace].
  destruct (h _ (LeaseList ns managedFilter) w) as [[all|e] w1] eqn:H1; cbn [run trace count];
    [|by simpl].
  intros Hc. simpl in Hc.
  assert (Hls : fst (h _ (LeaseList ns managedFilter) w) = Ok all) by by rewrite H1.
  pose proof (lease_list ns managedFilter w all Hls) as [_ Hall].
  pose proof (gcLoop_state m ctx ns all 0 w1 Hrel) as (Ho & Hs & Hn).
  pose proof (run_size h lv (gcLoop m ctx ns all 0) w1) as Hsize.
  pose proof (run_exec h (gcLoop m ctx ns all 0) w1) as [Hd Hcr]%gcLoop_deleted.
  pose proof (list_keeps_snapshots ns managedFilter w) as Hsv. rewrite H1 in Hsv.
  rewrite (keep_step _ _ _ _ H1 eq_refl) in *. simpl in Hsv. rewrite Hsv in *.
  specialize (Hn Hc).
  destruct (run h (gcLoop m ctx ns all 0) w1) as [deleted w']. simpl in *.
  split_and!; [|lia|done].
  intros n id. destruct (Ho (n, id)) as [Heq|[Heq (l & Hin & [= -> ->] & Hne & Hnin)]].
  - rewrite Heq. destruct (lv w !! (n, id)) as [labels|] eqn:Hl; [|done].
    destruct (_ && _) eqn:Hb; [|done].
    rewrite !andb_true_iff, !bool_decide_eq_true in Hb. destruct Hb as [[[-> Hm] Hne] Hnin].
    unfold isManaged in Hm. apply bool_decide_eq_true in Hm.
    destruct (lease_list_complete ns managedFilter w all id labels Hls Hl Hm) as (l & Hin & <-).
    destruct (Hall l Hin) as [Hl' _]. rewrite Hl in Hl'. injection Hl' as Hlab.
    assert (lv w' !! (ns, lease_ID l) = None); [|congruence].
    apply Hn. exists l. unfold ownerOf. rewrite <-Hlab. split_and!; auto.
  - rewrite Heq. destruct (Hall l Hin) as [Hl Hm]. rewrite Hl. simpl in Hm.
    unfold ownerOf in *. unfold ownerLabel, isManaged.
    rewrite !bool_decide_eq_true_2 by done. done.
Qed.

(** ** A pinned layer stays pinned *)

Lemma gc_only_orphans m ctx ns w :
  stat_reliable h sv ->
  only_deletes (fun k => exists labels, k.1 = ns /\ lv w !! k = Some labels /\
                  isManaged labels = true /\
                  ownerLabel labels <> "" /\ ownerLabel labels ∉ sv w)
    (lv w) (lv (snd (run h (gcOrphanLeases m ctx ns) w))).
Proof.
  intros Hrel. unfold gcOrphanLeases. cbn [bind call run].
  destruct (h _ (LeaseList ns managedFilter) w) as [[all|e] w1] eqn:H1; cbn [run].
  2: { cbn [snd]. rewrite (keep_step _ _ _ _ H1 eq_refl). apply only_deletes_refl. }
  pose proof (gcLoop_state m ctx ns all 0 w1 Hrel) as (Ho & _ & _).
  assert (Hls : fst (h _ (LeaseList ns managedFilter) w) = Ok all) by by rewrite H1.
  pose proof (lease_list ns managedFilter w all Hls) as [_ Hall].
  pose proof (list_keeps_snapshots ns managedFilter w) as Hsv. rewrite H1 in Hsv.
  simpl in Hsv. rewrite (keep_step _ _ _ _ H1 eq_refl), Hsv in Ho.
  eapply only_deletes_weaken; [|exact Ho].
  intros k (l & Hin & -> & Hne & Hnin). destruct (Hall l Hin). exists (lease_Labels l).
  split_and!; [done..| |done|done]. by apply bool_decide_eq_true.
Qed.

(** Programs whose traces are off the books keep every lease. *)
Lemma off_books_keeps {A} (p : prog sysE A) w k v :
  Forall (fun ev => off_books ev = true) (trace h p w) ->
  lv w !! k = Some v -> lv (snd (run h p w)) !! k = Some v.
Proof.
  intros Hoff. apply (run_keeps_lease h lv). apply count_zero.
  eapply Forall_impl; [exact Hoff|]. intros ev. unfold off_books.
  rewrite negb_true_iff, !orb_false_iff. tauto.
Qed.

Lemma pinLayer_keeps m ns chainID key w k v :
  lv w !! k = Some v -> lv (snd (run h (pinLayer m ns chainID key) w)) !! k = Some v.
Proof.
  intros Hv. unfold pinLayer. cbn [bind call run].
  pose proof (lease_create ns (leaseLabels key) w) as Hcr.
  destruct (h _ (LeaseCreate ns (leaseLabels key)) w) as [[l|e] w1]; cbn [bind run snd];
    [|by rewrite Hcr].
  destruct Hcr as (Hnone & _ & Hlv).
  assert (Hv1 : lv w1 !! k = Some v) by (rewrite Hlv, lookup_insert_ne; congruence).
  destruct (h _ (LeaseAddResource _ _ _) w1) as [[u|e] w2] eqn:H2; cbn [bind run snd];
    rewrite <-(keep_step _ _ _ _ H2 eq_refl) in Hv1.
  - destruct (h _ (PinnedInc _) w2) as [y w3] eqn:H3. cbn [run snd].
    by rewrite (keep_step _ _ _ _ H3 eq_refl).
  - destruct (h _ (LeaseDelete _ _) w2) as [y w3] eqn:H3. cbn [run snd].
    destruct (delete_step _ _ _ _ _ H3) as [(u & _ & ->)|(e' & _ & ->)]; [|done].
    rewrite lookup_delete_ne; congruence.
Qed.

Context `{TemplateEngine} `{JsonParser}.

(** Requests under which the lease [id] of snapshot [key] may go: the
    removal of the snapshot, an operator's deletion of the lease, and a sweep
    that finds the snapshot missing. *)
Definition may_release (key id : string) (q : request) (w : W) : Prop :=
  match q with
  | ReqRemove _ key' => key' = key
  | ReqDeleteLease _ id' => id' = id
  | ReqGCLeases _ => key ∉ sv w
  | _ => False
  end.

Lemma serve_ret {A B} (p : prog sysE A) (b : A -> B) w :
  snd (run h (bind p (fun a => Ret (b a))) w) = snd (run h p w).
Proof. rewrite run_bind. by destruct (run h p w). Qed.

(** A program none of whose behaviours deletes a lease keeps them all. *)
Lemma quiet_keeps {A} (p : prog sysE A) w k v :
  (forall tr r, exec p tr r -> Forall (fun ev => off_books ev = true) tr) ->
  lv w !! k = Some v -> lv (snd (run h p w)) !! k = Some v.
Proof. intros Hq. apply off_books_keeps. eapply Hq, run_exec. Qed.

Lemma Mounts_off_books sn ctx key tr out :
  exec (Mounts sn ctx key) tr out -> Forall (fun ev => off_books ev = true) tr.
Proof.
  intros [(e & -> & _)|(ms & res & tr1 & tr2 & Hres & -> & Hout)]%Mounts_inv;
    [by repeat constructor|].
  constructor; [done|]. apply Forall_app. split.
  - eauto using resolve_reads, ctr_reads_off_books.
  - destruct Hout as [(_ & -> & _)|(p & r & _ & _ & Hens & _)]; [done|].
    eauto using ensureUpperdirReady_off_books.
Qed.

Lemma Stat_off_books sn ctx key tr res :
  exec (Stat sn ctx key) tr res -> Forall (fun ev => off_books ev = true) tr.
Proof.
  unfold Stat. intros Hex. do 2 exec_step Hex; [exec_inv Hex; by repeat constructor|].
  constructor; [done|]. destruct (sn_dedup sn); [|by exec_inv Hex].
  by apply statWithLazyMaterialise_off_books in Hex.
Qed.

Lemma countLoop_off_books ctx all c tr res :
  exec (countLoop ctx all c) tr res -> Forall (fun ev => off_books ev = true) tr.
Proof.
  revert c tr. induction all as [|l all IH]; intros c tr Hex; cbn [countLoop] in Hex.
  - exec_inv Hex. done.
  - destruct (decide _); [eauto|]. do 2 exec_step Hex; apply IH in Hex; by constructor.
Qed.

Lemma scrape_off_books sn ctx tr res :
  exec (RegisterScrapeHook sn ctx) tr res -> Forall (fun ev => off_books ev = true) tr.
Proof.
  unfold RegisterScrapeHook, countOrphanLeases. intros Hex.
  destruct (sn_dedup sn); [|by exec_inv Hex].
  do 2 exec_step Hex; [|exec_inv Hex; by repeat constructor].
  apply exec_bind in Hex as (tr1 & r & tr2 & -> & Hc%countLoop_off_books & Hex).
  exec_inv Hex. constructor; [done|]. apply Forall_app. split; [done|]. by repeat constructor.
Qed.

Lemma Prepare_keeps sn ctx key parent opts w k v :
  lv w !! k = Some v -> lv (snd (run h (Prepare sn ctx key parent opts) w)) !! k = Some v.
Proof.
  intros Hv. unfold Prepare. cbn [bind call run].
  destruct (h _ (SnPrepare ctx key parent opts) w) as [res w1] eqn:H1.
  rewrite <-(keep_step _ _ _ _ H1 eq_refl) in Hv.
  repeat case_match; cbn [run snd]; try done.
  rewrite serve_ret. by apply pinLayer_keeps.
Qed.

Lemma Remove_keeps sn ctx key key' w ns id labels :
  labels !! leaseLabelOwnerKey = Some key -> key' <> key ->
  lv w !! (ns, id) = Some labels ->
  lv (snd (run h (Remove sn ctx key') w)) !! (ns, id) = Some labels.
Proof.
  intros Hown Hne Hv. unfold Remove. cbn [bind call run].
  destruct (h _ (SnRemove ctx key') w) as [res w1] eqn:H1.
  rewrite <-(keep_step _ _ _ _ H1 eq_refl) in Hv.
  repeat case_match; cbn [run snd]; try done.
  rewrite serve_ret.
  match goal with |- context[unpinByActiveKey ?d ?n _] =>
    destruct (unpin_spec d n key' w1) as [Ho _] end.
  destruct (Ho (ns, id)) as [->|[_ (labels' & _ & Hv' & Hown')]]; [done|]. congruence.
Qed.

Lemma handleDeleteLease_keeps sn ctx id id' w ns labels :
  id' <> id -> lv w !! (ns, id) = Some labels ->
  lv (snd (run h (handleDeleteLease sn ctx id') w)) !! (ns, id) = Some labels.
Proof.
  intros Hne Hv. unfold handleDeleteLease, deleteLease.
  repeat case_match; cbn [bind call run snd]; try done.
  destruct (h _ (LeaseDelete _ id') w) as [x w1] eqn:Hdel.
  assert (Hv1 : lv w1 !! (ns, id) = Some labels).
  { destruct (delete_step _ _ _ _ _ Hdel) as [(u & _ & ->)|(e & _ & ->)]; [|done].
    rewrite lookup_delete_ne; congruence. }
  destruct x; cbn [bind run snd]; [|done].
  destruct (h _ (PinnedDec _) w1) as [y w2] eqn:Hdec. cbn [run snd].
  by rewrite (keep_step _ _ _ _ Hdec eq_refl).
Qed.

Lemma handleGCLeases_keeps sn ctx key w ns id labels :
  stat_reliable h sv -> labels !! leaseLabelOwnerKey = Some key -> key ∈ sv w ->
  lv w !! (ns, id) = Some labels ->
  lv (snd (run h (handleGCLeases sn ctx) w)) !! (ns, id) = Some labels.
Proof.
  intros Hrel Hown Hin Hv. unfold handleGCLeases. case_match; cbn [run snd]; [|done].
  rewrite serve_ret. pose proof (gc_only_orphans d ctx containerdNamespaceK8s w Hrel) as Ho.
  destruct (Ho (ns, id)) as [->|[_ (labels' & _ & Hv' & _ & _ & Hni)]]; [done|].
  unfold ownerLabel in Hni. rewrite Hv in Hv'. injection Hv' as <-. by rewrite Hown in Hni.
Qed.

Lemma serve_keeps_lease sn q w ns id labels key :
  stat_reliable h sv ->
  labels !! leaseLabelOwnerKey = Some key ->
  ~ may_release key id q w ->
  lv w !! (ns, id) = Some labels ->
  lv (snd (run h (serve sn q) w)) !! (ns, id) = Some labels.
Proof.
  intros Hrel Hown Hmay Hl. destruct q; cbn [serve may_release] in *; rewrite ?serve_ret;
    first
      [ by apply Prepare_keeps | by eapply Remove_keeps | by apply handleDeleteLease_keeps
      | by eapply handleGCLeases_keeps; eauto; destruct (decide (key ∈ sv w))
      | apply quiet_keeps; [intros tr r Hex|done] ];
    first
      [ by apply Stat_off_books in Hex | by apply Mounts_off_books in Hex
      | by apply scrape_off_books in Hex
      | unfold Update, Usage_, View, Commit, Walk, Cleanup in Hex; exec_inv Hex;
        by repeat constructor
      | idtac ].
  unfold handleListLeases, listManagedLeases in Hex.
  destruct (sn_dedup sn); exec_inv Hex; by repeat constructor.
Qed.

(** No request of the sequence releases the lease, at the moment it is
    served. *)
Fixpoint never_released (sn : snapshotter) (key id : string) (qs : list request) (w : W)
    : Prop :=
  match qs with
  | [] => True
  | q :: qs' =>
      ~ may_release key id q w /\
      never_released sn key id qs' (snd (run h (serve sn q) w))
  end.

(** A pinned layer stays pinned: over any sequence of requests, a lease
    owned by a snapshot is still there, with its labels, unless the snapshot
    is removed, an operator deletes that lease, or a sweep finds that the
    snapshot no longer exists - provided [Stat] fails only for missing
    snapshots. *)
Theorem lease_survives sn qs w ns id labels key :
  stat_reliable h sv ->
  labels !! leaseLabelOwnerKey = Some key ->
  never_released sn key id qs w ->
  lv w !! (ns, id) = Some labels ->
  lv (snd (run h (serveAll sn qs) w)) !! (ns, id) = Some labels.
Proof.
  intros Hrel Hown. revert w. induction qs as [|q qs IH]; intros w Hnr Hv; [done|].
  destruct Hnr as [Hq Hnr]. cbn [serveAll]. rewrite run_bind.
  pose proof (serve_keeps_lease sn q w ns id labels key Hrel Hown Hq Hv) as Hv'.
  destruct (run h (serve sn q) w) as [u w']. by apply IH.
Qed.
End LeaseState.

(** ** A removal that fails *)

Section FailedRemove.
Context {W} (h : handler sysE W) (lv : W -> leases_view) (sv : W -> gset string).
Context `{!LeaseLaws h lv} `{!SnapLaws h sv}.

(** A program all of whose calls leave the snapshots alone. *)
Fixpoint snaps_untouched {A} (p : prog sysE A) : Prop :=
  match p with
  | Ret _ => True
  | Vis e k => keeps_snaps e = true /\ forall x, snaps_untouched (k x)
  end.

Lemma snaps_untouched_run {A} (p : prog sysE A) w :
  snaps_untouched p -> sv (snd (run h p w)) = sv w.
Proof.
  revert w. induction p as [a|X e k IH]; intros w; [done|]. intros [He Hk]. cbn [run].
  pose proof (snap_keep X e w He) as Hs. destruct (h X e w) as [x w']. by rewrite IH.
Qed.

Lemma unpin_snaps m ns key : snaps_untouched (unpinByActiveKey m ns key).
Proof.
  unfold unpinByActiveKey. split; [done|]. intros [all|e]; [|done].
  cbn [bind]. induction all as [|l all IH]; [done|]. split; [done|].
  intros [u|e]; by split.
Qed.

(** C17 A failed removal is not undone: when the native snapshotter refuses to
    remove a container's snapshot, the caller gets that error and the snapshot
    is still there, but the lease on its shared layer is released all the
    same - unless releasing fails too, none is left, and the layer is open to
    garbage collection under a container that still uses it. *)
Theorem failed_remove_unpins sn m ctx ns c key w e :
  sn_dedup sn = Some m -> parseSnapshotKey key = Some (ns, c) -> key ∈ sv w ->
  fst (h _ (SnRemove ctx key) w) = Err e ->
  count lease_call_failed (trace h (Remove sn ctx key) w) = 0 ->
  let (r, w') := run h (Remove sn ctx key) w in
  r = Err e /\ key ∈ sv w' /\
  forall id labels, lv w' !! (ns, id) = Some labels -> labels !! leaseLabelOwnerKey <> Some key.
Proof.
  intros Hm Hkey Hin He. unfold Remove. rewrite Hm, Hkey. cbn [bind call run trace].
  pose proof (snap_remove ctx key w) as Hs. pose proof (lease_keep _ (SnRemove ctx key) w eq_refl) as Hl.
  destruct (h _ (SnRemove ctx key) w) as [res w1]. cbn [fst snd] in *. subst res.
  cbn [is_ok] in Hs. cbn [count lease_call_failed]. rewrite run_bind, trace_bind, count_app.
  intros Hc.
  destruct (unpinByActiveKey_state h lv m ns key w1) as (_ & _ & Hnone).
  pose proof (snaps_untouched_run (unpinByActiveKey m ns key) w1 (unpin_snaps m ns key)) as Hsv.
  destruct (run h (unpinByActiveKey m ns key) w1) as [u w2]. cbn [run fst snd] in *.
  split_and!; [done|by rewrite Hsv, Hs|]. apply Hnone. lia.
Qed.
End FailedRemove.
