(* ===== verification/LeaseSpec.v ===== *)
(** * The lease book

    An abstract specification of layer sharing: the only state is the book of
    leases, and each request of the service is one step of the book.  The
    detailed programs of [Dedup.v] and [Service.v] implement it, whatever calls
    fail. *)

From S2P Require Import Prelude GoStrings System Laws Mount Template Json Annotation.
From S2P Require Import Resolver Dedup Service LeaseState.
Local Open Scope go_scope.

(** ** The specification

    [snaps] are the snapshots that exist when the request arrives.  A request
    may do less than its step allows (a best-effort release), never more. *)
Inductive book_step (snaps : gset string) : request -> leases_view -> leases_view -> Prop :=
| book_same q b : book_step snaps q b b
| book_pin ctx key parent opts ns container seq_chain chainID id b :
    parseSnapshotKey key = Some (ns, container) -> isChainID container = false ->
    parseSnapshotKey parent = Some (seq_chain, chainID) -> isChainID chainID = true ->
    b !! (ns, id) = None ->
    book_step snaps (ReqPrepare ctx key parent opts) b (<[(ns, id) := leaseLabels key]> b)
| book_release ctx key ns container b b' :
    parseSnapshotKey key = Some (ns, container) ->
    only_deletes (fun k => exists labels, k.1 = ns /\ b !! k = Some labels /\
                    labels !! leaseLabelOwnerKey = Some key) b b' ->
    book_step snaps (ReqRemove ctx key) b b'
| book_delete ctx id b :
    is_Some (b !! (containerdNamespaceK8s, id)) ->
    book_step snaps (ReqDeleteLease ctx id) b (delete (containerdNamespaceK8s, id) b)
| book_sweep ctx b b' :
    only_deletes (fun k => exists labels, k.1 = containerdNamespaceK8s /\ b !! k = Some labels /\
                    isManaged labels = true /\ ownerLabel labels <> "" /\
                    ownerLabel labels ∉ snaps) b b' ->
    book_step snaps (ReqGCLeases ctx) b b'.

(** A history: the requests, each with the snapshots it found. *)
Inductive book_run : list (request * gset string) -> leases_view -> leases_view -> Prop :=
| book_nil b : book_run [] b b
| book_cons q snaps qs b b1 b' :
    book_step snaps q b b1 -> book_run qs b1 b' -> book_run ((q, snaps) :: qs) b b'.

(** ** The implementation *)

Section Refinement.
Context {W} (h : handler sysE W) (lv : W -> leases_view) (sv : W -> gset string).
Context `{!LeaseLaws h lv} `{!StatLaws h sv}.

(** A program that is off the books leaves the book alone. *)
Lemma off_books_same {A} (p : prog sysE A) w :
  (forall tr r, exec p tr r -> Forall (fun ev => off_books ev = true) tr) ->
  lv (snd (run h p w)) = lv w.
Proof.
  intros Hq. pose proof (Hq _ _ (run_exec h p w)) as Hoff. clear Hq. revert w Hoff.
  induction p as [a|X e k IH]; intros w; cbn [run trace]; [done|].
  destruct (h X e w) as [x w'] eqn:He. intros [Hev Hoff]%Forall_cons.
  rewrite (IH x w' Hoff). destruct (keeps_leases e) eqn:Hk; [by eapply keep_step|].
  destruct e; try discriminate.
  - pose proof (lease_create ns labels w) as H. rewrite He in H. by destruct x.
  - pose proof (lease_delete ns id w) as H. rewrite He in H. by destruct x.
Qed.

(** Pinning enters one lease with the owner's labels, or nothing. *)
Lemma pinLayer_book m ns chainID key w :
  let w' := snd (run h (pinLayer m ns chainID key) w) in
  lv w' = lv w \/ exists id, lv w !! (ns, id) = None /\
    lv w' = <[(ns, id) := leaseLabels key]> (lv w).
Proof.
  unfold pinLayer. cbn [bind call run].
  pose proof (lease_create ns (leaseLabels key) w) as Hcr.
  destruct (h _ (LeaseCreate ns (leaseLabels key)) w) as [[l|e] w1]; cbn [bind run snd];
    [|by left].
  destruct Hcr as (Hnone & _ & Hlv).
  destruct (h _ (LeaseAddResource _ _ _) w1) as [[u|e] w2] eqn:H2; cbn [bind run snd].
  - destruct (h _ (PinnedInc _) w2) as [y w3] eqn:H3. cbn [run snd]. right.
    exists (lease_ID l).
    by rewrite (keep_step h lv _ _ _ _ H3 eq_refl), (keep_step h lv _ _ _ _ H2 eq_refl).
  - destruct (h _ (LeaseDelete _ _) w2) as [y w3] eqn:H3. cbn [run snd].
    pose proof (keep_step h lv _ _ _ _ H2 eq_refl) as H2'.
    destruct (delete_step h lv _ _ _ _ _ H3) as [(u & _ & ->)|(e' & _ & ->)].
    + left. by rewrite H2', Hlv, delete_insert_id.
    + right. exists (lease_ID l). by rewrite H2'.
Qed.

Context `{TemplateEngine} `{JsonParser}.

Lemma Prepare_book sn ctx key parent opts w :
  book_step (sv w) (ReqPrepare ctx key parent opts) (lv w)
    (lv (snd (run h (Prepare sn ctx key parent opts) w))).
Proof.
  unfold Prepare. cbn [bind call run].
  destruct (h _ (SnPrepare ctx key parent opts) w) as [res w1] eqn:H1.
  rewrite <-(keep_step h lv _ _ _ _ H1 eq_refl).
  destruct (sn_dedup sn) as [m|]; [|constructor].
  destruct (parseSnapshotKey key) as [[ns c]|] eqn:Hk; [|constructor].
  destruct (parseSnapshotKey parent) as [[ns' ch]|] eqn:Hp; [|constructor].
  destruct (isChainID c) eqn:Hc; [constructor|]. cbn [negb andb].
  destruct (isChainID ch) eqn:Hch; [|constructor].
  rewrite serve_ret. destruct (pinLayer_book m ns ch key w1) as [->|(id & Hn & ->)];
    [constructor|by eapply book_pin].
Qed.

Lemma Remove_book sn ctx key w :
  book_step (sv w) (ReqRemove ctx key) (lv w) (lv (snd (run h (Remove sn ctx key) w))).
Proof.
  unfold Remove. cbn [bind call run].
  destruct (h _ (SnRemove ctx key) w) as [res w1] eqn:H1.
  rewrite <-(keep_step h lv _ _ _ _ H1 eq_refl).
  destruct (sn_dedup sn) as [m|]; [|constructor].
  destruct (parseSnapshotKey key) as [[ns c]|] eqn:Hk; [|constructor].
  rewrite serve_ret. eapply book_release; [done|].
  by destruct (unpin_spec h lv m ns key w1) as [Ho _].
Qed.

Lemma handleDeleteLease_book sn ctx id w :
  book_step (sv w) (ReqDeleteLease ctx id) (lv w)
    (lv (snd (run h (handleDeleteLease sn ctx id) w))).
Proof.
  unfold handleDeleteLease, deleteLease. destruct (sn_dedup sn) as [m|]; [|constructor].
  case_decide; [constructor|]. cbn [bind call run].
  pose proof (lease_delete containerdNamespaceK8s id w) as Hd.
  destruct (h _ (LeaseDelete _ id) w) as [[u|e] w1]; cbn [bind call run snd].
  - destruct (h _ (PinnedDec _) w1) as [y w2] eqn:H2. cbn [run snd].
    rewrite (keep_step h lv _ _ _ _ H2 eq_refl). destruct Hd as [Hs ->]. by constructor.
  - rewrite Hd. constructor.
Qed.

Lemma handleGCLeases_book sn ctx w :
  stat_reliable h sv ->
  book_step (sv w) (ReqGCLeases ctx) (lv w) (lv (snd (run h (handleGCLeases sn ctx) w))).
Proof.
  intros Hrel. unfold handleGCLeases. destruct (sn_dedup sn) as [m|]; [|constructor].
  rewrite serve_ret. apply book_sweep. by apply gc_only_orphans.
Qed.

(** One request is one step of the book. *)
Lemma serve_book sn q w :
  stat_reliable h sv -> book_step (sv w) q (lv w) (lv (snd (run h (serve sn q) w))).
Proof.
  intros Hrel. destruct q; cbn [serve]; rewrite ?serve_ret;
    try first [ apply Prepare_book | apply Remove_book | apply handleDeleteLease_book
              | by apply handleGCLeases_book ];
    (rewrite off_books_same; [constructor|]; intros tr r Hex);
    first [ by eapply Stat_off_books | by eapply Mounts_off_books | by eapply scrape_off_books
          | unfold Update, Usage_, View, Commit, Walk, Cleanup, handleListLeases,
              listManagedLeases in Hex; exec_inv Hex; by repeat constructor ].
Qed.

(** The snapshots that each request of a history finds. *)
Fixpoint found (sn : snapshotter) (qs : list request) (w : W) : list (request * gset string) :=
  match qs with
  | [] => []
  | q :: qs' => (q, sv w) :: found sn qs' (snd (run h (serve sn q) w))
  end.

(** C13 Layer sharing implements the lease book: whatever requests the service
    gets and whichever calls fail, the leases only change by the steps of the
    specification - a lease is entered only by preparing a container's
    snapshot on a shared layer, under that snapshot's labels, and taken out
    only by removing that snapshot, by an operator's deletion, or by a sweep
    that does not find the owner. *)
Theorem serveAll_refines sn qs w :
  stat_reliable h sv ->
  book_run (found sn qs w) (lv w) (lv (snd (run h (serveAll sn qs) w))).
Proof.
  intros Hrel. revert w. induction qs as [|q qs IH]; intros w; cbn [found serveAll];
    [constructor|].
  rewrite run_bind. pose proof (serve_book sn q w Hrel) as Hq.
  destruct (run h (serve sn q) w) as [u w1]. econstructor; [exact Hq|]. apply IH.
Qed.
End Refinement.
