(* ===== verification/Sha256.v ===== *)
(** * SHA-256 ([crypto/sha256])

    The digest behind the template function [sha256] of the webhook, after
    FIPS 180-4: 32-bit words are integers modulo [2^32]. *)

From S2P Require Import Prelude GoStrings.
Local Open Scope Z_scope.

(** ** 32-bit words *)

Definition w32 (x : Z) : Z := x mod 2 ^ 32.
Definition rotr (n x : Z) : Z := Z.lor (Z.shiftr x n) (w32 (Z.shiftl x (32 - n))).
Definition not32 (x : Z) : Z := Z.lxor x (2 ^ 32 - 1).

Definition Ch (x y z : Z) : Z := Z.lxor (Z.land x y) (Z.land (not32 x) z).
Definition Maj (x y z : Z) : Z := Z.lxor (Z.lxor (Z.land x y) (Z.land x z)) (Z.land y z).
Definition Sigma0 (x : Z) : Z := Z.lxor (Z.lxor (rotr 2 x) (rotr 13 x)) (rotr 22 x).
Definition Sigma1 (x : Z) : Z := Z.lxor (Z.lxor (rotr 6 x) (rotr 11 x)) (rotr 25 x).
Definition sigma0 (x : Z) : Z := Z.lxor (Z.lxor (rotr 7 x) (rotr 18 x)) (Z.shiftr x 3).
Definition sigma1 (x : Z) : Z := Z.lxor (Z.lxor (rotr 17 x) (rotr 19 x)) (Z.shiftr x 10).

(** The first 32 bits of the fractional parts of the cube roots of the first 64
    primes, and of the square roots of the first 8. *)
Definition round_constants : list Z :=
  [
   1116352408; 1899447441; 3049323471; 3921009573; 961987163; 1508970993; 2453635748; 2870763221;
   3624381080; 310598401; 607225278; 1426881987; 1925078388; 2162078206; 2614888103; 3248222580;
   3835390401; 4022224774; 264347078; 604807628; 770255983; 1249150122; 1555081692; 1996064986;
   2554220882; 2821834349; 2952996808; 3210313671; 3336571891; 3584528711; 113926993; 338241895;
   666307205; 773529912; 1294757372; 1396182291; 1695183700; 1986661051; 2177026350; 2456956037;
   2730485921; 2820302411; 3259730800; 3345764771; 3516065817; 3600352804; 4094571909; 275423344;
   430227734; 506948616; 659060556; 883997877; 958139571; 1322822218; 1537002063; 1747873779;
   1955562222; 2024104815; 2227730452; 2361852424; 2428436474; 2756734187; 3204031479; 3329325298].
Definition initial_hash : list Z :=
  [
   1779033703; 3144134277; 1013904242; 2773480762; 1359893119; 2600822924; 528734635; 1541459225].

(** ** Padding and parsing *)

Definition byte_of (c : ascii) : Z := Z.of_nat (nat_of_ascii c).

(** The [n] low bytes of [x], big endian. *)
Fixpoint be_bytes (n : nat) (x : Z) : list Z :=
  match n with
  | O => []
  | S n' => be_bytes n' (Z.shiftr x 8) ++ [x mod 256]
  end.

Definition pad (msg : list Z) : list Z :=
  let len := Z.of_nat (length msg) in
  msg ++ [128] ++ repeat 0 (Z.to_nat ((55 - len) mod 64)) ++ be_bytes 8 (8 * len).

Fixpoint words (bs : list Z) : list Z :=
  match bs with
  | a :: b :: c :: d :: bs' => (a * 2 ^ 24 + b * 2 ^ 16 + c * 2 ^ 8 + d) :: words bs'
  | _ => []
  end.

(** ** The message schedule, newest word first *)
Fixpoint schedule (n : nat) (ws : list Z) : list Z :=
  match n with
  | O => ws
  | S n' =>
      let w := w32 (sigma1 (nth 1 ws 0) + nth 6 ws 0 + sigma0 (nth 14 ws 0) + nth 15 ws 0) in
      schedule n' (w :: ws)
  end.

(** ** Compression *)

Definition round (st : list Z) (kw : Z * Z) : list Z :=
  match st with
  | [a; b; c; d; e; f; g; h] =>
      let T1 := w32 (h + Sigma1 e + Ch e f g + kw.1 + kw.2) in
      let T2 := w32 (Sigma0 a + Maj a b c) in
      [w32 (T1 + T2); a; b; c; w32 (d + T1); e; f; g]
  | _ => st
  end.

Definition compress (st : list Z) (block : list Z) : list Z :=
  let ws := rev (schedule 48 (rev block)) in
  zip_with (fun x y => w32 (x + y)) st (foldl round st (zip round_constants ws)).

Fixpoint blocks (n : nat) (ws : list Z) (st : list Z) : list Z :=
  match n with
  | O => st
  | S n' => blocks n' (drop 16 ws) (compress st (take 16 ws))
  end.

Definition sha256_Sum (msg : list Z) : list Z :=
  let ws := words (pad msg) in
  blocks (Nat.div (length ws) 16) ws initial_hash.

(** ** Hexadecimal output *)

Definition hex_digit (x : Z) : ascii :=
  ascii_of_nat (Z.to_nat (if x <? 10 then 48 + x else 87 + x)).

Fixpoint hex (n : nat) (x : Z) : string :=
  match n with
  | O => ""
  | S n' => hex n' (Z.shiftr x 4) +:+ byte (hex_digit (x mod 16))
  end.

(** [fmt.Sprintf("%x", sha256.Sum256([]byte(s)))] *)
Definition sha256_hex (s : string) : string :=
  foldr (fun w acc => hex 8 w +:+ acc) "" (sha256_Sum (map byte_of (bytes s))).

(** The example of FIPS 180-4, and the empty message. *)
Example sha256_abc :
  sha256_hex "abc" = "ba7816bf8f01cfea414140de5dae2223b00361a396177a9cb410ff61f20015ad".
Proof. vm_compute. reflexivity. Qed.

Example sha256_empty :
  sha256_hex "" = "e3b0c44298fc1c149afbf4c8996fb92427ae41e4649b934ca495991b7852b855".
Proof. vm_compute. reflexivity. Qed.

(** ** The digest is plain text: lower-case hexadecimal digits *)

Lemma hex_digit_plain x : 0 <= x < 16 -> hex_digit x <> "{"%char.
Proof.
  intros Hx. unfold hex_digit.
  assert (x = 0 \/ x = 1 \/ x = 2 \/ x = 3 \/ x = 4 \/ x = 5 \/ x = 6 \/ x = 7 \/ x = 8 \/
          x = 9 \/ x = 10 \/ x = 11 \/ x = 12 \/ x = 13 \/ x = 14 \/ x = 15) as Hc by lia.
  repeat destruct Hc as [->|Hc]; try done. by rewrite Hc.
Qed.

Lemma hex_plain n x : "{"%char ∉ bytes (hex n x).
Proof.
  revert x. induction n as [|n IH]; intros x; [apply not_elem_of_nil|]. cbn [hex].
  rewrite bytes_app. apply not_elem_of_app. split; [apply IH|].
  pose proof (hex_digit_plain (x mod 16) ltac:(apply Z.mod_pos_bound; lia)) as Hd.
  simpl. set_solver.
Qed.

Lemma sha256_hex_plain s : "{"%char ∉ bytes (sha256_hex s).
Proof.
  unfold sha256_hex. induction (sha256_Sum _) as [|w ws IH]; [apply not_elem_of_nil|].
  cbn [foldr]. rewrite bytes_app. apply not_elem_of_app. split; [apply hex_plain|exact IH].
Qed.
