(* ===== verification/JsonPatch.v ===== *)
(** * JSON Patch (RFC 6902) and JSON Pointer (RFC 6901)

    The webhook answers with a JSON Patch that the API server applies.  This
    file is the specification it is checked against: pointers are parsed into
    unescaped tokens, [add] and [replace] act on the tree of [Json.v], and a
    patch document is an array of operations applied in order. *)

From S2P Require Import Prelude GoStrings Template Json.

(** ** Pointers *)

(** The reference tokens of a pointer, still escaped; [cur] is the token being
    read. *)
Fixpoint tokens (cur s : string) : list string :=
  match s with
  | "" => [cur]
  | String c s' =>
      if decide (c = "/"%char) then cur :: tokens "" s' else tokens (cur +:+ byte c) s'
  end.

Fixpoint unescape (s : string) : option string :=
  match s with
  | "" => Some ""
  | String c s' =>
      if decide (c = "~"%char) then
        match s' with
        | String "0" s'' => String "~" <$> unescape s''
        | String "1" s'' => String "/" <$> unescape s''
        | _ => None
        end
      else String c <$> unescape s'
  end.

Definition parse_pointer (s : string) : option (list string) :=
  match s with
  | "" => Some []
  | String c s' => if decide (c = "/"%char) then mapM unescape (tokens "" s') else None
  end.

(** An array index: digits without a leading zero. *)
Fixpoint index_digits (acc : nat) (s : string) : option nat :=
  match s with
  | "" => Some acc
  | String c s' =>
      if is_digit c then index_digits (10 * acc + (nat_of_ascii c - 48)) s' else None
  end.
Definition parse_index (s : string) : option nat :=
  match s with
  | "" => None
  | "0" => Some 0
  | String "0" _ => None
  | _ => index_digits 0 s
  end.

(** ** Objects *)

Definition members := list (string * json).

Fixpoint obj_set (k : string) (v : json) (ms : members) : members :=
  match ms with
  | [] => [(k, v)]
  | (k', v') :: ms' => if decide (k = k') then (k, v) :: ms' else (k', v') :: obj_set k v ms'
  end.

(** ** Operations *)

Fixpoint patch_add (toks : list string) (v doc : json) : option json :=
  match toks with
  | [] => Some v
  | [t] =>
      match doc with
      | JObject ms => Some (JObject (obj_set t v ms))
      | JArray l =>
          if decide (t = "-") then Some (JArray (l ++ [v]))
          else match parse_index t with
               | Some i => if Nat.leb i (length l)
                           then Some (JArray (take i l ++ v :: drop i l)) else None
               | None => None
               end
      | _ => None
      end
  | t :: toks' =>
      match doc with
      | JObject ms =>
          match assoc t ms with
          | Some c => (fun c' => JObject (obj_set t c' ms)) <$> patch_add toks' v c
          | None => None
          end
      | JArray l =>
          match parse_index t with
          | Some i =>
              match l !! i with
              | Some c => (fun c' => JArray (<[i := c']> l)) <$> patch_add toks' v c
              | None => None
              end
          | None => None
          end
      | _ => None
      end
  end.

Fixpoint patch_replace (toks : list string) (v doc : json) : option json :=
  match toks with
  | [] => Some v
  | t :: toks' =>
      match doc with
      | JObject ms =>
          match assoc t ms with
          | Some c => (fun c' => JObject (obj_set t c' ms)) <$> patch_replace toks' v c
          | None => None
          end
      | JArray l =>
          match parse_index t with
          | Some i =>
              match l !! i with
              | Some c => (fun c' => JArray (<[i := c']> l)) <$> patch_replace toks' v c
              | None => None
              end
          | None => None
          end
      | _ => None
      end
  end.

(** One operation of a patch document. *)
Definition apply_op (op doc : json) : option json :=
  match op with
  | JObject ms =>
      match assoc "op" ms, assoc "path" ms, assoc "value" ms with
      | Some (JString o), Some (JString path), Some v =>
          match parse_pointer path with
          | Some toks =>
              if decide (o = "add") then patch_add toks v doc
              else if decide (o = "replace") then patch_replace toks v doc
              else None
          | None => None
          end
      | _, _, _ => None
      end
  | _ => None
  end.

Fixpoint apply_ops (ops : list json) (doc : json) : option json :=
  match ops with
  | [] => Some doc
  | op :: ops' =>
      match apply_op op doc with
      | Some doc' => apply_ops ops' doc'
      | None => None
      end
  end.

Definition apply_patch (patch doc : json) : option json :=
  match patch with
  | JArray ops => apply_ops ops doc
  | _ => None
  end.

(** ** Lemmas *)

Lemma tokens_app cur t s :
  "/"%char ∉ bytes t -> tokens cur (t +:+ "/" +:+ s) = (cur +:+ t) :: tokens "" s.
Proof.
  revert cur. induction t as [|c t IH]; intros cur Ht; simpl_app; cbn [tokens].
  - rewrite decide_True by done. by rewrite app_nil_r_str.
  - simpl in Ht. rewrite decide_False by set_solver. rewrite IH by set_solver.
    by rewrite app_assoc_str.
Qed.

Lemma tokens_last cur t : "/"%char ∉ bytes t -> tokens cur t = [cur +:+ t].
Proof.
  revert cur. induction t as [|c t IH]; intros cur Ht; cbn [tokens].
  - by rewrite app_nil_r_str.
  - simpl in Ht. rewrite decide_False by set_solver. rewrite IH by set_solver.
    by rewrite app_assoc_str.
Qed.

Lemma unescape_plain t : "~"%char ∉ bytes t -> unescape t = Some t.
Proof.
  induction t as [|c t IH]; intros Ht; [done|]. simpl in *.
  rewrite decide_False by set_solver. by rewrite IH by set_solver.
Qed.

Lemma obj_set_eq k v ms : assoc k (obj_set k v ms) = Some v.
Proof.
  induction ms as [|[k' v'] ms IH]; simpl; [by rewrite decide_True|].
  case_decide; simpl; [by rewrite decide_True|by rewrite decide_False].
Qed.

Lemma obj_set_ne k k' v ms : k <> k' -> assoc k' (obj_set k v ms) = assoc k' ms.
Proof.
  intros Hne. induction ms as [|[k2 v2] ms IH]; simpl; [by rewrite decide_False by done|].
  case_decide; simpl; [|by rewrite IH]. subst. by rewrite !decide_False by done.
Qed.

(** The last token of an [add] at a member of an object. *)
Lemma patch_add_member t v ms : patch_add [t] v (JObject ms) = Some (JObject (obj_set t v ms)).
Proof. done. Qed.

Lemma patch_add_step t t' toks v ms c :
  assoc t ms = Some c ->
  patch_add (t :: t' :: toks) v (JObject ms) =
  (fun c' => JObject (obj_set t c' ms)) <$> patch_add (t' :: toks) v c.
Proof. intros Hc. cbn [patch_add]. by rewrite Hc. Qed.

Lemma apply_ops_app ops1 ops2 doc :
  apply_ops (ops1 ++ ops2) doc = apply_ops ops1 doc ≫= apply_ops ops2.
Proof.
  revert doc. induction ops1 as [|op ops1 IH]; intros doc; simpl; [done|].
  destruct (apply_op op doc); [apply IH|done].
Qed.
