(* ===== verification/Kube.v ===== *)
(** * The outside of the webhook

    The Kubernetes objects that [pkg/webhook/mutating.go] reads, with the
    fields it reads, and the calls it makes ([kubeE]): the dynamic client, the
    PVC and PV clients, the clock and the [select] between cancellation and a
    timer. *)

From S2P Require Import Prelude Json.

(** ** Objects *)

Record OwnerReference := mkOwnerReference {
  or_Kind : string;
  or_Name : string;
  or_Controller : option bool
}.

(** [unstructured.Unstructured], as far as it is read. *)
Record Object := mkObject {
  obj_Name : string;
  obj_OwnerReferences : list OwnerReference
}.

Record GroupVersionResource := mkGVR {
  gvr_Group : string;
  gvr_Version : string;
  gvr_Resource : string
}.

(** [status.phase] and [spec.volumeName] of a claim *)
Record PVC := mkPVC {
  pvc_Name : string;
  pvc_Phase : string;
  pvc_VolumeName : string
}.
Definition ClaimBound := "Bound".

(** [spec.csi.volumeHandle], when the volume has a CSI source *)
Record PV := mkPV { pv_CSI : option string }.

(** A container of a pod: of its volume mounts the webhook only reads whether
    the slice is nil. *)
Record PodContainer := mkPodContainer { pc_VolumeMounts : option (list json) }.

(** [corev1.Pod]; a nil map, slice or pointer is [None]. *)
Record Pod := mkPod {
  pod_Name : string;
  pod_Labels : gmap string string;
  pod_Annotations : option (gmap string string);
  pod_OwnerReferences : list OwnerReference;
  pod_Volumes : option (list json);
  pod_Containers : list PodContainer;
  pod_RuntimeClassName : option string
}.

(** [json.Unmarshal] into a [corev1.Pod], whose fields are not in the
    repository. *)
Class PodDecoder := { decode_pod : string -> result Pod }.

(** [labels.Parse(s)] followed by [sel.String()] *)
Class LabelSelectors := { labels_Parse : string -> result string }.

(** [admissionv1.AdmissionRequest] and [AdmissionResponse] *)
Record AdmissionRequest := mkAdmissionRequest {
  req_UID : string;
  req_Name : string;
  req_Namespace : string;
  req_Object : string
}.

(** A denial's message: a format string, its arguments, and the error that its
    last verb shows. *)
Record message := mkMessage {
  msg_Format : string;
  msg_Args : list arg;
  msg_Cause : error
}.
Record StatusResult := mkStatusResult { st_Code : Z; st_Message : message }.
Record AdmissionResponse := mkAdmissionResponse {
  ar_UID : string;
  ar_Allowed : bool;
  ar_Patch : option json;
  ar_PatchType : option string;
  ar_Result : option StatusResult
}.

(** ** Calls

    The generated client returns an object beside an error; [PvcGet] keeps
    both.  [DoneOrAfter d] is the [select]: [Some e] when the context was done
    with [ctx.Err() = e], [None] when the timer of [d] nanoseconds fired. *)
Inductive kubeE : Type -> Type :=
| DynGet (gvr : GroupVersionResource) (ns name : string) : kubeE (result Object)
| PvcGet (ns name : string) : kubeE (PVC * option error)
| PvcList (ns selector : string) (timeoutSeconds : Z) : kubeE (result (list PVC))
| PvGet (name : string) : kubeE (result PV)
| TimeNow : kubeE Z
| DoneOrAfter (d : Z) : kubeE (option error).

(** ** The clock

    Time does not go back, and a timer of [d] does not fire before [d] has
    passed: [clock_ok last tr] says so of the readings on [tr], the earlier
    ones being at most [last]. *)
Fixpoint clock_ok (last : Z) (tr : list (event kubeE)) : Prop :=
  match tr with
  | [] => True
  | Ev TimeNow t :: tr' => (last <= t)%Z /\ clock_ok t tr'
  | Ev (DoneOrAfter d) None :: tr' => clock_ok (last + d) tr'
  | _ :: tr' => clock_ok last tr'
  end.

(** A running clock runs on every part of a trace. *)
Lemma clock_ok_app last tr1 tr2 :
  clock_ok last (tr1 ++ tr2) -> clock_ok last tr1 /\ exists last', clock_ok last' tr2.
Proof.
  revert last. induction tr1 as [|[X e a] tr1 IH]; intros last; [intros Hc; split; [done|by exists last]|].
  destruct e; cbn [app clock_ok]; try apply IH; [intros [? [? ?]%IH]; done|].
  destruct a; apply IH.
Qed.
