(* ===== verification/Webhook.v ===== *)
(** * The mutating admission webhook ([pkg/webhook/mutating.go])

    [mutate] turns an admission request into a response: [resolveOwner] walks
    the owner references, [resolvePVC] finds the claim, [waitBound] waits for
    it, [buildPatch] writes the JSON Patch.  Programs over the calls of
    [Kube.v]; log calls are left out.  Where the source ranges over a map the
    model takes the order of that range as an argument. *)

From S2P Require Import Prelude GoStrings Template Json Annotation Sha256 Kube.
Local Open Scope go_scope.

(** ** Constants *)

Definition flagPVCNameTemplate := "webhook-pvc-name-template".
Definition flagPVCSelectorTemplate := "webhook-pvc-selector-template".
Definition flagMaxOwnerDepth := "webhook-max-owner-depth".
Definition flagDefaultRuntimeClass := "webhook-default-runtime-class".
Definition flagRuntimeClassSuffix := "webhook-runtime-class-suffix".
Definition flagAnnotationTemplates := "webhook-annotation-templates".
Definition flagStateMountPath := "webhook-state-mount-path".
Definition flagBoundTimeout := "webhook-bound-timeout".
Definition flagEnabled := "webhook-enabled".

(** Durations are in nanoseconds. *)
Definition Second : Z := 1000000000.

Definition defaultPVCNameTemplate := "{{.OwnerName}}".
Definition defaultPVCSelectorTemplate := "".
Definition defaultMaxOwnerDepth : Z := 2.
Definition defaultDefaultRuntimeClass := "".
Definition defaultRuntimeClassSuffix := "-pv".
Definition defaultStateMountPath := "/.platform/state".
Definition defaultBoundTimeout : Z := 30 * Second.
Definition defaultEnabled := true.
Definition annotationSuffixPVCNameTemplate := "pvc-name-template".
Definition statePVCVolumeName := "pv-snapshotter--state".
Definition podIndexLabel := "apps.kubernetes.io/pod-index".

Definition boundPollInterval : Z := 2 * Second.

Definition defaultAnnotationTemplates : list (string * string) :=
  [("pv-snapshotter.humble-mun.io/upperdir-path-template",
    "/var/lib/kubelet/pods/{{.PodUID}}/volumes/kubernetes.io~csi/{{.PVName}}/mount");
   ("pv-snapshotter.humble-mun.io/var.PVName", "{{.PVName}}")].

Definition Enabled (viper : Viper) : bool := GetBool viper flagEnabled.

(** ** Template helpers *)

Definition templateFuncs : FuncMap := [("sha256", sha256_hex)].

Record templateData := mkTemplateData {
  td_OwnerName : string;
  td_PodName : string;
  td_PVName : string;
  td_VolumeHandle : string;
  td_PodIndex : string;
  td_PodUID : string;
  td_PodNamespace : string
}.

(** The struct as a template sees it. *)
Definition data_fields (d : templateData) : tdata :=
  DStruct [("OwnerName", td_OwnerName d); ("PodName", td_PodName d); ("PVName", td_PVName d);
           ("VolumeHandle", td_VolumeHandle d); ("PodIndex", td_PodIndex d);
           ("PodUID", td_PodUID d); ("PodNamespace", td_PodNamespace d)].

Section Templates.
Context `{TemplateEngine}.

Definition parseTemplate (name text : string) : result template :=
  template_Parse templateFuncs text.

(** A nil template renders to nothing. *)
Definition renderTemplate (tmpl : option template) (data : templateData) : result string :=
  match tmpl with
  | None => Ok ""
  | Some t => template_Execute t (data_fields data)
  end.
End Templates.

(** ** The handler *)

Record Handler `{TemplateEngine} := mkHandler {
  pvcNameTmpl : option template;
  pvcSelectorTmpl : option template;
  pvcNameTmplAnnotation : string;
  annotationTmpls : gmap string template;
  maxOwnerDepth : Z;
  defaultRuntimeClass : string;
  runtimeClassSuffix : string;
  stateMountPath : string;
  boundTimeout : Z
}.

Section Webhook.
Context `{TemplateEngine} `{PodDecoder} `{LabelSelectors} `{DNSValidation}.

(** The loop of [New] over the raw annotation templates. *)
Fixpoint parseAnnotationTmpls (raw : list (string * string)) (acc : gmap string template)
    : result (gmap string template) :=
  match raw with
  | [] => Ok acc
  | (k, v) :: raw' =>
      match parseTemplate ("annotation/" +:+ k) v with
      | Err aerr => Err (Wrapf "parsing annotation template for key %q: %w" [k] aerr)
      | Ok t => parseAnnotationTmpls raw' (<[k := t]> acc)
      end
  end.

(** [cfg], [kc] and [dc]: whether the configuration and the two clients could
    be built; [range_]: the order in which the map of raw templates is visited. *)
Definition New (viper : Viper) (cfg kc dc : result unit)
    (range_ : list (string * string) -> list (string * string)) : result Handler :=
  match cfg with Err err => Err (Wrapf "building in-cluster REST config: %w" [] err) | Ok _ =>
  match kc with Err kerr => Err (Wrapf "building Kubernetes typed client: %w" [] kerr) | Ok _ =>
  match dc with Err derr => Err (Wrapf "building Kubernetes dynamic client: %w" [] derr) | Ok _ =>
  match parseTemplate "pvc-name" (GetString viper flagPVCNameTemplate) with
  | Err terr => Err (Wrapf "parsing --%s: %w" [flagPVCNameTemplate] terr)
  | Ok pvcName =>
  match parseTemplate "pvc-selector" (GetString viper flagPVCSelectorTemplate) with
  | Err terr => Err (Wrapf "parsing --%s: %w" [flagPVCSelectorTemplate] terr)
  | Ok pvcSelector =>
  match ResolvePrefix viper with
  | Err perr => Err perr
  | Ok prefix =>
  let rawAnnotationTmpls := GetStringMapString viper flagAnnotationTemplates in
  match parseAnnotationTmpls (range_ (map_to_list rawAnnotationTmpls)) ∅ with
  | Err err => Err err
  | Ok tmpls =>
      Ok {| pvcNameTmpl := Some pvcName;
            pvcSelectorTmpl := Some pvcSelector;
            pvcNameTmplAnnotation := Key prefix annotationSuffixPVCNameTemplate;
            annotationTmpls := tmpls;
            maxOwnerDepth := GetInt viper flagMaxOwnerDepth;
            defaultRuntimeClass := GetString viper flagDefaultRuntimeClass;
            runtimeClassSuffix := GetString viper flagRuntimeClassSuffix;
            stateMountPath := GetString viper flagStateMountPath;
            boundTimeout := GetDuration viper flagBoundTimeout |}
  end end end end end end end.

(** ** Owner resolution *)

Definition controllerRefs (refs : list OwnerReference) : list OwnerReference :=
  List.filter (fun r => match or_Controller r with Some b => b | None => false end) refs.

Definition ownerRefToGVR (ref : OwnerReference) : result GroupVersionResource :=
  if decide (or_Kind ref = "ReplicaSet") then Ok (mkGVR "apps" "v1" "replicasets")
  else if decide (or_Kind ref = "StatefulSet") then Ok (mkGVR "apps" "v1" "statefulsets")
  else if decide (or_Kind ref = "Deployment") then Ok (mkGVR "apps" "v1" "deployments")
  else if decide (or_Kind ref = "DaemonSet") then Ok (mkGVR "apps" "v1" "daemonsets")
  else if decide (or_Kind ref = "Job") then Ok (mkGVR "batch" "v1" "jobs")
  else if decide (or_Kind ref = "CronJob") then Ok (mkGVR "batch" "v1" "cronjobs")
  else Err (Errorf "unrecognised owner kind %q" [or_Kind ref]).

(** The loop: [n] iterations are left, the current one is number [depth]. *)
Fixpoint ownerLoop (ns : string) (n : nat) (depth : Z) (currentName : string)
    (currentRefs : list OwnerReference) : prog kubeE (result string) :=
  match n with
  | 0 => Ret (Ok currentName)
  | S n' =>
      match controllerRefs currentRefs with
      | [] => Ret (Ok currentName)
      | ref :: _ =>
          match ownerRefToGVR ref with
          | Err _ => Ret (Ok currentName)
          | Ok gvr =>
              try! obj := call (DynGet gvr ns (or_Name ref))
              catch err => Ret (Err (Wrapf "getting %s/%s (depth %d): %w"
                                           [or_Kind ref; or_Name ref; depth] err)) in
              ownerLoop ns n' (depth + 1) (obj_Name obj) (obj_OwnerReferences obj)
          end
      end
  end.

Definition resolveOwner (h : Handler) (pod : Pod) (ns : string) : prog kubeE (result string) :=
  if decide (maxOwnerDepth h = 0%Z) then Ret (Ok (pod_Name pod))
  else ownerLoop ns (Z.to_nat (maxOwnerDepth h)) 0 (pod_Name pod) (pod_OwnerReferences pod).

(** ** PVC resolution *)

Definition resolvePVCFromAnnotation (h : Handler) (ns tmplText : string) (data : templateData)
    : prog kubeE (result PVC) :=
  let annot := pvcNameTmplAnnotation h in
  match parseTemplate "pvc-name-annotation" tmplText with
  | Err err => Ret (Err (Wrapf "parsing pod annotation %q as template: %w" [annot] err))
  | Ok tmpl =>
      match renderTemplate (Some tmpl) data with
      | Err err => Ret (Err (Wrapf "rendering pod annotation %q: %w" [annot] err))
      | Ok pvcName =>
          if decide (pvcName = "") then
            Ret (Err (Errorf "pod annotation %q rendered an empty PVC name" [annot]))
          else
            let! got := call (PvcGet ns pvcName) in
            match got with
            | (_, Some err) =>
                Ret (Err (Wrapf "fetching PVC %q (from pod annotation %q): %w"
                                [pvcName; annot] err))
            | (pvc, None) => Ret (Ok pvc)
            end
      end
  end.

(** The pod's override, when the handler has its key and the pod carries it. *)
Definition pvcOverride (h : Handler) (pod : Pod) : option string :=
  if decide (pvcNameTmplAnnotation h <> "")
  then default ∅ (pod_Annotations pod) !! pvcNameTmplAnnotation h
  else None.

Definition resolvePVC (h : Handler) (ns : string) (pod : Pod) (data : templateData)
    : prog kubeE (result PVC) :=
  match pvcOverride h pod with
  | Some tmplText => resolvePVCFromAnnotation h ns tmplText data
  | None =>
  match renderTemplate (pvcNameTmpl h) data with
  | Err err => Ret (Err (Wrapf "rendering pvc-name-template: %w" [] err))
  | Ok pvcName =>
  if decide (pvcName <> "") then
    let! got := call (PvcGet ns pvcName) in
    match got with
    | (_, Some gerr) => Ret (Err (Wrapf "fetching PVC %q: %w" [pvcName] gerr))
    | (pvc, None) => Ret (Ok pvc)
    end
  else
  match renderTemplate (pvcSelectorTmpl h) data with
  | Err err => Ret (Err (Wrapf "rendering pvc-selector-template: %w" [] err))
  | Ok selectorStr =>
  if decide (selectorStr = "") then
    Ret (Err (Errorf
      "neither pvc-name-template nor pvc-selector-template produced a value (ownerName=%q, podName=%q)"
      [td_OwnerName data; td_PodName data]))
  else
  match labels_Parse selectorStr with
  | Err err => Ret (Err (Wrapf "parsing PVC label selector %q: %w" [selectorStr] err))
  | Ok sel =>
      try! items := call (PvcList ns sel 10)
      catch err => Ret (Err (Wrapf "listing PVCs with selector %q: %w" [selectorStr] err)) in
      match items with
      | [] => Ret (Err (Errorf "no PVC matched selector %q" [selectorStr]))
      | pvc :: _ => Ret (Ok pvc)
      end
  end end end end.

(** ** Waiting for Bound

    The loop is bounded by [fuel]; [None] means that the fuel ran out, which
    [waitFuel] rules out on any trace whose clock runs. *)
Fixpoint waitLoop (h : Handler) (ns : string) (deadline : Z) (fuel : nat) (pvc : PVC)
    : prog kubeE (option (result PVC)) :=
  match fuel with
  | 0 => Ret None
  | S fuel' =>
      if decide (pvc_Phase pvc = ClaimBound) then Ret (Some (Ok pvc))
      else
        let! now := call TimeNow in
        let remaining := (deadline - now)%Z in
        if Z.leb remaining 0 then
          Ret (Some (Err (Errorf
            "timed out after %s waiting for PVC %q to be bound (current phase: %s)"
            [ArgDuration (boundTimeout h); pvc_Name pvc; pvc_Phase pvc])))
        else
          let sleep := if Z.ltb remaining boundPollInterval then remaining
                       else boundPollInterval in
          let! done := call (DoneOrAfter sleep) in
          match done with
          | Some ctxErr =>
              Ret (Some (Err (Wrapf "context cancelled while waiting for PVC %q: %w"
                                    [pvc_Name pvc] ctxErr)))
          | None =>
              let! got := call (PvcGet ns (pvc_Name pvc)) in
              match got with
              | (pvc', Some err) =>
                  Ret (Some (Err (Wrapf "re-fetching PVC %q: %w" [pvc_Name pvc'] err)))
              | (pvc', None) => waitLoop h ns deadline fuel' pvc'
              end
          end
  end.

Definition waitFuel (h : Handler) : nat :=
  Z.to_nat (boundTimeout h / boundPollInterval) + 2.

Definition waitBound (h : Handler) (pvc : PVC) (ns : string)
    : prog kubeE (option (result (string * string))) :=
  let! start := call TimeNow in
  let! bound := waitLoop h ns (start + boundTimeout h)%Z (waitFuel h) pvc in
  match bound with
  | None => Ret None
  | Some (Err err) => Ret (Some (Err err))
  | Some (Ok pvc') =>
      let pvName := pvc_VolumeName pvc' in
      if decide (pvName = "") then
        Ret (Some (Err (Errorf "PVC %q is Bound but spec.volumeName is empty" [pvc_Name pvc'])))
      else
        try! pv := call (PvGet pvName)
        catch gerr => Ret (Some (Err (Wrapf "fetching PV %q: %w" [pvName] gerr))) in
        Ret (Some (Ok (pvName, match pv_CSI pv with Some vh => vh | None => "" end)))
  end.

(** ** Patch construction *)

(** The values that [buildPatch] puts in an operation: a volume backed by a
    claim, a volume mount, and the plain ones. *)
Inductive patchValue :=
| VEmptyMap
| VEmptyArray
| VString (s : string)
| VVolume (name claimName : string)
| VVolumeMount (name mountPath : string)
| VVolumeMounts (mounts : list (string * string)).

Record jsonPatchOp := mkJsonPatchOp {
  op_Op : string;
  op_Path : string;
  op_Value : patchValue
}.

(** [json.Marshal]: zero fields marked [omitempty] are left out, as in
    [corev1.Volume] and [corev1.VolumeMount]. *)
Definition marshalMount (name mountPath : string) : json :=
  JObject [("name", JString name); ("mountPath", JString mountPath)].
Definition marshalVolume (name claimName : string) : json :=
  JObject [("name", JString name);
           ("persistentVolumeClaim", JObject [("claimName", JString claimName)])].
Definition marshalValue (v : patchValue) : json :=
  match v with
  | VEmptyMap => JObject []
  | VEmptyArray => JArray []
  | VString s => JString s
  | VVolume name claimName => marshalVolume name claimName
  | VVolumeMount name mountPath => marshalMount name mountPath
  | VVolumeMounts mounts => JArray (map (fun '(n, p) => marshalMount n p) mounts)
  end.
Definition marshalOp (op : jsonPatchOp) : json :=
  JObject [("op", JString (op_Op op)); ("path", JString (op_Path op));
           ("value", marshalValue (op_Value op))].
Definition marshalPatch (ops : list jsonPatchOp) : json := JArray (map marshalOp ops).

Definition escapeKey (key : string) : string :=
  ReplaceAll (ReplaceAll key "~" "~0") "/" "~1".

(** The loop over the annotation templates, in the order of the range. *)
Fixpoint annotationOps (range : list (string * template)) (data : templateData)
    : result (list jsonPatchOp) :=
  match range with
  | [] => Ok []
  | (key, tmpl) :: range' =>
      match renderTemplate (Some tmpl) data with
      | Err err => Err (Wrapf "rendering annotation template for key %q: %w" [key] err)
      | Ok val =>
          match annotationOps range' data with
          | Err err => Err err
          | Ok ops =>
              Ok (mkJsonPatchOp "add" ("/metadata/annotations/" +:+ escapeKey key) (VString val)
                  :: ops)
          end
      end
  end.

Definition volumeOps (pod : Pod) (pvcName : string) : list jsonPatchOp :=
  match pod_Volumes pod with
  | None => [mkJsonPatchOp "add" "/spec/volumes" VEmptyArray]
  | Some _ => []
  end ++
  [mkJsonPatchOp "add" "/spec/volumes/-" (VVolume statePVCVolumeName pvcName)].

Definition mountOps (h : Handler) (pod : Pod) : list jsonPatchOp :=
  match pod_Containers pod with
  | [] => []
  | c :: _ =>
      match pc_VolumeMounts c with
      | None => [mkJsonPatchOp "add" "/spec/containers/0/volumeMounts"
                   (VVolumeMounts [(statePVCVolumeName, stateMountPath h)])]
      | Some _ => [mkJsonPatchOp "add" "/spec/containers/0/volumeMounts/-"
                     (VVolumeMount statePVCVolumeName (stateMountPath h))]
      end
  end.

Definition runtimeClassOps (h : Handler) (pod : Pod) : list jsonPatchOp :=
  let baseRC := match pod_RuntimeClassName pod with Some rc => rc | None => "" end in
  let baseRC := if decide (baseRC = "") then defaultRuntimeClass h else baseRC in
  if decide (baseRC <> "") then
    let pvRC := baseRC +:+ runtimeClassSuffix h in
    match pod_RuntimeClassName pod with
    | None => [mkJsonPatchOp "add" "/spec/runtimeClassName" (VString pvRC)]
    | Some _ => [mkJsonPatchOp "replace" "/spec/runtimeClassName" (VString pvRC)]
    end
  else [].

Definition buildPatch (h : Handler) (range : list (string * template)) (pod : Pod)
    (pvcName : string) (data : templateData) : result (list jsonPatchOp) :=
  let ops := match pod_Annotations pod with
             | None => [mkJsonPatchOp "add" "/metadata/annotations" VEmptyMap]
             | Some _ => []
             end in
  match annotationOps range data with
  | Err err => Err err
  | Ok annots =>
      Ok (ops ++ annots ++ volumeOps pod pvcName ++ mountOps h pod ++ runtimeClassOps h pod)
  end.

(** ** Requests *)

Definition StatusUnprocessableEntity : Z := 422.

Definition deny (uid : string) (msg : message) : AdmissionResponse :=
  mkAdmissionResponse uid false None None
    (Some (mkStatusResult StatusUnprocessableEntity msg)).

Definition allow (uid : string) (ops : list jsonPatchOp) : AdmissionResponse :=
  mkAdmissionResponse uid true (Some (marshalPatch ops)) (Some "JSONPatch") None.

(** The data of the PVC templates; the volume's fields are still empty. *)
Definition admissionData (req : AdmissionRequest) (pod : Pod) (ownerName : string)
    : templateData :=
  mkTemplateData ownerName (req_Name req) "" ""
    (default "" (pod_Labels pod !! podIndexLabel)) "{{.PodUID}}" "{{.PodNamespace}}".

Definition with_volume (data : templateData) (pvName volumeHandle : string) : templateData :=
  mkTemplateData (td_OwnerName data) (td_PodName data) pvName volumeHandle
    (td_PodIndex data) (td_PodUID data) (td_PodNamespace data).

(** Marshalling the patch cannot fail: it holds strings, maps and slices. *)
Definition mutate (h : Handler) (range : list (string * template)) (req : AdmissionRequest)
    : prog kubeE (option AdmissionResponse) :=
  let uid := req_UID req in
  match decode_pod (req_Object req) with
  | Err err => Ret (Some (deny uid (mkMessage "decoding pod: %v" [] err)))
  | Ok pod =>
      try! ownerName := resolveOwner h pod (req_Namespace req)
      catch err => Ret (Some (deny uid (mkMessage "resolving controlling owner: %v" [] err))) in
      let data := admissionData req pod ownerName in
      try! pvc := resolvePVC h (req_Namespace req) pod data
      catch err => Ret (Some (deny uid (mkMessage "resolving PVC for owner %q: %v"
                                                  [ownerName] err))) in
      let! bound := waitBound h pvc (req_Namespace req) in
      match bound with
      | None => Ret None
      | Some (Err err) =>
          Ret (Some (deny uid (mkMessage "waiting for PVC %q to be bound: %v"
                                         [pvc_Name pvc] err)))
      | Some (Ok (pvName, volumeHandle)) =>
          match buildPatch h range pod (pvc_Name pvc) (with_volume data pvName volumeHandle) with
          | Err err => Ret (Some (deny uid (mkMessage "building patch: %v" [] err)))
          | Ok patch => Ret (Some (allow uid patch))
          end
      end
  end.
End Webhook.

(** ** The HTTP handler *)

Record AdmissionReview := mkAdmissionReview {
  rv_APIVersion : string;
  rv_Kind : string;
  rv_Request : option AdmissionRequest;
  rv_Response : option AdmissionResponse
}.

(** [c.JSON(status, body)] *)
Inductive reply :=
| BadRequest (status : Z) (msg : string + error)
| Review (status : Z) (review : AdmissionReview).

Definition handle `{TemplateEngine} `{PodDecoder} `{LabelSelectors} (h : Handler)
    (range : list (string * template)) (bind_ : result AdmissionReview)
    : prog kubeE (option reply) :=
  match bind_ with
  | Err err => Ret (Some (BadRequest 400 (inr err)))
  | Ok review =>
      match rv_Request review with
      | None => Ret (Some (BadRequest 400 (inl "AdmissionReview.request is nil")))
      | Some req =>
          let! resp := mutate h range req in
          match resp with
          | None => Ret None
          | Some resp =>
              Ret (Some (Review 200 (mkAdmissionReview (rv_APIVersion review) (rv_Kind review)
                                                       None (Some resp))))
          end
      end
  end.
