(* ===== verification/Admission.v ===== *)
(** * What the webhook decides

    Theorems about the programs of [Webhook.v]: which owner, which claim, how
    long the wait takes, and when a pod is admitted. *)

From S2P Require Import Prelude GoStrings Template Json Annotation Sha256 Kube Webhook.
Local Open Scope go_scope.

(** ** Construction *)

Section Construct.
Context `{TemplateEngine} `{DNSValidation}.

(** [m] holds the parsed templates of [raw], over [acc]. *)
Definition parsed_over (raw : list (string * string)) (acc m : gmap string template) : Prop :=
  forall k, match assoc k raw with
            | Some text => exists t, parseTemplate ("annotation/" +:+ k) text = Ok t /\ m !! k = Some t
            | None => m !! k = acc !! k
            end.

Lemma parseAnnotationTmpls_ok raw acc m :
  NoDup (raw.*1) -> parseAnnotationTmpls raw acc = Ok m <-> parsed_over raw acc m.
Proof.
  unfold parsed_over. revert acc. induction raw as [|[k text] raw IH]; intros acc Hnd.
  { cbn [parseAnnotationTmpls assoc]. split; [by intros [= ->]|]. intros Hm.
    f_equal. by apply map_eq. }
  cbn [parseAnnotationTmpls assoc]. cbn in Hnd. apply NoDup_cons in Hnd as [Hni Hnd].
  assert (Hk : assoc k raw = None).
  { destruct (assoc k raw) as [v|] eqn:Hv; [|done]. apply assoc_elem in Hv.
    destruct Hni. by apply (list_elem_of_fmap_2' fst _ (k, v)). }
  destruct (parseTemplate _ text) as [t|e] eqn:Ht.
  - rewrite IH by done. apply forall_proper. intros k'. case_decide as Hkk.
    + subst k'. rewrite Hk, lookup_insert_eq. split; [by exists t|].
      intros (t' & Ht' & ->). congruence.
    + destruct (assoc k' raw); [done|]. by rewrite lookup_insert_ne.
  - split; [done|]. intros Hm. specialize (Hm k). rewrite decide_True in Hm by done.
    destruct Hm as (t & Ht' & _). congruence.
Qed.

Lemma parseAnnotationTmpls_total raw acc :
  (forall k text, (k, text) ∈ raw -> exists t, parseTemplate ("annotation/" +:+ k) text = Ok t) ->
  exists m, parseAnnotationTmpls raw acc = Ok m.
Proof.
  revert acc. induction raw as [|[k text] raw IH]; intros acc Hall; [by eexists|].
  cbn [parseAnnotationTmpls]. destruct (Hall k text) as [t ->]; [by left|].
  apply IH. intros k' text' Hin. apply Hall. by right.
Qed.

Lemma parseAnnotationTmpls_err raw acc e :
  parseAnnotationTmpls raw acc = Err e ->
  exists k text perr, (k, text) ∈ raw /\ parseTemplate ("annotation/" +:+ k) text = Err perr /\
    e = Wrapf "parsing annotation template for key %q: %w" [k] perr.
Proof.
  revert acc. induction raw as [|[k text] raw IH]; intros acc; [done|].
  cbn [parseAnnotationTmpls]. destruct (parseTemplate _ text) as [t|perr] eqn:Ht.
  - intros (k' & text' & perr & Hin & ?)%IH. exists k', text', perr. split; [by right|done].
  - intros [= <-]. exists k, text, perr. split_and!; [by left|done..].
Qed.

(** ** What a handler is made of *)

(** [m] are the configured annotation templates, parsed, key by key. *)
Definition parsed_templates (viper : Viper) (m : gmap string template) : Prop :=
  forall k, match GetStringMapString viper flagAnnotationTemplates !! k with
            | Some text => exists t, parseTemplate ("annotation/" +:+ k) text = Ok t /\ m !! k = Some t
            | None => m !! k = None
            end.

Section Range.
Context (range_ : list (string * string) -> list (string * string)).
Hypothesis range_perm : forall l, range_ l ≡ₚ l.

Lemma parsed_templates_iff viper m :
  parseAnnotationTmpls (range_ (map_to_list (GetStringMapString viper flagAnnotationTemplates))) ∅ = Ok m
  <-> parsed_templates viper m.
Proof.
  set (raw := GetStringMapString viper flagAnnotationTemplates).
  rewrite parseAnnotationTmpls_ok.
  - apply forall_proper. intros k. by rewrite (assoc_map_to_list _ _ _ (range_perm (map_to_list raw))).
  - rewrite (fmap_Permutation _ _ _ (range_perm _)). apply NoDup_fst_map_to_list.
Qed.

Lemma New_templates viper cfg kc dc h :
  New viper cfg kc dc range_ = Ok h -> parsed_templates viper (annotationTmpls h).
Proof.
  unfold New. intros Hn. repeat case_match; try done. injection Hn as <-.
  by apply parsed_templates_iff.
Qed.
End Range.

(** The templates of a map are the same in whichever order they were parsed. *)
Lemma parsed_templates_unique viper m m' :
  parsed_templates viper m -> parsed_templates viper m' -> m' = m.
Proof.
  intros Hm Hm'. apply map_eq. intros k. specialize (Hm k). specialize (Hm' k).
  destruct (_ !! k); [|congruence]. destruct Hm as (t & Ht & ->), Hm' as (t' & Ht' & ->). congruence.
Qed.

Record well_formed (viper : Viper) (h : Handler) : Prop := {
  wf_name : exists t, parseTemplate "pvc-name" (GetString viper flagPVCNameTemplate) = Ok t /\
                      pvcNameTmpl h = Some t;
  wf_selector : exists t, parseTemplate "pvc-selector" (GetString viper flagPVCSelectorTemplate) = Ok t /\
                          pvcSelectorTmpl h = Some t;
  wf_override : pvcNameTmplAnnotation h = GetString viper flagPrefix +:+ "/pvc-name-template";
  wf_templates : parsed_templates viper (annotationTmpls h);
  wf_limits : maxOwnerDepth h = GetInt viper flagMaxOwnerDepth /\
              boundTimeout h = GetDuration viper flagBoundTimeout;
  wf_pod : defaultRuntimeClass h = GetString viper flagDefaultRuntimeClass /\
           runtimeClassSuffix h = GetString viper flagRuntimeClassSuffix /\
           stateMountPath h = GetString viper flagStateMountPath
}.

(** What it takes to make one. *)
Record constructible (viper : Viper) (cfg kc dc : result unit) : Prop := {
  c_clients : cfg = Ok tt /\ kc = Ok tt /\ dc = Ok tt;
  c_prefix : validatePrefix (GetString viper flagPrefix) = Ok tt;
  c_name : exists t, parseTemplate "pvc-name" (GetString viper flagPVCNameTemplate) = Ok t;
  c_selector : exists t, parseTemplate "pvc-selector" (GetString viper flagPVCSelectorTemplate) = Ok t;
  c_templates : forall k text, GetStringMapString viper flagAnnotationTemplates !! k = Some text ->
    exists t, parseTemplate ("annotation/" +:+ k) text = Ok t
}.

(** The error names a configured annotation template that does not parse. *)
Definition bad_template (viper : Viper) (e : error) : Prop :=
  exists k text perr, GetStringMapString viper flagAnnotationTemplates !! k = Some text /\
    parseTemplate ("annotation/" +:+ k) text = Err perr /\
    e = Wrapf "parsing annotation template for key %q: %w" [k] perr.

Lemma New_constructible viper cfg kc dc range_ :
  (forall l, range_ l ≡ₚ l) ->
  (exists h, New viper cfg kc dc range_ = Ok h) <-> constructible viper cfg kc dc.
Proof.
  intros Hperm. unfold New, ResolvePrefix. split.
  - intros [h Hn]. destruct cfg as [[]|], kc as [[]|], dc as [[]|]; try done.
    destruct (parseTemplate "pvc-name" _) as [name|] eqn:Hname; [|done].
    destruct (parseTemplate "pvc-selector" _) as [selector|] eqn:Hsel; [|done].
    destruct (validatePrefix _) as [[]|] eqn:Hp; [|done].
    destruct (parseAnnotationTmpls _ ∅) as [m|] eqn:Hm; [|done].
    apply (parsed_templates_iff _ Hperm) in Hm. split; [done|done|by eexists|by eexists|].
    intros k text Hk. specialize (Hm k). rewrite Hk in Hm. destruct Hm as (t & ? & _). by exists t.
  - intros [(-> & -> & ->) -> [name ->] [selector ->] Hall].
    edestruct (parseAnnotationTmpls_total (range_ (map_to_list
      (GetStringMapString viper flagAnnotationTemplates))) ∅) as [m ->]; [|by eexists].
    intros k text. rewrite Hperm, elem_of_map_to_list. apply Hall.
Qed.

Lemma New_well_formed viper cfg kc dc range_ h :
  (forall l, range_ l ≡ₚ l) -> New viper cfg kc dc range_ = Ok h -> well_formed viper h.
Proof.
  intros Hperm Hn. pose proof (New_templates _ Hperm _ _ _ _ _ Hn) as Hm. unfold New in Hn.
  destruct cfg, kc, dc; try done.
  destruct (parseTemplate "pvc-name" _) as [name|] eqn:Hname; [|done].
  destruct (parseTemplate "pvc-selector" _) as [selector|] eqn:Hsel; [|done].
  destruct (ResolvePrefix viper) as [p|] eqn:Hp; [|done]. apply ResolvePrefix_Ok in Hp as [-> _].
  destruct (parseAnnotationTmpls _ ∅) as [m|]; [|done]. injection Hn as <-.
  split; [by eexists|by eexists|done|done|done|done].
Qed.

(** A handler is determined by the flags. *)
Lemma well_formed_unique viper h h' : well_formed viper h -> well_formed viper h' -> h' = h.
Proof.
  intros [(n & Hn & ?) (s & Hs & ?) ? Hm [? ?] (? & ? & ?)]
         [(n' & Hn' & ?) (s' & Hs' & ?) ? Hm' [? ?] (? & ? & ?)].
  pose proof (parsed_templates_unique _ _ _ Hm Hm'). destruct h, h'. simpl in *.
  rewrite Hn in Hn'. rewrite Hs in Hs'. injection Hn' as <-. injection Hs' as <-. by subst.
Qed.

Lemma New_err viper cfg kc dc range_ range' e :
  (forall l, range_ l ≡ₚ l) -> New viper cfg kc dc range_ = Err e ->
  bad_template viper e \/ New viper cfg kc dc range' = Err e.
Proof.
  intros Hperm. unfold New. destruct cfg; [|by right]. destruct kc; [|by right]. destruct dc; [|by right].
  destruct (parseTemplate "pvc-name" _); [|by right].
  destruct (parseTemplate "pvc-selector" _); [|by right].
  destruct (ResolvePrefix viper); [|by right].
  destruct (parseAnnotationTmpls (range_ _) ∅) as [m|e'] eqn:Hm; [done|]. intros [= ->]. left.
  apply parseAnnotationTmpls_err in Hm as (k & text & perr & Hin & ? & ?).
  rewrite Hperm, elem_of_map_to_list in Hin. by exists k, text, perr.
Qed.

(** C22 The order in which Go ranges over the map of annotation templates does
    not matter.  Whether a handler is made does not depend on it: one is made
    exactly when both clients could be built, the prefix is accepted and every
    configured template parses.  Nor does the handler, which is well formed:
    both claim templates are there (the nil case of [renderTemplate] cannot
    occur), the override key has the configured prefix, and the annotation
    templates are the configured ones, parsed, key by key.  Only when several
    annotation templates do not parse, the order picks the one that the error
    names. *)
Theorem New_any_order viper cfg kc dc range_ range' :
  (forall l, range_ l ≡ₚ l) -> (forall l, range' l ≡ₚ l) ->
  ((exists h, New viper cfg kc dc range_ = Ok h) <-> constructible viper cfg kc dc) /\
  match New viper cfg kc dc range_, New viper cfg kc dc range' with
  | Ok h, Ok h' => h' = h /\ well_formed viper h
  | Err e, Err e' => e' = e \/ (bad_template viper e /\ bad_template viper e')
  | _, _ => False
  end.
Proof.
  intros Hperm Hperm'.
  pose proof (New_constructible viper cfg kc dc range_ Hperm) as Hc.
  pose proof (New_constructible viper cfg kc dc range' Hperm') as Hc'.
  split; [exact Hc|].
  destruct (New viper cfg kc dc range_) as [h|e] eqn:Hn,
           (New viper cfg kc dc range') as [h'|e'] eqn:Hn'.
  - apply New_well_formed in Hn, Hn'; [|done..]. split; [by eapply well_formed_unique|done].
  - assert (exists h, Err e' = Ok h :> result Handler) as [? ?] by (apply Hc', Hc; by eexists). done.
  - assert (exists h, Err e = Ok h :> result Handler) as [? ?] by (apply Hc, Hc'; by eexists). done.
  - pose proof (New_err _ _ _ _ _ range' _ Hperm Hn) as [?|He]; [|left; congruence].
    pose proof (New_err _ _ _ _ _ range_ _ Hperm' Hn') as [?|He']; [by right|left; congruence].
Qed.
End Construct.

(** ** The controlling owner *)

(** The owner the traversal follows from a set of references: the first
    controller, when its kind is known. *)
Definition next_owner (refs : list OwnerReference) : option (OwnerReference * GroupVersionResource) :=
  match controllerRefs refs with
  | [] => None
  | ref :: _ =>
      match ownerRefToGVR ref with
      | Ok gvr => Some (ref, gvr)
      | Err _ => None
      end
  end.

(** A chain of owners: at each step the reference followed, its resource and
    the object read. *)
Definition hop := (OwnerReference * GroupVersionResource * Object)%type.

Fixpoint linked (refs : list OwnerReference) (chain : list hop) : Prop :=
  match chain with
  | [] => True
  | (ref, gvr, obj) :: chain' =>
      next_owner refs = Some (ref, gvr) /\ linked (obj_OwnerReferences obj) chain'
  end.

(** Where a chain ends: the last object's name and references. *)
Fixpoint chain_end (name : string) (refs : list OwnerReference) (chain : list hop)
    : string * list OwnerReference :=
  match chain with
  | [] => (name, refs)
  | (_, _, obj) :: chain' => chain_end (obj_Name obj) (obj_OwnerReferences obj) chain'
  end.

Definition reads (ns : string) (chain : list hop) : list (event kubeE) :=
  map (fun '(ref, gvr, obj) => Ev (DynGet gvr ns (or_Name ref)) (Ok obj)) chain.

Lemma ownerLoop_ok ns n depth name refs tr res :
  exec (ownerLoop ns n depth name refs) tr (Ok res) <->
  exists chain, linked refs chain /\ tr = reads ns chain /\ length chain <= n /\
    res = (chain_end name refs chain).1 /\
    (length chain = n \/ next_owner (chain_end name refs chain).2 = None).
Proof.
  revert depth name refs tr. induction n as [|n IH]; intros depth name refs tr; cbn [ownerLoop].
  - split.
    + intros [-> [= ->]]. exists []. simpl. split_and!; auto.
    + intros ([|[[ref gvr] obj] chain] & _ & -> & Hl & -> & _); [done|]. simpl in Hl. lia.
  - destruct (next_owner refs) as [[ref gvr]|] eqn:Hnext; unfold next_owner in Hnext.
    + destruct (controllerRefs refs) as [|ref' refs'] eqn:Hc; [done|].
      destruct (ownerRefToGVR ref') as [gvr'|] eqn:Hg; [|done]. injection Hnext as -> ->.
      split.
      * intros Hex. do 2 exec_step Hex; [|by exec_inv Hex].
        apply IH in Hex as (chain & Hl & -> & Hn & -> & Hend).
        exists ((ref, gvr, a) :: chain). cbn [linked reads map length chain_end].
        split_and!; [by unfold next_owner; rewrite Hc, Hg|done|done|lia|done|].
        destruct Hend; [left; lia|by right].
      * intros (chain & Hl & -> & Hn & -> & Hend).
        destruct chain as [|[[ref' gvr'] obj] chain].
        { destruct Hend as [Hend|Hend]; simpl in Hend; [lia|].
          unfold next_owner in Hend. by rewrite Hc, Hg in Hend. }
        destruct Hl as [Hl1 Hl2]. unfold next_owner in Hl1. rewrite Hc, Hg in Hl1.
        injection Hl1 as <- <-. cbn [reads map]. exec_run. apply IH. exists chain. simpl in Hn, Hend.
        split_and!; try done; [lia|]. destruct Hend; [left; lia|by right].
    + assert (Hret : forall tr', exec (match controllerRefs refs with
          | [] => Ret (Ok name)
          | ref :: _ =>
              match ownerRefToGVR ref with
              | Err _ => Ret (Ok name)
              | Ok gvr =>
                  try! obj := call (DynGet gvr ns (or_Name ref))
                  catch err => Ret (Err (Wrapf "getting %s/%s (depth %d): %w"
                                               [or_Kind ref; or_Name ref; depth] err)) in
                  ownerLoop ns n (depth + 1) (obj_Name obj) (obj_OwnerReferences obj)
              end
          end) tr' (Ok res) <-> tr' = [] /\ res = name).
      { intros tr'. destruct (controllerRefs refs) as [|ref refs'];
          [|destruct (ownerRefToGVR ref); [done|]]; cbn [exec];
          (split; [by intros [-> [= ->]]|by intros [-> ->]]). }
      rewrite Hret. split.
      * intros [-> ->]. exists []. simpl. split_and!; try done; [lia|].
        right. exact Hnext.
      * intros ([|[[ref gvr] obj] chain] & Hl & -> & _ & -> & _); [done|].
        destruct Hl as [Hl _]. unfold next_owner in Hl. congruence.
Qed.

(** C33 The owner of a pod is the end of its chain of controlling owners: each
    link is the first controller reference of the previous object, read from
    the API server, and the chain stops only at the depth limit or where no
    controller of a known kind is left.  At most [maxOwnerDepth] objects are
    read, and none when it is zero or negative. *)
Theorem resolveOwner_chain `{TemplateEngine} (h : Handler) pod ns tr name :
  exec (resolveOwner h pod ns) tr (Ok name) <->
  exists chain,
    linked (pod_OwnerReferences pod) chain /\ tr = reads ns chain /\
    (Z.of_nat (length chain) <= Z.max 0 (maxOwnerDepth h))%Z /\
    name = (chain_end (pod_Name pod) (pod_OwnerReferences pod) chain).1 /\
    (Z.of_nat (length chain) = Z.max 0 (maxOwnerDepth h) \/
     next_owner (chain_end (pod_Name pod) (pod_OwnerReferences pod) chain).2 = None).
Proof.
  assert (Heq : forall r, exec (resolveOwner h pod ns) tr r <->
    exec (ownerLoop ns (Z.to_nat (maxOwnerDepth h)) 0 (pod_Name pod) (pod_OwnerReferences pod)) tr r).
  { intros r. unfold resolveOwner. case_decide as Hd; [|done]. by rewrite Hd. }
  rewrite Heq, ownerLoop_ok. split; intros (chain & Hl & Htr & Hn & Hname & Hend);
    exists chain; split_and!; try done; try lia; (destruct Hend; [left; lia|by right]).
Qed.

(** ** The claim *)

Section Claims.
Context `{TemplateEngine} `{LabelSelectors}.

(** What fetching a claim by name answers. *)
Lemma fetch_ok (ns name : string) (fail : error -> error) tr pvc :
  exec (let! got := call (PvcGet ns name) in
        match got with
        | (_, Some err) => Ret (Err (fail err))
        | (pvc, None) => Ret (Ok pvc)
        end) tr (Ok pvc) <-> tr = [Ev (PvcGet ns name) (pvc, None)].
Proof.
  split.
  - intros Hex. by exec_inv Hex.
  - intros ->. by exec_run.
Qed.

(** C28 Which claim a pod gets.  A pod that carries the override annotation gets
    the claim its text renders to, and nothing else is tried; otherwise the
    name template decides when it renders to something; otherwise the first
    claim that matches the rendered selector.  The claim was read from the
    API server under that name, or listed under that selector. *)
Theorem resolvePVC_ok_iff (h : Handler) ns pod data tr pvc :
  exec (resolvePVC h ns pod data) tr (Ok pvc) <->
  match (if decide (pvcNameTmplAnnotation h = "") then None
         else default ∅ (pod_Annotations pod) !! pvcNameTmplAnnotation h) with
  | Some text =>
      exists t name, parseTemplate "pvc-name-annotation" text = Ok t /\
        renderTemplate (Some t) data = Ok name /\ name <> "" /\
        tr = [Ev (PvcGet ns name) (pvc, None)]
  | None =>
      exists name, renderTemplate (pvcNameTmpl h) data = Ok name /\
        (name <> "" /\ tr = [Ev (PvcGet ns name) (pvc, None)] \/
         name = "" /\ exists selector canonical rest,
           renderTemplate (pvcSelectorTmpl h) data = Ok selector /\ selector <> "" /\
           labels_Parse selector = Ok canonical /\
           tr = [Ev (PvcList ns canonical 10) (Ok (pvc :: rest))])
  end.
Proof.
  unfold resolvePVC.
  assert ((if decide (pvcNameTmplAnnotation h = "") then None
           else default ∅ (pod_Annotations pod) !! pvcNameTmplAnnotation h) = pvcOverride h pod) as ->.
  { unfold pvcOverride. by destruct (decide (_ = "")), (decide (_ <> "")). }
  destruct (pvcOverride h pod) as [text|].
  - unfold resolvePVCFromAnnotation.
    destruct (parseTemplate _ text) as [t|e] eqn:Ht; [|no_result].
    destruct (renderTemplate (Some t) data) as [name|e] eqn:Hr; [|no_result].
    case_decide as Hn; [no_result|]. etransitivity; [apply fetch_ok|].
    split; [intros ->; by exists t, name|].
    intros (t' & name' & [= <-] & Hr' & _ & ->). congruence.
  - destruct (renderTemplate (pvcNameTmpl h) data) as [name|e] eqn:Hr; [|no_result].
    case_decide as Hn.
    { etransitivity; [apply fetch_ok|]. split; [intros ->; exists name; by split; [|left]|].
      intros (name' & [= <-] & [[_ ->]|[? _]]); done. }
    assert (name = "") as -> by (by destruct (decide (name = ""))).
    destruct (renderTemplate (pvcSelectorTmpl h) data) as [sel|e] eqn:Hs;
      [|no_result].
    case_decide as Hse; [no_result|].
    destruct (labels_Parse sel) as [canon|e] eqn:Hl; [|no_result].
    split.
    + intros Hex. exec_inv Hex. eexists. split; [done|]. right. split; [done|]. by do 3 eexists.
    + intros (name & [= <-] & [[? _]|(_ & selector & canonical & rest & [= <-] & _ & Hc & ->)]);
        [done|]. rewrite Hl in Hc. injection Hc as <-. by exec_run.
Qed.
End Claims.

(** ** The wait *)

(** The time spent in timers that fired. *)
Fixpoint slept (tr : list (event kubeE)) : Z :=
  match tr with
  | [] => 0
  | Ev (DoneOrAfter d) None :: tr' => d + slept tr'
  | _ :: tr' => slept tr'
  end.

Section Wait.
Context `{TemplateEngine} (h : Handler).

(** Enough fuel for the time that is left. *)
Lemma waitLoop_fuel ns deadline fuel pvc last tr r :
  (0 < Z.of_nat fuel)%Z ->
  (deadline - last <= boundPollInterval * (Z.of_nat fuel - 1))%Z ->
  clock_ok last tr -> exec (waitLoop h ns deadline fuel pvc) tr r ->
  r <> None /\ (slept tr <= Z.max 0 (deadline - last))%Z.
Proof.
  revert pvc last tr. induction fuel as [|fuel IH]; intros pvc last tr Hpos Hfuel Hclock Hex; [lia|].
  cbn [waitLoop] in Hex. case_decide as Hph; [exec_inv Hex; simpl; split; [done|lia]|].
  exec_step Hex. destruct Hclock as [Hlast Hclock].
  destruct (Z.leb_spec (deadline - x) 0) as [Hle|Hgt]; [exec_inv Hex; simpl; split; [done|lia]|].
  exec_step Hex. exec_step Hex; [exec_inv Hex; simpl; split; [done|lia]|].
  cbn [clock_ok] in Hclock. exec_step Hex. destruct x0 as [pvc' [err|]];
    [exec_inv Hex; cbn [slept]; split; [done|]; destruct (Z.ltb_spec (deadline - x) boundPollInterval); lia|].
  cbn [clock_ok] in Hclock. unfold boundPollInterval, Second in *.
  destruct (Z.ltb_spec (deadline - x) (2 * 1000000000)).
  - destruct (IH pvc' (x + (deadline - x))%Z tr0) as [Hr Hs]; [lia|lia|done|done|].
    split; [done|]. cbn [slept]. lia.
  - destruct (IH pvc' (x + 2 * 1000000000)%Z tr0) as [Hr Hs]; [lia|lia|done|done|].
    split; [done|]. cbn [slept]. lia.
Qed.

Lemma waitFuel_enough start :
  (start + boundTimeout h - start <= boundPollInterval * (Z.of_nat (waitFuel h) - 1))%Z.
Proof.
  unfold waitFuel, boundPollInterval, Second.
  pose proof (Z.div_mod (boundTimeout h) (2 * 1000000000) ltac:(lia)).
  pose proof (Z.mod_pos_bound (boundTimeout h) (2 * 1000000000) ltac:(lia)).
  destruct (Z_le_gt_dec 0 (boundTimeout h / (2 * 1000000000))); lia.
Qed.

(** A successful wait ends with a claim that was seen to be bound. *)
Lemma waitLoop_bound ns deadline fuel pvc tr pvc' :
  exec (waitLoop h ns deadline fuel pvc) tr (Some (Ok pvc')) ->
  pvc_Phase pvc' = ClaimBound /\
  (pvc' = pvc \/ exists name, Ev (PvcGet ns name) (pvc', None) ∈ tr).
Proof.
  revert pvc tr. induction fuel as [|fuel IH]; intros pvc tr Hex; [by destruct Hex|].
  cbn [waitLoop] in Hex. case_decide as Hph; [exec_inv Hex; auto|].
  exec_step Hex. destruct (Z.leb (deadline - x) 0); [by exec_inv Hex|].
  exec_step Hex. exec_step Hex; [by exec_inv Hex|].
  exec_step Hex. destruct x0 as [pvc1 [err|]]; [by exec_inv Hex|].
  apply IH in Hex as [Hb [->|[name Hin]]]; split; try done; right.
  - eexists. in_trace.
  - exists name. by do 3 right.
Qed.

(** The wait, as a lemma for its callers. *)
Lemma waitBound_never_stuck ns pvc last tr r :
  clock_ok last tr -> exec (waitBound h pvc ns) tr r -> r <> None.
Proof.
  unfold waitBound. intros Hclock Hex. exec_step Hex. destruct Hclock as [_ Hclock].
  apply exec_bind in Hex as (tr1 & b & tr2 & -> & Hloop & Hex).
  apply clock_ok_app in Hclock as [Hclock _].
  destruct (waitLoop_fuel ns (x + boundTimeout h) (waitFuel h) pvc x tr1 b) as [Hb _];
    [unfold waitFuel; lia|apply waitFuel_enough|done|done|].
  destruct b as [[pvc'|e]|]; [|by exec_inv Hex|done].
  case_decide; by exec_inv Hex.
Qed.

(** C9 The wait ends: as long as the clock runs it always gives an answer, in
    at most [boundTimeout] of sleeping, so that the polling loop cannot hold a
    request for ever. *)
Theorem waitBound_ends ns pvc last tr r :
  clock_ok last tr -> exec (waitBound h pvc ns) tr r ->
  r <> None /\ (slept tr <= Z.max 0 (boundTimeout h))%Z.
Proof.
  unfold waitBound. intros Hclock Hex. exec_step Hex. destruct Hclock as [_ Hclock].
  apply exec_bind in Hex as (tr1 & b & tr2 & -> & Hloop & Hex).
  assert (Happ : forall tr1 tr2, slept (tr1 ++ tr2) = (slept tr1 + slept tr2)%Z).
  { clear. intros tr1 tr2. induction tr1 as [|[X e a] tr1 IH]; [done|].
    destruct e; cbn [app slept]; try done. destruct a; [done|]. lia. }
  apply clock_ok_app in Hclock as [Hclock _].
  destruct (waitLoop_fuel ns (x + boundTimeout h) (waitFuel h) pvc x tr1 b) as [Hb Hs];
    [unfold waitFuel; lia|apply waitFuel_enough|done|done|].
  assert (Hs2 : slept tr2 = 0%Z /\ r <> None).
  { destruct b as [[pvc'|e]|]; [|by exec_inv Hex|done].
    case_decide; [by exec_inv Hex|]. by exec_inv Hex. }
  cbn [slept]. rewrite Happ. split; [tauto|lia].
Qed.

(** A successful wait is a bound claim, then a read of its volume. *)
Lemma waitBound_inv ns pvc tr pvName volumeHandle :
  exec (waitBound h pvc ns) tr (Some (Ok (pvName, volumeHandle))) ->
  exists pvc' pv start tr1,
    exec (waitLoop h ns (start + boundTimeout h)%Z (waitFuel h) pvc) tr1 (Some (Ok pvc')) /\
    pvc_VolumeName pvc' = pvName /\ pvName <> "" /\
    tr = Ev TimeNow start :: tr1 ++ [Ev (PvGet pvName) (Ok pv)] /\
    volumeHandle = default "" (pv_CSI pv).
Proof.
  unfold waitBound. intros Hex. exec_step Hex.
  apply exec_bind in Hex as (tr1 & b & tr2 & -> & Hloop & Hex).
  destruct b as [[pvc'|e]|]; [|by exec_inv Hex|by exec_inv Hex].
  case_decide as Hv; [by exec_inv Hex|]. do 2 exec_step Hex; [|by exec_inv Hex].
  cbn [exec] in Hex. destruct Hex as [-> [= <- <-]]. by exists pvc', a, x, tr1.
Qed.

(** C29 The wait never lets an unbound volume through: it succeeds only with a
    claim seen in the phase Bound - the one it was given, or a later reading
    of it - that names a volume, and after reading that volume, whose CSI
    handle it returns (or nothing, without a CSI source). *)
Theorem waitBound_ok ns pvc tr pvName volumeHandle :
  exec (waitBound h pvc ns) tr (Some (Ok (pvName, volumeHandle))) ->
  exists pvc' pv tr',
    pvc_Phase pvc' = "Bound" /\ pvc_VolumeName pvc' = pvName /\ pvName <> "" /\
    (pvc' = pvc \/ exists name, Ev (PvcGet ns name) (pvc', None) ∈ tr') /\
    tr = tr' ++ [Ev (PvGet pvName) (Ok pv)] /\ volumeHandle = default "" (pv_CSI pv).
Proof.
  intros (pvc' & pv & start & tr1 & Hloop & Hname & Hne & -> & Hh)%waitBound_inv.
  apply waitLoop_bound in Hloop as [Hb Hin]. exists pvc', pv, (Ev TimeNow start :: tr1).
  split_and!; try done. destruct Hin as [->|[name Hin]]; [by left|right]. exists name. by right.
Qed.

(** A poll of the claim, and a pause of the loop: positive and at most the poll
    interval. *)
Definition is_poll (ev : event kubeE) : bool :=
  match ev with Ev (PvcGet _ _) _ => true | _ => false end.
Definition pause_in_bounds (ev : event kubeE) : Prop :=
  match ev with Ev (DoneOrAfter d) _ => (0 < d <= boundPollInterval)%Z | _ => True end.

Ltac pauses := repeat first [apply Forall_nil_2 | apply Forall_cons_2].

Lemma waitLoop_polls ns deadline fuel pvc last tr r :
  clock_ok last tr -> exec (waitLoop h ns deadline fuel pvc) tr r ->
  (count is_poll tr = 0 \/
   (boundPollInterval * (Z.of_nat (count is_poll tr) - 1) < deadline - last)%Z) /\
  Forall pause_in_bounds tr.
Proof.
  revert pvc last tr. induction fuel as [|fuel IH]; intros pvc last tr Hclock Hex;
    [destruct Hex as [-> _]; auto|].
  cbn [waitLoop] in Hex. case_decide as Hph; [exec_inv Hex; auto|].
  exec_step Hex. destruct Hclock as [Hlast Hclock].
  destruct (Z.leb_spec (deadline - x) 0) as [Hle|Hgt];
    [exec_inv Hex; split; [by left|by pauses]|].
  unfold boundPollInterval, Second in *.
  set (d := if Z.ltb (deadline - x) (2 * 1000000000) then (deadline - x)%Z
            else (2 * 1000000000)%Z) in *.
  assert (Hd : (0 < d <= 2 * 1000000000)%Z /\ (d = deadline - x \/ d = 2 * 1000000000)%Z)
    by (unfold d; destruct (Z.ltb_spec (deadline - x) (2 * 1000000000)); lia).
  clearbody d. destruct Hd as [Hd1 Hd2].
  exec_step Hex. exec_step Hex; [exec_inv Hex; split; [by left|by pauses]|].
  exec_step Hex. cbn [clock_ok count is_poll] in *. destruct x0 as [pvc' [err|]].
  - exec_inv Hex. split; [right; simpl; lia|by pauses].
  - destruct (IH pvc' (x + d)%Z tr0 Hclock Hex) as [Hn Hp].
    split; [right; lia|by pauses].
Qed.

(** C21 The wait does not hammer the API server: it reads the claim at most
    once per two seconds of the timeout, rounded up, and every pause is
    positive and at most two seconds. *)
Theorem waitBound_polls ns pvc last tr r :
  clock_ok last tr -> exec (waitBound h pvc ns) tr r ->
  (Z.of_nat (count is_poll tr) <= Z.max 0 ((boundTimeout h + 1999999999) / 2000000000))%Z /\
  Forall pause_in_bounds tr.
Proof.
  unfold waitBound. intros Hclock Hex. exec_step Hex. destruct Hclock as [_ Hclock].
  apply exec_bind in Hex as (tr1 & b & tr2 & -> & Hloop & Hex).
  apply clock_ok_app in Hclock as [Hclock _].
  destruct (waitLoop_polls _ _ _ _ _ _ _ Hclock Hloop) as [Hn Hp].
  assert (Ht2 : count is_poll tr2 = 0 /\ Forall pause_in_bounds tr2).
  { destruct b as [[pvc'|e]|]; [|exec_inv Hex; auto|exec_inv Hex; auto].
    case_decide; exec_inv Hex; split; try done; by pauses. }
  destruct Ht2 as [Hn2 Hp2]. split; [|constructor; [done|by apply Forall_app]].
  cbn [count is_poll]. rewrite count_app, Hn2. unfold boundPollInterval, Second in Hn.
  apply Z.max_le_iff. destruct Hn as [Hn|Hn]; [left; lia|right].
  apply Z.div_le_lower_bound; lia.
Qed.
End Wait.

(** ** Admission *)

Section Mutate.
Context `{TemplateEngine} `{PodDecoder} `{LabelSelectors} (h : Handler).
Context (range : list (string * template)).

(** Admission goes through every stage. *)
Lemma mutate_admits req tr resp :
  ar_Allowed resp = true -> exec (mutate h range req) tr (Some resp) ->
  exists pod owner pvc pv handle ops tr1 tr2 tr3,
    decode_pod (req_Object req) = Ok pod /\
    exec (resolveOwner h pod (req_Namespace req)) tr1 (Ok owner) /\
    exec (resolvePVC h (req_Namespace req) pod (admissionData req pod owner)) tr2 (Ok pvc) /\
    exec (waitBound h pvc (req_Namespace req)) tr3 (Some (Ok (pv, handle))) /\
    buildPatch h range pod (pvc_Name pvc) (with_volume (admissionData req pod owner) pv handle)
      = Ok ops /\
    tr = tr1 ++ tr2 ++ tr3 /\
    resp = mkAdmissionResponse (req_UID req) true (Some (marshalPatch ops)) (Some "JSONPatch") None.
Proof.
  intros Hall Hex. unfold mutate in Hex.
  destruct (decode_pod (req_Object req)) as [pod|e] eqn:Hd;
    [|cbn [exec] in Hex; destruct Hex as [_ [= <-]]; done].
  apply exec_bind in Hex as (tr1 & r1 & tr' & -> & Hown & Hex).
  destruct r1 as [owner|e]; [|cbn [exec] in Hex; destruct Hex as [_ [= <-]]; done].
  apply exec_bind in Hex as (tr2 & r2 & tr'' & -> & Hpvc & Hex).
  destruct r2 as [pvc|e]; [|cbn [exec] in Hex; destruct Hex as [_ [= <-]]; done].
  apply exec_bind in Hex as (tr3 & r3 & tr4 & -> & Hwait & Hex).
  destruct r3 as [[[pv handle]|e]|]; [|cbn [exec] in Hex; destruct Hex as [_ [= <-]]; done
                                      |cbn [exec] in Hex; by destruct Hex].
  destruct (buildPatch _ _ _ _ _) as [ops|e] eqn:Hp;
    [|cbn [exec] in Hex; destruct Hex as [_ [= <-]]; done].
  cbn [exec] in Hex. destruct Hex as [-> [= <-]]. rewrite app_nil_r. by do 9 eexists.
Qed.

(** C6 A pod is admitted exactly when every stage succeeds: it decodes, its
    owner and its claim are found, the claim is bound in time, and the patch
    can be built from them.  The response then carries that patch and the
    request's UID. *)
Theorem mutate_allowed_iff req tr resp :
  ar_Allowed resp = true ->
  exec (mutate h range req) tr (Some resp) <->
  exists pod owner pvc pv handle ops tr1 tr2 tr3,
    decode_pod (req_Object req) = Ok pod /\
    exec (resolveOwner h pod (req_Namespace req)) tr1 (Ok owner) /\
    exec (resolvePVC h (req_Namespace req) pod (admissionData req pod owner)) tr2 (Ok pvc) /\
    exec (waitBound h pvc (req_Namespace req)) tr3 (Some (Ok (pv, handle))) /\
    buildPatch h range pod (pvc_Name pvc) (with_volume (admissionData req pod owner) pv handle)
      = Ok ops /\
    tr = tr1 ++ tr2 ++ tr3 /\
    resp = mkAdmissionResponse (req_UID req) true (Some (marshalPatch ops)) (Some "JSONPatch") None.
Proof.
  intros Hall. split; [by apply mutate_admits|].
  intros (pod & owner & pvc & pv & handle & ops & tr1 & tr2 & tr3 &
          Hd & Hown & Hpvc & Hwait & Hp & -> & ->).
  unfold mutate. rewrite Hd. apply exec_bind.
  exists tr1, (Ok owner), (tr2 ++ tr3). split_and!; [done..|].
  apply exec_bind. exists tr2, (Ok pvc), tr3. split_and!; [done..|].
  apply exec_bind. exists tr3, (Some (Ok (pv, handle))), []. rewrite app_nil_r.
  split_and!; [done..|]. rewrite Hp. by cbn [exec].
Qed.

(** C35 Every request is answered: with a running clock there is always a
    response, it carries the request's UID, and it either admits the pod with
    a JSON Patch or denies it with code 422 and no patch. *)
Theorem mutate_responds req last tr r :
  clock_ok last tr -> exec (mutate h range req) tr r ->
  exists resp, r = Some resp /\ ar_UID resp = req_UID req /\
    ((ar_Allowed resp = true /\ is_Some (ar_Patch resp) /\ ar_PatchType resp = Some "JSONPatch" /\
      ar_Result resp = None) \/
     (ar_Allowed resp = false /\ ar_Patch resp = None /\
      exists st, ar_Result resp = Some st /\ st_Code st = 422%Z)).
Proof.
  intros Hclock Hex. unfold mutate in Hex.
  assert (Hdeny : forall msg tr', exec (E:=kubeE) (Ret (Some (deny (req_UID req) msg))) tr' r ->
    exists resp, r = Some resp /\ ar_UID resp = req_UID req /\
    ((ar_Allowed resp = true /\ is_Some (ar_Patch resp) /\ ar_PatchType resp = Some "JSONPatch" /\
      ar_Result resp = None) \/
     (ar_Allowed resp = false /\ ar_Patch resp = None /\
      exists st, ar_Result resp = Some st /\ st_Code st = 422%Z))).
  { intros msg tr' [_ <-]. eexists. split_and!; [done..|]. right. split_and!; [done..|]. by eexists. }
  destruct (decode_pod (req_Object req)) as [pod|e]; [|by eapply Hdeny].
  apply exec_bind in Hex as (tr1 & r1 & tr' & -> & _ & Hex).
  apply clock_ok_app in Hclock as [_ [last1 Hclock]].
  destruct r1 as [owner|e]; [|by eapply Hdeny].
  apply exec_bind in Hex as (tr2 & r2 & tr'' & -> & _ & Hex).
  apply clock_ok_app in Hclock as [_ [last2 Hclock]].
  destruct r2 as [pvc|e]; [|by eapply Hdeny].
  apply exec_bind in Hex as (tr3 & r3 & tr4 & -> & Hw & Hex).
  apply clock_ok_app in Hclock as [Hclock _].
  apply (waitBound_never_stuck h _ _ _ _ _ Hclock) in Hw.
  destruct r3 as [[[pv handle]|e]|]; [|by eapply Hdeny|done].
  destruct (buildPatch _ _ _ _ _) as [ops|e]; [|by eapply Hdeny].
  destruct Hex as [_ <-]. eexists. split_and!; [done..|]. left. split_and!; [done|by eexists|done..].
Qed.
End Mutate.
