(* ===== verification/Patch.v ===== *)
(** * The patch does what it is for

    [buildPatch]'s operations, marshalled and applied by the RFC 6902
    specification of [JsonPatch.v] to the document of the pod it was built
    from. *)

From S2P Require Import Prelude GoStrings Template Json JsonPatch Annotation Sha256 Kube Webhook.

(** ** Documents *)

(** The document has these members, and [pod] is what the webhook read from
    them: a nil map, slice or pointer stands for a missing or null member. *)
Definition absent (o : option json) : Prop := o = None \/ o = Some JNull.

Record represents (top md sp : members) (pod : Pod) : Prop := {
  rep_metadata : assoc "metadata" top = Some (JObject md);
  rep_spec : assoc "spec" top = Some (JObject sp);
  rep_annotations :
    match pod_Annotations pod with
    | None => absent (assoc "annotations" md)
    | Some _ => exists am, assoc "annotations" md = Some (JObject am)
    end;
  rep_volumes :
    match pod_Volumes pod with
    | None => absent (assoc "volumes" sp)
    | Some vs => assoc "volumes" sp = Some (JArray vs)
    end;
  rep_containers :
    match pod_Containers pod with
    | [] => True
    | c :: _ =>
        exists c0 rest, assoc "containers" sp = Some (JArray (JObject c0 :: rest)) /\
          match pc_VolumeMounts c with
          | None => absent (assoc "volumeMounts" c0)
          | Some ms => assoc "volumeMounts" c0 = Some (JArray ms)
          end
    end;
  rep_runtimeClassName :
    match pod_RuntimeClassName pod with
    | None => absent (assoc "runtimeClassName" sp)
    | Some rc => assoc "runtimeClassName" sp = Some (JString rc)
    end
}.

(** The members that are not named are the same. *)
Definition same_but (ks : list string) (ms ms' : members) : Prop :=
  forall k, k ∉ ks -> assoc k ms' = assoc k ms.

(** The annotations a document has. *)
Definition annotations_of (md : members) : members :=
  match assoc "annotations" md with Some (JObject am) => am | _ => [] end.

Lemma same_but_refl ks ms : same_but ks ms ms.
Proof. done. Qed.

Lemma same_but_trans ks ms1 ms2 ms3 :
  same_but ks ms1 ms2 -> same_but ks ms2 ms3 -> same_but ks ms1 ms3.
Proof. intros H1 H2 k Hk. by rewrite H2, H1. Qed.

Lemma same_but_weaken ks ks' ms ms' : ks ⊆ ks' -> same_but ks ms ms' -> same_but ks' ms ms'.
Proof. intros Hks Hs k Hk. apply Hs. set_solver. Qed.

Lemma same_but_set ks k v ms ms' : k ∈ ks -> same_but ks ms ms' -> same_but ks ms (obj_set k v ms').
Proof. intros Hk Hs k' Hk'. rewrite obj_set_ne by set_solver. by apply Hs. Qed.

#[export] Hint Resolve same_but_refl same_but_set : go.

(** ** Pointers into a pod *)

(** [strings.ReplaceAll] twice is escaping, and RFC 6901 undoes it. *)
Lemma escapeKey_cons c k :
  escapeKey (String c k) =
  (if decide (c = "~"%char) then "~0" else if decide (c = "/"%char) then "~1" else byte c)
    +:+ escapeKey k.
Proof.
  unfold escapeKey. cbn [ReplaceAll]. case_decide as H1; [done|]. cbn [ReplaceAll].
  by case_decide.
Qed.

Lemma escapeKey_unescape k : unescape (escapeKey k) = Some k.
Proof.
  induction k as [|c k IH]; [done|]. rewrite escapeKey_cons.
  case_decide as H1; [subst; simpl_app; simpl; by rewrite IH|].
  case_decide as H2; [subst; simpl_app; simpl; by rewrite IH|].
  simpl_app. simpl. rewrite decide_False by done. by rewrite IH.
Qed.

Lemma escapeKey_no_slash k : "/"%char ∉ bytes (escapeKey k).
Proof.
  induction k as [|c k IH]; [apply not_elem_of_nil|]. rewrite escapeKey_cons, bytes_app.
  apply not_elem_of_app. split; [|done].
  repeat case_decide; simpl; set_solver.
Qed.

Lemma escapeKey_path k :
  parse_pointer ("/metadata/annotations/" +:+ escapeKey k) =
    Some ["metadata"; "annotations"; k].
Proof.
  change ("/metadata/annotations/" +:+ escapeKey k)
    with (String "/" ("metadata" +:+ "/" +:+ ("annotations" +:+ "/" +:+ escapeKey k))).
  unfold parse_pointer. rewrite decide_True by done.
  rewrite tokens_app by (simpl; set_solver). rewrite tokens_app by (simpl; set_solver).
  rewrite tokens_last by apply escapeKey_no_slash. simpl_app. cbn [mapM].
  by rewrite escapeKey_unescape.
Qed.

(** Annotation keys survive the pointer syntax: whatever bytes a key has,
    [/] and [~] included, the path of its operation is a valid JSON pointer
    that names exactly this member of the annotations, so two keys never share
    a path. *)
Theorem escapeKey_pointer k :
  parse_pointer ("/metadata/annotations/" +:+ escapeKey k) =
    Some ["metadata"; "annotations"; k] /\
  forall k', escapeKey k = escapeKey k' -> k = k'.
Proof.
  split; [apply escapeKey_path|]. intros k' Heq. pose proof (escapeKey_unescape k) as Hk.
  rewrite Heq, escapeKey_unescape in Hk. by injection Hk.
Qed.

(** ** One operation at a time *)

Lemma op_members (o p v : json) :
  let ms := [("op", o); ("path", p); ("value", v)] in
  assoc "op" ms = Some o /\ assoc "path" ms = Some p /\ assoc "value" ms = Some v.
Proof. done. Qed.

Lemma apply_add path toks v doc :
  parse_pointer path = Some toks ->
  apply_op (marshalOp (mkJsonPatchOp "add" path v)) doc = patch_add toks (marshalValue v) doc.
Proof.
  intros Hp. unfold apply_op, marshalOp. cbn [op_Op op_Path op_Value].
  destruct (op_members (JString "add") (JString path) (marshalValue v)) as (-> & -> & ->).
  by rewrite Hp.
Qed.

Lemma apply_replace path toks v doc :
  parse_pointer path = Some toks ->
  apply_op (marshalOp (mkJsonPatchOp "replace" path v)) doc =
  patch_replace toks (marshalValue v) doc.
Proof.
  intros Hp. unfold apply_op, marshalOp. cbn [op_Op op_Path op_Value].
  destruct (op_members (JString "replace") (JString path) (marshalValue v)) as (-> & -> & ->).
  by rewrite Hp.
Qed.

(** Setting a member of a member. *)
Lemma add_under k1 k2 v top ms :
  assoc k1 top = Some (JObject ms) ->
  patch_add [k1; k2] v (JObject top) =
  Some (JObject (obj_set k1 (JObject (obj_set k2 v ms)) top)).
Proof. intros H. cbn [patch_add]. by rewrite H. Qed.

(** Appending to an array that is a member of a member. *)
Lemma append_under k1 k2 v top ms l :
  assoc k1 top = Some (JObject ms) -> assoc k2 ms = Some (JArray l) ->
  patch_add [k1; k2; "-"] v (JObject top) =
  Some (JObject (obj_set k1 (JObject (obj_set k2 (JArray (l ++ [v])) ms)) top)).
Proof. intros H1 H2. cbn [patch_add]. by rewrite H1, H2. Qed.

(** A change of one member of [top] that the rest of the patch goes on from. *)
Definition steps_to (ops : list jsonPatchOp) (k : string) (top ms' : members) : Prop :=
  exists top', apply_ops (map marshalOp ops) (JObject top) = Some (JObject top') /\
    assoc k top' = Some (JObject ms') /\ same_but [k] top top'.

Lemma steps_to_nil k top ms : assoc k top = Some (JObject ms) -> steps_to [] k top ms.
Proof. intros H. exists top. by split_and!. Qed.

Lemma steps_to_app ops1 ops2 k top ms1 ms2 :
  steps_to ops1 k top ms1 ->
  (forall top', assoc k top' = Some (JObject ms1) -> steps_to ops2 k top' ms2) ->
  steps_to (ops1 ++ ops2) k top ms2.
Proof.
  intros (top1 & Ha1 & Hk1 & Hs1) H2. destruct (H2 top1 Hk1) as (top2 & Ha2 & Hk2 & Hs2).
  exists top2. rewrite map_app, apply_ops_app, Ha1. split_and!; try done.
  by eapply same_but_trans.
Qed.

(** One [add] whose effect is to replace the member [k] of [top]. *)
Lemma steps_to_op op k top ms' :
  apply_op (marshalOp op) (JObject top) = Some (JObject (obj_set k (JObject ms') top)) ->
  steps_to [op] k top ms'.
Proof.
  intros Hop. exists (obj_set k (JObject ms') top). cbn [map apply_ops]. rewrite Hop.
  split_and!; [done|apply obj_set_eq|]. apply same_but_set; [set_solver|apply same_but_refl].
Qed.

(** ** The annotations *)

Section Engine.
Context `{TemplateEngine}.

(** What a key's annotation becomes. *)
Definition stamped (range : list (string * template)) (data : templateData) (am : members)
    (k : string) : option json :=
  match assoc k range with
  | Some t =>
      match renderTemplate (Some t) data with Ok v => Some (JString v) | Err _ => None end
  | None => assoc k am
  end.

Lemma annotationOps_apply range data ops top md am :
  NoDup (range.*1) -> annotationOps range data = Ok ops ->
  assoc "metadata" top = Some (JObject md) -> assoc "annotations" md = Some (JObject am) ->
  exists md' am', steps_to ops "metadata" top md' /\
    assoc "annotations" md' = Some (JObject am') /\ same_but ["annotations"] md md' /\
    forall k, assoc k am' = stamped range data am k.
Proof.
  revert ops top md am. induction range as [|[key t] range IH]; intros ops top md am Hnd Hops Htop Hmd.
  - cbn in Hops. injection Hops as <-. exists md, am. split_and!; try done.
    by apply steps_to_nil.
  - apply NoDup_cons in Hnd as [Hni Hnd]. cbn [annotationOps] in Hops.
    destruct (renderTemplate (Some t) data) as [v|e] eqn:Hv; [|done].
    destruct (annotationOps range data) as [ops'|e] eqn:Hops'; [|done]. injection Hops as <-.
    set (md1 := obj_set "annotations" (JObject (obj_set key (JString v) am)) md).
    set (top1 := obj_set "metadata" (JObject md1) top).
    destruct (IH ops' top1 md1 (obj_set key (JString v) am)) as (md' & am' & Hst & Ham & Hsame & Hk);
      [done|done|apply obj_set_eq|apply obj_set_eq|].
    exists md', am'. split_and!; [|done| |].
    + destruct Hst as (top' & Ha & Hm & Hs). exists top'. cbn [map apply_ops].
      rewrite (apply_add _ _ _ _ (escapeKey_path key)). cbn [patch_add].
      rewrite Htop, Hmd. cbn. split_and!; [exact Ha|done|].
      eapply same_but_trans; [|exact Hs]. apply same_but_set; [set_solver|apply same_but_refl].
    + eapply same_but_trans; [|exact Hsame]. apply same_but_set; [set_solver|apply same_but_refl].
    + intros k. rewrite Hk. unfold stamped. cbn [assoc]. case_decide as Heq.
      * subst k. assert (assoc key range = None) as ->.
        { destruct (assoc key range) as [t'|] eqn:Ht; [|done]. exfalso. apply Hni.
          apply list_elem_of_fmap. exists (key, t'). split; [done|].
          by eapply assoc_elem. }
        by rewrite Hv, obj_set_eq.
      * destruct (assoc k range); [done|]. by rewrite obj_set_ne by congruence.
Qed.

(** ** The spec *)

Lemma volumeOps_apply pod pvcName top md sp :
  represents top md sp pod ->
  exists sp', (forall top', assoc "spec" top' = Some (JObject sp) ->
      steps_to (volumeOps pod pvcName) "spec" top' sp') /\
    assoc "volumes" sp' = Some (JArray (default [] (pod_Volumes pod) ++
                                        [marshalVolume statePVCVolumeName pvcName])) /\
    same_but ["volumes"] sp sp'.
Proof.
  intros Hrep. pose proof (rep_volumes _ _ _ _ Hrep) as Hv. unfold volumeOps.
  destruct (pod_Volumes pod) as [vs|]; cbn [default app].
  - eexists. split_and!; [|apply obj_set_eq|apply same_but_set; [set_solver|apply same_but_refl]].
    intros top' Hsp. apply steps_to_op. rewrite (apply_add _ ["spec"; "volumes"; "-"]) by done.
    by apply append_under.
  - eexists. split_and!; [|apply obj_set_eq|
      apply same_but_set; [set_solver|]; apply (same_but_set _ "volumes" (JArray []));
        [set_solver|apply same_but_refl]].
    intros top' Hsp. apply (steps_to_app [_] [_] _ _ (obj_set "volumes" (JArray []) sp)).
    + apply steps_to_op. rewrite (apply_add _ ["spec"; "volumes"]) by done. by apply add_under.
    + intros top2 Hsp2. apply steps_to_op. rewrite (apply_add _ ["spec"; "volumes"; "-"]) by done.
      rewrite (append_under _ _ _ _ _ [] Hsp2) by apply obj_set_eq. done.
Qed.

(** Changing the first element of an array that is a member of a member. *)
Lemma add_first k1 k2 toks v top ms c rest c' :
  assoc k1 top = Some (JObject ms) -> assoc k2 ms = Some (JArray (c :: rest)) ->
  toks <> [] -> patch_add toks v c = Some c' ->
  patch_add (k1 :: k2 :: "0" :: toks) v (JObject top) =
  Some (JObject (obj_set k1 (JObject (obj_set k2 (JArray (c' :: rest)) ms)) top)).
Proof.
  intros H1 H2 Hne Hc. destruct toks as [|t toks]; [done|].
  rewrite (patch_add_step _ _ _ _ _ _ H1), (patch_add_step _ _ _ _ _ _ H2).
  assert (patch_add ("0" :: t :: toks) v (JArray (c :: rest)) = Some (JArray (c' :: rest))) as ->;
    [|done].
  change (patch_add ("0" :: t :: toks) v (JArray (c :: rest)))
    with ((fun c' => JArray (<[0 := c']> (c :: rest))) <$> patch_add (t :: toks) v c).
  by rewrite Hc.
Qed.

Lemma mountOps_apply (h : Handler) pod sp :
  match pod_Containers pod with
  | [] => mountOps h pod = []
  | c :: _ =>
      forall c0 rest, assoc "containers" sp = Some (JArray (JObject c0 :: rest)) ->
      match pc_VolumeMounts c with
      | None => absent (assoc "volumeMounts" c0)
      | Some ms => assoc "volumeMounts" c0 = Some (JArray ms)
      end ->
      exists sp' c0', (forall top', assoc "spec" top' = Some (JObject sp) ->
          steps_to (mountOps h pod) "spec" top' sp') /\
        assoc "containers" sp' = Some (JArray (JObject c0' :: rest)) /\
        same_but ["containers"] sp sp' /\ same_but ["volumeMounts"] c0 c0' /\
        assoc "volumeMounts" c0' =
          Some (JArray (default [] (pc_VolumeMounts c) ++
                        [marshalMount statePVCVolumeName (stateMountPath h)]))
  end.
Proof.
  unfold mountOps. destruct (pod_Containers pod) as [|c cs]; [done|].
  intros c0 rest Hc Hvm.
  assert (Hstep : forall op toks c0' vms,
    c0' = obj_set "volumeMounts" (JArray vms) c0 -> toks <> [] ->
    (forall top', apply_op (marshalOp op) (JObject top') =
       patch_add ("spec" :: "containers" :: "0" :: toks) (marshalValue (op_Value op)) (JObject top')) ->
    patch_add toks (marshalValue (op_Value op)) (JObject c0) = Some (JObject c0') ->
    exists sp' c0', (forall top', assoc "spec" top' = Some (JObject sp) ->
        steps_to [op] "spec" top' sp') /\
      assoc "containers" sp' = Some (JArray (JObject c0' :: rest)) /\
      same_but ["containers"] sp sp' /\ same_but ["volumeMounts"] c0 c0' /\
      assoc "volumeMounts" c0' = Some (JArray vms)).
  { intros op toks c0' vms -> Hne Hop Hpatch. do 2 eexists. split_and!.
    - intros top' Hsp. apply steps_to_op. rewrite Hop. by eapply add_first.
    - apply obj_set_eq.
    - apply same_but_set; [set_solver|apply same_but_refl].
    - apply same_but_set; [set_solver|apply same_but_refl].
    - apply obj_set_eq. }
  destruct (pc_VolumeMounts c) as [ms|]; cbn [default app].
  - eapply (Hstep _ ["volumeMounts"; "-"]); [done|done| |].
    + intros top'. by apply apply_add.
    + cbn [patch_add]. by rewrite Hvm.
  - eapply (Hstep _ ["volumeMounts"]); [done|done| |done].
    intros top'. by apply apply_add.
Qed.

(** The RuntimeClass a pod ends up with, [""] when it is left alone. *)
Definition runtimeClassFor (h : Handler) (pod : Pod) : string :=
  let own := default "" (pod_RuntimeClassName pod) in
  let base := if decide (own = "") then defaultRuntimeClass h else own in
  if decide (base = "") then "" else base +:+ runtimeClassSuffix h.

Lemma runtimeClassOps_apply (h : Handler) pod sp :
  match pod_RuntimeClassName pod with
  | None => absent (assoc "runtimeClassName" sp)
  | Some rc => assoc "runtimeClassName" sp = Some (JString rc)
  end ->
  exists sp', (forall top', assoc "spec" top' = Some (JObject sp) ->
      steps_to (runtimeClassOps h pod) "spec" top' sp') /\
    assoc "runtimeClassName" sp' =
      (if decide (runtimeClassFor h pod = "") then assoc "runtimeClassName" sp
       else Some (JString (runtimeClassFor h pod))) /\
    same_but ["runtimeClassName"] sp sp'.
Proof.
  intros Hrc. unfold runtimeClassOps, runtimeClassFor.
  assert (match pod_RuntimeClassName pod with Some rc => rc | None => "" end =
          default "" (pod_RuntimeClassName pod)) as -> by by destruct (pod_RuntimeClassName pod).
  set (base := if decide (default "" (pod_RuntimeClassName pod) = "") then _ else _).
  destruct (decide (base = "")) as [Hb|Hb].
  - exists sp. rewrite decide_False by auto. rewrite decide_True by done.
    split_and!; [intros top' Hsp; by apply steps_to_nil|done|apply same_but_refl].
  - rewrite decide_True by done.
    assert (Hne : base +:+ runtimeClassSuffix h <> "") by (by intros [? _]%app_eq_nil_str).
    rewrite decide_False by done.
    exists (obj_set "runtimeClassName" (JString (base +:+ runtimeClassSuffix h)) sp).
    split_and!; [|apply obj_set_eq|apply same_but_set; [set_solver|apply same_but_refl]].
    intros top' Hsp. destruct (pod_RuntimeClassName pod) as [rc|]; apply steps_to_op.
    + rewrite (apply_replace _ ["spec"; "runtimeClassName"]) by done.
      cbn [patch_replace]. by rewrite Hsp, Hrc.
    + rewrite (apply_add _ ["spec"; "runtimeClassName"]) by done. by apply add_under.
Qed.

(** ** All together *)

(** The annotations part of the patch. *)
Lemma metadataOps_apply range pod data annots top md sp :
  represents top md sp pod -> NoDup (range.*1) -> annotationOps range data = Ok annots ->
  exists md' am', steps_to
      (match pod_Annotations pod with
       | None => [mkJsonPatchOp "add" "/metadata/annotations" VEmptyMap] | Some _ => [] end
       ++ annots) "metadata" top md' /\
    assoc "annotations" md' = Some (JObject am') /\ same_but ["annotations"] md md' /\
    forall k, assoc k am' = stamped range data (annotations_of md) k.
Proof.
  intros Hrep Hnd Hops. pose proof (rep_annotations _ _ _ _ Hrep) as Han.
  pose proof (rep_metadata _ _ _ _ Hrep) as Hmd.
  destruct (pod_Annotations pod) as [m|].
  - unfold annotations_of. destruct Han as [am Ham]. rewrite Ham. by eapply annotationOps_apply.
  - assert (annotations_of md = []) as ->
      by (unfold annotations_of; by destruct Han as [-> | ->]).
    set (md1 := obj_set "annotations" (JObject []) md).
    set (top1 := obj_set "metadata" (JObject md1) top).
    destruct (annotationOps_apply range data annots top1 md1 [] Hnd Hops)
      as (md' & am' & (top' & Ha & Hm & Hs) & Ham & Hsame & Hk); [apply obj_set_eq..|].
    exists md', am'. split_and!; [|done| |done].
    + exists top'. cbn [app map apply_ops].
      rewrite (apply_add _ ["metadata"; "annotations"]) by done.
      rewrite (add_under _ _ _ _ _ Hmd). split_and!; [exact Ha|done|].
      eapply same_but_trans; [|exact Hs]. apply same_but_set; [set_solver|apply same_but_refl].
    + eapply same_but_trans; [|exact Hsame]. apply same_but_set; [set_solver|apply same_but_refl].
Qed.

(** What the patch makes of a spec: the claim's volume comes last, the first
    container mounts it, the RuntimeClass is [runtimeClassFor]'s. *)
Definition spec_patched (h : Handler) (pod : Pod) (pvcName : string) (sp sp' : members) : Prop :=
  same_but ["volumes"; "containers"; "runtimeClassName"] sp sp' /\
  assoc "volumes" sp' = Some (JArray (default [] (pod_Volumes pod) ++
                                      [marshalVolume statePVCVolumeName pvcName])) /\
  match pod_Containers pod with
  | [] => assoc "containers" sp' = assoc "containers" sp
  | c :: _ => exists c0 rest c0',
      assoc "containers" sp = Some (JArray (JObject c0 :: rest)) /\
      assoc "containers" sp' = Some (JArray (JObject c0' :: rest)) /\
      same_but ["volumeMounts"] c0 c0' /\
      assoc "volumeMounts" c0' =
        Some (JArray (default [] (pc_VolumeMounts c) ++
                      [marshalMount statePVCVolumeName (stateMountPath h)]))
  end /\
  assoc "runtimeClassName" sp' =
    (if decide (runtimeClassFor h pod = "") then assoc "runtimeClassName" sp
     else Some (JString (runtimeClassFor h pod))).

(** The spec part, on any document with this spec. *)
Lemma specOps_apply (h : Handler) pod pvcName top md sp :
  represents top md sp pod ->
  exists sp', (forall top', assoc "spec" top' = Some (JObject sp) ->
      steps_to (volumeOps pod pvcName ++ mountOps h pod ++ runtimeClassOps h pod) "spec" top' sp') /\
    spec_patched h pod pvcName sp sp'.
Proof.
  intros Hrep. pose proof (rep_containers _ _ _ _ Hrep) as Hcs.
  pose proof (rep_runtimeClassName _ _ _ _ Hrep) as Hrc.
  destruct (volumeOps_apply pod pvcName top md sp Hrep) as (sp1 & Hst1 & Hv1 & Hs1).
  assert (Hm : exists sp2, (forall top', assoc "spec" top' = Some (JObject sp1) ->
      steps_to (mountOps h pod) "spec" top' sp2) /\ same_but ["containers"] sp1 sp2 /\
    match pod_Containers pod with
    | [] => assoc "containers" sp2 = assoc "containers" sp
    | c :: _ => exists c0 rest c0',
        assoc "containers" sp = Some (JArray (JObject c0 :: rest)) /\
        assoc "containers" sp2 = Some (JArray (JObject c0' :: rest)) /\
        same_but ["volumeMounts"] c0 c0' /\
        assoc "volumeMounts" c0' =
          Some (JArray (default [] (pc_VolumeMounts c) ++
                        [marshalMount statePVCVolumeName (stateMountPath h)]))
    end).
  { pose proof (mountOps_apply h pod sp1) as Hmo. destruct (pod_Containers pod) as [|c cs].
    - exists sp1. rewrite Hmo. split_and!; [intros; by apply steps_to_nil|done|].
      apply Hs1. set_solver.
    - destruct Hcs as (c0 & rest & Hc0 & Hvm).
      destruct (Hmo c0 rest) as (sp2 & c0' & Hst & Hc & Hs & Hsc & Hvm').
      { rewrite Hs1; [done|set_solver]. } { done. }
      exists sp2. split_and!; [done|done|]. by exists c0, rest, c0'. }
  destruct Hm as (sp2 & Hst2 & Hs2 & Hc2).
  destruct (runtimeClassOps_apply h pod sp2) as (sp3 & Hst3 & Hr3 & Hs3).
  { rewrite Hs2, Hs1 by set_solver. done. }
  exists sp3. unfold spec_patched. split_and!.
  - intros top' Hsp. eapply steps_to_app; [by apply Hst1|]. intros top2 Hsp2.
    eapply steps_to_app; [by apply Hst2|]. exact Hst3.
  - intros k Hk. rewrite Hs3, Hs2, Hs1 by set_solver. done.
  - rewrite Hs3, Hs2 by set_solver. done.
  - destruct (pod_Containers pod) as [|c cs].
    + rewrite Hs3 by set_solver. done.
    + destruct Hc2 as (c0 & rest & c0' & ? & ? & ? & ?). exists c0, rest, c0'.
      split_and!; try done. rewrite Hs3 by set_solver. done.
  - rewrite Hr3. by rewrite Hs2, Hs1 by set_solver.
Qed.

(** Every template of a range that could be visited renders. *)
Lemma annotationOps_renders range data ops k t :
  annotationOps range data = Ok ops -> (k, t) ∈ range ->
  exists v, renderTemplate (Some t) data = Ok v.
Proof.
  revert ops. induction range as [|[k' t'] range IH]; intros ops Hann Hin;
    [by apply not_elem_of_nil in Hin|].
  cbn [annotationOps] in Hann.
  destruct (renderTemplate (Some t') data) as [v|] eqn:Hv; [|done].
  destruct (annotationOps range data) eqn:Hr; [|done].
  apply elem_of_cons in Hin as [[= -> ->]|Hin]; [by exists v|by eapply IH].
Qed.

(** The patch applies: the annotations part, then the spec part. *)
Lemma buildPatch_document (h : Handler) range pod pvcName data ops top md sp :
  represents top md sp pod ->
  range ≡ₚ map_to_list (annotationTmpls h) ->
  buildPatch h range pod pvcName data = Ok ops ->
  exists top' md' sp' am',
    apply_patch (marshalPatch ops) (JObject top) = Some (JObject top') /\
    assoc "metadata" top' = Some (JObject md') /\ assoc "spec" top' = Some (JObject sp') /\
    same_but ["metadata"; "spec"] top top' /\
    same_but ["annotations"] md md' /\ assoc "annotations" md' = Some (JObject am') /\
    (forall k, match annotationTmpls h !! k with
               | Some t => exists v, renderTemplate (Some t) data = Ok v /\
                                     assoc k am' = Some (JString v)
               | None => assoc k am' = assoc k (annotations_of md)
               end) /\
    spec_patched h pod pvcName sp sp'.
Proof.
  intros Hrep Hperm. unfold buildPatch.
  destruct (annotationOps range data) as [annots|e] eqn:Hann; [|done]. intros [= <-].
  assert (Hnd : NoDup (range.*1)) by (rewrite Hperm; apply NoDup_fst_map_to_list).
  destruct (metadataOps_apply range pod data annots top md sp Hrep Hnd Hann)
    as (md' & am' & (top1 & Ha1 & Hm1 & Hs1) & Ham & Hsmd & Hk).
  destruct (specOps_apply h pod pvcName top md sp Hrep) as (sp' & Hst & Hsp).
  destruct (Hst top1) as (top2 & Ha2 & Hsp2 & Hs2).
  { rewrite Hs1 by set_solver. apply (rep_spec _ _ _ _ Hrep). }
  exists top2, md', sp', am'. split_and!; try done.
  - unfold apply_patch, marshalPatch. rewrite app_assoc, map_app, apply_ops_app, Ha1. exact Ha2.
  - by rewrite Hs2 by set_solver.
  - intros k Hni. rewrite Hs2, Hs1 by set_solver. done.
  - intros k. rewrite Hk. unfold stamped. rewrite (assoc_map_to_list _ _ _ Hperm).
    destruct (annotationTmpls h !! k) as [t|] eqn:Ht; [|done].
    destruct (annotationOps_renders _ _ _ k t Hann) as [v Hv]; [|rewrite Hv; by exists v].
    rewrite Hperm. by apply elem_of_map_to_list.
Qed.

(** C4 The patch of an admitted pod applies to the pod's document and makes
    exactly these changes, in whatever order the templates were visited: every
    configured annotation is set to its rendered value and the others are
    kept; the claim's volume is appended; the first container, and no other,
    gets the mount after its own; the RuntimeClass is the pod's own or the
    default with the suffix, or stays as it is; every other member of the
    document is untouched. *)
Theorem buildPatch_applies (h : Handler) range pod pvcName data ops top md sp :
  represents top md sp pod ->
  range ≡ₚ map_to_list (annotationTmpls h) ->
  buildPatch h range pod pvcName data = Ok ops ->
  exists top' md' sp' am',
    apply_patch (marshalPatch ops) (JObject top) = Some (JObject top') /\
    assoc "metadata" top' = Some (JObject md') /\ assoc "spec" top' = Some (JObject sp') /\
    same_but ["metadata"; "spec"] top top' /\
    same_but ["annotations"] md md' /\ assoc "annotations" md' = Some (JObject am') /\
    (forall k, match annotationTmpls h !! k with
               | Some t => exists v, renderTemplate (Some t) data = Ok v /\
                                     assoc k am' = Some (JString v)
               | None => assoc k am' = assoc k (annotations_of md)
               end) /\
    same_but ["volumes"; "containers"; "runtimeClassName"] sp sp' /\
    assoc "volumes" sp' = Some (JArray (default [] (pod_Volumes pod) ++
                                        [marshalVolume statePVCVolumeName pvcName])) /\
    match pod_Containers pod with
    | [] => assoc "containers" sp' = assoc "containers" sp
    | c :: _ => exists c0 rest c0',
        assoc "containers" sp = Some (JArray (JObject c0 :: rest)) /\
        assoc "containers" sp' = Some (JArray (JObject c0' :: rest)) /\
        same_but ["volumeMounts"] c0 c0' /\
        assoc "volumeMounts" c0' =
          Some (JArray (default [] (pc_VolumeMounts c) ++
                        [marshalMount statePVCVolumeName (stateMountPath h)]))
    end /\
    assoc "runtimeClassName" sp' =
      (if decide (runtimeClassFor h pod = "") then assoc "runtimeClassName" sp
       else Some (JString (runtimeClassFor h pod))).
Proof. exact (buildPatch_document h range pod pvcName data ops top md sp). Qed.
End Engine.
