(* ===== verification/Pipeline.v ===== *)
(** * From the webhook to the snapshotter

    The two components meet in the pod's annotations: the webhook renders its
    templates at admission, leaving [{{.PodUID}}] and [{{.PodNamespace}}] as
    they are, and the resolver renders the result again when the container is
    mounted. *)

From S2P Require Import Prelude GoStrings System Template Json Annotation Resolver Sha256 Kube.
From S2P Require Import Webhook.

(** The values of the fields that the webhook resolves itself. *)
Definition resolved_fields (d : templateData) : list (string * string) :=
  [("OwnerName", td_OwnerName d); ("PodName", td_PodName d); ("PVName", td_PVName d);
   ("VolumeHandle", td_VolumeHandle d); ("PodIndex", td_PodIndex d)].

(** None of them contains a brace. *)
Definition plain_fields (d : templateData) : Prop :=
  forall f v, (f, v) ∈ resolved_fields d -> no_brace v = true.

(** The webhook's data: the last two fields stand for themselves. *)
Definition deferring (d : templateData) : Prop :=
  td_PodUID d = "{{.PodUID}}" /\ td_PodNamespace d = "{{.PodNamespace}}".

(** The same data with the pod's identity filled in. *)
Definition with_pod (d : templateData) (uid ns : string) : templateData :=
  mkTemplateData (td_OwnerName d) (td_PodName d) (td_PVName d) (td_VolumeHandle d)
    (td_PodIndex d) uid ns.

(** What the resolver substitutes for a name. *)
Definition var (r : resolver) (cfg : podSandboxConfig) (f : string) : string :=
  default "<no value>" (templateVars r cfg !! f).

Section Pipeline.
Context `{T : TemplateEngine} `{!TemplateLaws T}.

Lemma templateFuncs_plain name g v :
  (name, g) ∈ templateFuncs -> no_brace v = true -> no_brace (g v) = true.
Proof.
  intros Hin _. apply list_elem_of_singleton in Hin as [= -> ->].
  unfold no_brace. apply bool_decide_eq_true, sha256_hex_plain.
Qed.

(** Rendering at admission and again at mount time. *)
Lemma two_layers_render text ns t d annot r cfg key :
  frag_parse (map fst templateFuncs) text = POk ns ->
  Forall (deferred_unpiped (resolved_fields d)) ns ->
  plain_fields d -> deferring d ->
  parseTemplate "annotation" text = Ok t -> renderTemplate (Some t) d = Ok annot ->
  exists final, renderUpperdirTemplate r annot cfg key = Ok final /\
    frag_exec templateFuncs ns
      (joint_data (resolved_fields d) ["PodUID"; "PodNamespace"] (templateVars r cfg)) = Ok final /\
    renderTemplate (Some t) (with_pod d (var r cfg "PodUID") (var r cfg "PodNamespace"))
      = Ok final.
Proof.
  intros Hparse Hdef Hplain [Huid Hns] Ht Hr.
  destruct (engine_ok templateFuncs text ns Hparse) as (t' & Ht' & Hex).
  unfold parseTemplate in Ht. rewrite Ht' in Ht. injection Ht as ->. cbn [renderTemplate] in *.
  assert (Hdata : data_fields d = layer_data (resolved_fields d) ["PodUID"; "PodNamespace"]).
  { unfold data_fields. by rewrite Huid, Hns. }
  assert (Hannot : frag_exec templateFuncs ns
                     (layer_data (resolved_fields d) ["PodUID"; "PodNamespace"]) = Ok annot).
  { specialize (Hex (data_fields d)). rewrite Hdata in Hex, Hr.
    destruct (frag_exec _ _ _) as [s|e]; [congruence|]. destruct Hex. congruence. }
  destruct (relayer (resolved_fields d) ["PodUID"; "PodNamespace"] templateFuncs
              (templateVars r cfg) Hplain) with (ns := ns) (acc := "") (t2 := annot)
    as (ns2 & final & Hp2 & He2 & Hj); [|exact templateFuncs_plain| |done|done|done|].
  { intros f Hf. repeat (apply elem_of_cons in Hf as [->|Hf]; [done|]).
    by apply not_elem_of_nil in Hf. }
  { by eapply parse_nodes_wf. }
  rewrite !app_nil_l_str in *.
  exists final. split_and!; [|done|].
  - unfold renderUpperdirTemplate. destruct (engine_ok [] annot ns2 Hp2) as (t2 & -> & Hex2).
    specialize (Hex2 (DMap (templateVars r cfg))). rewrite He2 in Hex2. by rewrite Hex2.
  - specialize (Hex (joint_data (resolved_fields d) ["PodUID"; "PodNamespace"]
                       (templateVars r cfg))). rewrite Hj in Hex. exact Hex.
Qed.

(** C11 The two layers of rendering are one: an annotation template rendered by
    the webhook and rendered again by the resolver gives the path that the
    template would have given in one go with the pod's identity filled in -
    provided the webhook's values contain no brace and the deferred fields are
    not piped into a function. *)
Theorem two_layers text ns t d annot r cfg key :
  frag_parse (map fst templateFuncs) text = POk ns ->
  Forall (deferred_unpiped (resolved_fields d)) ns ->
  plain_fields d -> deferring d ->
  parseTemplate "annotation" text = Ok t -> renderTemplate (Some t) d = Ok annot ->
  exists final, renderUpperdirTemplate r annot cfg key = Ok final /\
    renderTemplate (Some t) (with_pod d (var r cfg "PodUID") (var r cfg "PodNamespace"))
      = Ok final.
Proof.
  intros Hparse Hdef Hplain Hself Ht Hr.
  destruct (two_layers_render text ns t d annot r cfg key) as (final & ? & _ & ?); eauto.
Qed.

(** ** The default templates *)

Context `{V : DNSValidation} `{!DNSLaws V}.

(** The annotations of a pod that was stamped with rendered templates. *)
Fixpoint stamp (raw : list (string * string)) (d : templateData) : option (gmap string string) :=
  match raw with
  | [] => Some ∅
  | (k, text) :: raw' =>
      match parseTemplate ("annotation/" +:+ k) text, stamp raw' d with
      | Ok t, Some m =>
          match renderTemplate (Some t) d with Ok v => Some (<[k := v]> m) | Err _ => None end
      | _, _ => None
      end
  end.

Lemma render_fragment text ns name t d s :
  frag_parse (map fst templateFuncs) text = POk ns ->
  parseTemplate name text = Ok t -> frag_exec templateFuncs ns (data_fields d) = Ok s ->
  renderTemplate (Some t) d = Ok s.
Proof.
  intros Hp Ht He. destruct (engine_ok templateFuncs text ns Hp) as (t' & Ht' & Hex).
  unfold parseTemplate in Ht. rewrite Ht' in Ht. injection Ht as ->.
  specialize (Hex (data_fields d)). by rewrite He in Hex.
Qed.

Definition default_nodes : list node :=
  [NText "/var/lib/kubelet/pods/"; NField "PodUID" [];
   NText "/volumes/kubernetes.io~csi/"; NField "PVName" []; NText "/mount"].

Lemma default_nodes_parse :
  frag_parse (map fst templateFuncs)
    "/var/lib/kubelet/pods/{{.PodUID}}/volumes/kubernetes.io~csi/{{.PVName}}/mount" =
  POk default_nodes.
Proof. by vm_compute. Qed.

Lemma default_stamp d m :
  deferring d -> stamp defaultAnnotationTemplates d = Some m ->
  exists t, parseTemplate ("annotation/" +:+ Key defaultPrefix annotationSuffixUpperdirPathTemplate)
    "/var/lib/kubelet/pods/{{.PodUID}}/volumes/kubernetes.io~csi/{{.PVName}}/mount" = Ok t /\
  exists v, renderTemplate (Some t) d = Ok v /\ v <> "" /\
    m = <[Key defaultPrefix annotationSuffixUpperdirPathTemplate := v]>
          (<[Key defaultPrefix (annotationSuffixVarSubPrefix +:+ "PVName") := td_PVName d]> ∅).
Proof.
  intros [Huid Hns]. unfold defaultAnnotationTemplates. cbn [stamp].
  destruct (parseTemplate _ "/var/lib/kubelet/pods/{{.PodUID}}/volumes/kubernetes.io~csi/{{.PVName}}/mount")
    as [t1|e] eqn:Ht1; [|done].
  destruct (parseTemplate _ "{{.PVName}}") as [t2|e] eqn:Ht2; [|done].
  rewrite (render_fragment "{{.PVName}}" [NField "PVName" []] _ t2 d (td_PVName d) eq_refl Ht2)
    by (transitivity (@Ok string (td_PVName d +:+ "")); [reflexivity|by rewrite app_nil_r_str]).
  destruct (renderTemplate (Some t1) d) as [v|e] eqn:Hv; [|done]. intros [= <-].
  exists t1. split; [reflexivity|]. exists v. split_and!; [exact Hv| |done].
  rewrite (render_fragment _ _ _ t1 d _ default_nodes_parse Ht1 eq_refl) in Hv. injection Hv as <-. done.
Qed.

Lemma default_joint d mm :
  frag_exec templateFuncs default_nodes
    (joint_data (resolved_fields d) ["PodUID"; "PodNamespace"] mm) =
  Ok ("/var/lib/kubelet/pods/" +:+ default "<no value>" (mm !! "PodUID") +:+
      "/volumes/kubernetes.io~csi/" +:+ td_PVName d +:+ "/mount").
Proof. reflexivity. Qed.

(** Where the kubelet mounts a CSI volume of a pod. *)
Definition csi_mount (uid pvName : string) : string :=
  "/var/lib/kubelet/pods/" +:+ uid +:+ "/volumes/kubernetes.io~csi/" +:+ pvName +:+ "/mount".

(** The keys of the default prefix. *)
Definition default_resolver : resolver :=
  mkResolver (Key defaultPrefix annotationSuffixUpperdirPath)
    (Key defaultPrefix annotationSuffixUpperdirPathTemplate)
    (Key defaultPrefix annotationSuffixVarSubPrefix).

(** The resolver on the rendered default template, for a pod that neither names
    a directory itself nor overrides the variable [PodUID]. *)
Lemma default_path name t d v cfg meta key :
  parseTemplate name
    "/var/lib/kubelet/pods/{{.PodUID}}/volumes/kubernetes.io~csi/{{.PVName}}/mount" = Ok t ->
  renderTemplate (Some t) d = Ok v -> deferring d -> no_brace (td_PVName d) = true ->
  psc_Metadata cfg = Some meta ->
  psc_Annotations cfg !! Key defaultPrefix annotationSuffixUpperdirPath = None ->
  psc_Annotations cfg !! Key defaultPrefix annotationSuffixUpperdirPathTemplate = Some v ->
  psc_Annotations cfg !! (Key defaultPrefix annotationSuffixVarSubPrefix +:+ "PodUID") = None ->
  upperdirFromConfig default_resolver cfg key = Ok (csi_mount (pom_UID meta) (td_PVName d)).
Proof.
  intros Ht Hv Hdef Hpv Hmeta Hlit Htm Huid.
  set (d' := mkTemplateData "" "" (td_PVName d) "" "" (td_PodUID d) (td_PodNamespace d)).
  assert (Hplain : plain_fields d').
  { intros f w Hin. cbn in Hin.
    repeat (apply elem_of_cons in Hin as [[= -> ->]|Hin]; [done|]). by apply not_elem_of_nil in Hin. }
  rewrite (render_fragment _ _ _ t d _ default_nodes_parse Ht eq_refl) in Hv. injection Hv as <-.
  unfold upperdirFromConfig. cbn [keyLiteral keyTemplate default_resolver]. rewrite Hlit, Htm.
  cbn [default id]. rewrite decide_False by (intros Hc; by apply Hc). rewrite decide_False by done.
  match goal with |- renderUpperdirTemplate ?r0 ?annot _ _ = _ =>
    destruct (two_layers_render _ default_nodes t d' annot r0 cfg key default_nodes_parse)
      as (final & -> & Hj & _) end;
    [by repeat constructor|done|exact Hdef|exact Ht
    |exact (render_fragment _ _ _ t d' _ default_nodes_parse Ht eq_refl)|].
  f_equal. rewrite default_joint, templateVars_get in Hj.
  cbn [keyVarPrefix default_resolver] in Hj. rewrite Huid, Hmeta, decide_True in Hj by done.
  by injection Hj as <-.
Qed.

(** The keys of an accepted prefix. *)
Lemma newResolver_keys viper r :
  newResolver viper = Ok r ->
  r = mkResolver (Key (GetString viper flagPrefix) annotationSuffixUpperdirPath)
        (Key (GetString viper flagPrefix) annotationSuffixUpperdirPathTemplate)
        (Key (GetString viper flagPrefix) annotationSuffixVarSubPrefix) /\
  "/"%char ∉ bytes (GetString viper flagPrefix).
Proof.
  unfold newResolver. destruct (ResolvePrefix viper) as [p|e] eqn:Hp; [|done]. intros [= <-].
  by apply ResolvePrefix_Ok in Hp as [-> Hval%validatePrefix_valid%dns_no_slash].
Qed.

(** C39 The default templates do their job only under the default prefix: with
    it, a pod stamped by the webhook is redirected to the CSI mount of its
    volume in the kubelet's directory of the pod; with any other accepted
    [--annotation-prefix] the resolver does not find the annotations, and the
    pod is not redirected at all. *)
Theorem default_templates_resolve viper r d m meta key :
  newResolver viper = Ok r -> no_brace (td_PVName d) = true -> deferring d ->
  stamp defaultAnnotationTemplates d = Some m ->
  upperdirFromConfig r (mkPodSandboxConfig (Some meta) m) key =
  if decide (GetString viper flagPrefix = defaultPrefix)
  then Ok ("/var/lib/kubelet/pods/" +:+ pom_UID meta +:+ "/volumes/kubernetes.io~csi/" +:+
           td_PVName d +:+ "/mount")
  else Ok "".
Proof.
  intros Hnew Hpv Hdef Hstamp. apply newResolver_keys in Hnew as [-> Hslash].
  destruct (default_stamp d m Hdef Hstamp) as (t & Ht & v & Hv & Hvne & Hm).
  set (p := GetString viper flagPrefix) in *.
  assert (Hdp : "/"%char ∉ bytes defaultPrefix) by (apply (bool_decide_unpack _); by vm_compute).
  assert (Hkey : forall s1 s2, Key p s1 = Key defaultPrefix s2 -> p = defaultPrefix /\ s1 = s2)
    by (intros; by apply Key_inj_valid).
  assert (Hlit : m !! Key p annotationSuffixUpperdirPath = None).
  { rewrite Hm, !lookup_insert_ne; [done|by intros [_ ?]%eq_sym%Hkey..]. }
  destruct (decide (p = defaultPrefix)) as [Heq|Hne].
  - rewrite Heq in *.
    apply (default_path _ t d v _ meta key Ht Hv Hdef Hpv); cbn [psc_Annotations]; [done|done| |];
      rewrite Hm; [by rewrite lookup_insert_eq|by rewrite !lookup_insert_ne].
  - unfold upperdirFromConfig. cbn [psc_Annotations keyLiteral keyTemplate]. rewrite Hlit.
    cbn [default]. rewrite decide_False by (intros Hc; by apply Hc).
    assert (m !! Key p annotationSuffixUpperdirPathTemplate = None) as ->; [|done].
    rewrite Hm, !lookup_insert_ne; [done|intros Hk; symmetry in Hk; apply Hkey in Hk; tauto..].
Qed.
End Pipeline.
