(* ===== verification/AdmissionExamples.v ===== *)
(** * A pod goes through the webhook

    One StatefulSet pod, its claim, and the default templates: the theorems of
    [Admission.v], [Patch.v] and [Pipeline.v] applied to them. *)

From S2P Require Import Prelude GoStrings System Template Json JsonPatch Annotation Resolver Sha256.
From S2P Require Import Kube Webhook Admission Patch Pipeline.
Local Open Scope go_scope.

(** ** The cluster *)

Definition web_pod : Pod :=
  mkPod "web-0" (<[podIndexLabel := "0"]> ∅) None
    [mkOwnerReference "StatefulSet" "web" (Some true)] None
    [mkPodContainer (Some [JString "m"]); mkPodContainer None] (Some "runc").
Definition web_set : Object := mkObject "web" [].
Definition web_claim (phase : string) : PVC := mkPVC "web" phase "pv-1".

Definition one_pod : PodDecoder := {|
  decode_pod s := if decide (s = "pod") then Ok web_pod else Err (Errorf "bad pod" []) |}.
Definition same_selector : LabelSelectors := {| labels_Parse s := Ok s |}.

Definition parsed_template (text : string) : FuncMap * list node :=
  match frag_parse (map fst templateFuncs) text with
  | POk ns => (templateFuncs, ns)
  | _ => (templateFuncs, [])
  end.

Definition web_tmpls : list (string * (FuncMap * list node)) :=
  map (fun '(k, text) => (k, parsed_template text)) defaultAnnotationTemplates.

Definition web_handler : Handler := {|
  pvcNameTmpl := Some (parsed_template "{{.OwnerName}}" : template);
  pvcSelectorTmpl := Some (parsed_template "" : template);
  pvcNameTmplAnnotation := "pv-snapshotter.humble-mun.io/pvc-name-template";
  annotationTmpls := list_to_map web_tmpls;
  maxOwnerDepth := 2;
  defaultRuntimeClass := "";
  runtimeClassSuffix := "-pv";
  stateMountPath := "/.platform/state";
  boundTimeout := 30 * Second
|}.

Definition web_request : AdmissionRequest := mkAdmissionRequest "u1" "web-0" "default" "pod".

(** The claim is bound at the second look. *)
Definition web_trace : list (event kubeE) :=
  [Ev (DynGet (mkGVR "apps" "v1" "statefulsets") "default" "web") (Ok web_set);
   Ev (PvcGet "default" "web") (web_claim "Pending", None);
   Ev TimeNow 0%Z; Ev TimeNow 5%Z; Ev (DoneOrAfter (2 * Second)) None;
   Ev (PvcGet "default" "web") (web_claim "Bound", None);
   Ev (PvGet "pv-1") (Ok (mkPV (Some "vol-1")))].

Definition web_data : templateData :=
  with_volume (admissionData web_request web_pod "web") "pv-1" "vol-1".

Definition web_ops : list jsonPatchOp :=
  match buildPatch web_handler web_tmpls web_pod "web" web_data with
  | Ok ops => ops
  | Err _ => []
  end.

Definition web_admitted : AdmissionResponse := allow "u1" web_ops.

Lemma web_build : buildPatch web_handler web_tmpls web_pod "web" web_data = Ok web_ops.
Proof. vm_compute. reflexivity. Qed.

(** A handler that answers from a recorded trace. *)
Definition script : handler kubeE (list (event kubeE)) := fun X e =>
  match e in kubeE X return list (event kubeE) -> X * list (event kubeE) with
  | DynGet _ _ _ => fun w =>
      match w with Ev (DynGet _ _ _) x :: w' => (x, w') | _ => (Err (Errorf "" []), w) end
  | PvcGet _ _ => fun w =>
      match w with Ev (PvcGet _ _) x :: w' => (x, w')
                 | _ => ((mkPVC "" "" "", Some (Errorf "" [])), w) end
  | PvcList _ _ _ => fun w =>
      match w with Ev (PvcList _ _ _) x :: w' => (x, w') | _ => (Err (Errorf "" []), w) end
  | PvGet _ => fun w =>
      match w with Ev (PvGet _) x :: w' => (x, w') | _ => (Err (Errorf "" []), w) end
  | TimeNow => fun w => match w with Ev TimeNow x :: w' => (x, w') | _ => (0%Z, w) end
  | DoneOrAfter _ => fun w =>
      match w with Ev (DoneOrAfter _) x :: w' => (x, w') | _ => (None, w) end
  end.

Lemma replay {A} (p : prog kubeE A) tr a :
  trace script p tr = tr -> fst (run script p tr) = a -> exec p tr a.
Proof. intros Ht Hr. pose proof (run_exec script p tr) as H. by rewrite Ht, Hr in H. Qed.

(** ** The theorems at work *)

Lemma waitBound_ends_witness :
  let tr := skipn 2 web_trace in
  clock_ok 0 tr /\
  exec (waitBound web_handler (web_claim "Pending") "default") tr (Some (Ok ("pv-1", "vol-1"))) /\
  (slept tr <= 30 * Second)%Z.
Proof.
  intros tr. assert (Hc : clock_ok 0 tr) by (cbn; lia).
  assert (Hex : exec (waitBound web_handler (web_claim "Pending") "default") tr
                  (Some (Ok ("pv-1", "vol-1")))) by (apply replay; vm_compute; reflexivity).
  split_and!; [exact Hc|exact Hex|].
  exact (proj2 (waitBound_ends web_handler "default" (web_claim "Pending") 0 tr _ Hc Hex)).
Defined.

Lemma waitBound_polls_witness :
  let tr := skipn 2 web_trace in
  clock_ok 0 tr /\
  exec (waitBound web_handler (web_claim "Pending") "default") tr (Some (Ok ("pv-1", "vol-1"))) /\
  (Z.of_nat (count is_poll tr) <= 15)%Z.
Proof.
  intros tr. assert (Hc : clock_ok 0 tr) by (cbn; lia).
  assert (Hex : exec (waitBound web_handler (web_claim "Pending") "default") tr
                  (Some (Ok ("pv-1", "vol-1")))) by (apply replay; vm_compute; reflexivity).
  split_and!; [exact Hc|exact Hex|].
  exact (proj1 (waitBound_polls web_handler "default" (web_claim "Pending") 0 tr _ Hc Hex)).
Defined.

Lemma waitBound_ok_witness :
  let tr := skipn 2 web_trace in
  exists pvc' pv tr', pvc_Phase pvc' = "Bound" /\ pvc_VolumeName pvc' = "pv-1" /\
    tr = tr' ++ [Ev (PvGet "pv-1") (Ok pv)].
Proof.
  intros tr.
  assert (Hex : exec (waitBound web_handler (web_claim "Pending") "default") tr
                  (Some (Ok ("pv-1", "vol-1")))) by (apply replay; vm_compute; reflexivity).
  destruct (waitBound_ok web_handler "default" _ tr _ _ Hex)
    as (pvc' & pv & tr' & H1 & H2 & _ & _ & H3 & _).
  by exists pvc', pv, tr'.
Defined.

Lemma mutate_allowed_iff_witness :
  ar_Allowed web_admitted = true /\
  exec (mutate (H0:=one_pod) (H1:=same_selector) web_handler web_tmpls web_request) web_trace
    (Some web_admitted).
Proof.
  split; [done|].
  apply (mutate_allowed_iff (H0:=one_pod) (H1:=same_selector)); [done|].
  exists web_pod, "web", (web_claim "Pending"), "pv-1", "vol-1", web_ops,
    (take 1 web_trace), (take 1 (drop 1 web_trace)), (drop 2 web_trace).
  split_and!; [done|apply replay; vm_compute; reflexivity|apply replay; vm_compute; reflexivity
             |apply replay; vm_compute; reflexivity|exact web_build|done|done].
Defined.

Lemma mutate_responds_witness :
  let tr := take 1 web_trace ++ [Ev (PvcGet "default" "web")
                                    (web_claim "", Some (Ext NotFound "no such claim"))] in
  exists resp, exec (mutate (H0:=one_pod) (H1:=same_selector) web_handler web_tmpls web_request) tr
    (Some resp) /\ ar_UID resp = "u1" /\ ar_Allowed resp = false.
Proof.
  intros tr. eexists. 
  assert (Hex : exec (mutate (H0:=one_pod) (H1:=same_selector) web_handler web_tmpls web_request) tr
    (Some (deny "u1" (mkMessage "resolving PVC for owner %q: %v" ["web"]
       (Wrapf "fetching PVC %q: %w" ["web"] (Ext NotFound "no such claim")))))) by (apply replay; vm_compute; reflexivity).
  split; [exact Hex|].
  assert (Hc : clock_ok 0 tr) by done.
  destruct (mutate_responds (H0:=one_pod) (H1:=same_selector) _ _ _ _ _ _ Hc Hex)
    as (resp & [= <-] & Hu & [[Ha _]|[Ha _]]); [done|]. by split.
Defined.

(** The pod's document. *)
Definition web_container (mounts : list json) : members :=
  [("name", JString "app"); ("volumeMounts", JArray mounts)].
Definition web_md : members := [("name", JString "web-0"); ("annotations", JNull)].
Definition web_sp : members :=
  [("containers", JArray [JObject (web_container [JString "m"]); JObject []]);
   ("runtimeClassName", JString "runc")].
Definition web_doc : members := [("metadata", JObject web_md); ("spec", JObject web_sp)].

Lemma buildPatch_applies_witness :
  represents web_doc web_md web_sp web_pod /\
  exists top' sp', apply_patch (marshalPatch web_ops) (JObject web_doc) = Some (JObject top') /\
    assoc "spec" top' = Some (JObject sp') /\
    assoc "runtimeClassName" sp' = Some (JString "runc-pv") /\
    assoc "volumes" sp' = Some (JArray [marshalVolume "pv-snapshotter--state" "web"]).
Proof.
  assert (Hrep : represents web_doc web_md web_sp web_pod).
  { split; try done; cbn [web_pod pod_Annotations pod_Volumes pod_Containers pc_VolumeMounts];
      [by right|by left|by do 2 eexists]. }
  split; [exact Hrep|].
  destruct (buildPatch_applies web_handler web_tmpls web_pod "web" web_data web_ops
              web_doc web_md web_sp Hrep)
    as (top' & md' & sp' & am' & Ha & _ & Hs & _ & _ & _ & _ & _ & Hv & _ & Hr);
    [ | exact web_build | ].
  { symmetry. apply map_to_list_to_map. by apply (bool_decide_unpack _). }
  exists top', sp'. split_and!; [exact Ha|exact Hs|exact Hr|exact Hv].
Defined.

Lemma parsed_ok name text ns :
  frag_parse (map fst templateFuncs) text = POk ns ->
  parseTemplate name text = Ok (parsed_template text).
Proof.
  intros Hp. unfold parseTemplate, parsed_template. cbn [template_Parse fragEngine].
  by rewrite Hp.
Qed.

Definition web_meta : podObjectMeta := mkPodObjectMeta "web-0" "uid-7" "default".

Lemma two_layers_witness :
  exists final,
    renderUpperdirTemplate (mkResolver "p/a" "p/b" "p/var.") "/v/{{.PodUID}}/pv-1"
      (mkPodSandboxConfig (Some web_meta) ∅) "k" = Ok final /\ final = "/v/uid-7/pv-1".
Proof.
  set (text := "/v/{{ .PodUID }}/{{.PVName}}").
  destruct (two_layers (T:=fragEngine) text
    [NText "/v/"; NField "PodUID" []; NText "/"; NField "PVName" []] (parsed_template text)
    web_data "/v/{{.PodUID}}/pv-1" (mkResolver "p/a" "p/b" "p/var.")
    (mkPodSandboxConfig (Some web_meta) ∅) "k") as (final & Hr & Hj).
  - by vm_compute.
  - by repeat constructor.
  - intros f v Hin. cbn in Hin.
    repeat (apply elem_of_cons in Hin as [[= -> ->]|Hin]; [done|]). by apply not_elem_of_nil in Hin.
  - done.
  - eapply parsed_ok. by vm_compute.
  - by vm_compute.
  - exists final. split; [exact Hr|]. vm_compute in Hj. by injection Hj.
Defined.

Definition default_viper : Viper := {|
  GetString k := if decide (k = flagPrefix) then defaultPrefix else "";
  GetBool _ := false; GetInt _ := 0%Z; GetDuration _ := 0%Z;
  GetStringSlice _ := []; GetStringMapString _ := ∅ |}.

Definition web_viper : Viper := {|
  GetString k := if decide (k = flagPrefix) then defaultPrefix
                 else if decide (k = flagPVCNameTemplate) then "{{.OwnerName}}" else "";
  GetBool _ := false; GetInt _ := 2%Z; GetDuration _ := (30 * Second)%Z;
  GetStringSlice _ := [];
  GetStringMapString k :=
    if decide (k = flagAnnotationTemplates) then list_to_map defaultAnnotationTemplates else ∅ |}.

(** Ranged over in either order, the templates give the same handler. *)
Lemma New_any_order_witness :
  exists h, New (H2:=dns1123Validation) web_viper (Ok tt) (Ok tt) (Ok tt) id = Ok h /\
    New (H2:=dns1123Validation) web_viper (Ok tt) (Ok tt) (Ok tt) (@rev _) = Ok h /\
    pvcNameTmplAnnotation h = "pv-snapshotter.humble-mun.io/pvc-name-template" /\
    is_Some (annotationTmpls h !! "pv-snapshotter.humble-mun.io/var.PVName").
Proof.
  assert (Hrev : forall l : list (string * string), rev l ≡ₚ l)
    by (intros l; symmetry; apply Permutation_rev).
  destruct (New_any_order (H0:=dns1123Validation) web_viper (Ok tt) (Ok tt) (Ok tt) id (@rev _)
              (fun l => Permutation_refl l) Hrev) as [_ Hboth].
  assert (Hok : match New (H2:=dns1123Validation) web_viper (Ok tt) (Ok tt) (Ok tt) id with
                | Ok _ => true | Err _ => false end = true) by (vm_compute; reflexivity).
  destruct (New (H2:=dns1123Validation) web_viper (Ok tt) (Ok tt) (Ok tt) id) as [h|]; [|done].
  destruct (New (H2:=dns1123Validation) web_viper (Ok tt) (Ok tt) (Ok tt) (@rev _)) as [h'|]; [|done].
  destruct Hboth as [-> Hwf]. exists h. split; [done|]. split; [done|].
  split; [exact (wf_override _ _ Hwf)|].
  destruct (wf_templates _ _ Hwf "pv-snapshotter.humble-mun.io/var.PVName") as (t & _ & Ht).
  exists t. exact Ht.
Defined.

Definition web_annotations : gmap string string :=
  <["pv-snapshotter.humble-mun.io/upperdir-path-template" :=
      "/var/lib/kubelet/pods/{{.PodUID}}/volumes/kubernetes.io~csi/pv-1/mount"]>
    (<["pv-snapshotter.humble-mun.io/var.PVName" := "pv-1"]> ∅).

Lemma web_stamp : stamp defaultAnnotationTemplates web_data = Some web_annotations.
Proof.
  unfold defaultAnnotationTemplates. cbn [stamp].
  rewrite (parsed_ok _ "{{.PVName}}" [NField "PVName" []] eq_refl).
  rewrite (parsed_ok _ "/var/lib/kubelet/pods/{{.PodUID}}/volumes/kubernetes.io~csi/{{.PVName}}/mount"
    [NText "/var/lib/kubelet/pods/"; NField "PodUID" []; NText "/volumes/kubernetes.io~csi/";
     NField "PVName" []; NText "/mount"] eq_refl).
  assert (renderTemplate (Some (parsed_template "{{.PVName}}" : template)) web_data = Ok "pv-1")
    as -> by by vm_compute.
  assert (renderTemplate (Some (parsed_template
    "/var/lib/kubelet/pods/{{.PodUID}}/volumes/kubernetes.io~csi/{{.PVName}}/mount" : template))
    web_data = Ok "/var/lib/kubelet/pods/{{.PodUID}}/volumes/kubernetes.io~csi/pv-1/mount")
    as -> by by vm_compute.
  reflexivity.
Qed.

Lemma default_templates_resolve_witness :
  exists r, newResolver (H:=dns1123Validation) default_viper = Ok r /\
    upperdirFromConfig r (mkPodSandboxConfig (Some web_meta) web_annotations) "k" =
    Ok "/var/lib/kubelet/pods/uid-7/volumes/kubernetes.io~csi/pv-1/mount".
Proof.
  set (k := Key defaultPrefix).
  exists (mkResolver (k "upperdir-path") (k "upperdir-path-template") (k "var.")).
  assert (Hn : newResolver (H:=dns1123Validation) default_viper =
    Ok (mkResolver (k "upperdir-path") (k "upperdir-path-template") (k "var."))) by by vm_compute.
  split; [exact Hn|].
  exact (default_templates_resolve (T:=fragEngine) (V:=dns1123Validation)
           (DNSLaws0:=dns1123_laws) default_viper _ web_data _ web_meta "k" Hn eq_refl
           (conj eq_refl eq_refl) web_stamp).
Defined.
