(* ===== verification/Waiting.v ===== *)
(** * The wait does not miss a claim

    [Admission.v] shows that the wait for the claim ends and that its success
    means something.  Here is the other half: a claim that is bound before the
    deadline is found, although the code only looks every two seconds and the
    clock, the timers and the reads of the claim all take their time. *)

From S2P Require Import Prelude GoStrings Template Json Annotation Sha256 Kube Webhook Admission.
From S2P Require Import AdmissionExamples.
Local Open Scope go_scope.

(** The cluster while a claim gets bound: from the time [T] on every read shows
    it in the phase Bound, with the volume [vol]; no read fails, and nobody
    cancels the request.  [last] is a time that has passed when the trace
    begins; between two readings of the clock timers and reads add at most
    [slack] to what was slept. *)
Fixpoint timely (slack T : Z) (vol : string) (last : Z) (tr : list (event kubeE)) : Prop :=
  match tr with
  | [] => True
  | Ev TimeNow t :: tr' => (last <= t <= last + slack)%Z /\ timely slack T vol t tr'
  | Ev (DoneOrAfter d) done :: tr' => done = None /\ timely slack T vol (last + d) tr'
  | Ev (PvcGet _ _) (pvc, err) :: tr' =>
      err = None /\ ((T <= last)%Z -> pvc_Phase pvc = ClaimBound) /\
      (pvc_Phase pvc = ClaimBound -> pvc_VolumeName pvc = vol) /\ timely slack T vol last tr'
  | Ev (PvGet name) pv :: tr' => (name = vol -> is_ok pv = true) /\ timely slack T vol last tr'
  | _ :: tr' => timely slack T vol last tr'
  end.

Lemma timely_clock slack T vol last tr : timely slack T vol last tr -> clock_ok last tr.
Proof.
  revert last. induction tr as [|[X e a] tr IH]; intros last; [done|].
  destruct e; cbn [timely clock_ok]; try (by intros Ht; apply IH); try (by intros [_ Ht]; apply IH).
  - destruct a as [pvc err]. intros (_ & _ & _ & Ht). by apply IH.
  - intros [[? ?] Ht]. split; [done|by apply IH].
  - intros [-> Ht]. by apply IH.
Qed.

Lemma timely_app slack T vol last tr1 tr2 :
  timely slack T vol last (tr1 ++ tr2) ->
  timely slack T vol last tr1 /\ exists last', timely slack T vol last' tr2.
Proof.
  revert last. induction tr1 as [|[X e a] tr1 IH]; intros last; [by intros Ht; split; [|exists last]|].
  destruct e; cbn [app timely]; try apply IH; try (intros [? [? ?]%IH]; done).
  destruct a as [pvc err]. intros (? & ? & ? & [? ?]%IH). done.
Qed.

Section Waiting.
Context `{TemplateEngine} (h : Handler) (ns vol : string) (slack T : Z).

(** The loop neither times out nor fails. *)
Lemma waitLoop_timely deadline fuel pvc last tr r :
  (T + slack < deadline)%Z ->
  (pvc_Phase pvc = ClaimBound -> pvc_VolumeName pvc = vol) ->
  (pvc_Phase pvc = ClaimBound \/ last + slack < deadline)%Z ->
  timely slack T vol last tr -> exec (waitLoop h ns deadline fuel pvc) tr r ->
  match r with
  | Some (Ok pvc') => pvc_VolumeName pvc' = vol
  | Some (Err _) => False
  | None => True
  end.
Proof.
  intros HT. revert pvc last tr.
  induction fuel as [|fuel IH]; intros pvc last tr Hvol Hlast Hc Hex; [by destruct Hex as [_ <-]|].
  cbn [waitLoop] in Hex. case_decide as Hph; [exec_inv Hex; auto|].
  destruct Hlast as [?|Hlast]; [done|].
  exec_step Hex. destruct Hc as [Hnow Hc].
  destruct (Z.leb_spec (deadline - x) 0) as [Hle|Hgt]; [lia|].
  set (d := if Z.ltb (deadline - x) boundPollInterval then (deadline - x)%Z else boundPollInterval) in *.
  exec_step Hex. exec_step Hex; destruct Hc as [Hd Hc]; [done|].
  exec_step Hex. destruct x0 as [pvc' [err|]], Hc as (He & Hb & Hv & Hc); [done|].
  apply (IH pvc' (x + d)%Z tr0); try done.
  destruct (Z.le_gt_cases T (x + d)) as [Hle|Hlt]; [left; auto|right; lia].
Qed.

(** C18 A claim that gets bound in time is not missed: if from the time [T] on
    the claim shows as bound, no read fails and the request is not cancelled,
    and [T] lies before the deadline by more than the clock's slack, then the
    wait succeeds with the claim's volume - whatever the phases before, and
    wherever [T] falls between two polls. *)
Theorem waitBound_succeeds pvc last tr r :
  (last <= T)%Z -> (T + slack < last + boundTimeout h)%Z -> vol <> "" ->
  (pvc_Phase pvc = ClaimBound -> pvc_VolumeName pvc = vol) ->
  timely slack T vol last tr -> exec (waitBound h pvc ns) tr r ->
  exists volumeHandle, r = Some (Ok (vol, volumeHandle)).
Proof.
  intros Hlast HT Hne Hvol Hc Hex.
  pose proof (waitBound_never_stuck h ns pvc last tr r (timely_clock _ _ _ _ _ Hc) Hex) as Hr.
  unfold waitBound in Hex. exec_step Hex. destruct Hc as [Hnow Hc].
  apply exec_bind in Hex as (tr1 & b & tr2 & -> & Hloop & Hex).
  apply timely_app in Hc as [Hc1 [last' Hc2]].
  assert (Hb : match b with Some (Ok pvc') => pvc_VolumeName pvc' = vol
               | Some (Err _) => False | None => True end).
  { apply (waitLoop_timely (x + boundTimeout h) (waitFuel h) pvc x tr1); try done; [lia|].
    right. lia. }
  destruct b as [[pvc'|e]|]; [|done|by exec_inv Hex].
  rewrite Hb, decide_False in Hex by done. exec_step Hex. destruct Hc2 as [Hpv _].
  specialize (Hpv eq_refl). exec_inv Hex. by eexists.
Qed.
End Waiting.

(** The claim of [web_trace] is bound between the first and the second look. *)
Lemma waitBound_succeeds_witness :
  let tr := skipn 2 web_trace in
  timely 10 1000 "pv-1" 0 tr /\
  exec (waitBound web_handler (web_claim "Pending") "default") tr (Some (Ok ("pv-1", "vol-1"))) /\
  exists volumeHandle, Some (Ok ("pv-1", "vol-1")) = Some (@Ok (string * string) ("pv-1", volumeHandle)).
Proof.
  intros tr. assert (Hc : timely 10 1000 "pv-1" 0 tr) by (cbn; split_and!; done || lia).
  assert (Hex : exec (waitBound web_handler (web_claim "Pending") "default") tr
                  (Some (Ok ("pv-1", "vol-1")))) by (apply replay; vm_compute; reflexivity).
  split_and!; [exact Hc|exact Hex|].
  refine (waitBound_succeeds web_handler "default" "pv-1" 10 1000 (web_claim "Pending") 0 tr _
            _ _ _ _ Hc Hex); by vm_compute.
Defined.
