(* ===== verification/EndToEnd.v ===== *)
(** * From admission to the container's mounts

    The components of the program meet outside of it: the API server applies
    the webhook's patch, the kubelet hands the pod's annotations to the
    sandbox, containerd keeps them in its container store, and asks the
    snapshotter for the mounts of the container.  This file follows a pod
    along that path, with the three outsiders as hypotheses that state what
    they pass on, and what happens when containerd does not answer. *)

From S2P Require Import Prelude GoStrings System Mount Template Json JsonPatch Annotation.
From S2P Require Import Resolver Dedup Service Sha256 Kube Webhook Admission Patch Pipeline.
From S2P Require Import AdmissionExamples.
Local Open Scope go_scope.

(** ** The outsiders *)

(** The kubelet: the sandbox's configuration carries the annotations of the
    patched pod, at least those under the default prefix. *)
Definition delivered (am : members) (cfg : podSandboxConfig) : Prop :=
  forall suffix, psc_Annotations cfg !! Key defaultPrefix suffix =
    match assoc (Key defaultPrefix suffix) am with Some (JString v) => Some v | _ => None end.

(** A workload container, in the words of the CRI plugin. *)
Definition workload (info : ContainerInfo) : Prop :=
  ci_Labels info !! criKindLabel = Some criKindContainer /\ ci_SandboxID info <> "".

(** The container store: [c] is the container [id], described by [info], and
    [s] its sandbox, whose extension holds the configuration [cfg].  What
    other reads answer is left open. *)
Definition stored `{P : JsonParser} (id : string) (c s : Container) (info : ContainerInfo)
    (cfg : podSandboxConfig) (ev : event sysE) : Prop :=
  match ev with
  | Ev (CtrContainers _ filter) ans =>
      (filter = "id==" +:+ id -> exists cs, ans = Ok (c :: cs)) /\
      (filter = "id==" +:+ ci_SandboxID info -> exists ss, ans = Ok (s :: ss))
  | Ev (CtrInfo _ c') ans => c' = c -> ans = Ok info
  | Ev (CtrExtensions _ s') ans => s' = s ->
      exists exts raw, ans = Ok exts /\ exts !! criSandboxMetadataExtension = Some raw /\
        unmarshalSandboxMetadata raw = Ok (mkSandboxMetadata (mkSandboxMetadataInner (Some cfg)))
  | _ => True
  end.

(** A pod whose author asks for nothing: no directory of its own, and no
    variable that would shadow the pod's uid. *)
Definition asks_nothing (am : members) : Prop :=
  assoc (Key defaultPrefix annotationSuffixUpperdirPath) am = None /\
  assoc (Key defaultPrefix annotationSuffixVarSubPrefix +:+ "PodUID") am = None.

(** The mounts [ms'] are [ms] with the writable layer at [path]: the kernel
    writes below [path] and nowhere else, if [ms] is a writable overlay; any
    other mount list - a bind mount, an overlay without an upper directory - is
    as it was. *)
Definition placed_at (path : string) (ms ms' : list Mount) : Prop :=
  ms' = replaceUpperdirOptions ms path /\
  (writable ms -> path +:+ "/upper" ∈ writable_dirs ms' /\
     forall d, d ∈ writable_dirs ms' -> d = path +:+ "/upper" \/ d = path +:+ "/work") /\
  (~ writable ms -> ms' = ms).

Lemma placed ms path : placed_at path ms (replaceUpperdirOptions ms path).
Proof.
  split; [done|]. split; [apply writable_redirected|apply not_writable_unchanged].
Qed.

(** What a call of [Mounts] can end in when the writable layer has to be at
    [path]: the native error, the directory's error, the panic on an empty
    mount list, or the mounts placed at [path] after it was found ready. *)
Definition redirected (ctx : Ctx) (key path : string) (tr : list (event sysE))
    (out : outcome (result (list Mount))) : Prop :=
  (exists e, tr = [Ev (SnMounts ctx key) (Err e)] /\ out = Returns (Err e)) \/
  exists ms reads writes ready,
    tr = Ev (SnMounts ctx key) (Ok ms) :: reads ++ writes /\
    exec (ensureUpperdirReady path) writes ready /\
    match ready, ms with
    | Err e, _ => out = Returns (Err e)
    | Ok _, [] => out = Panics "index out of range [0] with length 0"
    | Ok _, _ => exists ms', out = Returns (Ok ms') /\ placed_at path ms ms'
    end.

(** A read of the container store that failed. *)
Definition read_failed (ev : event sysE) : Prop :=
  match ev with
  | Ev (CtrContainers _ _) (Err _) | Ev (CtrInfo _ _) (Err _) | Ev (CtrExtensions _ _) (Err _) => True
  | _ => False
  end.

(** The fallback: a read failed as [F] says, and the answer is the native
    mounts. *)
Definition fell_back (F : event sysE -> Prop) (ctx : Ctx) (key : string) (tr : list (event sysE))
    (out : outcome (result (list Mount))) : Prop :=
  exists ms reads, tr = Ev (SnMounts ctx key) (Ok ms) :: reads /\ Exists F reads /\
    out = Returns (Ok ms).

(** ** The snapshotter's side *)

Section Snapshotter.
Context `{T : TemplateEngine} `{P : JsonParser}.

(** The reads are answered by the store, or fail as [F] says. *)
Context (F : event sysE -> Prop) (F_failed : forall ev, F ev -> read_failed ev).
Definition answered (id : string) (c s : Container) (info : ContainerInfo)
    (cfg : podSandboxConfig) (ev : event sysE) : Prop :=
  stored id c s info cfg ev \/ F ev.

Ltac failed_read Hex Hf :=
  let Hr := fresh in
  pose proof (F_failed _ Hf) as Hr;
  match type of Hf with F (Ev _ ?x) => destruct x; [done|] end;
  exec_inv Hex; right; split; [|by eexists]; repeat first [by left|right].

(** Against such a store the resolution is what the configuration says, unless
    a read fails: then it is an error. *)
Lemma resolve_answered r key ns id c s info cfg tr res :
  parseSnapshotKey key = Some (ns, id) -> workload info ->
  exec (resolveAtMountsTime r key) tr res -> Forall (answered id c s info cfg) tr ->
  res = upperdirFromConfig r cfg key \/ (Exists F tr /\ exists e, res = Err e).
Proof.
  intros Hkey [Hkind Hsb] Hex Hst. unfold resolveAtMountsTime in Hex. rewrite Hkey in Hex.
  exec_step Hex. apply Forall_cons in Hst as [[[Hc _]|Hf] Hst].
  2: { failed_read Hex Hf. }
  destruct (Hc eq_refl) as [cs ->]. cbn [bind] in Hex.
  exec_step Hex. apply Forall_cons in Hst as [[Hi|Hf] Hst].
  2: { failed_read Hex Hf. }
  cbn in Hi. rewrite (Hi eq_refl) in Hex.
  rewrite Hkind in Hex. cbn [bind from_option Datatypes.id] in Hex.
  rewrite decide_False in Hex by done. rewrite decide_True in Hex by done.
  rewrite decide_False in Hex by done.
  unfold upperdirFromSandboxID in Hex. exec_step Hex.
  apply Forall_cons in Hst as [[[_ Hs]|Hf] Hst].
  2: { failed_read Hex Hf. }
  destruct (Hs eq_refl) as [ss ->].
  unfold upperdirFromSandboxContainer in Hex. exec_step Hex.
  apply Forall_cons in Hst as [[He|Hf] Hst].
  2: { failed_read Hex Hf. }
  cbn in He. destruct (He eq_refl) as (exts & raw & -> & Hx & Hu). rewrite Hx, Hu in Hex.
  cbn [smi_Config sm_Metadata exec] in Hex. left. by destruct Hex as [_ <-].
Qed.

Lemma Mounts_stored sn ctx key ns id c s info cfg path tr out :
  parseSnapshotKey key = Some (ns, id) -> workload info ->
  upperdirFromConfig (sn_resolver sn) cfg key = Ok path -> path <> "" ->
  exec (Mounts sn ctx key) tr out -> Forall (answered id c s info cfg) tr ->
  redirected ctx key path tr out \/ fell_back F ctx key tr out.
Proof.
  intros Hkey Hw Hcfg Hp Hex Hst.
  apply Mounts_inv in Hex as [?|(ms & res & tr1 & tr2 & Hres & -> & Hout)]; [by left; left|].
  apply Forall_cons in Hst as [_ [Hst1 _]%Forall_app].
  destruct (resolve_answered _ _ _ _ _ _ _ _ _ _ Hkey Hw Hres Hst1) as [->|(Hf & e & ->)].
  - rewrite Hcfg in Hout. destruct Hout as [(Hp' & _)|(p & ready & [= <-] & _ & Hens & ->)]; [done|].
    left. right. exists ms, tr1, tr2, ready. split_and!; [done|done|].
    destruct ready as [u|e]; [|done]. destruct ms as [|m ms]; [done|].
    exists (replaceUpperdirOptions (m :: ms) path). split; [|apply placed].
    simpl. by repeat case_match.
  - right. destruct Hout as [(_ & -> & ->)|(p & ready & [=] & _)].
    exists ms, tr1. by rewrite app_nil_r.
Qed.
End Snapshotter.

(** ** The webhook's side *)

Definition default_template_key : string :=
  Key defaultPrefix annotationSuffixUpperdirPathTemplate.
Definition default_template : string :=
  "/var/lib/kubelet/pods/{{.PodUID}}/volumes/kubernetes.io~csi/{{.PVName}}/mount".

(** [--webhook-annotation-templates] is left at its default. *)
Definition has_default_templates (viper : Viper) : Prop :=
  GetStringMapString viper flagAnnotationTemplates = list_to_map defaultAnnotationTemplates.

Section Webhook.
Context `{T : TemplateEngine} `{!TemplateLaws T} `{V : DNSValidation} `{!DNSLaws V}.
Context `{D : PodDecoder} `{L : LabelSelectors}.

(** A handler made from the default templates holds the path template under its
    key, and nothing under the two keys by which a pod could decide itself. *)
Lemma default_handler viper cfg kc dc range_ h :
  (forall l, range_ l ≡ₚ l) -> has_default_templates viper ->
  New viper cfg kc dc range_ = Ok h ->
  (exists t, parseTemplate ("annotation/" +:+ default_template_key) default_template = Ok t /\
     annotationTmpls h !! default_template_key = Some t) /\
  annotationTmpls h !! Key defaultPrefix annotationSuffixUpperdirPath = None /\
  annotationTmpls h !! (Key defaultPrefix annotationSuffixVarSubPrefix +:+ "PodUID") = None.
Proof.
  intros Hperm Hdef Hnew. apply (New_templates _ Hperm) in Hnew.
  unfold parsed_templates in Hnew. rewrite Hdef in Hnew.
  pose proof (Hnew default_template_key) as H1.
  pose proof (Hnew (Key defaultPrefix annotationSuffixUpperdirPath)) as H2.
  pose proof (Hnew (Key defaultPrefix annotationSuffixVarSubPrefix +:+ "PodUID")) as H3.
  split_and!; [exact H1|exact H2|exact H3].
Qed.

(** What an admission leaves in the pod's annotations. *)
Lemma admitted_annotations viper cfg kc dc range_ h mrange req tr resp top md sp :
  (forall l, range_ l ≡ₚ l) -> has_default_templates viper ->
  New viper cfg kc dc range_ = Ok h ->
  mrange ≡ₚ map_to_list (annotationTmpls h) ->
  exec (mutate h mrange req) tr (Some resp) -> ar_Allowed resp = true ->
  (forall pod, decode_pod (req_Object req) = Ok pod -> represents top md sp pod) ->
  asks_nothing (annotations_of md) ->
  exists data patch top' md' am' t v,
    ar_Patch resp = Some patch /\ apply_patch patch (JObject top) = Some (JObject top') /\
    assoc "metadata" top' = Some (JObject md') /\ assoc "annotations" md' = Some (JObject am') /\
    (exists before pv, tr = before ++ [Ev (PvGet (td_PVName data)) (Ok pv)]) /\
    deferring data /\ asks_nothing am' /\
    parseTemplate ("annotation/" +:+ default_template_key) default_template = Ok t /\
    renderTemplate (Some t) data = Ok v /\ assoc default_template_key am' = Some (JString v).
Proof.
  intros Hrange Hdefault Hnew Hperm Hex Hall Hdoc [Hno1 Hno2].
  destruct (default_handler _ _ _ _ _ _ Hrange Hdefault Hnew) as ((t & Ht & Htm) & Hn1 & Hn2).
  apply (mutate_admits h) in Hex
    as (pod & owner & pvc & pv & handle & ops & tr1 & tr2 & tr3 & Hd & _ & _ & Hw & Hb & -> & ->);
    [|done].
  destruct (buildPatch_document h mrange pod _ _ ops top md sp (Hdoc _ Hd) Hperm Hb)
    as (top' & md' & sp' & am' & Hp & Hmd & _ & _ & _ & Ham & Hk & _).
  apply waitBound_inv in Hw as (pvc' & pvo & start & tr4 & _ & _ & _ & -> & _).
  pose proof (Hk default_template_key) as Hk1. rewrite Htm in Hk1. destruct Hk1 as (v & Hv & Hav).
  eexists _, _, top', md', am', t, v. split_and!; try done.
  - eexists (tr1 ++ tr2 ++ Ev TimeNow start :: tr4), pvo. by rewrite <- !app_assoc.
  - by split.
  - pose proof (Hk (Key defaultPrefix annotationSuffixUpperdirPath)) as Hk1.
    pose proof (Hk (Key defaultPrefix annotationSuffixVarSubPrefix +:+ "PodUID")) as Hk2.
    rewrite Hn1 in Hk1. rewrite Hn2 in Hk2. split; [by rewrite Hk1|by rewrite Hk2].
Qed.

(** ** Together *)

Context `{P : JsonParser}.

(** C2 Where an admitted pod writes: under the default prefix and the default
    templates, an admitted pod that asks for nothing itself carries annotations
    such that, in whatever sandbox they arrive and for every container of it,
    [Mounts] fails, or places the container's writable overlay in the kubelet's
    directory of the volume that was read last at admission - seen to be a
    mountpoint - so that the kernel writes there and nowhere else.  There is one
    exception: when a read of the container store fails, the answer is the
    native mounts. *)
Theorem admitted_pod_redirected viper cfg kc dc range_ h r mrange req tr resp top md sp :
  GetString viper flagPrefix = defaultPrefix -> has_default_templates viper ->
  (forall l, range_ l ≡ₚ l) ->
  New viper cfg kc dc range_ = Ok h -> newResolver viper = Ok r ->
  mrange ≡ₚ map_to_list (annotationTmpls h) ->
  exec (mutate h mrange req) tr (Some resp) -> ar_Allowed resp = true ->
  (forall pod, decode_pod (req_Object req) = Ok pod -> represents top md sp pod) ->
  asks_nothing (annotations_of md) ->
  exists pvName patch top' md' am',
    ar_Patch resp = Some patch /\ apply_patch patch (JObject top) = Some (JObject top') /\
    assoc "metadata" top' = Some (JObject md') /\ assoc "annotations" md' = Some (JObject am') /\
    (exists before pv, tr = before ++ [Ev (PvGet pvName) (Ok pv)]) /\
    forall sn ctx key ns id c s info conf meta tr' out,
      sn_resolver sn = r -> parseSnapshotKey key = Some (ns, id) -> workload info ->
      delivered am' conf -> psc_Metadata conf = Some meta -> no_brace pvName = true ->
      exec (Mounts sn ctx key) tr' out -> Forall (answered read_failed id c s info conf) tr' ->
      redirected ctx key (csi_mount (pom_UID meta) pvName) tr' out \/ fell_back read_failed ctx key tr' out.
Proof.
  intros Hprefix Hdefault Hrange Hnew Hr Hperm Hex Hall Hdoc Hno.
  destruct (admitted_annotations _ _ _ _ _ _ _ _ _ _ _ _ _ Hrange Hdefault Hnew Hperm Hex Hall
              Hdoc Hno)
    as (data & patch & top' & md' & am' & t & v & Hp & Happ & Hmd & Ham & Hpv & Hdef & [Hn1 Hn2]
        & Ht & Hv & Hav).
  exists (td_PVName data), patch, top', md', am'. split_and!; [done..|].
  intros sn ctx key ns id c s info conf meta tr' out Hsn Hkey Hw Hdel Hmeta Hnb Hm Hst.
  apply newResolver_keys in Hr as [-> _]. rewrite Hprefix in Hsn.
  eapply (Mounts_stored read_failed (fun _ Hf => Hf) sn ctx key ns id c s info conf);
    [done|done| |done|done|done].
  rewrite Hsn. apply (default_path _ t data v conf meta key Ht Hv Hdef Hnb Hmeta).
  - rewrite Hdel. by rewrite Hn1.
  - rewrite Hdel. unfold default_template_key in Hav. by rewrite Hav.
  - etransitivity; [exact (Hdel "var.PodUID")|].
    assert (assoc (Key defaultPrefix "var.PodUID") am' = None) as -> by exact Hn2. done.
Qed.
End Webhook.

(** ** A pod, from the API server to its mounts *)

Definition web_new : result Handler :=
  New (H2:=dns1123Validation) web_viper (Ok tt) (Ok tt) (Ok tt) id.
Definition web_h : Handler := match web_new with Ok h => h | Err _ => web_handler end.

Definition sandbox_json : json :=
  JObject [("Metadata", JObject [("Config", JObject
    [("metadata", JObject [("name", JString "web-0"); ("uid", JString "uid-7");
                           ("namespace", JString "default")]);
     ("annotations", JObject
       [("pv-snapshotter.humble-mun.io/upperdir-path-template",
         JString "/var/lib/kubelet/pods/{{.PodUID}}/volumes/kubernetes.io~csi/pv-1/mount");
        ("pv-snapshotter.humble-mun.io/var.PVName", JString "pv-1")])])])].
Definition one_document : JsonParser := {|
  json_parse s := if decide (s = "doc") then Ok sandbox_json else Err (Errorf "bad" []) |}.

Definition web_sn : snapshotter := mkSnapshotter default_resolver None.
Definition web_ctx : Ctx := mkCtx "k8s.io".
Definition web_info : ContainerInfo :=
  mkContainerInfo (<[criKindLabel := criKindContainer]> ∅) "sb1".
Definition web_exts : gmap string string := <[criSandboxMetadataExtension := "doc"]> ∅.
Definition web_conf : podSandboxConfig := mkPodSandboxConfig (Some web_meta) web_annotations.
Definition web_mount : Mount :=
  mkMount "overlay" "overlay" "" ["upperdir=/s/1/fs"; "workdir=/s/1/work"; "lowerdir=/s/2/fs"].
Definition web_volume : string :=
  "/var/lib/kubelet/pods/uid-7/volumes/kubernetes.io~csi/pv-1/mount".

(** The mounts of the container [id] of the pod, whose snapshot is [key]. *)
Definition web_mounts_trace (key id : string) : list (event sysE) :=
  [Ev (SnMounts web_ctx key) (Ok [web_mount]);
   Ev (CtrContainers "k8s.io" ("id==" +:+ id)) (Ok [mkContainer id]);
   Ev (CtrInfo "k8s.io" (mkContainer id)) (Ok web_info);
   Ev (CtrContainers "k8s.io" "id==sb1") (Ok [mkContainer "sb1"]);
   Ev (CtrExtensions "k8s.io" (mkContainer "sb1")) (Ok web_exts);
   Ev (OsStat web_volume) (Ok tt);
   Ev (SyscallStat web_volume) (Ok 7%Z);
   Ev (SyscallStat "/var/lib/kubelet/pods/uid-7/volumes/kubernetes.io~csi/pv-1") (Ok 1%Z);
   Ev (OsMkdirAll (web_volume +:+ "/upper") 493) (Ok tt);
   Ev (OsMkdirAll (web_volume +:+ "/work") 493) (Ok tt)].

Definition web_resp : AdmissionResponse :=
  match fst (run script (mutate (H0:=one_pod) (H1:=same_selector) web_h
                           (map_to_list (annotationTmpls web_h)) web_request) web_trace) with
  | Some resp => resp
  | None => web_admitted
  end.

Lemma web_New :
  New (H2:=dns1123Validation) web_viper (Ok tt) (Ok tt) (Ok tt) id = Ok web_h.
Proof.
  assert (Hok : match web_new with Ok _ => true | Err _ => false end = true)
    by (vm_compute; reflexivity).
  change (web_new = Ok web_h). unfold web_h. by destruct web_new.
Qed.

Lemma web_newResolver :
  newResolver (H:=dns1123Validation) web_viper = Ok default_resolver.
Proof. vm_compute. reflexivity. Qed.

Lemma web_allowed : ar_Allowed web_resp = true.
Proof. vm_compute. reflexivity. Qed.

Lemma web_asks_nothing : asks_nothing (annotations_of web_md).
Proof. by split. Qed.

Lemma web_runs :
  exec (mutate (H0:=one_pod) (H1:=same_selector) web_h
          (map_to_list (annotationTmpls web_h)) web_request) web_trace (Some web_resp).
Proof. apply replay; vm_compute; reflexivity. Qed.

Lemma web_represents : represents web_doc web_md web_sp web_pod.
Proof.
  split; try done; cbn [web_pod pod_Annotations pod_Volumes pod_Containers pc_VolumeMounts];
    [by right|by left|by do 2 eexists].
Qed.

Lemma web_workload : workload web_info.
Proof. split; [vm_compute; reflexivity|done]. Qed.

Lemma web_unmarshal :
  unmarshalSandboxMetadata (H0:=one_document) "doc" =
  Ok (mkSandboxMetadata (mkSandboxMetadataInner (Some web_conf))).
Proof. vm_compute. reflexivity. Qed.

Lemma web_stored key id :
  id <> "sb1" ->
  Forall (stored (P:=one_document) id (mkContainer id) (mkContainer "sb1") web_info web_conf)
    (web_mounts_trace key id).
Proof.
  intros Hid. unfold web_mounts_trace. repeat apply Forall_cons_2; try apply Forall_nil_2; try exact I.
  - split; [intros _; by exists []|]. intros [= Hc]. by destruct (Hid Hc).
  - done.
  - split; [|intros _; by exists []]. intros [= Hc]. by destruct (Hid (eq_sym Hc)).
  - intros _. exists web_exts, "doc". split_and!; [done|done|exact web_unmarshal].
Qed.

Lemma web_mounts key id :
  parseSnapshotKey key = Some ("k8s.io", id) ->
  upperdirFromConfig default_resolver web_conf key = Ok web_volume ->
  exec (Mounts (H0:=one_document) web_sn web_ctx key) (web_mounts_trace key id)
    (Returns (Ok (replaceUpperdirOptions [web_mount] web_volume))).
Proof.
  intros Hkey Hpath.
  refine (Mounts_redirecting (H0:=one_document) web_sn web_ctx key [web_mount] web_volume
            (take 4 (drop 1 (web_mounts_trace key id))) (drop 5 (web_mounts_trace key id))
            _ _ _ _); [done| |].
  - rewrite <-Hpath.
    exact (resolve_run (H0:=one_document) default_resolver key "k8s.io" id _ [] web_info
             _ [] web_exts "doc" web_conf Hkey eq_refl ltac:(done) eq_refl web_unmarshal).
  - exists (Ok tt). split; [|reflexivity]. apply ensureUpperdirReady_ok_iff.
    exists 7%Z, 1%Z. split; [done|]. vm_compute. reflexivity.
Qed.

(** The annotations that the patch leaves in the document. *)
Definition web_am : members :=
  match ar_Patch web_resp with
  | Some patch =>
      match apply_patch patch (JObject web_doc) with
      | Some (JObject top') =>
          match assoc "metadata" top' with Some (JObject md') => annotations_of md' | _ => [] end
      | _ => []
      end
  | None => []
  end.

Lemma web_am_eq :
  web_am =
  [("pv-snapshotter.humble-mun.io/upperdir-path-template",
    JString "/var/lib/kubelet/pods/{{.PodUID}}/volumes/kubernetes.io~csi/pv-1/mount");
   ("pv-snapshotter.humble-mun.io/var.PVName", JString "pv-1")] \/
  web_am =
  [("pv-snapshotter.humble-mun.io/var.PVName", JString "pv-1");
   ("pv-snapshotter.humble-mun.io/upperdir-path-template",
    JString "/var/lib/kubelet/pods/{{.PodUID}}/volumes/kubernetes.io~csi/pv-1/mount")].
Proof. vm_compute. first [left; reflexivity|right; reflexivity]. Qed.

Lemma web_delivered : delivered web_am web_conf.
Proof.
  intros suffix. generalize (Key defaultPrefix suffix). intros k.
  cbn [psc_Annotations web_conf]. unfold web_annotations.
  destruct web_am_eq as [-> | ->]; cbn [assoc];
    (destruct (decide (k = "pv-snapshotter.humble-mun.io/upperdir-path-template")) as [->|Hk1];
     [by rewrite lookup_insert_eq|rewrite lookup_insert_ne by congruence]);
    (destruct (decide (k = "pv-snapshotter.humble-mun.io/var.PVName")) as [->|Hk2];
     [by rewrite lookup_insert_eq|rewrite lookup_insert_ne by congruence; apply lookup_empty]).
Qed.

Lemma web_answered key id :
  id <> "sb1" ->
  Forall (answered (P:=one_document) read_failed id (mkContainer id) (mkContainer "sb1") web_info web_conf)
    (web_mounts_trace key id).
Proof. intros Hid. eapply Forall_impl; [by apply web_stored|]. by left. Qed.

Definition is_os_stat (ev : event sysE) : bool :=
  match ev with Ev (OsStat _) _ => true | _ => false end.
Lemma ensureUpperdirReady_stats path tr r :
  exec (ensureUpperdirReady path) tr r -> existsb is_os_stat tr = true.
Proof. unfold ensureUpperdirReady, mkSubdirs. intros Hex. by exec_inv Hex. Qed.

Lemma web_reads key id : Forall (not ∘ read_failed) (web_mounts_trace key id).
Proof.
  unfold web_mounts_trace. repeat apply Forall_cons_2; try apply Forall_nil_2; by intros [].
Qed.

(** Containerd is out of reach. *)
Definition web_lost_trace : list (event sysE) :=
  [Ev (SnMounts web_ctx "k8s.io/7/c1") (Ok [web_mount]);
   Ev (CtrContainers "k8s.io" "id==c1") (Err (Ext Unavailable "connection refused"))].

Lemma web_lost_runs :
  exec (Mounts (H0:=one_document) web_sn web_ctx "k8s.io/7/c1") web_lost_trace
    (Returns (Ok [web_mount])).
Proof. by repeat (eexists _, _; split; [reflexivity|]). Qed.

Lemma web_lost_answered :
  Forall (answered (P:=one_document) read_failed "c1" (mkContainer "c1") (mkContainer "sb1") web_info web_conf)
    web_lost_trace.
Proof. apply Forall_cons_2; [by left|]. apply Forall_singleton. by right. Qed.

Definition last_pv (tr : list (event kubeE)) : string :=
  match last tr with Some (Ev (PvGet name) _) => name | _ => "" end.

Lemma web_templates : has_default_templates web_viper.
Proof. reflexivity. Qed.

(** In the end the kernel writes to the volume, and only there; and the same
    pod, with containerd out of reach, gets the native mounts. *)
Lemma admitted_pod_redirected_witness :
  ar_Allowed web_resp = true /\
  redirected web_ctx "k8s.io/7/c1" web_volume (web_mounts_trace "k8s.io/7/c1" "c1")
    (Returns (Ok (replaceUpperdirOptions [web_mount] web_volume))) /\
  fell_back read_failed web_ctx "k8s.io/7/c1" web_lost_trace (Returns (Ok [web_mount])).
Proof.
  destruct (admitted_pod_redirected (T:=fragEngine) (V:=dns1123Validation) (D:=one_pod)
              (L:=same_selector) (P:=one_document) (DNSLaws0:=dns1123_laws)
              web_viper (Ok tt) (Ok tt) (Ok tt) id web_h default_resolver
              (map_to_list (annotationTmpls web_h)) web_request web_trace web_resp
              web_doc web_md web_sp eq_refl web_templates (fun l => Permutation_refl l) web_New web_newResolver
              (Permutation_refl _) web_runs web_allowed)
    as (pvName & patch & top' & md' & am' & Hp & Happ & Hmd & Ham & (before & pv & Htr) & Hres).
  - intros pod [= <-]. exact web_represents.
  - exact web_asks_nothing.
  - split; [exact web_allowed|].
    assert (pvName = "pv-1") as ->.
    { apply (f_equal last_pv) in Htr. unfold last_pv in Htr at 2. rewrite last_snoc in Htr.
      symmetry. exact Htr. }
    assert (am' = web_am) as ->.
    { unfold web_am. rewrite Hp, Happ, Hmd. unfold annotations_of. by rewrite Ham. }
    pose proof (fun tr' out => Hres web_sn web_ctx "k8s.io/7/c1" "k8s.io" "c1" (mkContainer "c1")
             (mkContainer "sb1") web_info web_conf web_meta tr' out eq_refl eq_refl
             web_workload web_delivered eq_refl eq_refl) as Hres'.
    split.
    + destruct (Hres' _ _ (web_mounts "k8s.io/7/c1" "c1" eq_refl eq_refl)
                  (web_answered "k8s.io/7/c1" "c1" ltac:(done)))
        as [Hr|(ms & reads & Heq & Hf & _)]; [exact Hr|].
      destruct (Forall_not_Exists _ _ (web_reads "k8s.io/7/c1" "c1")). rewrite Heq. by right.
    + destruct (Hres' _ _ web_lost_runs web_lost_answered) as [[(e & Hd & _)|Hr]|Hr];
        [by apply (f_equal length) in Hd| |exact Hr].
      destruct Hr as (ms & reads & writes & ready & Hw & Hens & _).
      apply ensureUpperdirReady_stats in Hens. apply (f_equal (existsb is_os_stat)) in Hw.
      cbn [existsb is_os_stat] in Hw. rewrite existsb_app, Hens, orb_true_r in Hw. discriminate Hw.
Defined.
