(* ===== verification/Isolation.v ===== *)
(** * Whose writable layer is whose

    Where the kernel writes for the containers of a node: each redirected
    container has an upper and a work directory, and overlayfs wants them for
    itself.  This file compares the directories of two containers whose pods
    were stamped with the default templates. *)

From S2P Require Import Prelude GoStrings System Mount Template Json Annotation Resolver Dedup.
From S2P Require Import Service Sha256 Kube Webhook Pipeline AdmissionExamples EndToEnd.
Local Open Scope go_scope.

(** ** Directories *)

(** One directory is the other, or lies below it. *)
Definition within (outer inner : string) : bool := HasPrefix (inner +:+ "/") (outer +:+ "/").
Definition overlap (d1 d2 : string) : bool := within d1 d2 || within d2 d1.

Lemma overlap_refl d : overlap d d = true.
Proof.
  unfold overlap, within. apply orb_true_iff. left. apply HasPrefix_spec. exists "".
  by rewrite app_nil_r_str.
Qed.

(** A component of a path: the name of a pod's directory or of a volume. *)
Definition segment (s : string) : Prop := "/"%char ∉ bytes s.

Lemma segment_split a1 a2 t1 t2 :
  segment a1 -> segment a2 -> a1 +:+ "/" +:+ t1 = a2 +:+ "/" +:+ t2 -> a1 = a2 /\ t1 = t2.
Proof.
  intros H1 H2 Heq. pose proof (Cut_app "/" "" a1 t1 H1) as Hc.
  rewrite Heq, (Cut_app "/" "" a2 t2 H2) in Hc. by injection Hc as -> ->.
Qed.

Lemma app_inj_l_str p s1 s2 : p +:+ s1 = p +:+ s2 -> s1 = s2.
Proof. induction p as [|c p IH]; simpl_app; [done|]. intros [= H]. by apply IH. Qed.

(** The CSI mounts of different pods or volumes have nothing in common. *)
Lemma csi_mount_within u1 p1 u2 p2 s1 s2 :
  segment u1 -> segment p1 -> segment u2 -> segment p2 ->
  within (csi_mount u1 p1 +:+ s1) (csi_mount u2 p2 +:+ s2) = true -> u1 = u2 /\ p1 = p2.
Proof.
  intros Hu1 Hp1 Hu2 Hp2 [r Hr]%HasPrefix_spec. unfold csi_mount in Hr. rewrite !app_assoc_str in Hr.
  apply app_inj_l_str in Hr. apply segment_split in Hr as [-> Hr]; [|done..].
  apply (app_inj_l_str "volumes/kubernetes.io~csi/") in Hr.
  apply segment_split in Hr as [-> _]; done.
Qed.

(** ** Containers *)

Section Isolation.
Context `{T : TemplateEngine} `{!TemplateLaws T} `{P : JsonParser}.

(** A pod's configuration after admission under the default templates with the
    volume [pv], by an author who asks for nothing. *)
Definition stamped (conf : podSandboxConfig) (uid pv : string) : Prop :=
  exists d m meta, deferring d /\ td_PVName d = pv /\ no_brace pv = true /\
    stamp defaultAnnotationTemplates d = Some m /\
    psc_Metadata conf = Some meta /\ pom_UID meta = uid /\
    psc_Annotations conf !! default_template_key = m !! default_template_key /\
    psc_Annotations conf !! Key defaultPrefix annotationSuffixUpperdirPath = None /\
    psc_Annotations conf !! (Key defaultPrefix annotationSuffixVarSubPrefix +:+ "PodUID") = None.

Lemma stamped_path conf uid pv key :
  stamped conf uid pv -> upperdirFromConfig default_resolver conf key = Ok (csi_mount uid pv).
Proof.
  intros (d & m & meta & Hdef & <- & Hnb & Hst & Hmeta & <- & Hk & Hlit & Huid).
  destruct (default_stamp d m Hdef Hst) as (t & Ht & v & Hv & _ & ->).
  apply (default_path _ t d v conf meta key Ht Hv Hdef Hnb Hmeta Hlit); [|exact Huid].
  etransitivity; [exact Hk|apply lookup_insert_eq].
Qed.

(** [Mounts] has answered [out] for a writable container of the pod [uid] with
    the volume [pv]. *)
Definition mounted (sn : snapshotter) (key uid pv : string) (out : list Mount) : Prop :=
  exists ns id c s info conf ctx tr,
    parseSnapshotKey key = Some (ns, id) /\ workload info /\
    stamped conf uid pv /\ segment uid /\ segment pv /\
    exec (Mounts sn ctx key) tr (Returns (Ok out)) /\ Forall (stored id c s info conf) tr /\
    forall ms, Ev (SnMounts ctx key) (Ok ms) ∈ tr -> writable ms.

Lemma mounted_dirs sn key uid pv out :
  sn_resolver sn = default_resolver -> mounted sn key uid pv out ->
  csi_mount uid pv +:+ "/upper" ∈ writable_dirs out /\
  forall d, d ∈ writable_dirs out ->
    d = csi_mount uid pv +:+ "/upper" \/ d = csi_mount uid pv +:+ "/work".
Proof.
  intros Hsn (ns & id & c & s & info & conf & ctx & tr & Hkey & Hw & Hst & _ & _ & Hex & Hs & Hms).
  eapply (Mounts_stored (fun _ => False)) in Hex
    as [[(e & _ & [=])|(ms & reads & writes & ready & -> & _ & Hout)]|(_ & reads & _ & Hf & _)];
    [| |done|exact Hkey|exact Hw|rewrite Hsn; by apply stamped_path|done
    |eapply Forall_impl; [exact Hs|by left]].
  2: { by induction Hf. }
  specialize (Hms ms ltac:(by left)). destruct ready as [u|e]; [|by destruct ms].
  destruct ms as [|m ms]; [done|]. destruct Hout as (ms' & [= ->] & _ & Hw' & _). by apply Hw'.
Qed.

(** C3 The kernel writes for two containers in common directories exactly when
    they belong to one pod and use the same volume.  So pods never share a
    directory - none is, or lies below, one of another pod's - but the
    workload containers of one pod always do: the snapshot key, which tells
    them apart, has no part in the path. *)
Theorem containers_share_iff sn key1 uid1 pv1 out1 key2 uid2 pv2 out2 :
  sn_resolver sn = default_resolver ->
  mounted sn key1 uid1 pv1 out1 -> mounted sn key2 uid2 pv2 out2 ->
  (exists d1 d2, d1 ∈ writable_dirs out1 /\ d2 ∈ writable_dirs out2 /\ overlap d1 d2 = true) <->
  uid1 = uid2 /\ pv1 = pv2.
Proof.
  intros Hsn Hm1 Hm2.
  destruct (mounted_dirs _ _ _ _ _ Hsn Hm1) as [Hu1 Hd1].
  destruct (mounted_dirs _ _ _ _ _ Hsn Hm2) as [Hu2 Hd2].
  destruct Hm1 as (? & ? & ? & ? & ? & ? & ? & ? & _ & _ & _ & Hs1 & Hp1 & _).
  destruct Hm2 as (? & ? & ? & ? & ? & ? & ? & ? & _ & _ & _ & Hs2 & Hp2 & _).
  split.
  - intros (d1 & d2 & H1%Hd1 & H2%Hd2 & [Ho|Ho]%orb_true_iff);
      destruct H1 as [-> | ->], H2 as [-> | ->]; apply csi_mount_within in Ho; naive_solver.
  - intros [-> ->]. do 2 eexists. split_and!; [exact Hu1|exact Hu2|apply overlap_refl].
Qed.
End Isolation.

(** ** Two containers of one pod *)

Lemma web_stamped : stamped web_conf "uid-7" "pv-1".
Proof.
  exists web_data, web_annotations, web_meta. split_and!; try done.
Qed.

Definition native_of (ev : event sysE) : option (list Mount) :=
  match ev with Ev (SnMounts _ _) (Ok ms) => Some ms | _ => None end.

Lemma web_mounted key id :
  parseSnapshotKey key = Some ("k8s.io", id) -> id <> "sb1" ->
  mounted (P:=one_document) web_sn key "uid-7" "pv-1"
    (replaceUpperdirOptions [web_mount] web_volume).
Proof.
  intros Hkey Hid.
  exists "k8s.io", id, (mkContainer id), (mkContainer "sb1"), web_info, web_conf, web_ctx,
    (web_mounts_trace key id).
  split_and!; [done|exact web_workload|exact web_stamped|by apply (bool_decide_unpack _)..| | |].
  - apply web_mounts; [done|]. apply (stamped_path _ "uid-7" "pv-1"), web_stamped.
  - by apply web_stored.
  - intros ms Hin. apply (list_elem_of_fmap_2 native_of) in Hin.
    cbn [fmap list_fmap web_mounts_trace native_of] in Hin.
    assert (ms = [web_mount]) as -> by set_solver. split; [done|by eexists].
Qed.

Lemma containers_share_iff_witness :
  let out := replaceUpperdirOptions [web_mount] web_volume in
  mounted (P:=one_document) web_sn "k8s.io/7/c1" "uid-7" "pv-1" out /\
  mounted (P:=one_document) web_sn "k8s.io/8/c2" "uid-7" "pv-1" out /\
  exists d1 d2, d1 ∈ writable_dirs out /\ d2 ∈ writable_dirs out /\ overlap d1 d2 = true.
Proof.
  intros out.
  assert (H1 : mounted (P:=one_document) web_sn "k8s.io/7/c1" "uid-7" "pv-1" out)
    by (apply (web_mounted _ "c1"); done).
  assert (H2 : mounted (P:=one_document) web_sn "k8s.io/8/c2" "uid-7" "pv-1" out)
    by (apply (web_mounted _ "c2"); done).
  split; [exact H1|]. split; [exact H2|].
  apply (containers_share_iff (P:=one_document) web_sn "k8s.io/7/c1" "uid-7" "pv-1" out
           "k8s.io/8/c2" "uid-7" "pv-1" out eq_refl H1 H2). by split.
Defined.
