(* ===== verification/HostCalls.v ===== *)
(** * The outside of the config command

    The calls that the [config] subcommand makes ([hostE]): the readiness
    probe over the daemon's socket, the containerd configuration file, the
    re-executed child that restarts containerd, the context and the log.  The
    TOML library is the interface [TomlCodec]. *)

From S2P Require Import Prelude GoStrings.

(** ** TOML *)

(** The dynamic values of [github.com/pelletier/go-toml]: a [map[string]any]
    is a list of its entries, in the order in which a range visits them. *)
Inductive toml :=
| TTable (m : list (string * toml))
| TArray (l : list toml)
| TString (s : string)
| TInt (n : Z)
| TBool (b : bool)
| TOther (literal : string).
Abbreviation table := (list (string * toml)).

Class TomlCodec := {
  toml_Unmarshal : string -> result table;
  toml_Marshal : table -> result string
}.

(** ** Calls *)

(** [http.Client], as it is built here: its timeout, and what every connection
    is dialled to. *)
Record http_client := mkHttpClient {
  hc_Timeout : Z;
  hc_network : string;
  hc_address : string
}.

Inductive hostE : Type -> Type :=
(** [http.NewRequestWithContext], [client.Do] (the status code), [resp.Body.Close] *)
| HttpNewRequest (method url : string) : hostE (result unit)
| HttpDo (c : http_client) : hostE (result Z)
| HttpCloseBody : hostE (result unit)
(** [select] between [ctx.Done()] and [time.After(d)]; waiting for [ctx.Done()] *)
| DoneOrAfter (d : Z) : hostE (option error)
| AwaitDone : hostE unit
(** the file *)
| OsReadFile (path : string) : hostE (result string)
| OsOpenAppend (path : string) : hostE (result unit)
| FileWriteString (path text : string) : hostE (result unit)
| FileClose (path : string) : hostE (result unit)
(** the child process *)
| OsExecutable : hostE (result string)
| OsEnviron : hostE (list string)
| CmdRun (path : string) (env : list string) : hostE (result unit)
(** the constructor of the child: environment, namespace, [execv] ([None]:
    the process image was replaced), [exit] *)
| Getenv (name : string) : hostE (option string)
| OpenFd (path : string) : hostE (result Z)
| Setns (fd : Z) : hostE (result unit)
| CloseFd (fd : Z) : hostE unit
| AccessX (path : string) : hostE bool
| Execv (path : string) (argv : list string) : hostE (option error)
(** [logger.V(level).Info] *)
| LogV (level : Z) (msg : string) : hostE unit
(** [app.BaseContext] *)
| AppBaseContext : hostE (result unit).

(** Calls that change the file, and calls that restart containerd. *)
Definition is_file_write (ev : event hostE) : bool :=
  match ev with Ev (FileWriteString _ _) _ | Ev (OsOpenAppend _) _ => true | _ => false end.
Definition is_restart (ev : event hostE) : bool :=
  match ev with Ev (CmdRun _ _) _ => true | _ => false end.

(** ** The file

    [fv w] is the content of the files.  Opening for append changes nothing; a
    write puts its text at the end, and a failing write some prefix of it. *)
Class FileLaws {W} (h : handler hostE W) (fv : W -> gmap string string) : Prop := {
  file_read : forall path w,
    match h _ (OsReadFile path) w with
    | (Ok raw, w') => fv w !! path = Some raw /\ fv w' = fv w
    | (Err _, w') => fv w' = fv w
    end;
  file_open : forall path w,
    match h _ (OsOpenAppend path) w with
    | (Ok _, w') => is_Some (fv w !! path) /\ fv w' = fv w
    | (Err _, w') => fv w' = fv w
    end;
  file_write : forall path text w raw,
    fv w !! path = Some raw ->
    match h _ (FileWriteString path text) w with
    | (Ok _, w') => fv w' = <[path := raw +:+ text]> (fv w)
    | (Err _, w') => exists part rest, text = part +:+ rest /\
                       fv w' = <[path := raw +:+ part]> (fv w)
    end;
  file_keep : forall X (e : hostE X) w,
    match e with FileWriteString _ _ => false | _ => true end = true ->
    fv (snd (h _ e w)) = fv w
}.
