(* ===== verification/Patcher.v ===== *)
(** * The containerd configuration ([pkg/containerd/config/patcher.go])

    [Apply] looks for the sections it needs in the parsed configuration and
    appends the missing ones as text.  Where the source ranges over a map, the
    model takes the order of that range as an argument. *)

From S2P Require Import Prelude GoStrings Template HostCalls.
Local Open Scope go_scope.

(** ** Data *)

Record RuntimeEntry := mkRuntimeEntry { rt_Name : string; rt_BaseRuntimeName : string }.

Record Params := mkParams {
  p_ConfigPath : string;
  p_SocketPath : string;
  p_Runtimes : list RuntimeEntry
}.

(** [missingSection]: the [kind] string decides which of the other fields
    matter. *)
Inductive missingSection :=
| MissingProxyPlugin
| MissingRuntime (runtimeName : string) (baseConfig : option table).

Definition dquote : string := String "034" "".
Definition newline : string := String "010" "".

Definition snippetHeader := newline +:+ "# BEGIN pv-snapshotter managed block" +:+ newline.
Definition snippetFooter := "# END pv-snapshotter managed block" +:+ newline.

(** ** Reading the tree *)

Definition as_table (v : option toml) : option table :=
  match v with Some (TTable m) => Some m | _ => None end.

Fixpoint deepCopy (v : toml) : toml :=
  match v with
  | TTable m => TTable (map (fun '(k, v) => (k, deepCopy v)) m)
  | _ => v
  end.
Definition deepCopyMap (m : table) : table := map (fun '(k, v) => (k, deepCopy v)) m.

Definition criKeys : list string := ["io.containerd.grpc.v1.cri"; "io.containerd.cri.v1.runtime"].

(** The runtimes table under one CRI plugin key. *)
Definition criRuntimes (plugins : table) (criKey : string) : option table :=
  match as_table (assoc criKey plugins) with
  | None => None
  | Some cri =>
      match as_table (assoc "containerd" cri) with
      | None => None
      | Some ctrd => as_table (assoc "runtimes" ctrd)
      end
  end.

Fixpoint lookupBaseLoop (plugins : table) (baseName : string) (keys : list string)
    : option table :=
  match keys with
  | [] => None
  | criKey :: keys' =>
      match criRuntimes plugins criKey with
      | None => lookupBaseLoop plugins baseName keys'
      | Some runtimes =>
          match as_table (assoc baseName runtimes) with
          | None => lookupBaseLoop plugins baseName keys'
          | Some base => Some (deepCopyMap base)
          end
      end
  end.

Definition lookupBaseRuntime (tree : table) (baseName : string) : option table :=
  if decide (baseName = "") then None
  else
    match as_table (assoc "plugins" tree) with
    | None => None
    | Some plugins => lookupBaseLoop plugins baseName criKeys
    end.

Fixpoint hasKey (cur : table) (path : list string) : bool :=
  match path with
  | [] => true
  | [seg] => match assoc seg cur with Some _ => true | None => false end
  | seg :: path' =>
      match assoc seg cur with
      | Some (TTable next) => hasKey next path'
      | _ => false
      end
  end.

Fixpoint hasRuntimeLoop (plugins : table) (name : string) (keys : list string) : bool :=
  match keys with
  | [] => false
  | criKey :: keys' =>
      match criRuntimes plugins criKey with
      | None => hasRuntimeLoop plugins name keys'
      | Some runtimes =>
          match assoc name runtimes with
          | Some _ => true
          | None => hasRuntimeLoop plugins name keys'
          end
      end
  end.

Definition hasRuntimeEntry (tree : table) (name : string) : bool :=
  match as_table (assoc "plugins" tree) with
  | None => false
  | Some plugins => hasRuntimeLoop plugins name criKeys
  end.

Fixpoint missingRuntimes (tree : table) (rts : list RuntimeEntry) : list missingSection :=
  match rts with
  | [] => []
  | rt :: rts' =>
      (if hasRuntimeEntry tree (rt_Name rt) then []
       else [MissingRuntime (rt_Name rt) (lookupBaseRuntime tree (rt_BaseRuntimeName rt))])
      ++ missingRuntimes tree rts'
  end.

Definition collectMissing (tree : table) (params : Params) : list missingSection :=
  (if hasKey tree ["proxy_plugins"; "pv-snapshotter"] then [] else [MissingProxyPlugin])
  ++ missingRuntimes tree (p_Runtimes params).

(** ** Writing the snippet *)

Definition is_space (c : ascii) : bool :=
  let n := nat_of_ascii c in (Nat.leb 9 n && Nat.leb n 13) || Nat.eqb n 32.

(** [bytes.TrimSpace(line)] is empty: only spaces.  (TOML output is ASCII
    outside its strings, so the other Unicode spaces cannot make up a line.) *)
Definition is_blank (line : string) : bool := forallb is_space (bytes line).

(** [bytes.Split(b, "\n")] *)
Fixpoint lines (cur s : string) : list string :=
  match s with
  | "" => [cur]
  | String c s' =>
      if decide (c = "010"%char) then cur :: lines "" s' else lines (cur +:+ byte c) s'
  end.

Definition indentLine (prefix line : string) : string :=
  if is_blank line then newline else prefix +:+ line +:+ newline.

Definition indentTOML (b prefix : string) : string :=
  foldr (fun line out => indentLine prefix line +:+ out) "" (lines "" b).

(** [strconv.Quote]: quotes and backslashes are escaped, control characters
    take their short escape or [\x] and two digits.  (Text outside ASCII is
    taken to be printable.) *)
Definition hexDigit (n : nat) : ascii := ascii_of_nat (if Nat.ltb n 10 then 48 + n else 87 + n).
Definition quoteByte (c : ascii) : string :=
  let n := nat_of_ascii c in
  if decide (n = 34) then "\" +:+ dquote
  else if decide (n = 92) then "\\"
  else if decide (n = 7) then "\a"
  else if decide (n = 8) then "\b"
  else if decide (n = 9) then "\t"
  else if decide (n = 10) then "\n"
  else if decide (n = 11) then "\v"
  else if decide (n = 12) then "\f"
  else if decide (n = 13) then "\r"
  else if Nat.ltb n 32 || Nat.eqb n 127
  then "\x" +:+ byte (hexDigit (n / 16)) +:+ byte (hexDigit (n mod 16))
  else byte c.
Definition Quote (s : string) : string :=
  dquote +:+ foldr (fun c out => quoteByte c +:+ out) "" (bytes s) +:+ dquote.

Definition proxyPluginSnippet (socketPath : string) : string :=
  newline +:+ "[proxy_plugins.pv-snapshotter]" +:+ newline +:+
  "  type    = " +:+ Quote "snapshot" +:+ newline +:+
  "  address = " +:+ Quote socketPath +:+ newline +:+ newline.

Definition criPrefix : string :=
  "plugins." +:+ dquote +:+ "io.containerd.grpc.v1.cri" +:+ dquote +:+ ".containerd.runtimes.".

(** [cfg[k] = v] *)
Fixpoint table_set (k : string) (v : toml) (m : table) : table :=
  match m with
  | [] => [(k, v)]
  | (k', v') :: m' => if decide (k = k') then (k, v) :: m' else (k', v') :: table_set k v m'
  end.

(** The entry to be written: the base, or a minimal one, with the snapshotter
    overridden; its scalars and its sub-tables. *)
Definition runtimeConfig (baseConfig : option table) : table :=
  let cfg := match baseConfig with
             | Some base => base
             | None => [("runtime_type", TString "io.containerd.runc.v2")]
             end in
  table_set "snapshotter" (TString "pv-snapshotter") cfg.
Definition scalars (cfg : table) : table :=
  List.filter (fun kv => match snd kv with TTable _ => false | _ => true end) cfg.
Definition subtables (cfg : table) : list (string * table) :=
  omap (fun kv => match snd kv with TTable m => Some (fst kv, m) | _ => None end) cfg.

Section Snippets.
Context `{TomlCodec}.

(** [b, err := toml.Marshal(m)]: on an error the fields are left out. *)
Definition marshalled (m : table) : string :=
  match toml_Marshal m with
  | Ok b => indentTOML b "  "
  | Err _ => ""
  end.

(** The loop over the sub-tables, in the order of the range. *)
Fixpoint subtableText (name : string) (subs : list (string * table)) : string :=
  match subs with
  | [] => ""
  | (subKey, subMap) :: subs' =>
      "[" +:+ criPrefix +:+ name +:+ "." +:+ subKey +:+ "]" +:+ newline +:+
      marshalled subMap +:+ newline +:+ subtableText name subs'
  end.

(** [range_ name subs]: the order in which the sub-tables are visited. *)
Context (range_ : string -> list (string * table) -> list (string * table)).

Definition runtimeSnippet (name : string) (baseConfig : option table) : string :=
  let cfg := runtimeConfig baseConfig in
  newline +:+ "[" +:+ criPrefix +:+ name +:+ "]" +:+ newline +:+
  (match scalars cfg with [] => "" | _ => marshalled (scalars cfg) end) +:+
  newline +:+ subtableText name (range_ name (subtables cfg)).

Fixpoint sectionText (socketPath : string) (sections : list missingSection) : string :=
  match sections with
  | [] => ""
  | MissingProxyPlugin :: sections' =>
      proxyPluginSnippet socketPath +:+ sectionText socketPath sections'
  | MissingRuntime name baseConfig :: sections' =>
      runtimeSnippet name baseConfig +:+ sectionText socketPath sections'
  end.

Definition buildSnippet (socketPath : string) (sections : list missingSection) : string :=
  snippetHeader +:+ sectionText socketPath sections +:+ snippetFooter.

(** ** The file *)

Definition appendToFile (path text : string) : prog hostE (result unit) :=
  try! _ := call (OsOpenAppend path)
  catch err => Ret (Err (Wrapf "opening %s for append: %w" [path] err)) in
  let! wrote := call (FileWriteString path text) in
  (* deferred: *)
  let! _ := call (FileClose path) in
  match wrote with
  | Err err => Ret (Err (Wrapf "writing to %s: %w" [path] err))
  | Ok _ => Ret (Ok tt)
  end.

Definition Apply (params : Params) : prog hostE (result bool) :=
  let path := p_ConfigPath params in
  try! raw := call (OsReadFile path)
  catch err => Ret (Err (Wrapf "reading %s: %w" [path] err)) in
  match toml_Unmarshal raw with
  | Err err => Ret (Err (Wrapf "parsing %s: %w" [path] err))
  | Ok tree =>
      match collectMissing tree params with
      | [] => Ret (Ok false)
      | missing =>
          try! _ := appendToFile path (buildSnippet (p_SocketPath params) missing)
          catch err => Ret (Err err) in
          Ret (Ok true)
      end
  end.
End Snippets.
