(* ===== verification/PatcherFacts.v ===== *)
(** * The configuration is completed, not rewritten

    Theorems about [Patcher.v]: which sections count as missing, what a new
    runtime entry takes from its base, and what [Apply] does to the file. *)

From S2P Require Import Prelude GoStrings Template HostCalls Patcher.
Local Open Scope go_scope.

(** ** Paths *)

(** The value at a dotted key. *)
Fixpoint lookup_path (path : list string) (v : toml) : option toml :=
  match path with
  | [] => Some v
  | k :: path' =>
      match v with
      | TTable m => match assoc k m with Some v' => lookup_path path' v' | None => None end
      | _ => None
      end
  end.

Definition runtime_path (criKey name : string) : list string :=
  ["plugins"; criKey; "containerd"; "runtimes"; name].

(** The base runtime of a configuration: the version 2 table, or else the
    version 3 one. *)
Definition base_table (tree : table) (baseName : string) : option table :=
  if decide (baseName = "") then None
  else
    match lookup_path (runtime_path "io.containerd.grpc.v1.cri" baseName) (TTable tree) with
    | Some (TTable m) => Some m
    | _ =>
        match lookup_path (runtime_path "io.containerd.cri.v1.runtime" baseName) (TTable tree) with
        | Some (TTable m) => Some m
        | _ => None
        end
    end.

Lemma hasKey_path m path :
  path <> [] -> hasKey m path = true <-> is_Some (lookup_path path (TTable m)).
Proof.
  revert m. induction path as [|seg path IH]; intros m Hne; [done|]. cbn [lookup_path].
  destruct path as [|seg' path].
  - cbn [hasKey lookup_path]. destruct (assoc seg m); [by split; [eexists|]|].
    by split; [|intros [? ?]].
  - change (hasKey m (seg :: seg' :: path)) with
      (match assoc seg m with Some (TTable next) => hasKey next (seg' :: path) | _ => false end).
    destruct (assoc seg m) as [[next| | | | |]|]; try (by split; [|intros [? ?]]).
    by apply IH.
Qed.

Lemma lookup_runtimes plugins criKey name :
  lookup_path [criKey; "containerd"; "runtimes"; name] (TTable plugins) =
  match criRuntimes plugins criKey with Some rts => assoc name rts | None => None end.
Proof.
  unfold criRuntimes, as_table. cbn [lookup_path].
  destruct (assoc criKey plugins) as [[cri| | | | |]|]; try done.
  destruct (assoc "containerd" cri) as [[ctrd| | | | |]|]; try done.
  destruct (assoc "runtimes" ctrd) as [[rts| | | | |]|]; try done.
  by destruct (assoc name rts).
Qed.

Lemma lookup_plugins tree criKey name :
  lookup_path (runtime_path criKey name) (TTable tree) =
  match as_table (assoc "plugins" tree) with
  | Some plugins => lookup_path [criKey; "containerd"; "runtimes"; name] (TTable plugins)
  | None => None
  end.
Proof.
  unfold runtime_path. cbn [lookup_path as_table].
  by destruct (assoc "plugins" tree) as [[plugins| | | | |]|].
Qed.

Lemma hasRuntimeEntry_path tree name :
  hasRuntimeEntry tree name = true <->
  exists criKey, criKey ∈ criKeys /\ is_Some (lookup_path (runtime_path criKey name) (TTable tree)).
Proof.
  unfold hasRuntimeEntry. setoid_rewrite lookup_plugins.
  destruct (as_table (assoc "plugins" tree)) as [plugins|].
  2: { by split; [|intros (? & _ & [? ?])]. }
  setoid_rewrite lookup_runtimes.
  induction criKeys as [|criKey keys IH]; cbn [hasRuntimeLoop].
  - split; [done|]. by intros (? & ?%not_elem_of_nil & _).
  - assert (Hcons : (exists k, k ∈ criKey :: keys /\
        is_Some match criRuntimes plugins k with Some rts => assoc name rts | None => None end) <->
      is_Some match criRuntimes plugins criKey with Some rts => assoc name rts | None => None end \/
      exists k, k ∈ keys /\
        is_Some match criRuntimes plugins k with Some rts => assoc name rts | None => None end)
      by (setoid_rewrite elem_of_cons; naive_solver).
    rewrite Hcons, <-IH. destruct (criRuntimes plugins criKey) as [rts|].
    + destruct (assoc name rts); [by split; [left; eexists|]|].
      split; [by right|intros [[? ?]|?]; done].
    + split; [by right|intros [[? ?]|?]; done].
Qed.

(** ** Copies *)

(** Induction over a value and the values in its tables. *)
Lemma toml_table_ind (P : toml -> Prop) :
  (forall m, Forall (fun kv => P (snd kv)) m -> P (TTable m)) ->
  (forall v, as_table (Some v) = None -> P v) -> forall v, P v.
Proof.
  intros Htable Hother. fix IH 1. intros [m|l|s|n|b|s]; try by apply Hother.
  apply Htable. induction m as [|[k v] m IHm]; constructor; [apply IH|exact IHm].
Qed.

(** A deep copy has the same content. *)
Lemma deepCopyMap_id m : deepCopyMap m = m.
Proof.
  assert (Hv : forall v, deepCopy v = v).
  { apply toml_table_ind; [|by intros []].
    intros m' Hm'. cbn [deepCopy]. f_equal.
    induction Hm' as [|[k v] m' Hv _ IH]; simpl; [done|]. simpl in Hv. by rewrite Hv, IH. }
  unfold deepCopyMap. induction m as [|[k v] m IH]; simpl; [done|]. by rewrite Hv, IH.
Qed.

Lemma lookupBaseRuntime_path tree baseName :
  lookupBaseRuntime tree baseName = base_table tree baseName.
Proof.
  unfold lookupBaseRuntime, base_table. case_decide; [done|]. rewrite !lookup_plugins.
  destruct (as_table (assoc "plugins" tree)) as [plugins|]; [|done].
  rewrite !lookup_runtimes. unfold criKeys. cbn [lookupBaseLoop].
  assert (Hcopy : forall o, match o with Some base => Some (deepCopyMap base) | None => None end = o)
    by (intros [m|]; [by rewrite deepCopyMap_id|done]).
  destruct (criRuntimes plugins "io.containerd.grpc.v1.cri") as [rts|];
    destruct (criRuntimes plugins "io.containerd.cri.v1.runtime") as [rts'|]; unfold as_table;
    repeat match goal with |- context [assoc baseName ?r] =>
      destruct (assoc baseName r) as [[?| | | | |]|] end; try done; by rewrite deepCopyMap_id.
Qed.

(** ** What is missing *)

Lemma missingRuntimes_elem tree rts s :
  s ∈ missingRuntimes tree rts <->
  exists rt, rt ∈ rts /\ hasRuntimeEntry tree (rt_Name rt) = false /\
    s = MissingRuntime (rt_Name rt) (lookupBaseRuntime tree (rt_BaseRuntimeName rt)).
Proof.
  induction rts as [|rt rts IH]; cbn [missingRuntimes].
  - split; [by intros ?%not_elem_of_nil|]. by intros (? & ?%not_elem_of_nil & _).
  - rewrite elem_of_app, IH. setoid_rewrite elem_of_cons.
    destruct (hasRuntimeEntry tree (rt_Name rt)) eqn:Hrt; split.
    + intros [?%not_elem_of_nil|(rt' & ? & ?)]; [done|]. exists rt'. auto.
    + intros (rt' & [->|?] & ? & ?); [congruence|]. right. by exists rt'.
    + intros [Hs%list_elem_of_singleton|(rt' & ? & ?)]; [exists rt; auto|exists rt'; auto].
    + intros (rt' & [->|?] & ? & ->); [left; by apply list_elem_of_singleton|right; by exists rt'].
Qed.

(** C34 What is injected is what is missing: the proxy plugin exactly when its
    key is not defined, and a runtime exactly when it is asked for and defined
    under neither of the two CRI plugin keys - with the configuration of its
    base runtime, the version 2 table before the version 3 one. *)
Theorem collectMissing_iff tree params :
  (MissingProxyPlugin ∈ collectMissing tree params <->
     lookup_path ["proxy_plugins"; "pv-snapshotter"] (TTable tree) = None) /\
  (forall name base, MissingRuntime name base ∈ collectMissing tree params <->
     exists rt, rt ∈ p_Runtimes params /\ rt_Name rt = name /\
       (forall criKey, criKey ∈ criKeys ->
          lookup_path (runtime_path criKey name) (TTable tree) = None) /\
       base = base_table tree (rt_BaseRuntimeName rt)).
Proof.
  pose proof (hasKey_path tree ["proxy_plugins"; "pv-snapshotter"] ltac:(done)) as Hk.
  assert (Hproxy : hasKey tree ["proxy_plugins"; "pv-snapshotter"] = false <->
    lookup_path ["proxy_plugins"; "pv-snapshotter"] (TTable tree) = None).
  { rewrite <-not_true_iff_false, Hk, eq_None_not_Some. done. }
  assert (Hrt : forall name, hasRuntimeEntry tree name = false <->
    forall criKey, criKey ∈ criKeys -> lookup_path (runtime_path criKey name) (TTable tree) = None).
  { intros name. rewrite <-not_true_iff_false, hasRuntimeEntry_path.
    setoid_rewrite eq_None_not_Some. naive_solver. }
  unfold collectMissing. split.
  - rewrite <-Hproxy, elem_of_app, missingRuntimes_elem.
    destruct (hasKey tree _); split; try done.
    + intros [?%not_elem_of_nil|(? & _ & _ & ?)]; done.
    + intros _. left. by apply list_elem_of_singleton.
  - intros name base. rewrite elem_of_app, missingRuntimes_elem.
    setoid_rewrite <-Hrt. setoid_rewrite <-lookupBaseRuntime_path. split.
    + intros [Hs|(rt & ? & ? & [= -> ->])]; [|by exists rt].
      destruct (hasKey tree _); [by apply not_elem_of_nil in Hs|].
      by apply list_elem_of_singleton in Hs.
    + intros (rt & ? & <- & ? & ->). right. by exists rt.
Qed.

(** ** A new runtime entry *)

Lemma table_set_eq k v m : assoc k (table_set k v m) = Some v.
Proof.
  induction m as [|[k' v'] m IH]; simpl; [by rewrite decide_True|].
  case_decide; simpl; [by rewrite decide_True|by rewrite decide_False].
Qed.

Lemma table_set_ne k k' v m : k <> k' -> assoc k' (table_set k v m) = assoc k' m.
Proof.
  intros Hne. induction m as [|[k2 v2] m IH]; simpl; [by rewrite decide_False by done|].
  case_decide; simpl; [|by rewrite IH]. subst. by rewrite !decide_False by done.
Qed.

Lemma table_set_keys k v m k' : k' ∈ (table_set k v m).*1 <-> k' = k \/ k' ∈ m.*1.
Proof.
  induction m as [|[k2 v2] m IH]; simpl; [set_solver|].
  case_decide; simpl; set_solver.
Qed.

Lemma table_set_NoDup k v m : NoDup (m.*1) -> NoDup ((table_set k v m).*1).
Proof.
  induction m as [|[k2 v2] m IH]; simpl; intros Hnd; [by apply NoDup_singleton|].
  apply NoDup_cons in Hnd as [Hni Hnd]. case_decide; simpl; [by subst; constructor|].
  constructor; [|by apply IH]. rewrite table_set_keys. by intros [->|?].
Qed.

(** Splitting a table with distinct keys into scalars and sub-tables. *)
Lemma scalars_elem k v m :
  (k, v) ∈ scalars m <-> (k, v) ∈ m /\ as_table (Some v) = None.
Proof.
  unfold scalars. rewrite !list_elem_of_In, filter_In. simpl.
  destruct v; simpl; naive_solver.
Qed.

Lemma subtables_elem k sub m : (k, sub) ∈ subtables m <-> (k, TTable sub) ∈ m.
Proof.
  unfold subtables. rewrite list_elem_of_omap. split.
  - intros ([k' v] & Hin & Heq). simpl in Heq. by destruct v; simplify_eq.
  - intros Hin. by exists (k, TTable sub).
Qed.

(** A runtime entry is its base with another snapshotter: of the settings
    that are written, [snapshotter] is always pv-snapshotter, every other
    scalar and every sub-table of the base is there with its value, and there
    is nothing else.  Without a base the entry has just a [runtime_type]. *)
Theorem runtimeConfig_settings base :
  NoDup (base.*1) ->
  (forall k v, (k, v) ∈ scalars (runtimeConfig (Some base)) <->
     (k = "snapshotter" /\ v = TString "pv-snapshotter") \/
     (k <> "snapshotter" /\ assoc k base = Some v /\ as_table (Some v) = None)) /\
  (forall k sub, (k, sub) ∈ subtables (runtimeConfig (Some base)) <->
     k <> "snapshotter" /\ assoc k base = Some (TTable sub)) /\
  scalars (runtimeConfig None) =
    [("runtime_type", TString "io.containerd.runc.v2"); ("snapshotter", TString "pv-snapshotter")] /\
  subtables (runtimeConfig None) = [].
Proof.
  intros Hnd. assert (Hset : forall k v, (k, v) ∈ runtimeConfig (Some base) <->
    assoc k (runtimeConfig (Some base)) = Some v)
    by (intros; by apply assoc_elem_of, table_set_NoDup).
  assert (Hget : forall k, assoc k (runtimeConfig (Some base)) =
    if decide (k = "snapshotter") then Some (TString "pv-snapshotter") else assoc k base).
  { intros k. unfold runtimeConfig. case_decide as Hk; [subst; apply table_set_eq|].
    by apply table_set_ne. }
  split_and!; try done.
  - intros k v. rewrite scalars_elem, Hset, Hget. case_decide; naive_solver.
  - intros k sub. rewrite subtables_elem, Hset, Hget. case_decide; naive_solver.
Qed.

(** ** The file *)

Section File.
Context `{TomlCodec} (range_ : string -> list (string * table) -> list (string * table)).
Context {W} (h : handler hostE W) (fv : W -> gmap string string) `{!FileLaws h fv}.

(** What an append leaves in the file. *)
Lemma appendToFile_state path text w raw :
  fv w !! path = Some raw ->
  let (r, w') := run h (appendToFile path text) w in
  match r with
  | Ok _ => fv w' = <[path := raw +:+ text]> (fv w)
  | Err _ => exists part rest, text = part +:+ rest /\ fv w' = <[path := raw +:+ part]> (fv w)
  end.
Proof.
  intros Hraw. unfold appendToFile. cbn [bind call run].
  pose proof (file_open path w) as Ho.
  destruct (h _ (OsOpenAppend path) w) as [[u|e] w1]; cbn [bind run].
  2: { exists "", text. rewrite app_nil_r_str, insert_id by done. by split. }
  destruct Ho as [_ Ho]. rewrite <-Ho in Hraw.
  pose proof (file_write path text w1 raw Hraw) as Hw.
  destruct (h _ (FileWriteString path text) w1) as [wrote w2]. cbn [bind run].
  pose proof (file_keep _ (FileClose path) w2 eq_refl) as Hc.
  destruct (h _ (FileClose path) w2) as [c w3]. simpl in Hc.
  destruct wrote; cbn [run]; rewrite Hc, <-Ho; done.
Qed.

(** [Apply] after the file was read. *)
Definition applied (params : Params) (raw : string) (w : W) : result bool * W :=
  match toml_Unmarshal raw with
  | Err err => (Err (Wrapf "parsing %s: %w" [p_ConfigPath params] err), w)
  | Ok tree =>
      match collectMissing tree params with
      | [] => (Ok false, w)
      | missing =>
          match run h (appendToFile (p_ConfigPath params)
                         (buildSnippet range_ (p_SocketPath params) missing)) w with
          | (Ok _, w') => (Ok true, w')
          | (Err err, w') => (Err err, w')
          end
      end
  end.

Lemma Apply_read params w (raw : string) :
  fv w !! p_ConfigPath params = Some raw ->
  exists w1, fv w1 = fv w /\
    ((exists e, run h (Apply range_ params) w = (Err e, w1)) \/
     run h (Apply range_ params) w = applied params raw w1).
Proof.
  intros Hraw. unfold Apply, applied. cbn [bind call run].
  pose proof (file_read (p_ConfigPath params) w) as Hr.
  destruct (h _ (OsReadFile (p_ConfigPath params)) w) as [[raw'|e] w1]; cbn [run];
    [|exists w1; eauto].
  destruct Hr as [Hr Hfv]. rewrite Hraw in Hr. injection Hr as <-.
  exists w1. split; [done|]. right.
  destruct (toml_Unmarshal raw) as [tree|e]; cbn [run]; [|done].
  destruct (collectMissing tree params) as [|s missing]; cbn [run]; [done|].
  rewrite run_bind. by destruct (run h (appendToFile _ _) w1) as [[u|e] w2].
Qed.

(** C10 [Apply] only ever appends: whatever fails, the file keeps its old text
    at its start, and no other file changes.  It reports a change exactly when
    something was missing and the whole snippet was written, no change exactly
    when nothing was missing, and then the file is as it was. *)
Theorem Apply_appends params w raw :
  fv w !! p_ConfigPath params = Some raw ->
  let (r, w') := run h (Apply range_ params) w in
  match r with
  | Ok false =>
      fv w' = fv w /\
      exists tree, toml_Unmarshal raw = Ok tree /\ collectMissing tree params = []
  | Ok true =>
      exists tree, toml_Unmarshal raw = Ok tree /\ collectMissing tree params <> [] /\
        fv w' = <[p_ConfigPath params :=
                    raw +:+ buildSnippet range_ (p_SocketPath params) (collectMissing tree params)]>
                  (fv w)
  | Err _ =>
      fv w' = fv w \/
      exists tree part rest, toml_Unmarshal raw = Ok tree /\
        buildSnippet range_ (p_SocketPath params) (collectMissing tree params) = part +:+ rest /\
        fv w' = <[p_ConfigPath params := raw +:+ part]> (fv w)
  end.
Proof.
  intros Hraw. destruct (Apply_read params w raw Hraw) as (w1 & Hfv & [[e ->]| ->]); [by left|].
  unfold applied. destruct (toml_Unmarshal raw) as [tree|e] eqn:Ht; [|by left].
  destruct (collectMissing tree params) as [|s missing] eqn:Hm; [by eauto|]. rewrite <-Hm.
  pose proof (appendToFile_state (p_ConfigPath params)
    (buildSnippet range_ (p_SocketPath params) (collectMissing tree params)) w1 raw) as Happ.
  rewrite Hfv in Happ. specialize (Happ Hraw).
  destruct (run h (appendToFile _ _) w1) as [[u|e] w2].
  - exists tree. split_and!; [done|congruence|done].
  - right. destruct Happ as (part & rest & Htext & Hw). by exists tree, part, rest.
Qed.
End File.
