(* ===== verification/TomlFragment.v ===== *)
(** * A fragment of TOML

    The line-based part of TOML 1.0 that the config command reads and writes:
    blank lines and comments, [dotted] headers with bare or quoted keys, and
    [key = value] lines with strings, booleans, integers and arrays of them.
    Text outside the fragment is not parsed ([None]); what the fragment parses,
    a TOML parser parses to the same tree ([TomlLaws] in [ConfigRoundTrip.v]). *)

From Stdlib Require Import DecimalString DecimalZ.
From S2P Require Import Prelude GoStrings Template HostCalls Patcher PatcherFacts.
Local Open Scope go_scope.

(** ** Lexical elements *)

Definition backslash : ascii := "092"%char.
Definition quote_char : ascii := "034"%char.
Definition apostrophe : ascii := "039"%char.

Definition is_bare_byte (c : ascii) : bool :=
  is_letter c || is_digit c || bool_decide (c = "-"%char).
Definition is_bare (k : string) : bool := negb (bool_decide (k = "")) && forallb is_bare_byte (bytes k).

(** Control characters, and what is not ASCII: neither is in the fragment. *)
Definition is_control (c : ascii) : bool :=
  let n := nat_of_ascii c in Nat.ltb n 32 || Nat.leb 127 n.

(** The short escapes of a basic string. *)
Definition unescape_char (c : ascii) : option ascii :=
  let n := nat_of_ascii c in
  if decide (n = 34) then Some quote_char
  else if decide (n = 92) then Some backslash
  else if decide (n = 98) then Some "008"%char
  else if decide (n = 116) then Some "009"%char
  else if decide (n = 110) then Some "010"%char
  else if decide (n = 102) then Some "012"%char
  else if decide (n = 114) then Some "013"%char
  else None.

Definition consc (c : ascii) (r : option (string * string)) : option (string * string) :=
  match r with Some (s, rest) => Some (String c s, rest) | None => None end.

(** After the opening quote: the string and the text after the closing one. *)
Fixpoint basic_string (s : string) : option (string * string) :=
  match s with
  | "" => None
  | String c s' =>
      if decide (c = quote_char) then Some ("", s')
      else if decide (c = backslash) then
        match s' with
        | "" => None
        | String e s'' =>
            match unescape_char e with
            | Some d => consc d (basic_string s'')
            | None => None
            end
        end
      else if is_control c then None
      else consc c (basic_string s')
  end.

(** The longest prefix of bare-key bytes. *)
Fixpoint bare_prefix (s : string) : string * string :=
  match s with
  | "" => ("", "")
  | String c s' =>
      if is_bare_byte c then let (k, rest) := bare_prefix s' in (String c k, rest)
      else ("", s)
  end.

(** A literal string, after its opening quote. *)
Fixpoint literal_string (s : string) : option (string * string) :=
  match s with
  | "" => None
  | String c s' =>
      if decide (c = apostrophe) then Some ("", s')
      else if is_control c then None
      else consc c (literal_string s')
  end.

Definition parse_key (s : string) : option (string * string) :=
  match s with
  | "" => None
  | String c s' =>
      if decide (c = quote_char) then basic_string s'
      else if decide (c = apostrophe) then literal_string s'
      else match bare_prefix s with
           | ("", _) => None
           | (k, rest) => Some (k, rest)
           end
  end.

(** Keys separated by dots. *)
Fixpoint parse_path (fuel : nat) (s : string) : option (list string * string) :=
  match fuel with
  | 0 => None
  | S fuel' =>
      match parse_key s with
      | None => None
      | Some (k, rest) =>
          match rest with
          | String c rest' =>
              if decide (c = "."%char) then
                match parse_path fuel' rest' with
                | Some (p, rest'') => Some (k :: p, rest'')
                | None => None
                end
              else Some ([k], rest)
          | "" => Some ([k], rest)
          end
      end
  end.

Definition parse_int (s : string) : option Z :=
  match NilZero.int_of_string s with
  | Some d =>
      let n := Z.of_int d in
      if decide (NilZero.string_of_int (Z.to_int n) = s /\ (- 2 ^ 63 <= n < 2 ^ 63)%Z)
      then Some n else None
  | None => None
  end.

Definition parse_word (s : string) : option toml :=
  if decide (s = "true") then Some (TBool true)
  else if decide (s = "false") then Some (TBool false)
  else match parse_int s with Some n => Some (TInt n) | None => None end.

(** A string, a boolean or an integer, and the text after it. *)
Definition parse_scalar (s : string) : option (toml * string) :=
  match s with
  | "" => None
  | String c s' =>
      if decide (c = quote_char) then
        match basic_string s' with Some (v, rest) => Some (TString v, rest) | None => None end
      else if decide (c = apostrophe) then
        match literal_string s' with Some (v, rest) => Some (TString v, rest) | None => None end
      else let (w, rest) := bare_prefix s in
           match parse_word w with Some v => Some (v, rest) | None => None end
  end.

(** The items of an array, up to its bracket. *)
Fixpoint parse_items (fuel : nat) (s : string) : option (list toml * string) :=
  match fuel with
  | 0 => None
  | S fuel' =>
      match parse_scalar (TrimLeftSpace s) with
      | None => None
      | Some (v, rest) =>
          match TrimLeftSpace rest with
          | String c rest' =>
              if decide (c = "]"%char) then Some ([v], rest')
              else if decide (c = ","%char) then
                match parse_items fuel' rest' with
                | Some (vs, rest'') => Some (v :: vs, rest'')
                | None => None
                end
              else None
          | "" => None
          end
      end
  end.

Definition parse_value (s : string) : option toml :=
  match s with
  | String "["%char s' =>
      if decide (TrimLeftSpace s' = "]") then Some (TArray [])
      else match parse_items (String.length s) s' with
           | Some (vs, "") => Some (TArray vs)
           | _ => None
           end
  | _ => match parse_scalar s with Some (v, "") => Some v | _ => None end
  end.

(** ** Lines *)

Inductive line :=
| LBlank
| LHeader (path : list string)
| LEntry (key : string) (v : toml).

Definition parse_line (s : string) : option line :=
  match TrimLeftSpace s with
  | "" => Some LBlank
  | String c s' as t =>
      if decide (c = "#"%char) then
        if existsb is_control (bytes s') then None else Some LBlank
      else if decide (c = "["%char) then
        match parse_path (String.length t) s' with
        | Some (p, "]") => Some (LHeader p)
        | _ => None
        end
      else
        match parse_key t with
        | Some (k, rest) =>
            match TrimLeftSpace rest with
            | String c' v =>
                if decide (c' = "="%char) then
                  match parse_value (TrimLeftSpace v) with
                  | Some v' => Some (LEntry k v')
                  | None => None
                  end
                else None
            | "" => None
            end
        | None => None
        end
  end.

(** ** Documents *)

(** Change the table at a path, creating the tables on the way. *)
Fixpoint at_table (path : list string) (f : table -> option table) (m : table) : option table :=
  match path with
  | [] => f m
  | k :: path' =>
      match assoc k m with
      | None => match at_table path' f [] with
                | Some sub => Some (table_set k (TTable sub) m)
                | None => None
                end
      | Some (TTable sub) => match at_table path' f sub with
                             | Some sub' => Some (table_set k (TTable sub') m)
                             | None => None
                             end
      | Some _ => None
      end
  end.

(** A key may be given once. *)
Definition add_entry (k : string) (v : toml) (m : table) : option table :=
  match assoc k m with None => Some (table_set k v m) | Some _ => None end.

Record pstate := mkPState {
  ps_tree : table;
  ps_cur : list string;           (** the header above *)
  ps_seen : list (list string)    (** the headers so far: each may appear once *)
}.

Definition parse_step (st : option pstate) (s : string) : option pstate :=
  match st with
  | None => None
  | Some st =>
      match parse_line s with
      | None => None
      | Some LBlank => Some st
      | Some (LHeader p) =>
          if decide (p ∈ ps_seen st) then None
          else match at_table p Some (ps_tree st) with
               | Some m => Some (mkPState m p (p :: ps_seen st))
               | None => None
               end
      | Some (LEntry k v) =>
          match at_table (ps_cur st) (add_entry k v) (ps_tree st) with
          | Some m => Some (mkPState m (ps_cur st) (ps_seen st))
          | None => None
          end
      end
  end.

Definition parse_lines (st : option pstate) (ls : list string) : option pstate :=
  fold_left parse_step ls st.
Definition frag_state (s : string) : option pstate :=
  parse_lines (Some (mkPState [] [] [])) (lines "" s).
Definition frag_tree (s : string) : option table :=
  match frag_state s with Some st => Some (ps_tree st) | None => None end.
