(* ===== verification/TomlTree.v ===== *)
(** * Tables at a path

    What changing one table of a TOML tree does to the rest of the tree: the
    lemmas behind [ConfigRoundTrip.v]. *)

From S2P Require Import Prelude GoStrings Template HostCalls Patcher PatcherFacts TomlFragment.
Local Open Scope go_scope.

Lemma table_set_twice k v v' m : table_set k v' (table_set k v m) = table_set k v' m.
Proof.
  induction m as [|[k2 v2] m IH]; simpl; [by rewrite decide_True|].
  case_decide; simpl; [by rewrite decide_True|]. by rewrite decide_False, IH.
Qed.

Lemma table_set_id k v m : assoc k m = Some v -> table_set k v m = m.
Proof.
  induction m as [|[k2 v2] m IH]; simpl; [done|]. case_decide; [congruence|].
  intros Hk. by rewrite IH.
Qed.

Lemma table_set_fresh k v m : assoc k m = None -> table_set k v m = m ++ [(k, v)].
Proof.
  induction m as [|[k2 v2] m IH]; simpl; [done|]. case_decide; [done|].
  intros Hk. by rewrite IH.
Qed.

(** The table a key leads to: a new one when there is none, none when there is
    something else. *)
Definition sub_table (k : string) (m : table) : option table :=
  match assoc k m with None => Some [] | Some (TTable sub) => Some sub | Some _ => None end.

Lemma at_table_cons k path f m :
  at_table (k :: path) f m =
  match sub_table k m with
  | None => None
  | Some sub =>
      match at_table path f sub with
      | Some sub' => Some (table_set k (TTable sub') m)
      | None => None
      end
  end.
Proof. unfold sub_table. simpl. by destruct (assoc k m) as [[]|]. Qed.

Lemma sub_table_set k m sub : sub_table k (table_set k (TTable sub) m) = Some sub.
Proof. unfold sub_table. by rewrite table_set_eq. Qed.

Lemma sub_table_set_ne k k' v m : k <> k' -> sub_table k' (table_set k v m) = sub_table k' m.
Proof. intros H. unfold sub_table. by rewrite table_set_ne. Qed.

(** What is at a path below a key. *)
Lemma lookup_cons k path m :
  lookup_path (k :: path) (TTable m) =
  match assoc k m with Some v => lookup_path path v | None => None end.
Proof. done. Qed.

Lemma lookup_nil_table path : path <> [] -> lookup_path path (TTable []) = None.
Proof. by destruct path. Qed.

Lemma lookup_sub k path m sub :
  path <> [] -> sub_table k m = Some sub ->
  lookup_path (k :: path) (TTable m) = lookup_path path (TTable sub).
Proof.
  unfold sub_table. intros Hne. rewrite lookup_cons.
  destruct (assoc k m) as [[]|]; intros [= <-]; [done|]. by rewrite lookup_nil_table.
Qed.

(** ** Composition *)

Lemma at_table_bind path f g m m1 :
  at_table path f m = Some m1 ->
  at_table path g m1 = at_table path (fun t => match f t with Some t' => g t' | None => None end) m.
Proof.
  revert m m1. induction path as [|k path IH]; intros m m1.
  { cbn [at_table]. by intros ->. }
  rewrite !at_table_cons. destruct (sub_table k m) as [sub|]; [|done].
  destruct (at_table path f sub) as [sub'|] eqn:Hs; [|done]. intros [= <-].
  rewrite sub_table_set, (IH _ _ Hs). clear Hs. destruct (at_table path _ sub) as [sub2|]; [|done].
  by rewrite table_set_twice.
Qed.

Lemma at_table_app p q f m : at_table (p ++ q) f m = at_table p (at_table q f) m.
Proof.
  revert m. induction p as [|k p IH]; intros m; [done|].
  cbn [app]. rewrite !at_table_cons. destruct (sub_table k m); [|done]. by rewrite IH.
Qed.

Lemma at_table_ext path (f g : table -> option table) m :
  (forall t, f t = g t) -> at_table path f m = at_table path g m.
Proof.
  intros Hfg. revert m. induction path as [|k path IH]; intros m; [apply Hfg|].
  rewrite !at_table_cons. destruct (sub_table k m); [|done]. by rewrite IH.
Qed.

(** ** The changed table *)

Lemma at_table_lookup path f m m' :
  at_table path f m = Some m' ->
  exists t t', f t = Some t' /\ lookup_path path (TTable m') = Some (TTable t') /\
    (lookup_path path (TTable m) = Some (TTable t) \/
     lookup_path path (TTable m) = None /\ t = []).
Proof.
  revert m m'. induction path as [|k path IH]; intros m m'.
  { cbn [at_table lookup_path]. intros H. exists m, m'. auto. }
  rewrite at_table_cons. destruct (sub_table k m) as [sub|] eqn:Hsub; [|done].
  destruct (at_table path f sub) as [sub'|] eqn:Hs; [|done]. intros [= <-].
  destruct (IH _ _ Hs) as (t & t' & Hf & Hl' & Hl). exists t, t'.
  split_and!; [done|by rewrite lookup_cons, table_set_eq|].
  unfold sub_table in Hsub. rewrite lookup_cons.
  destruct (assoc k m) as [[]|]; simplify_eq; [done|]. right. split; [done|].
  destruct Hl as [Hl|[_ ?]]; [|done]. destruct path; [|done]. cbn [lookup_path] in Hl. congruence.
Qed.

(** A table that exists can be changed; unchanged, so is the tree. *)
Lemma at_table_some path f m t t' :
  lookup_path path (TTable m) = Some (TTable t) -> f t = Some t' ->
  is_Some (at_table path f m).
Proof.
  revert m. induction path as [|k path IH]; intros m.
  { cbn [lookup_path at_table]. intros [= ->] ->. by eexists. }
  rewrite at_table_cons, lookup_cons. unfold sub_table.
  destruct (assoc k m) as [[sub| | | | |]|]; try (destruct path; discriminate).
  intros Hl Hf. destruct (IH _ Hl Hf) as [m' ->]. by eexists.
Qed.

Lemma at_table_id path m t :
  lookup_path path (TTable m) = Some (TTable t) -> at_table path Some m = Some m.
Proof.
  revert m. induction path as [|k path IH]; intros m; [done|].
  rewrite at_table_cons, lookup_cons. unfold sub_table.
  destruct (assoc k m) as [[sub| | | | |]|] eqn:Hk; try (destruct path; discriminate).
  intros Hl. by rewrite (IH _ Hl), table_set_id.
Qed.

(** ** The other tables *)

(** Two paths that part: neither leads to the other. *)
Fixpoint diverge (p q : list string) : bool :=
  match p, q with
  | k :: p', k' :: q' => if decide (k = k') then diverge p' q' else true
  | _, _ => false
  end.

Lemma diverge_app p q r : diverge (p ++ q) (p ++ r) = diverge q r.
Proof. induction p as [|k p IH]; simpl; [done|]. by rewrite decide_True. Qed.

Lemma at_table_diverge p q f m m' :
  at_table p f m = Some m' -> diverge p q = true ->
  lookup_path q (TTable m') = lookup_path q (TTable m).
Proof.
  revert q m m'. induction p as [|k p IH]; intros [|k' q] m m'; try done.
  rewrite at_table_cons. destruct (sub_table k m) as [sub|] eqn:Hsub; [|done].
  destruct (at_table p f sub) as [sub'|] eqn:Hs; [|done]. intros [= <-].
  cbn [diverge]. case_decide as Hk.
  - subst k'. intros Hd. assert (Hq : q <> []) by (by destruct p, q).
    rewrite (lookup_sub _ _ _ _ Hq (sub_table_set k m sub')), (lookup_sub _ _ _ _ Hq Hsub).
    by apply (IH _ _ _ Hs).
  - intros _. by rewrite !lookup_cons, table_set_ne.
Qed.

(** A path can be opened when nothing but tables is on it. *)
Definition openable (path : list string) (m : table) : Prop := is_Some (at_table path Some m).

Lemma openable_nil path : openable path [].
Proof.
  unfold openable. induction path as [|k path IH]; [by eexists|].
  rewrite at_table_cons. cbn [sub_table assoc]. destruct IH as [m ->]. by eexists.
Qed.

Lemma openable_snoc p k m :
  openable p m -> lookup_path (p ++ [k]) (TTable m) = None -> openable (p ++ [k]) m.
Proof.
  intros [m1 Hm1] Hl. unfold openable. rewrite at_table_app.
  destruct (at_table_lookup _ _ _ _ Hm1) as (t & t' & [= <-] & Hl1 & Ht).
  assert (Hk : assoc k t = None).
  { destruct Ht as [Ht|[_ ->]]; [|done]. clear -Ht Hl. revert m Ht Hl.
    induction p as [|k' p IH]; intros m; cbn [app].
    - cbn [lookup_path]. intros [= ->]. by destruct (assoc k t).
    - rewrite !lookup_cons. destruct (assoc k' m) as [[]|]; try done; try by destruct p.
      apply IH. }
  destruct (at_table_some p (at_table [k] Some) m1 t (table_set k (TTable []) t) Hl1) as [m2 Hm2].
  { cbn [at_table]. by rewrite Hk. }
  exists m2. by rewrite (at_table_bind _ _ _ _ _ Hm1) in Hm2.
Qed.

Lemma openable_diverge p q f m m' :
  at_table p f m = Some m' -> diverge p q = true -> openable q m -> openable q m'.
Proof.
  unfold openable. revert q m m'. induction p as [|k p IH]; intros [|k' q] m m'; try done.
  rewrite !at_table_cons. destruct (sub_table k m) as [sub|] eqn:Hsub; [|done].
  destruct (at_table p f sub) as [sub'|] eqn:Hs; [|done]. intros [= <-].
  cbn [diverge]. case_decide as Hk.
  - subst k'. rewrite Hsub, sub_table_set. intros Hd.
    destruct (at_table q Some sub) as [s|] eqn:Hq; [|by intros [? ?]]. intros _.
    destruct (IH q _ _ Hs Hd) as [s' ->]; [by eexists|by eexists].
  - rewrite sub_table_set_ne by done. intros _. destruct (sub_table k' m) as [s|]; [|done].
    destruct (at_table q Some s); [by eexists|by intros [? ?]].
Qed.

(** ** Growth *)

Definition is_table (v : toml) : bool := match v with TTable _ => true | _ => false end.

(** Everything of [m] is in [m'], tables possibly with more in them. *)
Definition grows (m m' : table) : Prop :=
  forall path v, lookup_path path (TTable m) = Some v ->
  exists v', lookup_path path (TTable m') = Some v' /\
    (v' = v \/ is_table v = true /\ is_table v' = true).

#[export] Instance grows_preorder : PreOrder grows.
Proof.
  split.
  - intros m path v Hv. eauto.
  - intros m1 m2 m3 H12 H23 path v Hv. destruct (H12 _ _ Hv) as (v' & Hv' & Hc).
    destruct (H23 _ _ Hv') as (v2 & Hv2 & Hc2). exists v2. split; [done|].
    destruct Hc as [->|[? ?]], Hc2 as [->|[? ?]]; auto.
Qed.

Lemma at_table_grows path f m m' :
  (forall t t', f t = Some t' -> grows t t') -> at_table path f m = Some m' -> grows m m'.
Proof.
  intros Hf. revert m m'. induction path as [|k path IH]; intros m m'; [apply Hf|].
  rewrite at_table_cons. destruct (sub_table k m) as [sub|] eqn:Hsub; [|done].
  destruct (at_table path f sub) as [sub'|] eqn:Hs; [|done]. intros [= <-].
  specialize (IH _ _ Hs). intros [|k' q] v Hv.
  - injection Hv as <-. eexists. split; [reflexivity|by right].
  - rewrite lookup_cons in *. destruct (decide (k = k')) as [<-|Hne].
    + rewrite table_set_eq. unfold sub_table in Hsub.
      destruct (assoc k m) as [[]|]; simplify_eq. by apply IH.
    + rewrite table_set_ne by done. eauto.
Qed.

Lemma add_entry_grows k v m m' : add_entry k v m = Some m' -> grows m m'.
Proof.
  unfold add_entry. destruct (assoc k m) eqn:Hk; [done|]. intros [= <-] [|k' q] v' Hv.
  - injection Hv as <-. eexists. split; [reflexivity|by right].
  - rewrite lookup_cons in *. destruct (decide (k = k')) as [<-|Hne]; [by rewrite Hk in Hv|].
    rewrite table_set_ne by done. eauto.
Qed.

(** ** Filling a table *)

(** The entries below a header, one after the other. *)
Fixpoint add_all (es : table) (t : table) : option table :=
  match es with
  | [] => Some t
  | (k, v) :: es' => match add_entry k v t with Some t' => add_all es' t' | None => None end
  end.

Lemma assoc_None {A} k (m : list (string * A)) : assoc k m = None <-> k ∉ m.*1.
Proof.
  induction m as [|[k' v] m IH]; simpl; [set_solver|]. case_decide; [set_solver|]. rewrite IH. set_solver.
Qed.

Lemma add_all_fresh es t : NoDup ((t ++ es).*1) -> add_all es t = Some (t ++ es).
Proof.
  revert t. induction es as [|[k v] es IH]; intros t Hnd; cbn [add_all]; [by rewrite app_nil_r|].
  unfold add_entry. rewrite fmap_app in Hnd. simpl in Hnd.
  apply NoDup_app in Hnd as (Ht & Hdisj & Hes).
  assert (Hk : assoc k t = None).
  { apply assoc_None. intros Hin. apply (Hdisj k Hin). by left. }
  rewrite Hk, table_set_fresh by done. rewrite IH, <-app_assoc; [done|].
  rewrite !fmap_app, <-app_assoc. simpl. by apply NoDup_app.
Qed.

Lemma add_all_grows es t t' : add_all es t = Some t' -> grows t t'.
Proof.
  revert t. induction es as [|[k v] es IH]; intros t; simpl; [by intros [= <-]|].
  destruct (add_entry k v t) as [t1|] eqn:H1; [|done]. intros H2.
  etransitivity; [by eapply add_entry_grows|by apply IH].
Qed.
