(* ===== verification/TomlText.v ===== *)
(** * Printing and parsing TOML lines

    What [Patcher.v] prints, the fragment parses: strings, headers, indented
    blocks. *)

From S2P Require Import Prelude GoStrings Template HostCalls Patcher PatcherFacts TomlFragment.
From S2P Require Import TomlTree.
Local Open Scope go_scope.

(** ** Lines *)

Definition no_newline (s : string) : Prop := "010"%char ∉ bytes s.

(** Every line with its newline. *)
Definition unlines (ls : list string) : string :=
  foldr (fun l out => l +:+ newline +:+ out) "" ls.

Lemma lines_app cur a b :
  lines cur (a +:+ newline +:+ b) = lines cur a ++ lines "" b.
Proof.
  revert cur. induction a as [|c a IH]; intros cur; [done|]. simpl_app. cbn [lines].
  case_decide; [|apply IH]. cbn [app]. f_equal. apply IH.
Qed.

Lemma lines_no_newline cur s : no_newline s -> lines cur s = [cur +:+ s].
Proof.
  revert cur. induction s as [|c s IH]; intros cur Hs; cbn [lines]; [by rewrite app_nil_r_str|].
  unfold no_newline in Hs. cbn [bytes] in Hs. rewrite decide_False by set_solver.
  rewrite IH by (unfold no_newline; set_solver). by rewrite app_assoc_str.
Qed.

Lemma lines_unlines ls s :
  Forall no_newline ls -> lines "" (unlines ls +:+ s) = ls ++ lines "" s.
Proof.
  induction 1 as [|l ls Hl _ IH]; [done|].
  change (unlines (l :: ls)) with (l +:+ newline +:+ unlines ls).
  rewrite !app_assoc_str, lines_app, IH, lines_no_newline by done. done.
Qed.

Lemma lines_clean cur s : no_newline cur -> Forall no_newline (lines cur s).
Proof.
  revert cur. induction s as [|c s IH]; intros cur Hc; cbn [lines]; [by repeat constructor|].
  case_decide; [constructor; [done|]; apply IH; unfold no_newline; simpl; set_solver|].
  apply IH. unfold no_newline in *. rewrite bytes_app. simpl. set_solver.
Qed.

(** ** Strings and keys *)

(** Text without control characters: what [Quote] writes as TOML reads it. *)
Definition plain (s : string) : bool := forallb (fun c => negb (is_control c)) (bytes s).

Definition quoted (s : string) : string :=
  foldr (fun c out => quoteByte c +:+ out) "" (bytes s).

Lemma quoteByte_plain c :
  is_control c = false ->
  quoteByte c = if decide (c = quote_char) then String backslash (byte quote_char)
                else if decide (c = backslash) then String backslash (byte backslash)
                else byte c.
Proof. by destruct c as [[] [] [] [] [] [] [] []]. Qed.

Lemma basic_string_quoted s rest :
  plain s = true ->
  basic_string (quoted s +:+ String quote_char rest) = Some (s, rest).
Proof.
  induction s as [|c s IH]; [done|]. cbn [plain bytes forallb].
  intros [Hc Hs]%andb_prop. apply negb_true_iff in Hc.
  change (quoted (String c s)) with (quoteByte c +:+ quoted s).
  rewrite (quoteByte_plain c Hc). specialize (IH Hs).
  destruct (decide (c = quote_char)) as [->|Hq]; [simpl_app; cbn; by rewrite IH|].
  destruct (decide (c = backslash)) as [->|Hb]; [simpl_app; cbn; by rewrite IH|].
  simpl_app. cbn [basic_string]. by rewrite !decide_False, Hc, IH by done.
Qed.

Lemma Quote_quoted s rest :
  Quote s +:+ rest = String quote_char (quoted s +:+ String quote_char rest).
Proof. unfold Quote. by rewrite !app_assoc_str. Qed.

Lemma parse_value_quote s : plain s = true -> parse_value (Quote s) = Some (TString s).
Proof.
  intros Hs. rewrite <-(app_nil_r_str (Quote s)), Quote_quoted. cbn [parse_value].
  unfold parse_scalar. rewrite decide_True by done. by rewrite basic_string_quoted.
Qed.

Definition key_text (k : string) : string := if is_bare k then k else Quote k.

Lemma is_bare_plain k : is_bare k = true -> plain k = true.
Proof.
  unfold is_bare, plain. intros [_ Hk]%andb_prop. induction k as [|c k IH]; [done|].
  cbn [bytes forallb] in *. apply andb_prop in Hk as [Hc Hk]. rewrite (IH Hk), andb_true_r.
  revert Hc. by destruct c as [[] [] [] [] [] [] [] []].
Qed.

Lemma plain_app a b : plain (a +:+ b) = plain a && plain b.
Proof. unfold plain. rewrite bytes_app. apply forallb_app. Qed.

Lemma plain_quoted s : plain s = true -> plain (quoted s) = true.
Proof.
  induction s as [|c s IH]; [done|]. cbn [plain bytes forallb].
  intros [Hc Hs]%andb_prop. change (quoted (String c s)) with (quoteByte c +:+ quoted s).
  rewrite plain_app, (IH Hs), andb_true_r. apply negb_true_iff in Hc. clear -Hc.
  rewrite (quoteByte_plain c Hc). repeat case_decide; [done..|].
  cbn. by rewrite Hc.
Qed.

Lemma plain_Quote s : plain s = true -> plain (Quote s) = true.
Proof.
  intros Hs. rewrite <-(app_nil_r_str (Quote s)), Quote_quoted.
  change (plain (quoted s +:+ String quote_char "") = true).
  by rewrite plain_app, plain_quoted.
Qed.

Lemma plain_key_text k : plain k = true -> plain (key_text k) = true.
Proof. unfold key_text. destruct (is_bare k); [done|apply plain_Quote]. Qed.

(** A bare key ends where a byte comes that it cannot contain. *)
Definition ends_key (rest : string) : bool :=
  match rest with "" => true | String c _ => negb (is_bare_byte c) end.

Lemma bare_prefix_app k rest :
  forallb is_bare_byte (bytes k) = true -> ends_key rest = true ->
  bare_prefix (k +:+ rest) = (k, rest).
Proof.
  intros Hk Hr. induction k as [|c k IH]; simpl_app.
  - destruct rest as [|d rest]; [done|]. cbn in *. by apply negb_true_iff in Hr as ->.
  - cbn [bytes forallb] in Hk. apply andb_prop in Hk as [Hc Hk].
    cbn [bare_prefix]. by rewrite Hc, IH.
Qed.

Lemma parse_key_text k rest :
  plain k = true -> ends_key rest = true -> parse_key (key_text k +:+ rest) = Some (k, rest).
Proof.
  intros Hp Hr. unfold key_text. destruct (is_bare k) eqn:Hb.
  - unfold is_bare in Hb. apply andb_prop in Hb as [Hne Hb].
    pose proof (bare_prefix_app k rest Hb Hr) as Hbp.
    destruct k as [|c k]; [done|]. simpl_app. cbn [parse_key].
    rewrite !decide_False; [by rewrite Hbp|intros ->; cbn in Hb; done..].
  - rewrite Quote_quoted. cbn [parse_key]. rewrite decide_True by done.
    by apply basic_string_quoted.
Qed.

(** ** Headers *)

Fixpoint path_text (p : list string) : string :=
  match p with
  | [] => ""
  | [k] => key_text k
  | k :: p' => key_text k +:+ "." +:+ path_text p'
  end.

Lemma parse_path_text p rest fuel :
  p <> [] -> length p <= fuel -> Forall (fun k => plain k = true) p ->
  parse_path fuel (path_text p +:+ String "]" rest) = Some (p, String "]" rest).
Proof.
  revert fuel. induction p as [|k p IH]; intros fuel Hne Hlen Hp; [done|].
  destruct fuel as [|fuel]; [simpl in Hlen; lia|]. apply Forall_cons in Hp as [Hk Hp].
  destruct p as [|k' p].
  - cbn [path_text parse_path]. by rewrite parse_key_text.
  - change (path_text (k :: k' :: p)) with (key_text k +:+ "." +:+ path_text (k' :: p)).
    rewrite !app_assoc_str. cbn [parse_path]. simpl_app.
    rewrite parse_key_text by done. rewrite decide_True by done.
    simpl in Hlen. rewrite IH; [done|done|simpl; lia|done].
Qed.

Lemma key_text_length k : k <> "" \/ is_bare k = false -> 1 <= String.length (key_text k).
Proof.
  unfold key_text. destruct (is_bare k) eqn:Hb.
  - destruct k; [done|]. intros _. simpl. lia.
  - intros _. unfold Quote. simpl. lia.
Qed.

Lemma string_length_app (s t : string) :
  String.length (s +:+ t) = String.length s + String.length t.
Proof. induction s as [|c s IH]; [done|]. simpl_app. simpl. by rewrite IH. Qed.

Lemma path_text_length p : length p <= S (String.length (path_text p)).
Proof.
  induction p as [|k p IH]; [simpl; lia|]. destruct p as [|k' p]; [simpl; lia|].
  change (path_text (k :: k' :: p)) with (key_text k +:+ "." +:+ path_text (k' :: p)).
  rewrite !string_length_app. simpl in *. lia.
Qed.

Lemma parse_header p :
  p <> [] -> Forall (fun k => plain k = true) p ->
  parse_line ("[" +:+ path_text p +:+ "]") = Some (LHeader p).
Proof.
  intros Hne Hp. unfold parse_line. simpl_app. cbn [TrimLeftSpace].
  rewrite decide_False by done. rewrite decide_False by done. rewrite decide_True by done.
  rewrite (parse_path_text p "") ; [done|done| |done].
  pose proof (path_text_length p). cbn [String.length]. rewrite string_length_app. lia.
Qed.

(** ** Blocks *)

(** The entries of a block without headers. *)
Fixpoint entries (ls : list string) : option table :=
  match ls with
  | [] => Some []
  | l :: ls' =>
      match parse_line l with
      | Some LBlank => entries ls'
      | Some (LEntry k v) =>
          match entries ls' with Some es => Some ((k, v) :: es) | None => None end
      | _ => None
      end
  end.

Lemma entries_app ls1 ls2 :
  entries (ls1 ++ ls2) =
  match entries ls1, entries ls2 with
  | Some es1, Some es2 => Some (es1 ++ es2)
  | _, _ => None
  end.
Proof.
  induction ls1 as [|l ls1 IH]; cbn [app entries]; [by destruct (entries ls2)|].
  destruct (parse_line l) as [[]|]; try done. rewrite IH.
  by destruct (entries ls1), (entries ls2).
Qed.

Definition indented (l : string) : string := if is_blank l then "" else "  " +:+ l.

Lemma indentTOML_unlines b : indentTOML b "  " = unlines (map indented (lines "" b)).
Proof.
  unfold indentTOML. induction (lines "" b) as [|l ls IH]; [done|].
  cbn [foldr map unlines]. rewrite IH. unfold indentLine, indented.
  destruct (is_blank l); [done|]. by rewrite !app_assoc_str.
Qed.

Lemma blank_parse l : is_blank l = true -> forall x, parse_line l = Some x -> x = LBlank.
Proof.
  unfold is_blank, parse_line. induction l as [|c l IH]; [by intros _ x [= <-]|].
  cbn [bytes forallb]. intros [Hc Hl]%andb_prop. cbn [TrimLeftSpace].
  destruct (decide (c = " "%char)) as [->|Hne]; [by apply IH|].
  revert Hc Hne. by destruct c as [[] [] [] [] [] [] [] []].
Qed.

Lemma entries_indented ls es : entries ls = Some es -> entries (map indented ls) = Some es.
Proof.
  revert es. induction ls as [|l ls IH]; intros es; [done|]. cbn [map entries].
  unfold indented at 1. destruct (is_blank l) eqn:Hb.
  - destruct (parse_line l) as [x|] eqn:Hl; [|done]. rewrite (blank_parse l Hb x Hl). apply IH.
  - change (parse_line ("  " +:+ l)) with (parse_line l).
    destruct (parse_line l) as [[]|]; try done; [apply IH|].
    destruct (entries ls) as [es'|]; [|done]. by rewrite (IH es').
Qed.

(** Reading a block fills the current table. *)
Lemma parse_block ls es m m' cur seen t :
  entries ls = Some es -> lookup_path cur (TTable m) = Some (TTable t) ->
  at_table cur (add_all es) m = Some m' ->
  parse_lines (Some (mkPState m cur seen)) ls = Some (mkPState m' cur seen).
Proof.
  revert es m t. induction ls as [|l ls IH]; intros es m t; cbn [entries].
  - intros [= <-] Hl Hat. rewrite (at_table_ext _ _ Some), (at_table_id _ _ _ Hl) in Hat by done.
    by injection Hat as <-.
  - destruct (parse_line l) as [[|p|k v]|] eqn:Hp; try done; intros He Hl Hat.
    + unfold parse_lines. cbn [fold_left parse_step]. rewrite Hp. by eapply IH.
    + destruct (entries ls) as [es'|] eqn:Hes; [|done]. injection He as <-.
      destruct (at_table_lookup _ _ _ _ Hat) as (t0 & t' & Hf & _ & Ht0). cbn [add_all] in Hf.
      destruct (add_entry k v t0) as [t1|] eqn:Ha; [|done].
      assert (Hl0 : lookup_path cur (TTable m) = Some (TTable t0)).
      { destruct Ht0 as [?|[? _]]; [done|congruence]. }
      destruct (at_table_some cur (add_entry k v) m t0 t1 Hl0 Ha) as [m1 Hm1].
      unfold parse_lines. cbn [fold_left parse_step]. rewrite Hp. cbn [ps_cur ps_tree ps_seen].
      rewrite Hm1. destruct (at_table_lookup _ _ _ _ Hm1) as (t2 & t3 & _ & Hl1 & _).
      eapply IH; [done|exact Hl1|]. rewrite (at_table_bind _ _ _ _ _ Hm1). exact Hat.
Qed.
