(* ===== verification/TomlSections.v ===== *)
(** * Appending sections to a document

    A parsed document keeps its tables when new headers follow it: a section
    whose path is fresh becomes a table of its own, and leaves the others as
    they were; a path that is opened twice is an error. *)

From S2P Require Import Prelude GoStrings Template HostCalls Patcher PatcherFacts TomlFragment.
From S2P Require Import TomlTree TomlText.
Local Open Scope go_scope.

(** ** Parsing, a list of lines at a time *)

Lemma parse_lines_app st ls1 ls2 :
  parse_lines st (ls1 ++ ls2) = parse_lines (parse_lines st ls1) ls2.
Proof. apply fold_left_app. Qed.

Lemma parse_lines_none ls : parse_lines None ls = None.
Proof. by induction ls. Qed.

Lemma parse_lines_cons st l ls : parse_lines st (l :: ls) = parse_lines (parse_step st l) ls.
Proof. done. Qed.

(** What is below a fresh path is fresh. *)
Lemma lookup_below p q m :
  lookup_path p (TTable m) = None -> lookup_path (p ++ q) (TTable m) = None.
Proof.
  revert m. induction p as [|k p IH]; intros m; [done|]. cbn [app]. rewrite !lookup_cons.
  destruct (assoc k m) as [v|]; [|done]. destruct v as [sub| | | | |]; try by destruct p.
  apply IH.
Qed.

(** On a fresh path, a change starts from the empty table. *)
Lemma at_table_fresh p (f g : table -> option table) m :
  lookup_path p (TTable m) = None -> f [] = g [] -> at_table p f m = at_table p g m.
Proof.
  intros Hl Hfg. revert m Hl. induction p as [|k p IH]; intros m; [done|].
  rewrite lookup_cons, !at_table_cons. unfold sub_table.
  assert (Hnil : at_table p f [] = at_table p g []).
  { destruct p as [|k' p]; [exact Hfg|by apply IH]. }
  destruct (assoc k m) as [[]|]; try done; intros Hl; [by rewrite IH|by rewrite Hnil].
Qed.

(** The headers that were read lead to tables. *)
Definition tables (seen : list (list string)) (m : table) : Prop :=
  forall p, p ∈ seen -> exists t, lookup_path p (TTable m) = Some (TTable t).
Definition valid (st : pstate) : Prop := tables (ps_seen st) (ps_tree st).

Lemma grows_table m m' p t :
  grows m m' -> lookup_path p (TTable m) = Some (TTable t) ->
  exists t', lookup_path p (TTable m') = Some (TTable t').
Proof.
  intros Hg Hl. destruct (Hg _ _ Hl) as (v' & Hv' & [->|[_ Ht]]); [eauto|].
  destruct v'; try done. eauto.
Qed.

Lemma tables_grows m m' seen : grows m m' -> tables seen m -> tables seen m'.
Proof.
  intros Hg Hv p Hp. destruct (Hv p Hp) as [t Ht]. by eapply grows_table.
Qed.

Lemma parse_step_valid st l st' : valid st -> parse_step (Some st) l = Some st' -> valid st'.
Proof.
  destruct st as [m cur seen]. cbn [parse_step ps_tree ps_cur ps_seen]. intros Hv.
  destruct (parse_line l) as [[|p|k v]|]; [by intros [= <-]| | |done].
  - case_decide; [done|]. destruct (at_table p Some m) as [m'|] eqn:Hm; [|done].
    intros [= <-]. intros q [->|Hq]%elem_of_cons.
    + destruct (at_table_lookup _ _ _ _ Hm) as (t & t' & _ & Ht & _). eauto.
    + eapply (tables_grows m m'); [|exact Hv|exact Hq].
      eapply at_table_grows; [|exact Hm]. by intros t t' [= <-].
  - destruct (at_table cur (add_entry k v) m) as [m'|] eqn:Hm; [|done]. intros [= <-].
    eapply tables_grows; [|exact Hv]. eapply at_table_grows; [|exact Hm].
    intros t t'. apply add_entry_grows.
Qed.

Lemma parse_lines_valid ls st st' :
  valid st -> parse_lines (Some st) ls = Some st' -> valid st'.
Proof.
  revert st. induction ls as [|l ls IH]; intros st Hv; [by intros [= <-]|].
  rewrite parse_lines_cons. destruct (parse_step (Some st) l) as [st1|] eqn:Hl.
  - apply IH. by eapply parse_step_valid.
  - by rewrite parse_lines_none.
Qed.

Lemma frag_state_valid s st : frag_state s = Some st -> valid st.
Proof. apply parse_lines_valid. by intros p ?%not_elem_of_nil. Qed.

(** ** What a document that parses tells of its lines *)

(** Every line is of the fragment. *)
Definition readable (ls : list string) : Prop := Forall (fun l => is_Some (parse_line l)) ls.

(** Some line opens the table at [p]. *)
Definition opened (p : list string) (ls : list string) : Prop :=
  Exists (fun l => parse_line l = Some (LHeader p)) ls.

Lemma parse_step_some st l st' :
  parse_step (Some st) l = Some st' ->
  is_Some (parse_line l) /\
  (forall p, p ∈ ps_seen st' <-> p ∈ ps_seen st \/ parse_line l = Some (LHeader p)) /\
  (forall p, parse_line l = Some (LHeader p) -> p ∉ ps_seen st).
Proof.
  destruct st as [m cur seen]. cbn [parse_step ps_seen ps_tree ps_cur].
  destruct (parse_line l) as [[|p|k v]|]; [| | |done].
  - intros [= <-]. split_and!; [done|naive_solver..].
  - case_decide as Hp; [done|]. destruct (at_table p Some m); [|done]. intros [= <-].
    split_and!; [done| |naive_solver]. intros q. cbn [ps_seen]. rewrite elem_of_cons. naive_solver.
  - destruct (at_table cur _ m); [|done]. intros [= <-]. split_and!; [done|naive_solver..].
Qed.

Lemma parse_lines_some ls st st' :
  parse_lines (Some st) ls = Some st' ->
  readable ls /\ (forall p, p ∈ ps_seen st' <-> p ∈ ps_seen st \/ opened p ls) /\
  (forall p, opened p ls -> p ∉ ps_seen st).
Proof.
  unfold readable, opened. revert st. induction ls as [|l ls IH]; intros st.
  { intros [= <-]. split_and!; [done| |by intros p ?%Exists_nil].
    intros p. rewrite Exists_nil. naive_solver. }
  rewrite parse_lines_cons. destruct (parse_step (Some st) l) as [st1|] eqn:Hl;
    [|by rewrite parse_lines_none].
  apply parse_step_some in Hl as (Hsome & Hseen & Hnew).
  intros (Hr & Hs & Hn)%IH. split_and!; [by constructor| |]; intros p; rewrite Exists_cons.
  - rewrite Hs, Hseen. tauto.
  - intros [Hp|Hp]; [by apply Hnew|]. intros Hin. apply (Hn p Hp), Hseen. by left.
Qed.

(** A table that is opened twice is an error. *)
Lemma opened_twice st p ls1 ls2 :
  opened p ls1 -> opened p ls2 -> forall between after,
  parse_lines st (ls1 ++ between ++ ls2 ++ after) = None.
Proof.
  intros H1 H2 between after. rewrite !app_assoc, parse_lines_app, <-app_assoc.
  replace (parse_lines st _) with (None : option pstate); [apply parse_lines_none|symmetry].
  rewrite parse_lines_app. assert (H2' : opened p (between ++ ls2)) by (apply Exists_app; by right).
  destruct st as [st|]; [|by rewrite !parse_lines_none].
  destruct (parse_lines (Some st) ls1) as [st1|] eqn:Hp1; [|apply parse_lines_none].
  destruct (parse_lines (Some st1) (between ++ ls2)) as [st2|] eqn:Hp2; [exfalso|done].
  apply parse_lines_some in Hp1 as (_ & Hs & _), Hp2 as (_ & _ & Hn).
  apply (Hn p H2'), Hs. by right.
Qed.

(** ** A section *)

(** [ls] are the lines of a section: [p] its header, [es] its entries. *)
Definition section (ls : list string) (p : list string) (es : table) : Prop :=
  exists pre hdr body, ls = pre ++ hdr :: body /\ entries pre = Some [] /\
    parse_line hdr = Some (LHeader p) /\ entries body = Some es.

Lemma parse_blanks ls st : entries ls = Some [] -> parse_lines (Some st) ls = Some st.
Proof.
  induction ls as [|l ls IH]; [done|]. cbn [entries]. unfold parse_lines.
  cbn [fold_left parse_step]. destruct (parse_line l) as [[| |]|]; [exact IH|done| |done].
  by destruct (entries ls).
Qed.

(** [ls] opens the path [p] and adds the table [full] there, wherever [p] is
    fresh. *)
Definition adds (ls : list string) (p : list string) (full : table) : Prop :=
  forall st, valid st -> lookup_path p (TTable (ps_tree st)) = None -> openable p (ps_tree st) ->
  exists st', parse_lines (Some st) ls = Some st' /\ valid st' /\
    at_table p (fun t => add_all full t) (ps_tree st) = Some (ps_tree st') /\
    p ∈ ps_seen st'.

(** Such lines are of the fragment, whatever they are appended to. *)
Lemma adds_opens ls p full : p <> [] -> adds ls p full -> readable ls /\ opened p ls.
Proof.
  intros Hne Hadds. destruct (Hadds (mkPState [] [] [])) as (st' & Hp & _ & _ & Hin).
  - by intros q ?%not_elem_of_nil.
  - by destruct p.
  - apply openable_nil.
  - apply parse_lines_some in Hp as (Hr & Hs & _). split; [done|].
    apply Hs in Hin as [?%not_elem_of_nil|?]; done.
Qed.

Lemma section_adds ls p es : section ls p es -> NoDup (es.*1) -> adds ls p es.
Proof.
  intros (pre & hdr & body & -> & Hpre & Hhdr & Hbody) Hnd [m cur seen] Hv Hfresh [m1 Hm1].
  cbn [ps_tree] in *. rewrite parse_lines_app, parse_blanks by done.
  destruct (at_table_lookup _ _ _ _ Hm1) as (t & t' & [= <-] & Hl1 & Ht).
  assert (t = []) as -> by (destruct Ht as [?|[_ ?]]; [congruence|done]).
  assert (Hadd : add_all es [] = Some es) by (apply (add_all_fresh es []); exact Hnd).
  destruct (at_table_some p (add_all es) m1 [] es Hl1 Hadd) as [m' Hm'].
  assert (Hns : p ∉ seen).
  { intros Hin. destruct (Hv p Hin) as [t Ht']. cbn [ps_tree] in Ht'. congruence. }
  assert (Hp : parse_lines (Some (mkPState m cur seen)) (hdr :: body) =
               Some (mkPState m' p (p :: seen))).
  { unfold parse_lines. cbn [fold_left parse_step ps_seen ps_tree]. rewrite Hhdr.
    rewrite decide_False, Hm1 by done. by eapply parse_block. }
  eexists. split_and!; [exact Hp|by eapply parse_lines_valid| |by left].
  cbn [ps_tree]. by rewrite (at_table_bind _ _ _ _ _ Hm1) in Hm'.
Qed.

(** A section and then the sections of its sub-tables. *)
Lemma adds_sub ls p full ls' k sub :
  adds ls p full -> adds ls' (p ++ [k]) sub -> NoDup ((full ++ [(k, TTable sub)]).*1) ->
  NoDup (sub.*1) -> adds (ls ++ ls') p (full ++ [(k, TTable sub)]).
Proof.
  intros Hls Hls' Hnd Hsub st Hv Hfresh Hop.
  destruct (Hls st Hv Hfresh Hop) as (st1 & Hp1 & Hv1 & Hat1 & Hin1).
  rewrite parse_lines_app, Hp1.
  destruct (at_table_lookup _ _ _ _ Hat1) as (t & t' & Hf & Hl1 & Ht).
  assert (t = []) as -> by (destruct Ht as [?|[_ ?]]; [congruence|done]).
  assert (Hfull : NoDup (full.*1)) by (rewrite fmap_app in Hnd; by apply NoDup_app in Hnd as (? & _)).
  rewrite (add_all_fresh full [] Hfull) in Hf. injection Hf as <-. cbn [app] in Hl1.
  assert (Hk : assoc k full = None).
  { apply assoc_None. rewrite fmap_app in Hnd. apply NoDup_app in Hnd as (_ & Hd & _).
    intros Hin. apply (Hd k Hin). by left. }
  assert (Hstep : forall f r, f [] = Some r ->
    at_table [k] f full = Some (full ++ [(k, TTable r)])).
  { intros f r Hr. cbn [at_table]. by rewrite Hk, Hr, table_set_fresh. }
  destruct (Hls' st1 Hv1) as (st2 & Hp2 & Hv2 & Hat2 & _).
  - clear -Hl1 Hk. revert Hl1. generalize (ps_tree st1). induction p as [|k' p IH]; intros m.
    + cbn [lookup_path app]. intros [= ->]. by rewrite Hk.
    + cbn [app]. rewrite !lookup_cons. destruct (assoc k' m) as [[]|]; try done; try by destruct p.
      apply IH.
  - unfold openable. rewrite at_table_app. eapply at_table_some; [exact Hl1|by apply Hstep].
  - exists st2. split_and!; [done|done| |by apply (parse_lines_some _ _ _ Hp2); left].
    rewrite at_table_app in Hat2.
    rewrite (at_table_bind _ _ _ _ _ Hat1) in Hat2. rewrite <-Hat2.
    apply at_table_fresh; [done|]. rewrite !add_all_fresh by done. cbn [app].
    by rewrite (Hstep _ sub) by (by apply (add_all_fresh sub [])).
Qed.

(** ** Several sections *)

Record addition := mkAddition {
  a_lines : list string;
  a_path : list string;
  a_table : table
}.

Lemma diverge_sym p q : diverge p q = diverge q p.
Proof.
  revert q. induction p as [|k p IH]; intros [|k' q]; cbn [diverge]; [done..|].
  rewrite IH. repeat case_decide; congruence.
Qed.

Lemma adds_all plan st :
  valid st ->
  Forall (fun a => adds (a_lines a) (a_path a) (a_table a) /\ NoDup ((a_table a).*1) /\
            lookup_path (a_path a) (TTable (ps_tree st)) = None /\
            openable (a_path a) (ps_tree st)) plan ->
  ForallOrdPairs (fun a b => diverge (a_path a) (a_path b) = true) plan ->
  exists st', parse_lines (Some st) (concat (map a_lines plan)) = Some st' /\ valid st' /\
    grows (ps_tree st) (ps_tree st') /\
    (forall a, a ∈ plan -> lookup_path (a_path a) (TTable (ps_tree st')) = Some (TTable (a_table a))) /\
    (forall q, Forall (fun a => diverge (a_path a) q = true) plan ->
       lookup_path q (TTable (ps_tree st')) = lookup_path q (TTable (ps_tree st))).
Proof.
  intros Hv Hplan Hdiv. revert st Hv Hplan.
  induction Hdiv as [|a plan Ha Hdiv IH]; intros st Hv Hplan.
  { exists st. split_and!; try done. by intros a ?%not_elem_of_nil. }
  apply Forall_cons in Hplan as [(Hadds & Hnd & Hfresh & Hop) Hplan].
  destruct (Hadds st Hv Hfresh Hop) as (st1 & Hp1 & Hv1 & Hat & _).
  destruct (at_table_lookup _ _ _ _ Hat) as (t & t' & Hf & Hl1 & Ht).
  assert (t = []) as -> by (destruct Ht as [?|[_ ?]]; [congruence|done]).
  rewrite (add_all_fresh _ [] Hnd) in Hf. injection Hf as <-.
  assert (Hg1 : grows (ps_tree st) (ps_tree st1)).
  { eapply at_table_grows; [|exact Hat]. intros t t'. apply add_all_grows. }
  destruct (IH st1 Hv1) as (st2 & Hp2 & Hv2 & Hg2 & Hin & Hout).
  { rewrite List.Forall_forall in Hplan, Ha. apply List.Forall_forall. intros b Hb.
    destruct (Hplan b Hb) as (? & ? & Hfb & Hob). specialize (Ha b Hb).
    rewrite (at_table_diverge _ _ _ _ _ Hat Ha). split_and!; try done.
    exact (openable_diverge _ _ _ _ _ Hat Ha Hob). }
  exists st2. cbn [map concat]. rewrite parse_lines_app, Hp1. split_and!; try done.
  - by etransitivity.
  - intros b [->|Hb]%elem_of_cons; [|by apply Hin]. rewrite Hout; [done|].
    eapply List.Forall_impl; [|exact Ha]. intros b Hd. by rewrite diverge_sym.
  - intros q [Hq Hqs]%Forall_cons. rewrite Hout by done. exact (at_table_diverge _ _ _ _ _ Hat Hq).
Qed.
