(* ===== verification/ConfigRoundTrip.v ===== *)
(** * What is appended is read back

    On documents of the TOML fragment ([TomlFragment.v]) the text that [Apply]
    appends parses, next to the old text, to the old tree with exactly the
    missing entries added; so a second run finds nothing missing.  The TOML
    library is held to the fragment only ([TomlLaws]). *)

From S2P Require Import Prelude GoStrings Template HostCalls Patcher PatcherFacts TomlFragment.
From S2P Require Import TomlTree TomlText TomlSections.
Local Open Scope go_scope.

(** ** What the TOML library is held to *)

(** Values that are written on one line. *)
Definition atomic (v : toml) : bool :=
  match v with
  | TString s => plain s
  | TInt n => bool_decide (- 2 ^ 63 <= n < 2 ^ 63)%Z
  | TBool _ => true
  | _ => false
  end.
Definition simple (v : toml) : bool :=
  match v with TArray vs => forallb atomic vs | _ => atomic v end.
Definition flat (m : table) : Prop :=
  NoDup (m.*1) /\ forall k v, (k, v) ∈ m -> plain k = true /\ simple v = true.

(** Parsing agrees with the fragment wherever the fragment parses, and a flat
    table is marshalled as its entries, one to a line, in some order. *)
Class TomlLaws {Codec : TomlCodec} : Prop := {
  unmarshal_frag : forall s tree, frag_tree s = Some tree -> toml_Unmarshal s = Ok tree;
  marshal_frag : forall m, flat m ->
    exists b es, toml_Marshal m = Ok b /\ entries (lines "" b) = Some es /\ es ≡ₚ m
}.

(** And a document of the fragment that opens a table twice, gives a key twice
    or makes a table of a value is refused, as the TOML specification says. *)
Class TomlStrict {Codec : TomlCodec} : Prop :=
  unmarshal_strict : forall s, readable (lines "" s) -> frag_tree s = None ->
    exists e, toml_Unmarshal s = Err e.

(** A runtime whose settings are flat, its sub-tables included. *)
Definition flat_runtime (base : table) : Prop :=
  NoDup (base.*1) /\
  forall k v, (k, v) ∈ base ->
    plain k = true /\
    match v with TTable sub => is_bare k = true /\ flat sub | _ => simple v = true end.

(** The same settings, those of a sub-table in any order. *)
Definition same_settings (m cfg : table) : Prop :=
  forall k, match assoc k cfg with
            | Some (TTable sub) => exists sub', assoc k m = Some (TTable sub') /\ sub' ≡ₚ sub
            | v => assoc k m = v
            end.

(** ** The text of a section *)

Section Sections.
Context `{Codec : TomlCodec} {Laws : TomlLaws} (range_ : string -> list (string * table) -> list (string * table)).
Context (range_perm : forall name subs, range_ name subs ≡ₚ subs).

Definition v2_path (name : string) : list string := runtime_path "io.containerd.grpc.v1.cri" name.

(** [text] is the lines [ls]. *)
Definition written (text : string) (ls : list string) : Prop :=
  text = unlines ls /\ Forall no_newline ls.

Lemma unlines_app a b : unlines (a ++ b) = unlines a +:+ unlines b.
Proof.
  induction a as [|l a IH]; [done|]. cbn [app unlines foldr]. unfold unlines in IH.
  by rewrite IH, !app_assoc_str.
Qed.

Lemma written_app a la b lb : written a la -> written b lb -> written (a +:+ b) (la ++ lb).
Proof. intros [-> ?] [-> ?]. split; [by rewrite unlines_app|by apply Forall_app]. Qed.

Lemma written_line l : no_newline l -> written (l +:+ newline) [l].
Proof. intros Hl. split; [|by repeat constructor]. cbn. by rewrite app_nil_r_str. Qed.

Lemma written_cons l text ls :
  no_newline l -> written text ls -> written (l +:+ newline +:+ text) (l :: ls).
Proof.
  intros Hl Hw. rewrite <-app_assoc_str. apply (written_app _ [l]); [by apply written_line|done].
Qed.

Lemma written_eq text text' ls : text = text' -> written text ls -> written text' ls.
Proof. by intros ->. Qed.

Lemma written_section hdr text body :
  no_newline hdr -> written text body ->
  written (hdr +:+ newline +:+ text +:+ newline) (hdr :: body ++ [""]).
Proof.
  intros Hh Hw. apply written_cons; [done|]. apply written_app; [done|].
  apply (written_line ""). by intros ?%not_elem_of_nil.
Qed.

Lemma no_newline_plain s : plain s = true -> no_newline s.
Proof.
  unfold plain, no_newline. rewrite forallb_forall. intros Hs Hin.
  apply list_elem_of_In, Hs in Hin. done.
Qed.

Lemma no_newline_app a b : no_newline a -> no_newline b -> no_newline (a +:+ b).
Proof. unfold no_newline. rewrite bytes_app. set_solver. Qed.

(** A marshalled flat table. *)
Lemma marshalled_written m :
  flat m -> exists ls es, written (marshalled m) ls /\ entries ls = Some es /\ es ≡ₚ m.
Proof.
  intros Hm. destruct (marshal_frag m Hm) as (b & es & Hb & He & Hp).
  exists (map indented (lines "" b)), es. unfold marshalled. rewrite Hb, indentTOML_unlines.
  split_and!; [split; [done|]|by apply entries_indented|done].
  apply Forall_map. assert (Hclean : Forall no_newline (lines "" b)).
  { apply lines_clean. by intros ?%not_elem_of_nil. }
  eapply List.Forall_impl; [|exact Hclean]. intros l Hl. unfold indented.
  destruct (is_blank l); [by intros ?%not_elem_of_nil|]. apply no_newline_app; [|done].
  by apply no_newline_plain.
Qed.

(** Headers whose keys are bare. *)
Lemma runtime_text name : is_bare name = true -> criPrefix +:+ name = path_text (v2_path name).
Proof.
  intros Hn. assert (Hk : key_text name = name) by (unfold key_text; by rewrite Hn).
  change (path_text (v2_path name)) with (criPrefix +:+ key_text name). by rewrite Hk.
Qed.

Lemma sub_text name k :
  is_bare name = true -> is_bare k = true ->
  criPrefix +:+ name +:+ "." +:+ k = path_text (v2_path name ++ [k]).
Proof.
  intros Hn Hk. assert (Hn' : key_text name = name) by (unfold key_text; by rewrite Hn).
  assert (Hk' : key_text k = k) by (unfold key_text; by rewrite Hk).
  change (path_text (v2_path name ++ [k])) with (criPrefix +:+ key_text name +:+ "." +:+ key_text k).
  by rewrite Hn', Hk'.
Qed.

Lemma header_line text p :
  text = path_text p -> p <> [] -> Forall (fun k => plain k = true) p ->
  parse_line ("[" +:+ text +:+ "]") = Some (LHeader p) /\ no_newline ("[" +:+ text +:+ "]").
Proof.
  intros -> Hne Hp. split; [by apply parse_header|].
  assert (Hpt : plain (path_text p) = true).
  { clear Hne. induction p as [|k p IH]; [done|]. apply Forall_cons in Hp as [Hk Hp].
    destruct p as [|k' p]; [by apply plain_key_text|].
    change (path_text (k :: k' :: p)) with (key_text k +:+ "." +:+ path_text (k' :: p)).
    rewrite !plain_app, plain_key_text, IH by done. done. }
  apply no_newline_plain. by rewrite !plain_app, Hpt.
Qed.

Lemma v2_plain name : is_bare name = true -> Forall (fun k => plain k = true) (v2_path name).
Proof. intros Hn. repeat constructor. by apply is_bare_plain. Qed.

(** The sub-tables, after what there is of the runtime. *)
Lemma subtables_written name ls0 full subs :
  is_bare name = true -> Forall (fun '(k, sub) => is_bare k = true /\ flat sub) subs ->
  NoDup (full.*1 ++ subs.*1) -> adds ls0 (v2_path name) full ->
  exists ls subs', written (subtableText name subs) ls /\
    Forall2 (fun '(k, sub) '(k', sub') => k' = k /\ sub' ≡ₚ sub) subs subs' /\
    adds (ls0 ++ ls) (v2_path name) (full ++ map (fun '(k, sub) => (k, TTable sub)) subs').
Proof.
  intros Hn Hsubs. revert ls0 full. induction Hsubs as [|[k sub] subs [Hk Hflat] _ IH];
    intros ls0 full Hnd Hadds.
  { exists [], []. cbn [map]. rewrite !app_nil_r. split_and!; [by split|done|done]. }
  destruct (marshalled_written sub Hflat) as (body & es & Hw & He & Hperm).
  set (hdr := "[" +:+ (criPrefix +:+ name +:+ "." +:+ k) +:+ "]").
  destruct (header_line _ _ (sub_text name k Hn Hk)) as [Hp Hl]; [done| |].
  { apply Forall_app. split; [by apply v2_plain|]. constructor; [by apply is_bare_plain|done]. }
  fold hdr in Hp, Hl.
  assert (Hnes : NoDup (es.*1)) by (rewrite (fmap_Permutation _ _ _ Hperm); apply Hflat).
  assert (Hsec : adds (hdr :: body ++ [""]) (v2_path name ++ [k]) es).
  { apply section_adds; [|done]. exists [], hdr, (body ++ [""]). split_and!; try done.
    rewrite entries_app, He. cbn. by rewrite app_nil_r. }
  cbn [fmap list_fmap fst] in Hnd.
  assert (Hnd1 : NoDup ((full ++ [(k, TTable es)]).*1)).
  { rewrite fmap_app. cbn. change (k :: subs.*1) with ([k] ++ subs.*1) in Hnd.
    rewrite app_assoc in Hnd. by apply NoDup_app in Hnd as (? & _). }
  pose proof (adds_sub _ _ _ _ _ _ Hadds Hsec Hnd1 Hnes) as Hadds1.
  assert (Hnd2 : NoDup ((full ++ [(k, TTable es)]).*1 ++ subs.*1)).
  { rewrite fmap_app. cbn. rewrite <-app_assoc. exact Hnd. }
  destruct (IH _ _ Hnd2 Hadds1)
    as (ls & subs' & Hws & Hsubs & Hadds2).
  exists ((hdr :: body ++ [""]) ++ ls), ((k, es) :: subs'). split_and!.
  - eapply written_eq; [|exact (written_app _ _ _ _ (written_section _ _ _ Hl Hw) Hws)].
    cbn [subtableText]. unfold hdr. by rewrite !app_assoc_str.
  - by constructor.
  - rewrite app_assoc. cbn [map]. change ((k, TTable es) :: ?l) with ([(k, TTable es)] ++ l).
    rewrite app_assoc. exact Hadds2.
Qed.

(** ** The settings of a runtime *)

Lemma table_set_elem k v m x : x ∈ table_set k v m -> x = (k, v) \/ x ∈ m.
Proof.
  induction m as [|[k' v'] m IH]; simpl; [set_solver|]. case_decide; set_solver.
Qed.

Lemma split_keys m : (scalars m).*1 ++ (subtables m).*1 ≡ₚ m.*1.
Proof.
  induction m as [|[k v] m IH]; [done|]. unfold scalars, subtables in *. simpl.
  destruct v; simpl; rewrite <-IH; [|done..]. by rewrite Permutation_middle.
Qed.

Lemma runtimeConfig_flat base :
  (forall b, base = Some b -> flat_runtime b) -> flat_runtime (runtimeConfig base).
Proof.
  intros Hb. destruct base as [b|].
  - destruct (Hb b eq_refl) as [Hnd Hf]. split; [by apply table_set_NoDup|].
    by intros k v [[= -> ->]|Hin]%table_set_elem; [|apply Hf].
  - split; [by apply (bool_decide_unpack _)|]. simpl.
    intros k v [[= -> ->]|[[= -> ->]|?%not_elem_of_nil]%elem_of_cons]%elem_of_cons; done.
Qed.

Lemma flat_split m :
  flat_runtime m ->
  flat (scalars m) /\ Forall (fun '(k, sub) => is_bare k = true /\ flat sub) (subtables m).
Proof.
  intros [Hnd Hf]. rewrite <-split_keys in Hnd. split; [split|].
  - by apply NoDup_app in Hnd as (? & _).
  - intros k v [Hin Hv]%scalars_elem. destruct (Hf k v Hin) as [Hk Hs]. by destruct v.
  - apply List.Forall_forall. intros [k sub] Hin%list_elem_of_In%subtables_elem.
    by destruct (Hf _ _ Hin) as [_ Hs].
Qed.

Lemma Forall2_keys (subs subs' : list (string * table)) :
  Forall2 (fun '(k, sub) '(k', sub') => k' = k /\ sub' ≡ₚ sub) subs subs' -> subs'.*1 = subs.*1.
Proof. induction 1 as [|[] [] ? ? [-> _] _ IH]; [done|]. exact (f_equal (cons _) IH). Qed.

Lemma table_keys (subs : list (string * table)) :
  (map (fun '(k, sub) => (k, TTable sub)) subs).*1 = subs.*1.
Proof. induction subs as [|[] subs IH]; [done|]. exact (f_equal (cons _) IH). Qed.

Lemma same_settings_split cfg es subs subs' :
  NoDup (cfg.*1) -> es ≡ₚ scalars cfg -> subs ≡ₚ subtables cfg ->
  Forall2 (fun '(k, sub) '(k', sub') => k' = k /\ sub' ≡ₚ sub) subs subs' ->
  let full := es ++ map (fun '(k, sub) => (k, TTable sub)) subs' in
  NoDup (full.*1) /\ same_settings full cfg.
Proof.
  intros Hcfg Hes Hsubs H2 full.
  assert (Hkeys : full.*1 ≡ₚ cfg.*1).
  { unfold full. rewrite fmap_app, table_keys, (Forall2_keys _ _ H2), <-(split_keys cfg).
    by rewrite Hes, Hsubs. }
  assert (Hnd : NoDup (full.*1)) by by rewrite Hkeys.
  split; [done|]. intros k.
  assert (Hscalar : forall v, assoc k cfg = Some v -> as_table (Some v) = None ->
            assoc k full = Some v).
  { intros v Hk Hv. apply assoc_elem_of; [done|]. unfold full. rewrite elem_of_app, Hes. left.
    apply scalars_elem. split; [by apply assoc_elem_of|done]. }
  destruct (assoc k cfg) as [v|] eqn:Hk; [|by rewrite assoc_None, Hkeys, <-assoc_None].
  destruct v as [sub| | | | |]; try by apply Hscalar.
  apply assoc_elem_of in Hk; [|done]. apply subtables_elem in Hk. rewrite <-Hsubs in Hk.
  apply list_elem_of_lookup in Hk as [i Hi].
  destruct (Forall2_lookup_l _ _ _ _ _ H2 Hi) as ([k' sub'] & Hi' & -> & Hsub).
  exists sub'. split; [|done]. apply assoc_elem_of; [done|]. unfold full. apply elem_of_app. right.
  apply list_elem_of_lookup_2, (list_elem_of_fmap_2 (fun '(k, sub) => (k, TTable sub))) in Hi'.
  exact Hi'.
Qed.

(** What is written for a runtime adds a table with its settings. *)
Lemma runtime_written name base :
  is_bare name = true -> (forall b, base = Some b -> flat_runtime b) ->
  exists ls full, written (runtimeSnippet range_ name base) ls /\
    adds ls (v2_path name) full /\ NoDup (full.*1) /\ same_settings full (runtimeConfig base).
Proof.
  intros Hn Hb. pose proof (runtimeConfig_flat base Hb) as Hcfg.
  destruct (flat_split _ Hcfg) as [Hsc Hst]. unfold runtimeSnippet.
  set (cfg := runtimeConfig base) in *. set (subs := range_ name (subtables cfg)).
  assert (Hperm : subs ≡ₚ subtables cfg) by apply range_perm.
  destruct (marshalled_written _ Hsc) as (body & es & Hw & He & Hes).
  assert (Hkeys : NoDup (es.*1 ++ subs.*1)).
  { rewrite Hes, Hperm, split_keys. apply Hcfg. }
  destruct (header_line _ _ (runtime_text name Hn) ltac:(done) (v2_plain name Hn)) as [Hp Hl].
  set (hdr := "[" +:+ (criPrefix +:+ name) +:+ "]") in *.
  assert (Hsec : adds ("" :: hdr :: body ++ [""]) (v2_path name) es).
  { apply section_adds; [|by apply NoDup_app in Hkeys as (? & _)].
    exists [""], hdr, (body ++ [""]). split_and!; try done.
    rewrite entries_app, He. cbn. by rewrite app_nil_r. }
  rewrite <-Hperm in Hst.
  destruct (subtables_written name _ es subs Hn Hst Hkeys Hsec) as (ls & subs' & Hws & H2 & Hadds).
  destruct (same_settings_split cfg es subs subs' (proj1 Hcfg) Hes Hperm H2) as [Hnd Hsame].
  eexists _, _. split_and!; [|exact Hadds|exact Hnd|exact Hsame].
  eapply written_eq; [|apply (written_cons ""), (written_app _ _ _ _ (written_section _ _ _ Hl Hw) Hws)].
  - unfold hdr. assert (Hne : scalars cfg <> []).
    { intros Hnil. assert (Hs : ("snapshotter", TString "pv-snapshotter") ∈ scalars cfg).
      { apply scalars_elem. split; [|done]. apply assoc_elem, table_set_eq. }
      rewrite Hnil in Hs. by apply not_elem_of_nil in Hs. }
    destruct (scalars cfg) as [|kv sc]; [done|]. by rewrite !app_assoc_str.
  - by intros ?%not_elem_of_nil.
Qed.

(** ** The whole snippet *)

Definition proxy_path : list string := ["proxy_plugins"; "pv-snapshotter"].

Definition section_path (s : missingSection) : list string :=
  match s with MissingProxyPlugin => proxy_path | MissingRuntime name _ => v2_path name end.

(** [m] is what a missing section should become. *)
Definition settled (socketPath : string) (s : missingSection) (m : table) : Prop :=
  match s with
  | MissingProxyPlugin => m = [("type", TString "snapshot"); ("address", TString socketPath)]
  | MissingRuntime _ base => same_settings m (runtimeConfig base)
  end.

Definition printable (s : missingSection) : Prop :=
  match s with
  | MissingProxyPlugin => True
  | MissingRuntime name base =>
      is_bare name = true /\ forall b, base = Some b -> flat_runtime b
  end.

Lemma proxy_written socketPath :
  plain socketPath = true ->
  exists ls full, written (proxyPluginSnippet socketPath) ls /\ adds ls proxy_path full /\
    NoDup (full.*1) /\ settled socketPath MissingProxyPlugin full.
Proof.
  intros Hs. set (addr := "  address = " +:+ Quote socketPath).
  assert (Hp : parse_line addr = Some (LEntry "address" (TString socketPath))).
  { change (parse_line addr) with
      (match parse_value (Quote socketPath) with
       | Some v => Some (LEntry "address" v) | None => None end).
    by rewrite parse_value_quote. }
  assert (Hl : no_newline addr).
  { apply no_newline_app; [by apply no_newline_plain|by apply no_newline_plain, plain_Quote]. }
  exists [""; "[proxy_plugins.pv-snapshotter]"; "  type    = " +:+ Quote "snapshot"; addr; ""].
  exists [("type", TString "snapshot"); ("address", TString socketPath)].
  split_and!; [| |by apply (bool_decide_unpack _)|reflexivity].
  - eapply written_eq; [|repeat (apply written_cons; [by apply no_newline_plain|])].
    2: { apply written_cons; [exact Hl|]. apply (written_line ""). by apply no_newline_plain. }
    unfold proxyPluginSnippet, addr. by rewrite !app_assoc_str.
  - apply section_adds; [|by apply (bool_decide_unpack _)].
    exists [""], "[proxy_plugins.pv-snapshotter]", ["  type    = " +:+ Quote "snapshot"; addr; ""].
    split_and!; try done. cbn [entries]. rewrite Hp. done.
Qed.

Lemma section_written socketPath s :
  plain socketPath = true -> printable s ->
  exists ls full, written (sectionText range_ socketPath [s]) ls /\ adds ls (section_path s) full /\
    NoDup (full.*1) /\ settled socketPath s full.
Proof.
  intros Hsock Hp. destruct s as [|name base]; cbn [sectionText section_path settled];
    rewrite app_nil_r_str.
  - by apply proxy_written.
  - destruct Hp. by apply runtime_written.
Qed.

Lemma sectionText_cons socketPath s sections :
  sectionText range_ socketPath (s :: sections) =
  sectionText range_ socketPath [s] +:+ sectionText range_ socketPath sections.
Proof. destruct s; cbn [sectionText]; by rewrite app_nil_r_str. Qed.

Definition plan_of (socketPath : string) (s : missingSection) (a : addition) : Prop :=
  a_path a = section_path s /\ adds (a_lines a) (a_path a) (a_table a) /\
  NoDup ((a_table a).*1) /\ settled socketPath s (a_table a).

Lemma sections_written socketPath sections :
  plain socketPath = true -> Forall printable sections ->
  exists plan, written (sectionText range_ socketPath sections) (concat (map a_lines plan)) /\
    Forall2 (plan_of socketPath) sections plan.
Proof.
  intros Hsock. induction 1 as [|s sections Hs _ IH]; [by exists []; repeat split|].
  destruct IH as (plan & Hw & H2).
  destruct (section_written socketPath s Hsock Hs) as (ls & full & Hw1 & Hadds & Hnd & Hset).
  exists (mkAddition ls (section_path s) full :: plan). split; [|by constructor].
  rewrite sectionText_cons. by apply written_app.
Qed.

(** ** The document after the append *)

Definition runtimes_path : list string :=
  ["plugins"; "io.containerd.grpc.v1.cri"; "containerd"; "runtimes"].

(** What it takes for every appended line to be of the fragment: a socket path
    without control characters, runtime names that need no quoting, and flat
    base runtimes. *)
Record legible (tree : table) (params : Params) : Prop := {
  rt_socket : plain (p_SocketPath params) = true;
  rt_bare : Forall (fun rt => is_bare (rt_Name rt) = true) (p_Runtimes params);
  rt_flat : forall rt base, rt ∈ p_Runtimes params ->
    base_table tree (rt_BaseRuntimeName rt) = Some base -> flat_runtime base
}.

(** What the round trip asks of the configuration and the parameters: besides,
    distinct runtime names, and nothing but tables on the way to the places
    where tables are added. *)
Record round_trippable (tree : table) (params : Params) : Prop := {
  rt_legible : legible tree params;
  rt_distinct : NoDup (map rt_Name (p_Runtimes params));
  rt_proxy_open : openable ["proxy_plugins"] tree;
  rt_runtimes_open : openable runtimes_path tree
}.

Lemma missing_fresh tree params s :
  s ∈ collectMissing tree params -> lookup_path (section_path s) (TTable tree) = None.
Proof.
  unfold collectMissing. rewrite elem_of_app, missingRuntimes_elem.
  intros [Hs|(rt & _ & Hrt & ->)].
  - pose proof (hasKey_path tree proxy_path ltac:(done)) as Hk.
    change (hasKey tree ["proxy_plugins"; "pv-snapshotter"]) with (hasKey tree proxy_path) in Hs.
    destruct (hasKey tree proxy_path); [by apply not_elem_of_nil in Hs|].
    apply list_elem_of_singleton in Hs as ->. apply eq_None_not_Some. by intros ?%Hk.
  - apply eq_None_not_Some. intros Hl. apply not_true_iff_false in Hrt. apply Hrt.
    apply hasRuntimeEntry_path. exists "io.containerd.grpc.v1.cri". split; [by left|exact Hl].
Qed.

Lemma missing_printable tree params :
  legible tree params -> Forall printable (collectMissing tree params).
Proof.
  intros [_ Hb Hf]. apply List.Forall_forall. intros s Hs%list_elem_of_In. revert Hs.
  unfold collectMissing. rewrite elem_of_app, missingRuntimes_elem.
  intros [Hs|(rt & Hin & _ & ->)].
  - destruct (hasKey _ _); [by apply not_elem_of_nil in Hs|].
    by apply list_elem_of_singleton in Hs as ->.
  - split; [by apply (proj1 (List.Forall_forall _ _) Hb), list_elem_of_In|].
    intros b. rewrite lookupBaseRuntime_path. by apply Hf.
Qed.

Lemma missing_openable tree params s :
  round_trippable tree params -> s ∈ collectMissing tree params ->
  openable (section_path s) tree.
Proof.
  intros [_ _ Hp Hr] Hs. pose proof (missing_fresh tree params s Hs) as Hf.
  destruct s as [|name base].
  - by apply (openable_snoc ["proxy_plugins"]).
  - by apply (openable_snoc runtimes_path).
Qed.

Lemma v2_diverge name name' : name <> name' -> diverge (v2_path name) (v2_path name') = true.
Proof.
  intros Hne. change (diverge (runtimes_path ++ [name]) (runtimes_path ++ [name']) = true).
  rewrite diverge_app. cbn [diverge]. by rewrite decide_False.
Qed.

Lemma missing_diverge tree params :
  round_trippable tree params ->
  ForallOrdPairs (fun s s' => diverge (section_path s) (section_path s') = true)
    (collectMissing tree params).
Proof.
  intros [_ Hnd _ _].
  assert (Hrts : ForallOrdPairs (fun s s' => diverge (section_path s) (section_path s') = true)
                   (missingRuntimes tree (p_Runtimes params))).
  { induction (p_Runtimes params) as [|rt rts IH]; [constructor|]. cbn [map] in Hnd.
    apply NoDup_cons in Hnd as [Hni Hnd]. specialize (IH Hnd). cbn [missingRuntimes].
    destruct (hasRuntimeEntry tree (rt_Name rt)); [done|]. constructor; [|done].
    apply List.Forall_forall. intros s Hs%list_elem_of_In.
    apply missingRuntimes_elem in Hs as (rt' & Hin & _ & ->). apply v2_diverge.
    intros Heq. apply Hni. rewrite Heq. by apply list_elem_of_fmap_2. }
  unfold collectMissing. destruct (hasKey _ _); [done|]. constructor; [|done].
  apply List.Forall_forall. intros s Hs%list_elem_of_In.
  by apply missingRuntimes_elem in Hs as (rt' & _ & _ & ->).
Qed.

Lemma Forall2_ordpairs {A B} (R : A -> A -> Prop) (S : B -> B -> Prop) (P : A -> B -> Prop) l l' :
  (forall a a' b b', P a b -> P a' b' -> R a a' -> S b b') ->
  Forall2 P l l' -> ForallOrdPairs R l -> ForallOrdPairs S l'.
Proof.
  intros HRS H2. induction H2 as [|a b l l' Hab H2 IH]; inversion 1 as [|? ? Ha Hl]; constructor.
  - clear -HRS Hab H2 Ha. induction H2 as [|a' b' l l' Hab' _ IH]; constructor;
      apply Forall_cons in Ha as [Ha ?]; [by eapply HRS|by apply IH].
  - by apply IH.
Qed.

Lemma snippet_lines raw socketPath sections ls :
  written (sectionText range_ socketPath sections) ls ->
  lines "" (raw +:+ buildSnippet range_ socketPath sections) =
  lines "" raw ++ ["# BEGIN pv-snapshotter managed block"] ++ ls ++
    ["# END pv-snapshotter managed block"; ""].
Proof.
  intros Hls. assert (Hw : written ("# BEGIN pv-snapshotter managed block" +:+ newline +:+
      (sectionText range_ socketPath sections +:+ snippetFooter))
    ("# BEGIN pv-snapshotter managed block" :: ls ++ ["# END pv-snapshotter managed block"])).
  { apply written_cons; [by apply no_newline_plain|]. apply written_app; [done|].
    by apply (written_line "# END pv-snapshotter managed block"), no_newline_plain. }
  destruct Hw as [Htext Hnl].
  replace (buildSnippet range_ socketPath sections) with
    (newline +:+ unlines ("# BEGIN pv-snapshotter managed block" :: ls ++
       ["# END pv-snapshotter managed block"])).
  2: { rewrite <-Htext. unfold buildSnippet, snippetHeader. by rewrite !app_assoc_str. }
  rewrite lines_app, <-(app_nil_r_str (unlines _)), lines_unlines by done.
  cbn [app lines]. by rewrite <-app_assoc.
Qed.

Lemma snippet_parsed tree params raw :
  frag_tree raw = Some tree -> round_trippable tree params ->
  exists tree',
    frag_tree (raw +:+ buildSnippet range_ (p_SocketPath params) (collectMissing tree params)) =
      Some tree' /\
    grows tree tree' /\
    forall s, s ∈ collectMissing tree params ->
      exists m, lookup_path (section_path s) (TTable tree') = Some (TTable m) /\
        settled (p_SocketPath params) s m.
Proof.
  intros Hraw Hrt. unfold frag_tree in Hraw. destruct (frag_state raw) as [st|] eqn:Hst; [|done].
  injection Hraw as <-. set (missing := collectMissing (ps_tree st) params).
  destruct (sections_written (p_SocketPath params) missing (rt_socket _ _ (rt_legible _ _ Hrt))
              (missing_printable _ _ (rt_legible _ _ Hrt))) as (plan & [Htext Hnl] & H2).
  destruct (adds_all plan st (frag_state_valid _ _ Hst)) as (st' & Hp & _ & Hg & Hin & _).
  { apply List.Forall_forall. intros a Ha%list_elem_of_In.
    apply list_elem_of_lookup in Ha as [i Hi].
    destruct (Forall2_lookup_r _ _ _ _ _ H2 Hi) as (s & Hs & -> & Hadds & Hnd & _).
    apply list_elem_of_lookup_2 in Hs. split_and!; try done.
    - by eapply missing_fresh.
    - by eapply missing_openable. }
  { eapply Forall2_ordpairs; [|exact H2|by apply missing_diverge].
    by intros a a' b b' [-> _] [-> _]. }
  exists (ps_tree st'). split_and!; [|done|].
  - unfold frag_tree. replace (frag_state _) with (Some st'); [done|].
    unfold frag_state in *. rewrite (snippet_lines _ _ _ _ (conj Htext Hnl)), parse_lines_app, Hst.
    rewrite parse_lines_app, parse_blanks, parse_lines_app, Hp by done. by rewrite parse_blanks.
  - intros s Hs. apply list_elem_of_lookup in Hs as [i Hi].
    destruct (Forall2_lookup_l _ _ _ _ _ H2 Hi) as (a & Ha & Hpath & _ & _ & Hset).
    exists (a_table a). split; [|done]. rewrite <-Hpath. eapply Hin, list_elem_of_lookup_2, Ha.
Qed.

Lemma missing_nil tree params :
  is_Some (lookup_path proxy_path (TTable tree)) ->
  (forall rt, rt ∈ p_Runtimes params -> hasRuntimeEntry tree (rt_Name rt) = true) ->
  collectMissing tree params = [].
Proof.
  intros Hk%(hasKey_path tree proxy_path) Hrt; [|done]. unfold collectMissing.
  change (hasKey tree ["proxy_plugins"; "pv-snapshotter"]) with (hasKey tree proxy_path).
  rewrite Hk. cbn [app]. induction (p_Runtimes params) as [|rt rts IH]; [done|].
  cbn [missingRuntimes]. rewrite (Hrt rt) by by left. apply IH. intros rt' Hin. apply Hrt. by right.
Qed.

(** Once every missing section is there, nothing is missing. *)
Lemma settled_complete tree tree' params :
  grows tree tree' ->
  (forall s, s ∈ collectMissing tree params ->
     is_Some (lookup_path (section_path s) (TTable tree'))) ->
  collectMissing tree' params = [].
Proof.
  intros Hg Hs.
  assert (Hkeep : forall p, is_Some (lookup_path p (TTable tree)) ->
                            is_Some (lookup_path p (TTable tree'))).
  { intros p [v Hv]. destruct (Hg p v Hv) as (v' & Hv' & _). by exists v'. }
  apply missing_nil.
  - destruct (hasKey tree proxy_path) eqn:Hk; [by apply Hkeep, hasKey_path|].
    apply (Hs MissingProxyPlugin). unfold collectMissing. apply elem_of_app. left.
    change (hasKey tree ["proxy_plugins"; "pv-snapshotter"]) with (hasKey tree proxy_path).
    rewrite Hk. by left.
  - intros rt Hin. apply hasRuntimeEntry_path. destruct (hasRuntimeEntry tree (rt_Name rt)) eqn:Hrt.
    + apply hasRuntimeEntry_path in Hrt as (criKey & ? & Hl). exists criKey. auto.
    + exists "io.containerd.grpc.v1.cri". split; [by left|].
      apply (Hs (MissingRuntime (rt_Name rt) (lookupBaseRuntime tree (rt_BaseRuntimeName rt)))).
      unfold collectMissing. apply elem_of_app. right. apply missingRuntimes_elem. by exists rt.
Qed.

(** ** Apply, and apply again *)

Context {W} (h : handler hostE W) (fv : W -> gmap string string) `{!FileLaws h fv}.

(** An [Apply] that reports a change leaves the old text with the snippet. *)
Lemma Apply_wrote params (w : W) (raw : string) tree :
  fv w !! p_ConfigPath params = Some raw -> toml_Unmarshal raw = Ok tree ->
  fst (run h (Apply range_ params) w) = Ok true ->
  fv (snd (run h (Apply range_ params) w)) !! p_ConfigPath params =
  Some (raw +:+ buildSnippet range_ (p_SocketPath params) (collectMissing tree params)).
Proof.
  intros Hraw Ht. destruct (Apply_read range_ h fv params w raw Hraw) as (w1 & Hfv & [[e ->]| ->]);
    [done|].
  unfold applied. rewrite Ht. destruct (collectMissing tree params) as [|s missing] eqn:Hm; [done|].
  rewrite <-Hm. pose proof (appendToFile_state h fv (p_ConfigPath params)
    (buildSnippet range_ (p_SocketPath params) (collectMissing tree params)) w1 raw) as Happ.
  rewrite Hfv in Happ. specialize (Happ Hraw).
  destruct (run h (appendToFile _ _) w1) as [[u|e] w2]; [|done]. intros _. cbn [snd].
  rewrite Happ. apply lookup_insert_eq.
Qed.

(** Applied to a complete configuration, [Apply] does nothing. *)
Lemma Apply_complete params (w : W) (raw : string) tree :
  fv w !! p_ConfigPath params = Some raw -> toml_Unmarshal raw = Ok tree ->
  collectMissing tree params = [] ->
  let (r, w') := run h (Apply range_ params) w in r <> Ok true /\ fv w' = fv w.
Proof.
  intros Hraw Ht Hm.
  destruct (Apply_read range_ h fv params w raw Hraw) as (w1 & Hfv & [[e ->]| ->]); [done|].
  unfold applied. by rewrite Ht, Hm.
Qed.

(** C14 A successful [Apply] is read back: on a document of the fragment, the
    new file parses to a tree with everything the old one had, the proxy plugin
    is there with the daemon's address, and every runtime that was missing has
    the settings of its base with another snapshotter, sub-tables included.
    Nothing is missing from that tree, so applying again changes nothing. *)
Theorem Apply_round_trip params (w : W) (raw : string) tree :
  fv w !! p_ConfigPath params = Some raw ->
  frag_tree raw = Some tree -> round_trippable tree params ->
  let (r, w') := run h (Apply range_ params) w in
  r = Ok true ->
  exists raw' tree',
    fv w' !! p_ConfigPath params = Some raw' /\ toml_Unmarshal raw' = Ok tree' /\
    grows tree tree' /\
    (lookup_path proxy_path (TTable tree) = None ->
     lookup_path proxy_path (TTable tree') =
       Some (TTable [("type", TString "snapshot"); ("address", TString (p_SocketPath params))])) /\
    (forall rt, rt ∈ p_Runtimes params -> hasRuntimeEntry tree (rt_Name rt) = false ->
     exists m, lookup_path (v2_path (rt_Name rt)) (TTable tree') = Some (TTable m) /\
       same_settings m (runtimeConfig (base_table tree (rt_BaseRuntimeName rt)))) /\
    collectMissing tree' params = [] /\
    let (r2, w2) := run h (Apply range_ params) w' in r2 <> Ok true /\ fv w2 = fv w'.
Proof.
  intros Hraw Hfrag Hrt. pose proof (unmarshal_frag raw tree Hfrag) as Ht.
  pose proof (Apply_wrote params w raw tree Hraw Ht) as Hwrote.
  destruct (run h (Apply range_ params) w) as [r w'] eqn:Hrun. cbn [fst snd] in Hwrote.
  intros Hr. specialize (Hwrote Hr).
  destruct (snippet_parsed tree params raw Hfrag Hrt) as (tree' & Hfrag' & Hg & Hset).
  apply unmarshal_frag in Hfrag'.
  assert (Hnil : collectMissing tree' params = []).
  { apply (settled_complete tree); [done|]. intros s Hs. destruct (Hset s Hs) as (m & -> & _). eauto. }
  eexists _, tree'. split_and!; [exact Hwrote|done|done| | |done|by eapply Apply_complete].
  - intros Hl. destruct (Hset MissingProxyPlugin) as (m & Hm & ->); [|exact Hm].
    unfold collectMissing. apply elem_of_app. left.
    change (hasKey tree ["proxy_plugins"; "pv-snapshotter"]) with (hasKey tree proxy_path).
    destruct (hasKey tree proxy_path) eqn:Hk; [|by left].
    apply hasKey_path in Hk as [v Hv]; [|done]. congruence.
  - intros rt Hin Hno.
    destruct (Hset (MissingRuntime (rt_Name rt) (lookupBaseRuntime tree (rt_BaseRuntimeName rt))))
      as (m & Hm & Hsame).
    { unfold collectMissing. apply elem_of_app. right. apply missingRuntimes_elem. by exists rt. }
    exists m. rewrite <-lookupBaseRuntime_path. by split.
Qed.
End Sections.
