(* ===== verification/TomlPrint.v ===== *)
(** * A printer for the TOML fragment

    A concrete codec on the fragment: it parses with [frag_tree] and writes a
    flat table one entry to a line.  It satisfies [TomlLaws], so the laws that
    [ConfigRoundTrip.v] asks of the TOML library can hold. *)

From Stdlib Require Import DecimalString DecimalZ DecimalPos.
From S2P Require Import Prelude GoStrings Template HostCalls Patcher PatcherFacts TomlFragment.
From S2P Require Import TomlTree TomlText TomlSections ConfigRoundTrip.
Local Open Scope go_scope.

Definition print_atom (v : toml) : string :=
  match v with
  | TString s => Quote s
  | TInt n => NilZero.string_of_int (Z.to_int n)
  | TBool true => "true"
  | TBool false => "false"
  | _ => ""
  end.

Fixpoint print_items (vs : list toml) : string :=
  match vs with
  | [] => "]"
  | [v] => print_atom v +:+ "]"
  | v :: vs' => print_atom v +:+ ", " +:+ print_items vs'
  end.

Definition print_value (v : toml) : string :=
  match v with TArray vs => "[" +:+ print_items vs | _ => print_atom v end.
Definition print_entry (kv : string * toml) : string :=
  key_text (fst kv) +:+ " = " +:+ print_value (snd kv).
Definition print_table (m : table) : string := unlines (map print_entry m).

Definition fragCodec : TomlCodec := {|
  toml_Unmarshal s :=
    match frag_tree s with Some tree => Ok tree | None => Err (Errorf "toml" []) end;
  toml_Marshal m := Ok (print_table m)
|}.

(** ** Words *)

Lemma uint_bare d : forallb is_bare_byte (bytes (NilEmpty.string_of_uint d)) = true.
Proof. by induction d. Qed.

Lemma int_word n : is_bare (NilZero.string_of_int (Z.to_int n)) = true.
Proof.
  unfold is_bare. apply andb_true_intro.
  assert (Hu : forall d, forallb is_bare_byte (bytes (NilZero.string_of_uint d)) = true /\
                         NilZero.string_of_uint d <> "").
  { intros d. split; [destruct d; [done|apply uint_bare..]|by destruct d]. }
  destruct (Z.to_int n) as [d|d]; cbn [NilZero.string_of_int]; destruct (Hu d) as [Hb Hne].
  - by rewrite bool_decide_eq_false_2.
  - cbn [bytes forallb]. by rewrite Hb.
Qed.

Lemma parse_int_print n :
  (- 2 ^ 63 <= n < 2 ^ 63)%Z -> parse_int (NilZero.string_of_int (Z.to_int n)) = Some n.
Proof.
  intros Hn. unfold parse_int. rewrite NilZero.isi.
  - rewrite DecimalZ.of_to, decide_True; done.
  - destruct n; cbn; try done. intros [= Hd]. by apply Unsigned.to_uint_nonnil in Hd.
  - destruct n; cbn; try done. intros [= Hd]. by apply Unsigned.to_uint_nonnil in Hd.
Qed.

Lemma parse_word_int n :
  (- 2 ^ 63 <= n < 2 ^ 63)%Z -> parse_word (NilZero.string_of_int (Z.to_int n)) = Some (TInt n).
Proof.
  intros Hn. unfold parse_word. pose proof (parse_int_print n Hn) as Hp.
  destruct (decide _) as [Ht|_]; [by rewrite Ht in Hp|].
  destruct (decide _) as [Ht|_]; [by rewrite Ht in Hp|]. by rewrite Hp.
Qed.

(** ** Values *)

Lemma bare_not c k : is_bare (String c k) = true -> c <> quote_char /\ c <> apostrophe /\
  c <> " "%char /\ c <> "["%char /\ c <> "#"%char /\ c <> "]"%char.
Proof.
  unfold is_bare. cbn [bytes forallb]. intros [_ [Hc _]%andb_prop]%andb_prop.
  split_and!; intros ->; done.
Qed.

Lemma parse_scalar_word w v rest :
  is_bare w = true -> parse_word w = Some v -> ends_key rest = true ->
  parse_scalar (w +:+ rest) = Some (v, rest).
Proof.
  intros Hw Hv Hr. destruct w as [|c w]; [done|]. pose proof (bare_not c w Hw) as (? & ? & _).
  unfold is_bare in Hw. apply andb_prop in Hw as [_ Hw].
  pose proof (bare_prefix_app (String c w) rest Hw Hr) as Hb.
  change (String c w +:+ rest) with (String c (w +:+ rest)) in *. cbn [parse_scalar].
  by rewrite !decide_False, Hb, Hv by done.
Qed.

Lemma parse_scalar_print v rest :
  atomic v = true -> ends_key rest = true ->
  parse_scalar (print_atom v +:+ rest) = Some (v, rest).
Proof.
  intros Hv Hr. destruct v as [m|l|s|n|b|s]; try done; cbn [print_atom atomic] in *.
  - rewrite Quote_quoted. cbn [parse_scalar]. rewrite decide_True by done.
    by rewrite basic_string_quoted.
  - apply parse_scalar_word; [apply int_word|apply parse_word_int|done].
    by apply bool_decide_eq_true in Hv.
  - destruct b; by apply parse_scalar_word.
Qed.

(** A printed value starts with something that is not a space or a bracket. *)
Lemma print_atom_head v rest :
  atomic v = true -> exists c s, print_atom v +:+ rest = String c s /\
    c <> " "%char /\ c <> "["%char /\ c <> "]"%char.
Proof.
  intros Hv. assert (Hbare : forall w, is_bare w = true -> exists c s, w +:+ rest = String c s /\
    c <> " "%char /\ c <> "["%char /\ c <> "]"%char).
  { intros [|c w] Hw; [done|]. exists c, (w +:+ rest). pose proof (bare_not c w Hw). naive_solver. }
  destruct v as [m|l|s|n|[]|s]; try done; cbn [print_atom].
  - rewrite Quote_quoted. by eexists _, _.
  - apply Hbare, int_word.
  - by apply Hbare.
  - by apply Hbare.
Qed.

Lemma trim_head c s : c <> " "%char -> TrimLeftSpace (String c s) = String c s.
Proof. intros Hc. cbn [TrimLeftSpace]. by rewrite decide_False. Qed.

Lemma trim_atom v rest :
  atomic v = true -> TrimLeftSpace (print_atom v +:+ rest) = print_atom v +:+ rest.
Proof. intros Hv. destruct (print_atom_head v rest Hv) as (c & s & -> & ? & _). by apply trim_head. Qed.

Lemma print_items_length vs : length vs < S (String.length (print_items vs)).
Proof.
  induction vs as [|v vs IH]; [simpl; lia|]. destruct vs as [|v' vs].
  - cbn [print_items length]. rewrite string_length_app. simpl. lia.
  - change (print_items (v :: v' :: vs)) with (print_atom v +:+ ", " +:+ print_items (v' :: vs)).
    rewrite !string_length_app. cbn [length] in *. cbn [String.length]. lia.
Qed.

Lemma parse_items_print fuel vs :
  vs <> [] -> length vs <= fuel -> forallb atomic vs = true ->
  parse_items fuel (print_items vs) = Some (vs, "").
Proof.
  revert fuel. induction vs as [|v vs IH]; intros fuel Hne Hlen Hvs; [done|].
  destruct fuel as [|fuel]; [simpl in Hlen; lia|]. cbn [forallb] in Hvs.
  apply andb_prop in Hvs as [Hv Hvs]. destruct vs as [|v' vs].
  - cbn [print_items parse_items]. by rewrite trim_atom, parse_scalar_print.
  - change (print_items (v :: v' :: vs)) with (print_atom v +:+ ", " +:+ print_items (v' :: vs)).
    cbn [parse_items]. rewrite trim_atom, parse_scalar_print by done. simpl_app.
    rewrite trim_head, decide_False, decide_True by done.
    assert (Hsp : parse_items fuel (String " " (print_items (v' :: vs))) =
                  parse_items fuel (print_items (v' :: vs))) by by destruct fuel.
    rewrite Hsp, IH; [done|done|simpl in *; lia|done].
Qed.

Lemma parse_value_print v : simple v = true -> parse_value (print_value v) = Some v.
Proof.
  intros Hv. assert (Hatom : atomic v = true -> parse_value (print_atom v) = Some v).
  { intros Ha. pose proof (parse_scalar_print v "" Ha eq_refl) as Hp.
    destruct (print_atom_head v "" Ha) as (c & s & Hs & _ & Hb & _).
    rewrite app_nil_r_str in *. rewrite Hs in *. unfold parse_value. rewrite Hp.
    revert Hb. clear. by destruct c as [[] [] [] [] [] [] [] []]. }
  destruct v as [m|vs|s|n|b|s]; try by apply Hatom. cbn [print_value simple] in *.
  change (parse_value ("[" +:+ print_items vs)) with
    (if decide (TrimLeftSpace (print_items vs) = "]") then Some (TArray [])
     else match parse_items (S (String.length (print_items vs))) (print_items vs) with
          | Some (vs, "") => Some (TArray vs)
          | _ => None
          end).
  destruct vs as [|v vs]; [done|]. rewrite decide_False.
  - rewrite parse_items_print; [done|done| |done].
    pose proof (print_items_length (v :: vs)). lia.
  - assert (Hhead : exists rest, print_items (v :: vs) = print_atom v +:+ rest)
      by (destruct vs; by eexists).
    destruct Hhead as [rest ->]. cbn [forallb] in Hv. apply andb_prop in Hv as [Hv _].
    rewrite trim_atom by done. destruct (print_atom_head v rest Hv) as (c & s & -> & _ & _ & ?).
    by intros [= -> _].
Qed.

Lemma trim_value v : simple v = true -> TrimLeftSpace (print_value v) = print_value v.
Proof.
  intros Hv. destruct v as [m|vs|s|n|b|s]; try done; cbn [print_value];
    rewrite <-(app_nil_r_str (print_atom _)); by apply trim_atom.
Qed.

(** ** Entries *)

Lemma parse_print_entry k v :
  plain k = true -> simple v = true -> parse_line (print_entry (k, v)) = Some (LEntry k v).
Proof.
  intros Hk Hv. unfold print_entry. cbn [fst snd].
  pose proof (parse_key_text k (" = " +:+ print_value v) Hk eq_refl) as Hkey.
  assert (Hhead : exists c s, key_text k +:+ " = " +:+ print_value v = String c s /\
    c <> " "%char /\ c <> "["%char /\ c <> "#"%char).
  { unfold key_text. destruct (is_bare k) eqn:Hb.
    - destruct k as [|c k]; [done|]. eexists c, _. split; [done|].
      pose proof (bare_not c k Hb). naive_solver.
    - rewrite Quote_quoted. by eexists _, _. }
  destruct Hhead as (c & s & Hs & Hsp & Hbr & Hh). rewrite Hs in *. unfold parse_line.
  rewrite trim_head, !decide_False, Hkey by done.
  change (TrimLeftSpace (" = " +:+ print_value v)) with (String "=" (" " +:+ print_value v)).
  cbv beta iota. rewrite decide_True by done.
  change (TrimLeftSpace (" " +:+ print_value v)) with (TrimLeftSpace (print_value v)).
  by rewrite trim_value, parse_value_print.
Qed.

Lemma plain_value v : simple v = true -> plain (print_value v) = true.
Proof.
  assert (Hbare : forall w, is_bare w = true -> plain w = true) by apply is_bare_plain.
  assert (Hatom : forall a, atomic a = true -> plain (print_atom a) = true).
  { intros [m|l|s|n|[]|s] Ha; try done; [by apply plain_Quote|apply Hbare, int_word]. }
  intros Hv. destruct v as [m|vs|s|n|b|s]; try by apply Hatom. cbn [print_value simple] in *.
  rewrite plain_app. apply andb_true_intro. split; [done|].
  induction vs as [|v vs IH]; [done|]. cbn [forallb] in Hv. apply andb_prop in Hv as [Hv Hvs].
  destruct vs as [|v' vs]; [cbn [print_items]; by rewrite plain_app, Hatom|].
  change (print_items (v :: v' :: vs)) with (print_atom v +:+ ", " +:+ print_items (v' :: vs)).
  by rewrite !plain_app, Hatom, IH.
Qed.

#[export] Instance fragCodec_laws : TomlLaws (Codec:=fragCodec).
Proof.
  split.
  - intros s tree Hs. cbn. by rewrite Hs.
  - intros m [_ Hm]. exists (print_table m), m. split_and!; [done| |done].
    unfold print_table. rewrite <-(app_nil_r_str (unlines _)), lines_unlines.
    + rewrite entries_app. replace (entries (map print_entry m)) with (Some m).
      { cbn. by rewrite app_nil_r. }
      induction m as [|[k v] m IH]; [done|]. destruct (Hm k v) as [Hk Hv]; [by left|].
      cbn [map entries]. rewrite parse_print_entry, <-IH by (done || intros; apply Hm; by right).
      done.
    + apply Forall_map, List.Forall_forall. intros [k v] Hin%list_elem_of_In.
      destruct (Hm k v Hin) as [Hk Hv]. apply no_newline_plain. unfold print_entry. cbn [fst snd].
      by rewrite !plain_app, plain_key_text, plain_value.
Qed.

#[export] Instance fragCodec_strict : TomlStrict (Codec:=fragCodec).
Proof. intros s _ Hs. cbn. rewrite Hs. by eexists. Qed.
