(* ===== verification/ConfigCommand.v ===== *)
(** * The config subcommand ([cmd/daemon/config.go], [pkg/containerd/config])

    [configRun] waits for the daemon, patches the configuration, restarts
    containerd when it changed, and blocks.  [nsenter_preamble] is the C
    constructor that the restarted child runs.  Log calls are calls of the
    model here ([LogV], level 0 for [Info]). *)

From S2P Require Import Prelude GoStrings Annotation HostCalls Patcher.
Local Open Scope go_scope.

(** ** Flags ([flags.go]) *)

Definition flagConfigPath := "config-path".
Definition flagRuntimeClasses := "runtime-classes".
Definition flagRuntimeClassSuffix := "runtime-class-suffix".
Definition flagSocketPath := "socket-path".
Definition defaultConfigPath := "/etc/containerd/config.toml".
Definition defaultRuntimeClassSuffix := "-pv".
(** A copy of the snapshotter's constant. *)
Definition defaultUnixSocketPath := "/var/run/pv-snapshotter/daemon.sock".

(** The loop over the base names. *)
Fixpoint runtimeEntries (suffix : string) (bases : list string) : list RuntimeEntry :=
  match bases with
  | [] => []
  | base :: bases' =>
      let base := TrimSpace base in
      if decide (base = "") then runtimeEntries suffix bases'
      else mkRuntimeEntry (base +:+ suffix) base :: runtimeEntries suffix bases'
  end.

Definition GetParams (viper : Viper) : Params :=
  mkParams (GetString viper flagConfigPath) (GetString viper flagSocketPath)
    (runtimeEntries (GetString viper flagRuntimeClassSuffix)
                    (GetStringSlice viper flagRuntimeClasses)).

Definition GetSocketPath (viper : Viper) : string := GetString viper flagSocketPath.

(** ** Waiting for the daemon ([wait.go]) *)

Definition waitPollInterval : Z := 2 * 1000000000.
Definition waitHTTPTimeout : Z := waitPollInterval.
Definition waitRetryBaseLevel : Z := 10.

(** The client dials the socket, whatever host the URL names. *)
Definition unixHTTPClient (socketPath : string) : http_client :=
  mkHttpClient waitHTTPTimeout "unix" socketPath.

Definition probeReadyz (client : http_client) : prog hostE (result unit) :=
  try! _ := call (HttpNewRequest "GET" "http://localhost/readyz")
  catch err => Ret (Err (Wrapf "build request: %w" [] err)) in
  try! status := call (HttpDo client)
  catch err => Ret (Err (Wrapf "do request: %w" [] err)) in
  let! _ := call HttpCloseBody in
  if decide (status <> 200%Z) then Ret (Err (Errorf "readyz returned %d" [status]))
  else Ret (Ok tt).

Definition msgReady := "pv-snapshotter daemon is ready".
Definition msgRetry := "daemon not yet ready, retrying".
Definition msgWaiting := "waiting for pv-snapshotter daemon to become ready".

(** The loop has no bound of its own: [fuel] is the number of attempts that
    are modelled, and [None] means that all of them failed. *)
Fixpoint waitAttempts (client : http_client) (fuel : nat) (times : Z) : prog hostE (option (result unit)) :=
  match fuel with
  | 0 => Ret None
  | S fuel' =>
      let! probed := probeReadyz client in
      match probed with
      | Ok _ => let! _ := call (LogV 0 msgReady) in Ret (Some (Ok tt))
      | Err _ =>
          let level := (waitRetryBaseLevel - times)%Z in
          let level := if Z.ltb level 1 then 1%Z else level in
          let! _ := call (LogV level msgRetry) in
          let! done := call (DoneOrAfter waitPollInterval) in
          match done with
          | Some ctxErr => Ret (Some (Err ctxErr))
          | None => waitAttempts client fuel' (times + 1)
          end
      end
  end.

Definition WaitUntilReady (socketPath : string) (fuel : nat) : prog hostE (option (result unit)) :=
  let! _ := call (LogV 0 msgWaiting) in
  waitAttempts (unixHTTPClient socketPath) fuel 0.

(** ** Restarting containerd ([nsenter.go]) *)

Definition nsenterEnvKey := "_PV_NSENTER".

Definition RestartContainerd : prog hostE (result unit) :=
  try! self := call OsExecutable
  catch err => Ret (Err (Wrapf "resolving executable path: %w" [] err)) in
  let! environ := call OsEnviron in
  try! _ := call (CmdRun self (environ ++ [nsenterEnvKey +:+ "=1"]))
  catch err => Ret (Err (Wrapf "containerd restart via nsenter preamble: %w" [] err)) in
  Ret (Ok tt).

(** How the C constructor ends: it returns to the Go runtime, exits, or the
    process image is replaced. *)
Inductive preamble_end :=
| Returned
| Exited (status : Z)
| Replaced.

Fixpoint findSystemctl (candidates : list string) : prog hostE (option string) :=
  match candidates with
  | [] => Ret None
  | c :: candidates' =>
      let! ok := call (AccessX c) in
      if ok : bool then Ret (Some c) else findSystemctl candidates'
  end.

Definition nsenter_preamble : prog hostE preamble_end :=
  let! trigger := call (Getenv nsenterEnvKey) in
  if decide (default "" trigger = "") then Ret Returned
  else
    try! fd := call (OpenFd "/proc/1/ns/mnt")
    catch _err => Ret (Exited 1) in
    let! entered := call (Setns fd) in
    let! _ := call (CloseFd fd) in
    match entered with
    | Err _ => Ret (Exited 1)
    | Ok _ =>
        let! systemctl := findSystemctl ["/usr/bin/systemctl"; "/bin/systemctl"] in
        match systemctl with
        | None => Ret (Exited 1)
        | Some path =>
            let! failed := call (Execv path ["systemctl"; "restart"; "containerd"]) in
            match failed with
            | None => Ret Replaced
            | Some _ => Ret (Exited 1)
            end
        end
    end.

(** ** The command ([cmd/daemon/config.go]) *)

Definition runtimeNames (rts : list RuntimeEntry) : list string := map rt_Name rts.

Definition msgApplying := "applying containerd config".
Definition msgPatched := "containerd config patched; restarting containerd".
Definition msgUpToDate := "containerd config already up-to-date; no restart needed".
Definition msgComplete :=
  "configuration complete; sidecar is blocking until termination signal".
Definition msgExiting := "termination signal received; sidecar exiting".

Section Command.
Context `{TomlCodec} (range_ : string -> list (string * table) -> list (string * table)).

Definition finishConfig : prog hostE (option (result unit)) :=
  let! _ := call (LogV 0 msgUpToDate) in
  let! _ := call (LogV 0 msgComplete) in
  let! _ := call AwaitDone in
  let! _ := call (LogV 0 msgExiting) in
  Ret (Some (Ok tt)).

(** The function [RunE] of the command. *)
Definition configRun (viper : Viper) (fuel : nat) : prog hostE (option (result unit)) :=
  try! _ := call AppBaseContext
  catch err => Ret (Some (Err (Wrapf "initialising base context: %w" [] err))) in
  let! ready := WaitUntilReady (GetSocketPath viper) fuel in
  match ready with
  | None => Ret None
  | Some (Err err) => Ret (Some (Err (Wrapf "waiting for pv-snapshotter daemon: %w" [] err)))
  | Some (Ok _) =>
      let! _ := call (LogV 0 msgApplying) in
      try! modified := Apply range_ (GetParams viper)
      catch applyErr =>
        Ret (Some (Err (Wrapf "applying containerd config: %w" [] applyErr))) in
      if modified : bool then
        let! _ := call (LogV 0 msgPatched) in
        try! _ := RestartContainerd
        catch err => Ret (Some (Err (Wrapf "restarting containerd: %w" [] err))) in
        finishConfig
      else finishConfig
  end.
End Command.

(** ** The wait *)

(** The events of failed attempts, from attempt number [n] on. *)
Fixpoint retries (n : Z) (fails : list (list (event hostE))) : list (event hostE) :=
  match fails with
  | [] => []
  | p :: fails' =>
      p ++ [Ev (LogV (Z.max 1 (10 - n)) msgRetry) tt; Ev (DoneOrAfter waitPollInterval) None] ++
      retries (n + 1) fails'
  end.

Definition failed_probe (client : http_client) (p : list (event hostE)) : Prop :=
  exists e, exec (probeReadyz client) p (Err e).

Lemma probeReadyz_ok client tr :
  exec (probeReadyz client) tr (Ok tt) <->
  exists x y, tr = [Ev (HttpNewRequest "GET" "http://localhost/readyz") (Ok x); Ev (HttpDo client) (Ok 200%Z);
                  Ev HttpCloseBody y].
Proof.
  unfold probeReadyz. split.
  - intros Hex. exec_inv Hex; try done.
    match goal with Hn : ~ (?c <> 200%Z) |- _ =>
      destruct (decide (c = 200%Z)) as [->|]; [by eauto|done] end.
  - intros (x & y & ->). by exec_run.
Qed.

(** Every behaviour of the loop. *)
Lemma waitAttempts_traces client fuel n tr r :
  exec (waitAttempts client fuel n) tr r <->
  exists fails, Forall (failed_probe client) fails /\
    match r with
    | None => length fails = fuel /\ tr = retries n fails
    | Some (Ok _) =>
        length fails < fuel /\ exists p, exec (probeReadyz client) p (Ok tt) /\
        tr = retries n fails ++ p ++ [Ev (LogV 0 msgReady) tt]
    | Some (Err e) =>
        length fails < fuel /\ exists p, failed_probe client p /\
        tr = retries n fails ++ p ++
             [Ev (LogV (Z.max 1 (10 - (n + Z.of_nat (length fails)))) msgRetry) tt;
              Ev (DoneOrAfter waitPollInterval) (Some e)]
    end.
Proof.
  assert (Hlevel : forall n, (if Z.ltb (10 - n) 1 then 1 else 10 - n)%Z = Z.max 1 (10 - n))
    by (intros m; destruct (Z.ltb_spec (10 - m) 1); lia).
  revert n tr. induction fuel as [|fuel IH]; intros n tr; cbn [waitAttempts].
  - split.
    + intros [-> <-]. exists []. done.
    + intros (fails & _ & Hr). destruct r as [[u|e]|]; [lia|lia|].
      destruct Hr as [Hl ->]. by destruct fails.
  - unfold waitRetryBaseLevel. rewrite exec_bind, Hlevel. split.
    + intros (p & res & tr2 & -> & Hp & Hex). destruct res as [[]|e].
      { exec_inv Hex. exists []. split; [done|]. split; [simpl; lia|]. exists p. by destruct x. }
      exec_step Hex. destruct x. exec_step Hex. exec_step Hex.
      * exec_inv Hex. exists []. split; [done|]. split; [simpl; lia|]. exists p.
        split; [by eexists|]. cbn [retries length Z.of_nat app]. by rewrite Z.add_0_r.
      * apply IH in Hex as (fails & Hf & Hr). exists (p :: fails).
        split; [constructor; [by eexists|done]|].
        cbn [retries length].
        destruct r as [[u|e']|].
        -- destruct Hr as (Hl & q & Hq & ->). split; [lia|]. exists q. split; [done|].
           by rewrite <-!app_assoc.
        -- destruct Hr as (Hl & q & Hq & ->). split; [lia|]. exists q. split; [done|].
           rewrite <-!app_assoc. cbn [app]. do 8 f_equal. lia.
        -- destruct Hr as (<- & ->). done.
    + intros (fails & Hf & Hr). destruct fails as [|p fails].
      * destruct r as [[[]|e]|]; [| |by destruct Hr].
        -- destruct Hr as (_ & p & Hp & ->). exists p, (Ok tt), [Ev (LogV 0 msgReady) tt].
           split_and!; [done..|]. by exec_run.
        -- destruct Hr as (_ & p & [e' Hp] & ->). eexists p, (Err e'), _. split_and!; [done..|].
           rewrite Z.add_0_r. by exec_run.
      * apply Forall_cons in Hf as [[e Hp] Hf].
        assert (Hrest : exists rest, exec (waitAttempts client fuel (n + 1)) rest r /\
          tr = p ++ Ev (LogV (Z.max 1 (10 - n)) msgRetry) tt ::
                    Ev (DoneOrAfter waitPollInterval) None :: rest).
        { setoid_rewrite IH. cbn [retries length] in Hr. destruct r as [[u|e']|].
          - destruct Hr as (Hl & q & Hq & ->). eexists. split.
            + exists fails. split; [done|]. split; [lia|]. by exists q.
            + by rewrite <-!app_assoc.
          - destruct Hr as (Hl & q & Hq & ->). eexists. split.
            + exists fails. split; [done|]. split; [lia|]. by exists q.
            + rewrite <-!app_assoc. cbn [app]. do 8 f_equal. lia.
          - destruct Hr as [Hl ->]. eexists. split; [|done].
            exists fails. split; [done|]. split; [lia|done]. }
        destruct Hrest as (rest & Hex & ->). eexists p, (Err e), _.
        split_and!; [done|done|]. by exec_run.
Qed.

(** C36 The wait ends in exactly three ways.  It succeeds when an attempt finds
    [/readyz] answering 200, all earlier attempts having failed; it returns
    the context's error when the context is done after a failed attempt; and
    otherwise it is still trying, every attempt having failed.  The [n]-th
    retry is logged at verbosity [max 1 (10 - n)]. *)
Theorem WaitUntilReady_traces socketPath fuel tr r :
  let client := unixHTTPClient socketPath in
  exec (WaitUntilReady socketPath fuel) tr r <->
  exists fails, Forall (failed_probe client) fails /\
    match r with
    | Some (Ok _) =>
        length fails < fuel /\ exists x y,
        tr = Ev (LogV 0 msgWaiting) tt :: retries 0 fails ++
             [Ev (HttpNewRequest "GET" "http://localhost/readyz") (Ok x); Ev (HttpDo client) (Ok 200%Z);
              Ev HttpCloseBody y; Ev (LogV 0 msgReady) tt]
    | Some (Err e) =>
        length fails < fuel /\ exists p, failed_probe client p /\
        tr = Ev (LogV 0 msgWaiting) tt :: retries 0 fails ++ p ++
             [Ev (LogV (Z.max 1 (10 - Z.of_nat (length fails))) msgRetry) tt;
              Ev (DoneOrAfter waitPollInterval) (Some e)]
    | None => length fails = fuel /\ tr = Ev (LogV 0 msgWaiting) tt :: retries 0 fails
    end.
Proof.
  intros client. unfold WaitUntilReady. cbn [bind call exec]. setoid_rewrite waitAttempts_traces. split.
  - intros ([] & tr' & -> & fails & Hf & Hr). exists fails. split; [done|].
    destruct r as [[u|e]|].
    + destruct Hr as (Hl & p & (x & y & ->)%probeReadyz_ok & ->). by eauto.
    + destruct Hr as (Hl & p & Hp & ->). eauto.
    + by destruct Hr as [<- ->].
  - intros (fails & Hf & Hr). destruct r as [[[]|e]|].
    + destruct Hr as (Hl & x & y & ->). do 2 eexists. split; [done|]. exists fails.
      split; [done|]. split; [done|]. eexists. split; [apply probeReadyz_ok; by exists x, y|done].
    + destruct Hr as (Hl & p & Hp & ->). do 2 eexists. split; [done|]. exists fails. eauto.
    + destruct Hr as [Hl ->]. do 2 eexists. split; [done|]. by exists fails.
Qed.

(** ** The command *)

(** Events that touch neither the file nor containerd. *)
Definition harmless (ev : event hostE) : Prop := is_file_write ev = false /\ is_restart ev = false.

Lemma probeReadyz_harmless client tr r : exec (probeReadyz client) tr r -> Forall harmless tr.
Proof. unfold probeReadyz. intros Hex. exec_inv Hex; by repeat constructor. Qed.

Lemma retries_harmless client n fails : Forall (failed_probe client) fails -> Forall harmless (retries n fails).
Proof.
  intros Hf. revert n. induction Hf as [|p fails [e Hp] _ IH]; intros n; cbn [retries]; [done|].
  apply Forall_app. split; [by eapply probeReadyz_harmless|]. by repeat constructor.
Qed.

Lemma wait_harmless client fuel n tr r : exec (waitAttempts client fuel n) tr r -> Forall harmless tr.
Proof.
  intros (fails & Hf & Hr)%waitAttempts_traces. apply (retries_harmless client n) in Hf.
  destruct r as [[u|e]|].
  - destruct Hr as (_ & p & Hp%probeReadyz_harmless & ->).
    repeat (apply Forall_app; split; [done|]). by repeat constructor.
  - destruct Hr as (_ & p & [e' Hp%probeReadyz_harmless] & ->).
    repeat (apply Forall_app; split; [done|]). by repeat constructor.
  - by destruct Hr as [_ ->].
Qed.

Lemma wait_success client fuel n tr u :
  exec (waitAttempts client fuel n) tr (Some (Ok u)) -> Ev (HttpDo client) (Ok 200%Z) ∈ tr.
Proof.
  intros (fails & _ & _ & p & (x & y & ->)%probeReadyz_ok & ->)%waitAttempts_traces.
  apply elem_of_app. right. in_trace.
Qed.

Section Order.
Context `{TomlCodec} (range_ : string -> list (string * table) -> list (string * table)).

Lemma Apply_events params tr r :
  exec (Apply range_ params) tr r ->
  Forall (fun ev => is_restart ev = false) tr /\
  (r = Ok true -> exists text, Ev (FileWriteString (p_ConfigPath params) text) (Ok tt) ∈ tr).
Proof.
  unfold Apply, appendToFile. intros Hex. do 2 exec_step Hex.
  2: { exec_inv Hex. by split; [repeat constructor|]. }
  destruct (toml_Unmarshal a) as [tree|e]; [|exec_inv Hex; by split; [repeat constructor|]].
  destruct (collectMissing tree params) as [|s missing];
    [exec_inv Hex; by split; [repeat constructor|]|].
  exec_inv Hex; (split; [by repeat constructor|]); try done.
  intros _. eexists. repeat match goal with u : unit |- _ => destruct u end. in_trace.
Qed.

Lemma Restart_events tr r :
  exec RestartContainerd tr r ->
  count is_restart tr <= 1 /\ Forall (fun ev => is_file_write ev = false) tr.
Proof.
  unfold RestartContainerd. intros Hex.
  exec_inv Hex; (split; [simpl; lia|by repeat constructor]).
Qed.

Lemma finish_harmless tr r : exec finishConfig tr r -> Forall harmless tr.
Proof. unfold finishConfig. intros Hex. exec_inv Hex; by repeat constructor. Qed.

(** The parts of a run: up to the patching nothing is touched, and the patching
    is reached only with a ready daemon. *)
Lemma configRun_parts viper fuel tr r :
  exec (configRun range_ viper fuel) tr r ->
  Forall harmless tr \/
  exists pre patch rest m, tr = pre ++ patch ++ rest /\ Forall harmless pre /\
    Ev (HttpDo (unixHTTPClient (GetString viper flagSocketPath))) (Ok 200%Z) ∈ pre /\ exec (Apply range_ (GetParams viper)) patch m /\
    (Forall harmless rest \/
     (m = Ok true /\ count is_restart rest <= 1 /\
      Forall (fun ev => is_file_write ev = false) rest)).
Proof.
  unfold configRun, WaitUntilReady. intros Hex. do 2 exec_step Hex.
  2: { exec_inv Hex. left. by repeat constructor. }
  exec_step Hex. apply exec_bind in Hex as (tw & ready & tr2 & -> & Hw & Hex).
  pose proof (wait_harmless _ _ _ _ _ Hw) as Hwh.
  destruct ready as [[u|e]|];
    [|exec_inv Hex; left; repeat constructor; by apply Forall_app
     |exec_inv Hex; left; repeat constructor; by apply Forall_app].
  apply wait_success in Hw. right. exec_step Hex.
  apply exec_bind in Hex as (ta & m & tr3 & -> & Happ & Hex).
  eexists (_ :: _ :: tw ++ [_]), ta, tr3, m. split_and!.
  - cbn [app]. by rewrite <-app_assoc.
  - repeat constructor. apply Forall_app. by split; [|repeat constructor].
  - do 2 right. apply elem_of_app. by left.
  - done.
  - destruct m as [[|]|e]; [|left; by apply finish_harmless in Hex|left; by exec_inv Hex].
    right. split; [done|]. exec_step Hex.
    apply exec_bind in Hex as (t1 & r1 & t2 & -> & [Hc Hf]%Restart_events & Hex).
    assert (Ht2 : Forall harmless t2)
      by (destruct r1; [by apply finish_harmless in Hex|by exec_inv Hex]).
    cbn [count]. rewrite count_app.
    assert (count is_restart t2 = 0) as ->
      by (apply count_zero; eapply Forall_impl; [exact Ht2|by intros ev [_ ?]]).
    split; [simpl; lia|]. constructor; [done|]. apply Forall_app. split; [done|].
    eapply Forall_impl; [exact Ht2|by intros ev [? _]].
Qed.

(** C30 The command keeps its order whatever fails: the configuration is opened
    or written only after [/readyz] answered 200 over the configured
    socket, containerd is restarted only
    after the configuration was written, and at most once. *)
Theorem configRun_order viper fuel tr r :
  exec (configRun range_ viper fuel) tr r ->
  preceded (fun q => q = Ev (HttpDo (unixHTTPClient (GetString viper flagSocketPath))) (Ok 200%Z)) (fun ev => is_file_write ev = true) tr /\
  preceded (fun q => exists text, q = Ev (FileWriteString (GetString viper flagConfigPath) text) (Ok tt))
           (fun ev => is_restart ev = true) tr /\
  count is_restart tr <= 1.
Proof.
  assert (Hquiet : forall tr, Forall harmless tr ->
    Forall (fun ev => ~ is_file_write ev = true) tr /\
    Forall (fun ev => ~ is_restart ev = true) tr /\ count is_restart tr = 0).
  { intros tr' Hh. split_and!; [| |apply count_zero];
      (eapply Forall_impl; [exact Hh|intros ev [Hw Hr]; rewrite ?Hw, ?Hr; done]). }
  intros [Hh|(pre & patch & rest & m & -> & Hpre & Hready & Happ & Hrest)]%configRun_parts.
  { destruct (Hquiet _ Hh) as (Hw & Hr & ->). split_and!; [by apply preceded_none..|lia]. }
  apply Apply_events in Happ as [Hnr Hwrote].
  destruct (Hquiet _ Hpre) as (Hpw & Hpr & Hpc).
  assert (Hpnr : Forall (fun ev => ~ is_restart ev = true) patch)
    by (eapply Forall_impl; [exact Hnr|]; intros ev ->; done).
  split_and!.
  - apply preceded_app; [by apply preceded_none|]. right. by eexists.
  - apply preceded_app; [by apply preceded_none|]. left.
    apply preceded_app; [by apply preceded_none|].
    destruct Hrest as [(_ & Hr & _)%Hquiet|(Hm & _)]; [left; by apply preceded_none|right].
    destruct (Hwrote Hm) as [text Hin]. eexists. split; [exact Hin|by exists text].
  - rewrite !count_app, Hpc, (count_zero _ patch Hnr).
    destruct Hrest as [(_ & _ & ->)%Hquiet|(_ & ? & _)]; lia.
Qed.

Lemma finish_trace tr :
  exec finishConfig tr (Some (Ok tt)) ->
  tr = [Ev (LogV 0 msgUpToDate) tt; Ev (LogV 0 msgComplete) tt; Ev AwaitDone tt;
        Ev (LogV 0 msgExiting) tt].
Proof.
  unfold finishConfig. intros Hex. exec_inv Hex.
  by repeat match goal with u : unit |- _ => destruct u end.
Qed.

(** A successful run ends by logging that no restart was needed and blocking
    until it is told to stop, whether or not it has restarted containerd. *)
Theorem configRun_blocks viper fuel tr :
  exec (configRun range_ viper fuel) tr (Some (Ok tt)) ->
  exists before, tr = before ++ [Ev (LogV 0 msgUpToDate) tt; Ev (LogV 0 msgComplete) tt;
                                 Ev AwaitDone tt; Ev (LogV 0 msgExiting) tt].
Proof.
  unfold configRun. intros Hex. do 2 exec_step Hex; [|by exec_inv Hex].
  apply exec_bind in Hex as (tw & ready & tr2 & -> & _ & Hex).
  destruct ready as [[u|e]|]; [|by exec_inv Hex|by exec_inv Hex].
  exec_step Hex. apply exec_bind in Hex as (ta & m & tr3 & -> & _ & Hex).
  destruct m as [[|]|e]; [| |by exec_inv Hex].
  - exec_step Hex. apply exec_bind in Hex as (t1 & r1 & t2 & -> & _ & Hex).
    destruct r1; [|by exec_inv Hex]. apply finish_trace in Hex as ->.
    eexists (_ :: tw ++ _ :: ta ++ _ :: t1). cbn [app]. rewrite <-!app_assoc. cbn [app].
    by rewrite <-!app_assoc.
  - apply finish_trace in Hex as ->.
    eexists (_ :: tw ++ _ :: ta). cbn [app]. rewrite <-!app_assoc. cbn [app]. done.
Qed.
End Order.

(** C40 The restart hook is inert in every other process: without the trigger
    variable the constructor makes no call but reading it and returns.  With
    it the Go program is never reached: the process either becomes
    [systemctl restart containerd], having entered the host's mount namespace,
    or exits with status 1. *)
Theorem nsenter_preamble_ends tr e :
  exec nsenter_preamble tr e ->
  match e with
  | Returned => exists v, tr = [Ev (Getenv nsenterEnvKey) v] /\ default "" v = ""
  | Exited status => status = 1%Z
  | Replaced => exists v fd path before,
      default "" v <> "" /\ (path = "/usr/bin/systemctl" \/ path = "/bin/systemctl") /\
      tr = Ev (Getenv nsenterEnvKey) v :: Ev (OpenFd "/proc/1/ns/mnt") (Ok fd) ::
           Ev (Setns fd) (Ok tt) :: Ev (CloseFd fd) tt :: before ++
           [Ev (Execv path ["systemctl"; "restart"; "containerd"]) None]
  end.
Proof.
  unfold nsenter_preamble, findSystemctl. intros Hex. exec_inv Hex; try done.
  all: repeat match goal with u : unit |- _ => destruct u end.
  - by exists x.
  - exists x, a, "/usr/bin/systemctl", [Ev (AccessX "/usr/bin/systemctl") true]. auto.
  - exists x, a, "/bin/systemctl",
      [Ev (AccessX "/usr/bin/systemctl") false; Ev (AccessX "/bin/systemctl") true]. auto.
Qed.
