(* ===== verification/ConfigContract.v ===== *)
(** * What the config command achieves

    [ConfigCommand.v] says in which order the command acts, [ConfigRoundTrip.v]
    what one [Apply] leaves in the file.  Here they are put together: where a
    successful run leaves the node, and what the next run of a restarted
    sidecar does with it. *)

From S2P Require Import Prelude GoStrings Annotation HostCalls Patcher PatcherFacts.
From S2P Require Import TomlFragment TomlTree ConfigRoundTrip ConfigCommand.
Local Open Scope go_scope.

Section Contract.
Context `{Codec : TomlCodec} {Laws : TomlLaws}.
Context (range_ : string -> list (string * table) -> list (string * table)).
Context (range_perm : forall name subs, range_ name subs ≡ₚ subs).
Context {W} (h : handler hostE W) (fv : W -> gmap string string) `{!FileLaws h fv}.

(** ** The file along a run *)

(** A run that writes nothing leaves the files as they are. *)
Lemma run_keeps_files {A} (p : prog hostE A) (w : W) :
  Forall (fun ev => is_file_write ev = false) (trace h p w) -> fv (snd (run h p w)) = fv w.
Proof.
  revert w. induction p as [a|X e k IH]; intros w; cbn [trace run]; [done|].
  pose proof (file_keep X e w) as Hk. destruct (h X e w) as [x w1] eqn:Hh. simpl in Hk.
  intros [He Htr]%Forall_cons. rewrite (IH x w1 Htr). apply Hk. by destruct e.
Qed.

Lemma harmless_no_write tr : Forall harmless tr -> Forall (fun ev => is_file_write ev = false) tr.
Proof. intros Ht. eapply Forall_impl; [exact Ht|]. by intros ev [? _]. Qed.

Lemma harmless_no_restart tr : Forall harmless tr -> count is_restart tr = 0.
Proof. intros Ht. apply count_zero. eapply Forall_impl; [exact Ht|]. by intros ev [_ ?]. Qed.

(** Restarting touches no file, and happened once when it is reported done. *)
Lemma Restart_run tr r :
  exec RestartContainerd tr r ->
  Forall (fun ev => is_file_write ev = false) tr /\ (is_ok r = true -> count is_restart tr = 1).
Proof.
  unfold RestartContainerd. intros Hex. exec_inv Hex; (split; [by repeat constructor|done]).
Qed.

(** How a run ends once [Apply] has answered [m]. *)
Definition ends (m : result bool) (r : option (result unit)) (restarts : nat) : Prop :=
  match m with
  | Err e => r = Some (Err (Wrapf "applying containerd config: %w" [] e)) /\ restarts = 0
  | Ok false => r = Some (Ok tt) /\ restarts = 0
  | Ok true =>
      (r = Some (Ok tt) /\ restarts = 1) \/
      (exists e, r = Some (Err (Wrapf "restarting containerd: %w" [] e)))
  end.

(** A run either does not reach [Apply], and then it neither succeeds nor
    touches anything, or is [Apply] on the files as they were at the start,
    followed by calls that leave them alone. *)
Lemma configRun_run viper fuel (w : W) :
  let p := configRun range_ viper fuel in
  let r := fst (run h p w) in
  (r <> Some (Ok tt) /\ (forall e, r <> Some (Err (Wrapf "restarting containerd: %w" [] e))) /\
   count is_restart (trace h p w) = 0 /\ fv (snd (run h p w)) = fv w) \/
  exists w1, fv w1 = fv w /\
    let '(m, w2) := run h (Apply range_ (GetParams viper)) w1 in
    fv (snd (run h p w)) = fv w2 /\ ends m r (count is_restart (trace h p w)).
Proof.
  intros p. subst p. unfold configRun. cbn [bind call run trace].
  pose proof (file_keep _ AppBaseContext w eq_refl) as Hb.
  destruct (h _ AppBaseContext w) as [[u|e] w1]; simpl in Hb; [|by left].
  unfold WaitUntilReady. cbn [bind call run trace].
  pose proof (file_keep _ (LogV 0 msgWaiting) w1 eq_refl) as Hl.
  destruct (h _ (LogV 0 msgWaiting) w1) as [x w2]; simpl in Hl.
  rewrite run_bind, trace_bind.
  set (wait := waitAttempts (unixHTTPClient (GetSocketPath viper)) fuel 0).
  pose proof (wait_harmless _ fuel 0 _ _ (run_exec h wait w2)) as Hw.
  pose proof (run_keeps_files _ w2 (harmless_no_write _ Hw)) as Hfw.
  apply harmless_no_restart in Hw.
  destruct (run h wait w2) as [ready w3]. simpl in Hfw.
  destruct ready as [[v|e]|]; cbn [run trace fst snd count is_restart];
    rewrite ?count_app, ?app_nil_r, ?Hw; [right|left; split_and!; [done|by intros|done|congruence]..].
  cbn [bind call run trace].
  pose proof (file_keep _ (LogV 0 msgApplying) w3 eq_refl) as Hl'.
  destruct (h _ (LogV 0 msgApplying) w3) as [y w4]; simpl in Hl'.
  exists w4. split; [congruence|]. rewrite run_bind, trace_bind.
  destruct (Apply_events range_ _ _ _ (run_exec h (Apply range_ (GetParams viper)) w4)) as [Ha _].
  apply count_zero in Ha.
  destruct (run h (Apply range_ (GetParams viper)) w4) as [m w5].
  cbn [count is_restart]. rewrite count_app, Ha. clear Ha.
  assert (Hfin : forall w6, fv (snd (run h finishConfig w6)) = fv w6 /\
            fst (run h finishConfig w6) = Some (Ok tt) /\
            count is_restart (trace h finishConfig w6) = 0).
  { intros w6. pose proof (finish_harmless _ _ (run_exec h finishConfig w6)) as Hf.
    split_and!; [by apply run_keeps_files, harmless_no_write| |by apply harmless_no_restart].
    unfold finishConfig. cbn [bind call run]. by repeat case_match. }
  destruct m as [[|]|e]; [| |by split].
  - cbn [bind call run trace].
    pose proof (file_keep _ (LogV 0 msgPatched) w5 eq_refl) as Hl''.
    destruct (h _ (LogV 0 msgPatched) w5) as [z w6]; simpl in Hl''.
    rewrite run_bind, trace_bind.
    destruct (Restart_run _ _ (run_exec h RestartContainerd w6)) as [Hrw Hrc].
    apply run_keeps_files in Hrw.
    destruct (run h RestartContainerd w6) as [[t|e] w7]; cbn [snd fst is_ok] in Hrw, Hrc.
    + destruct (Hfin w7) as (Hf & -> & Hc). split; [congruence|left].
      cbn [count is_restart]. rewrite count_app, Hc, (Hrc eq_refl). done.
    + cbn [run snd fst]. split; [congruence|right]. by exists e.
  - destruct (Hfin w5) as (Hf & -> & ->). by split.
Qed.

(** ** A configured node *)

(** The file parses to a tree from which nothing is missing. *)
Definition configured (params : Params) (w : W) : Prop :=
  exists raw tree, fv w !! p_ConfigPath params = Some raw /\ toml_Unmarshal raw = Ok tree /\
    collectMissing tree params = [].

(** On a configured node the command neither writes nor restarts anything. *)
Lemma configured_stays viper fuel (w : W) :
  configured (GetParams viper) w ->
  fv (snd (run h (configRun range_ viper fuel) w)) = fv w /\
  count is_restart (trace h (configRun range_ viper fuel) w) = 0.
Proof.
  intros (raw & tree & Hraw & Ht & Hnil).
  destruct (configRun_run viper fuel w) as [(_ & _ & Hc & Hf)|(w1 & Hw1 & Happ)]; [done|].
  rewrite <-Hw1 in Hraw. pose proof (Apply_complete range_ h fv _ w1 raw tree Hraw Ht Hnil) as Hk.
  destruct (run h (Apply range_ (GetParams viper)) w1) as [m w2].
  destruct Hk as [Hm Hk], Happ as [Hf He]. split; [congruence|].
  by destruct m as [[|]|e]; [| |]; destruct He.
Qed.

(** What [Apply] says of a document that parses. *)
Lemma Apply_answers params (w : W) raw tree :
  fv w !! p_ConfigPath params = Some raw -> toml_Unmarshal raw = Ok tree ->
  let (m, w') := run h (Apply range_ params) w in
  match m with
  | Ok true => collectMissing tree params <> []
  | Ok false => collectMissing tree params = [] /\ fv w' = fv w
  | Err _ => True
  end.
Proof.
  intros Hraw Ht. destruct (Apply_read range_ h fv params w raw Hraw) as (w1 & Hw1 & [[e ->]| ->]);
    [done|].
  unfold applied. rewrite Ht. destruct (collectMissing tree params); [by split|].
  by destruct (run h (appendToFile _ _) w1) as [[u|e] w2].
Qed.

(** What an [Apply] that reports a change makes of a document. *)
Lemma Apply_configures params (w : W) raw tree :
  fv w !! p_ConfigPath params = Some raw -> frag_tree raw = Some tree ->
  round_trippable tree params ->
  fst (run h (Apply range_ params) w) = Ok true ->
  exists raw' tree', fv (snd (run h (Apply range_ params) w)) !! p_ConfigPath params = Some raw' /\
    toml_Unmarshal raw' = Ok tree' /\ grows tree tree' /\ collectMissing tree' params = [].
Proof.
  intros Hraw Hfrag Hrt Hr.
  pose proof (Apply_wrote range_ h fv params w raw tree Hraw (unmarshal_frag raw tree Hfrag) Hr).
  destruct (snippet_parsed range_ range_perm tree params raw Hfrag Hrt) as (tree' & Hfrag' & Hg & Hset).
  eexists _, tree'. split_and!; [done|by apply unmarshal_frag|done|].
  apply (settled_complete tree); [done|]. intros s Hs. destruct (Hset s Hs) as (m & -> & _). eauto.
Qed.

(** What an [Apply] that succeeds leaves, whether it wrote or not. *)
Lemma Apply_leaves params (w : W) raw tree :
  fv w !! p_ConfigPath params = Some raw -> frag_tree raw = Some tree ->
  round_trippable tree params ->
  let (r, w') := run h (Apply range_ params) w in
  is_ok r = true ->
  exists raw' tree', fv w' !! p_ConfigPath params = Some raw' /\ toml_Unmarshal raw' = Ok tree' /\
    grows tree tree' /\ collectMissing tree' params = [] /\
    forall s, s ∈ collectMissing tree params -> exists m,
      lookup_path (section_path s) (TTable tree') = Some (TTable m) /\
      settled (p_SocketPath params) s m.
Proof.
  intros Hraw Hfrag Hrt. pose proof (unmarshal_frag raw tree Hfrag) as Ht.
  pose proof (Apply_answers params w raw tree Hraw Ht) as Hans.
  pose proof (Apply_wrote range_ h fv params w raw tree Hraw Ht) as Hw.
  destruct (run h (Apply range_ params) w) as [[[|]|e] w']; cbn [fst snd] in Hw; [| |done]; intros _.
  - destruct (snippet_parsed range_ range_perm tree params raw Hfrag Hrt) as (tree' & Hf & Hg & Hset).
    eexists _, tree'. split_and!; [by apply Hw|by apply unmarshal_frag|done| |exact Hset].
    apply (settled_complete tree); [done|]. intros s Hs. destruct (Hset s Hs) as (m & -> & _). eauto.
  - destruct Hans as [Hnil Hf]. exists raw, tree. rewrite Hf, Hnil.
    split_and!; [done|done|reflexivity|done|]. by intros s ?%not_elem_of_nil.
Qed.

(** The kubelet starts the sidecar again and again. *)
Fixpoint sidecar (viper : Viper) (fuels : list nat) : prog hostE unit :=
  match fuels with
  | [] => Ret tt
  | fuel :: fuels' => configRun range_ viper fuel ;; sidecar viper fuels'
  end.

Lemma sidecar_stays viper fuels (w : W) :
  configured (GetParams viper) w ->
  fv (snd (run h (sidecar viper fuels) w)) = fv w /\
  count is_restart (trace h (sidecar viper fuels) w) = 0.
Proof.
  revert w. induction fuels as [|fuel fuels IH]; intros w Hw; cbn [sidecar]; [done|].
  rewrite run_bind, trace_bind, count_app.
  destruct (configured_stays viper fuel w Hw) as [Hf ->].
  destruct (run h (configRun range_ viper fuel) w) as [r w1]. cbn [snd] in Hf.
  destruct (IH w1) as [-> ->]; [|done]. unfold configured. by rewrite Hf.
Qed.

(** C8 What a successful run achieves, from a document of the fragment: the
    node is configured - nothing is missing from the file, which keeps
    everything it had - and containerd has been restarted exactly once if
    something had been missing, and not at all otherwise; the file is then
    untouched.  However often the sidecar is started again, it neither writes
    nor restarts containerd any more. *)
Theorem configRun_contract viper fuel (w : W) raw tree :
  let params := GetParams viper in
  fv w !! p_ConfigPath params = Some raw -> frag_tree raw = Some tree ->
  round_trippable tree params ->
  let p := configRun range_ viper fuel in
  let w' := snd (run h p w) in
  fst (run h p w) = Some (Ok tt) ->
  (exists raw' tree', fv w' !! p_ConfigPath params = Some raw' /\
     toml_Unmarshal raw' = Ok tree' /\ grows tree tree' /\ collectMissing tree' params = []) /\
  match collectMissing tree params with
  | [] => fv w' = fv w /\ count is_restart (trace h p w) = 0
  | _ => count is_restart (trace h p w) = 1
  end /\
  forall fuels, fv (snd (run h (sidecar viper fuels) w')) = fv w' /\
    count is_restart (trace h (sidecar viper fuels) w') = 0.
Proof.
  intros params Hraw Hfrag Hrt p w' Hr. pose proof (unmarshal_frag raw tree Hfrag) as Ht.
  destruct (configRun_run viper fuel w) as [(Hno & _)|(w1 & Hw1 & Happ)]; [done|].
  fold p in Happ. rewrite Hr in Happ. fold w' in Happ.
  rewrite <-Hw1 in Hraw.
  pose proof (Apply_configures params w1 raw tree Hraw Hfrag Hrt) as Hconf.
  pose proof (Apply_answers params w1 raw tree Hraw Ht) as Hans.
  fold params in Happ.
  destruct (run h (Apply range_ params) w1) as [m w2]. cbn [fst snd] in Hconf, Hans.
  destruct Happ as [Hf He].
  assert (Hend : (exists raw' tree', fv w' !! p_ConfigPath params = Some raw' /\
     toml_Unmarshal raw' = Ok tree' /\ grows tree tree' /\ collectMissing tree' params = []) /\
    match collectMissing tree params with
    | [] => fv w' = fv w /\ count is_restart (trace h p w) = 0
    | _ => count is_restart (trace h p w) = 1
    end).
  { rewrite Hf. destruct m as [[|]|e]; cbn [ends] in He.
    - split; [by apply Hconf|]. destruct (collectMissing tree params); [done|].
      by destruct He as [[_ He]|[e He]].
    - destruct Hans as [Hnil Hkeep], He as [_ He]. rewrite Hnil, Hkeep. split; [|by rewrite <-Hw1].
      exists raw, tree. split_and!; [done|done|reflexivity|done].
    - by destruct He. }
  destruct Hend as [Hex Hcase]. split_and!; [done|done|]. intros fuels.
  apply sidecar_stays. destruct Hex as (raw' & tree' & ? & ? & _ & ?). by exists raw', tree'.
Qed.

(** C15 The restart is not made up for: when it fails after the file has been
    patched, the command reports the error, but the sidecar that is started
    again finds nothing missing, and no later run restarts containerd, which
    goes on without the new configuration. *)
Theorem failed_restart_is_lost viper fuel (w : W) raw tree e :
  let params := GetParams viper in
  fv w !! p_ConfigPath params = Some raw -> frag_tree raw = Some tree ->
  round_trippable tree params ->
  let w' := snd (run h (configRun range_ viper fuel) w) in
  fst (run h (configRun range_ viper fuel) w) =
    Some (Err (Wrapf "restarting containerd: %w" [] e)) ->
  collectMissing tree params <> [] /\
  forall fuels, fv (snd (run h (sidecar viper fuels) w')) = fv w' /\
    count is_restart (trace h (sidecar viper fuels) w') = 0.
Proof.
  intros params Hraw Hfrag Hrt w' Hr. pose proof (unmarshal_frag raw tree Hfrag) as Ht.
  destruct (configRun_run viper fuel w) as [(_ & Hno & _)|(w1 & Hw1 & Happ)]; [by apply Hno in Hr|].
  rewrite Hr in Happ. fold w' params in Happ. rewrite <-Hw1 in Hraw.
  pose proof (Apply_configures params w1 raw tree Hraw Hfrag Hrt) as Hconf.
  pose proof (Apply_answers params w1 raw tree Hraw Ht) as Hans.
  destruct (run h (Apply range_ params) w1) as [m w2]. cbn [fst snd] in Hconf, Hans.
  destruct Happ as [Hf He]. destruct m as [[|]|e']; cbn [ends] in He.
  - split; [done|]. intros fuels. apply sidecar_stays.
    destruct (Hconf eq_refl) as (raw' & tree' & ? & ? & _ & ?). exists raw', tree'. by rewrite Hf.
  - by destruct He.
  - by destruct He.
Qed.
End Contract.
