(* ===== verification/ConfigLost.v ===== *)
(** * A runtime class that is named twice

    [--runtime-classes] is taken as it is, but for spaces and empty names: a
    class that is named twice, and has no entry yet, is collected twice by
    [collectMissing] and written twice by [buildSnippet].  TOML allows a table
    to be opened once, so what the command leaves behind cannot be read any
    more, by containerd nor by the command itself. *)

From S2P Require Import Prelude GoStrings Annotation HostCalls Patcher PatcherFacts TomlFragment.
From S2P Require Import TomlTree TomlText TomlSections ConfigRoundTrip ConfigCommand ConfigContract.
Local Open Scope go_scope.

(** ** A name given twice is collected twice *)

Lemma runtimeEntries_app suffix bs1 bs2 :
  runtimeEntries suffix (bs1 ++ bs2) = runtimeEntries suffix bs1 ++ runtimeEntries suffix bs2.
Proof.
  induction bs1 as [|b bs1 IH]; [done|]. cbn [app runtimeEntries]. rewrite IH. by case_decide.
Qed.

Lemma missingRuntimes_app tree rts1 rts2 :
  missingRuntimes tree (rts1 ++ rts2) = missingRuntimes tree rts1 ++ missingRuntimes tree rts2.
Proof.
  induction rts1 as [|rt rts1 IH]; [done|]. cbn [app missingRuntimes]. rewrite IH.
  by destruct (hasRuntimeEntry tree (rt_Name rt)).
Qed.

Definition twice {A} (x : A) (l : list A) : Prop := exists l1 l2 l3, l = l1 ++ x :: l2 ++ x :: l3.

(** [base] is named twice on the command line, up to spaces. *)
Definition named_twice (viper : Viper) (base : string) : Prop :=
  base <> "" /\ exists bs1 b bs2 b' bs3,
    GetStringSlice viper flagRuntimeClasses = bs1 ++ b :: bs2 ++ b' :: bs3 /\
    TrimSpace b = base /\ TrimSpace b' = base.

Lemma named_twice_collected viper base tree :
  let name := base +:+ GetString viper flagRuntimeClassSuffix in
  named_twice viper base -> hasRuntimeEntry tree name = false ->
  twice (MissingRuntime name (lookupBaseRuntime tree base)) (collectMissing tree (GetParams viper)).
Proof.
  intros name (Hne & bs1 & b & bs2 & b' & bs3 & Hbs & Hb & Hb') Hno.
  unfold collectMissing. set (proxy := if hasKey _ _ then _ else _).
  cbn [GetParams p_Runtimes]. rewrite Hbs, !runtimeEntries_app. cbn [runtimeEntries].
  rewrite runtimeEntries_app. cbn [runtimeEntries]. rewrite Hb, Hb', !decide_False by done.
  rewrite !missingRuntimes_app. cbn [missingRuntimes rt_Name rt_BaseRuntimeName].
  fold name. rewrite Hno, missingRuntimes_app. cbn [missingRuntimes rt_Name rt_BaseRuntimeName].
  fold name. rewrite Hno. eexists (proxy ++ _), _, _. by rewrite <-app_assoc.
Qed.

Section Lost.
Context `{Codec : TomlCodec} {Laws : TomlLaws} {Strict : TomlStrict}.
Context (range_ : string -> list (string * table) -> list (string * table)).
Context (range_perm : forall name subs, range_ name subs ≡ₚ subs).

(** ** What is collected twice is opened twice *)

Lemma plan_opens socketPath s a :
  plan_of socketPath s a -> readable (a_lines a) /\ opened (section_path s) (a_lines a).
Proof.
  intros (Hp & Hadds & _). rewrite <-Hp. eapply adds_opens; [|exact Hadds].
  rewrite Hp. by destruct s.
Qed.

Lemma plan_readable socketPath sections plan :
  Forall2 (plan_of socketPath) sections plan -> readable (concat (map a_lines plan)).
Proof.
  induction 1 as [|s a sections plan Ha _ IH]; [by constructor|].
  cbn [map concat]. apply Forall_app. split; [by eapply plan_opens|exact IH].
Qed.

(** Written after a document of the fragment, the text is still made of lines
    of the fragment, but it is no document. *)
Lemma snippet_refused tree params raw s :
  frag_tree raw = Some tree -> legible tree params -> twice s (collectMissing tree params) ->
  let text := raw +:+ buildSnippet range_ (p_SocketPath params) (collectMissing tree params) in
  readable (lines "" text) /\ frag_tree text = None.
Proof.
  intros Hraw Hleg (m1 & m2 & m3 & Hm) text. unfold frag_tree in Hraw.
  destruct (frag_state raw) as [st|] eqn:Hst; [|done]. injection Hraw as <-.
  destruct (sections_written range_ range_perm (p_SocketPath params)
              (collectMissing (ps_tree st) params) (rt_socket _ _ Hleg)
              (missing_printable _ _ Hleg)) as (plan & Hw & H2).
  pose proof (plan_readable _ _ _ H2) as Hplan.
  pose proof (snippet_lines range_ raw _ _ _ Hw) as Hlines. fold text in Hlines.
  unfold frag_tree. unfold frag_state in *. rewrite Hlines. split.
  - unfold readable. apply parse_lines_some in Hst as [Hr _].
    rewrite !Forall_app. split_and!; [exact Hr| |exact Hplan|]; by repeat constructor; eexists.
  - rewrite Hm in H2. apply Forall2_app_inv_l in H2 as (p1 & p2 & _ & H2 & ->).
    apply Forall2_cons_inv_l in H2 as (a & p3 & Ha & H2 & ->).
    apply Forall2_app_inv_l in H2 as (p4 & p5 & _ & H2 & ->).
    apply Forall2_cons_inv_l in H2 as (a' & p6 & Ha' & _ & ->).
    apply plan_opens in Ha as [_ Ha], Ha' as [_ Ha'].
    rewrite map_app, concat_app. cbn [map concat]. rewrite map_app, concat_app.
    cbn [map concat]. rewrite <-!app_assoc. do 3 rewrite parse_lines_app.
    by rewrite (opened_twice _ _ _ _ Ha Ha').
Qed.

(** ** What is lost stays lost *)

Context {W} (h : handler hostE W) (fv : W -> gmap string string) `{!FileLaws h fv}.

(** The file cannot be parsed. *)
Definition lost (path : string) (w : W) : Prop :=
  exists raw e, fv w !! path = Some raw /\ toml_Unmarshal raw = Err e.

(** The command fails on it, and leaves it as it is, every time. *)
Lemma lost_stays viper fuel (w : W) :
  let p := configRun range_ viper fuel in
  lost (p_ConfigPath (GetParams viper)) w ->
  fst (run h p w) <> Some (Ok tt) /\ fv (snd (run h p w)) = fv w /\
  count is_restart (trace h p w) = 0.
Proof.
  intros p (raw & e & Hraw & He).
  destruct (configRun_run range_ h fv viper fuel w) as [(? & _ & ? & ?)|(w1 & Hw1 & Happ)];
    [by split_and!|]. fold p in Happ. rewrite <-Hw1 in Hraw.
  destruct (Apply_read range_ h fv _ w1 raw Hraw) as (w2 & Hw2 & Hread).
  assert (Hm : exists e', run h (Apply range_ (GetParams viper)) w1 = (Err e', w2)).
  { destruct Hread as [Hread|Hread]; [exact Hread|]. rewrite Hread. unfold applied. rewrite He. by eexists. }
  destruct Hm as [e' Hm]. rewrite Hm in Happ. destruct Happ as (Hf & -> & Hc).
  split_and!; [done|congruence|done].
Qed.

Lemma sidecar_lost viper fuels (w : W) :
  lost (p_ConfigPath (GetParams viper)) w ->
  fv (snd (run h (sidecar range_ viper fuels) w)) = fv w /\
  count is_restart (trace h (sidecar range_ viper fuels) w) = 0.
Proof.
  revert w. induction fuels as [|fuel fuels IH]; intros w Hw; cbn [sidecar]; [done|].
  rewrite run_bind, trace_bind, count_app.
  destruct (lost_stays viper fuel w Hw) as (_ & Hf & ->).
  destruct (run h (configRun range_ viper fuel) w) as [r w1]. cbn [snd] in Hf.
  destruct (IH w1) as [-> ->]; [|done]. unfold lost. by rewrite Hf.
Qed.

(** C16 A runtime class that is named twice on the command line, and has no
    entry yet, costs the node its configuration.  On a document of the fragment
    the run that succeeds has restarted containerd, once, on a file that cannot
    be parsed; and every later run of the command with that file fails, leaves
    the file as it is and restarts nothing, also when the class is named once
    from then on. *)
Theorem named_twice_is_lost viper fuel (w : W) raw tree base :
  let params := GetParams viper in
  let p := configRun range_ viper fuel in
  let w' := snd (run h p w) in
  named_twice viper base ->
  fv w !! p_ConfigPath params = Some raw -> frag_tree raw = Some tree -> legible tree params ->
  hasRuntimeEntry tree (base +:+ GetString viper flagRuntimeClassSuffix) = false ->
  fst (run h p w) = Some (Ok tt) ->
  count is_restart (trace h p w) = 1 /\
  (exists raw' e, fv w' !! p_ConfigPath params = Some raw' /\ HasPrefix raw' raw = true /\
     toml_Unmarshal raw' = Err e) /\
  forall later, p_ConfigPath (GetParams later) = p_ConfigPath params ->
    (forall fuel', fst (run h (configRun range_ later fuel') w') <> Some (Ok tt)) /\
    forall fuels, fv (snd (run h (sidecar range_ later fuels) w')) = fv w' /\
      count is_restart (trace h (sidecar range_ later fuels) w') = 0.
Proof.
  intros params p w' Htwice Hraw Hfrag Hleg Hno Hr.
  pose proof (unmarshal_frag raw tree Hfrag) as Ht.
  pose proof (named_twice_collected viper base tree Htwice Hno) as Hcoll.
  destruct (snippet_refused tree params raw _ Hfrag Hleg Hcoll) as [Hread Hnone].
  destruct (unmarshal_strict _ Hread Hnone) as [e He].
  destruct (configRun_run range_ h fv viper fuel w) as [(Hbad & _)|(w1 & Hw1 & Happ)]; [done|].
  fold p params in Happ. rewrite Hr in Happ. fold w' in Happ. rewrite <-Hw1 in Hraw.
  pose proof (Apply_wrote range_ h fv params w1 raw tree Hraw Ht) as Hwrote.
  pose proof (Apply_answers range_ h fv params w1 raw tree Hraw Ht) as Hans.
  destruct (run h (Apply range_ params) w1) as [m w2]. cbn [fst snd] in Hwrote.
  destruct Happ as [Hf Hends]. destruct m as [[|]|e']; cbn [ends] in Hends; [| |by destruct Hends].
  2: { destruct Hcoll as (l1 & l2 & l3 & Hl). fold params in Hl. destruct Hans as [Hnil _].
       rewrite Hl in Hnil. by destruct l1. }
  specialize (Hwrote eq_refl). rewrite <-Hf in Hwrote.
  assert (Hlost : lost (p_ConfigPath params) w') by (eexists _, e; by split).
  split_and!; [by destruct Hends as [[_ ?]|[? ?]]| |].
  - eexists _, e. split_and!; [exact Hwrote|apply HasPrefix_app|exact He].
  - intros later Hpath. rewrite <-Hpath in Hlost. split.
    + intros fuel'. by apply lost_stays.
    + intros fuels. by apply sidecar_lost.
Qed.
End Lost.
