(* ===== verification/ConfigExamples.v ===== *)
(** * A node is configured

    An in-memory file system and a daemon that is ready at once, as a handler
    of [hostE] that satisfies [FileLaws]; the theorems of [PatcherFacts.v],
    [ConfigRoundTrip.v], [ConfigCommand.v], [ConfigContract.v] and
    [ConfigLost.v] applied to it; two nodes on which the file ends up
    unreadable, and one on which settings end up in the wrong place. *)

From S2P Require Import Prelude GoStrings Template Annotation HostCalls Patcher PatcherFacts.
From S2P Require Import ConfigCommand TomlFragment TomlTree TomlText ConfigRoundTrip TomlPrint.
From S2P Require Import ConfigContract ConfigLost.
Local Open Scope go_scope.

(** ** The node *)

Definition node_handler : handler hostE (gmap string string) := fun X e =>
  match e in hostE X return gmap string string -> X * gmap string string with
  | HttpNewRequest _ _ => fun w => (Ok tt, w)
  | HttpDo _ => fun w => (Ok 200%Z, w)
  | HttpCloseBody => fun w => (Ok tt, w)
  | DoneOrAfter _ => fun w => (None, w)
  | AwaitDone => fun w => (tt, w)
  | OsReadFile path => fun w =>
      (match w !! path with Some raw => Ok raw | None => Err (Ext NotFound "no such file") end, w)
  | OsOpenAppend path => fun w =>
      (match w !! path with Some _ => Ok tt | None => Err (Ext NotFound "no such file") end, w)
  | FileWriteString path text => fun w =>
      match w !! path with
      | Some raw => (Ok tt, <[path := raw +:+ text]> w)
      | None => (Err (Ext NotFound "no such file"), w)
      end
  | FileClose _ => fun w => (Ok tt, w)
  | OsExecutable => fun w => (Ok "/usr/bin/pv-snapshotter", w)
  | OsEnviron => fun w => (["PATH=/usr/bin"], w)
  | CmdRun _ _ => fun w => (Ok tt, w)
  | Getenv _ => fun w => (Some "1", w)
  | OpenFd _ => fun w => (Ok 3%Z, w)
  | Setns _ => fun w => (Ok tt, w)
  | CloseFd _ => fun w => (tt, w)
  | AccessX path => fun w => (bool_decide (path = "/bin/systemctl"), w)
  | Execv _ _ => fun w => (None, w)
  | LogV _ _ => fun w => (tt, w)
  | AppBaseContext => fun w => (Ok tt, w)
  end.

#[export] Instance node_FileLaws : FileLaws node_handler id.
Proof.
  split; simpl; unfold id.
  - intros path w. by destruct (w !! path) eqn:Hw.
  - intros path w. destruct (w !! path) eqn:Hw; [by split; [eexists|]|done].
  - intros path text w raw Hw. by rewrite Hw.
  - intros X e w. by destruct e.
Qed.

(** A configuration with a runc runtime. *)
Definition runc_table : table :=
  [("runtime_type", TString "io.containerd.runc.v2"); ("snapshotter", TString "overlayfs");
   ("options", TTable [("SystemdCgroup", TBool true)])].
Definition node_tree : table :=
  [("version", TInt 2);
   ("plugins", TTable [("io.containerd.grpc.v1.cri", TTable [("containerd", TTable
      [("runtimes", TTable [("runc", TTable runc_table)])])])])].
Definition node_codec : TomlCodec := {|
  toml_Unmarshal raw := if decide (raw = "config") then Ok node_tree else Err (Errorf "toml" []);
  toml_Marshal m := Ok (foldr (fun kv out => fst kv +:+ " = 1" +:+ newline +:+ out) "" m)
|}.

Definition in_order (name : string) (subs : list (string * table)) := subs.

Definition node_viper : Viper := {|
  GetString k := if decide (k = flagConfigPath) then "/etc/containerd/config.toml"
                 else if decide (k = flagRuntimeClassSuffix) then "-pv"
                 else "/run/pv.sock";
  GetBool _ := false; GetInt _ := 0%Z; GetDuration _ := 0%Z;
  GetStringSlice _ := [" runc "; ""]; GetStringMapString _ := ∅ |}.

Definition node_world : gmap string string :=
  <["/etc/containerd/config.toml" := "config"]> ∅.

(** The same node with its configuration as text. *)
Definition node_text : string :=
  foldr (fun l out => l +:+ newline +:+ out) ""
    ["# containerd"; "version = 2"; "disabled_plugins = []"; "";
     "[plugins.'io.containerd.grpc.v1.cri'.containerd.runtimes.runc]";
     "  runtime_type = 'io.containerd.runc.v2'"; "  snapshotter = 'overlayfs'";
     "  pod_annotations = ['kata.*', 'io.x']"; "";
     "  [plugins.'io.containerd.grpc.v1.cri'.containerd.runtimes.runc.options]";
     "    SystemdCgroup = true"].
Definition text_world : gmap string string :=
  <["/etc/containerd/config.toml" := node_text]> ∅.
Definition text_runc : table :=
  [("runtime_type", TString "io.containerd.runc.v2"); ("snapshotter", TString "overlayfs");
   ("pod_annotations", TArray [TString "kata.*"; TString "io.x"]);
   ("options", TTable [("SystemdCgroup", TBool true)])].
Definition text_tree : table :=
  [("version", TInt 2); ("disabled_plugins", TArray []);
   ("plugins", TTable [("io.containerd.grpc.v1.cri", TTable [("containerd", TTable
      [("runtimes", TTable [("runc", TTable text_runc)])])])])].

Lemma text_runc_flat : flat_runtime text_runc.
Proof.
  split; [by apply (bool_decide_unpack _)|]. intros k v Hin.
  assert (Hsub : flat [("SystemdCgroup", TBool true)]).
  { split; [by apply (bool_decide_unpack _)|].
    by intros k' v' [[= -> ->]|?%not_elem_of_nil]%elem_of_cons. }
  unfold text_runc in Hin. repeat (apply elem_of_cons in Hin as [[= -> ->]|Hin]; [done|]).
  by apply not_elem_of_nil in Hin.
Qed.

Lemma text_fragment : frag_tree node_text = Some text_tree.
Proof. by vm_compute. Qed.

Lemma text_legible : legible text_tree (GetParams node_viper).
Proof.
  split; [by vm_compute|by repeat constructor|].
  intros rt base Hin Hb. assert (rt = mkRuntimeEntry "runc-pv" "runc") as ->.
  { by apply list_elem_of_singleton in Hin. }
  injection Hb as <-. exact text_runc_flat.
Qed.

Lemma text_round_trippable : round_trippable text_tree (GetParams node_viper).
Proof.
  split; [exact text_legible|by apply (bool_decide_unpack _)|by eexists|by eexists].
Qed.

(** The same node, where the child that should restart containerd fails. *)
Definition broken_handler : handler hostE (gmap string string) := fun X e =>
  match e in hostE X return gmap string string -> X * gmap string string with
  | CmdRun _ _ => fun w => (Err (Ext UnknownCode "exit status 1"), w)
  | e => node_handler _ e
  end.

#[export] Instance broken_FileLaws : FileLaws broken_handler id.
Proof.
  split; simpl; unfold id.
  - intros path w. by destruct (w !! path) eqn:Hw.
  - intros path w. destruct (w !! path) eqn:Hw; [by split; [eexists|]|done].
  - intros path text w raw Hw. by rewrite Hw.
  - intros X e w. by destruct e.
Qed.

(** ** The theorems at work *)

Lemma Apply_round_trip_witness :
  let params := GetParams node_viper in
  let '(r, w') := run node_handler (Apply (H:=fragCodec) in_order params) text_world in
  frag_tree node_text = Some text_tree /\ r = Ok true /\
  exists raw' tree' m,
    w' !! "/etc/containerd/config.toml" = Some raw' /\ frag_tree raw' = Some tree' /\
    grows text_tree tree' /\ collectMissing tree' params = [] /\
    lookup_path (v2_path "runc-pv") (TTable tree') = Some (TTable m) /\
    assoc "snapshotter" m = Some (TString "pv-snapshotter") /\
    assoc "pod_annotations" m = Some (TArray [TString "kata.*"; TString "io.x"]).
Proof.
  pose proof (Apply_round_trip (Codec:=fragCodec) in_order (fun _ _ => reflexivity _) node_handler id
    (GetParams node_viper) text_world node_text text_tree (lookup_insert_eq _ _ _) text_fragment text_round_trippable) as Hall.
  intros params. subst params.
  assert (Hr : fst (run node_handler (Apply (H:=fragCodec) in_order (GetParams node_viper))
                      text_world) = Ok true) by by vm_compute.
  destruct (run node_handler _ text_world) as [r w']. cbn [fst] in Hr.
  destruct (Hall Hr) as (raw' & tree' & Hw & Ht & Hg & _ & Hrts & Hnil & _).
  split_and!; [exact text_fragment|done|].
  destruct (Hrts (mkRuntimeEntry "runc-pv" "runc")) as (m & Hm & Hsame); [by left|done|].
  exists raw', tree', m. split_and!; [exact Hw| |done|done|done| |].
  - cbn in Ht. destruct (frag_tree raw'); congruence.
  - exact (Hsame "snapshotter").
  - exact (Hsame "pod_annotations").
Defined.

Lemma runtimeConfig_settings_witness :
  NoDup (runc_table.*1) /\
  ("options", [("SystemdCgroup", TBool true)]) ∈ subtables (runtimeConfig (Some runc_table)) /\
  ("snapshotter", TString "overlayfs") ∉ scalars (runtimeConfig (Some runc_table)).
Proof.
  assert (Hnd : NoDup (runc_table.*1)) by by apply (bool_decide_unpack _).
  destruct (runtimeConfig_settings runc_table Hnd) as (Hs & Ht & _).
  split_and!; [exact Hnd|by apply Ht|]. intros [[_ ?]|[? _]]%Hs; done.
Defined.

Lemma Apply_appends_witness :
  let params := GetParams node_viper in
  node_world !! p_ConfigPath params = Some "config" /\
  fst (run node_handler (Apply (H:=node_codec) in_order params) node_world) = Ok true /\
  snd (run node_handler (Apply (H:=node_codec) in_order params) node_world)
    !! "/etc/containerd/config.toml" =
  Some ("config" +:+ buildSnippet (H:=node_codec) in_order "/run/pv.sock"
          [MissingProxyPlugin; MissingRuntime "runc-pv" (Some runc_table)]).
Proof.
  intros params.
  assert (Hw : node_world !! p_ConfigPath params = Some "config") by apply lookup_insert_eq.
  pose proof (Apply_appends (H:=node_codec) in_order node_handler id params node_world "config" Hw)
    as Ha.
  assert (Hr : fst (run node_handler (Apply (H:=node_codec) in_order params) node_world) = Ok true)
    by by vm_compute.
  split_and!; [exact Hw|exact Hr|].
  destruct (run node_handler (Apply (H:=node_codec) in_order params) node_world) as [r w'].
  simpl in Hr. subst r. destruct Ha as (tree & Ht & _ & Hw'). injection Ht as <-.
  unfold id in Hw'. cbn [snd]. rewrite Hw'. by rewrite lookup_insert_eq.
Defined.

Lemma configRun_order_witness :
  let p := configRun (H:=node_codec) in_order node_viper 3 in
  let tr := trace node_handler p node_world in
  fst (run node_handler p node_world) = Some (Ok tt) /\ count is_restart tr = 1 /\
  preceded (fun q => q = Ev (HttpDo (unixHTTPClient "/run/pv.sock")) (Ok 200%Z)) (fun ev => is_file_write ev = true) tr.
Proof.
  intros p tr. split_and!; [by vm_compute|by vm_compute|].
  exact (proj1 (configRun_order (H:=node_codec) in_order node_viper 3 tr _
                  (run_exec node_handler p node_world))).
Defined.

Lemma nsenter_preamble_ends_witness :
  let tr := trace node_handler nsenter_preamble node_world in
  exists v fd path before,
    default "" v <> "" /\ (path = "/usr/bin/systemctl" \/ path = "/bin/systemctl") /\
    tr = Ev (Getenv nsenterEnvKey) v :: Ev (OpenFd "/proc/1/ns/mnt") (Ok fd) ::
         Ev (Setns fd) (Ok tt) :: Ev (CloseFd fd) tt :: before ++
         [Ev (Execv path ["systemctl"; "restart"; "containerd"]) None].
Proof.
  intros tr.
  assert (Hex : exec nsenter_preamble tr Replaced)
    by exact (run_exec node_handler nsenter_preamble node_world).
  exact (nsenter_preamble_ends tr _ Hex).
Defined.

(** Two starts of the sidecar: the first configures the node and restarts
    containerd, the second does nothing. *)
Lemma configRun_contract_witness :
  let p := configRun (H:=fragCodec) in_order node_viper 3 in
  let w' := snd (run node_handler p text_world) in
  fst (run node_handler p text_world) = Some (Ok tt) /\
  count is_restart (trace node_handler p text_world) = 1 /\
  count is_restart (trace node_handler (sidecar (Codec:=fragCodec) in_order node_viper [3; 3]) w') = 0.
Proof.
  intros p w'.
  assert (Hr : fst (run node_handler p text_world) = Some (Ok tt)) by by vm_compute.
  destruct (configRun_contract (Codec:=fragCodec) in_order (fun _ _ => reflexivity _) node_handler id
    node_viper 3 text_world node_text text_tree (lookup_insert_eq _ _ _) text_fragment
    text_round_trippable Hr) as (_ & Hc & Hs).
  split_and!; [exact Hr| |exact (proj2 (Hs [3; 3]))].
  assert (collectMissing text_tree (GetParams node_viper) =
            [MissingProxyPlugin; MissingRuntime "runc-pv" (Some text_runc)]) as Hm by by vm_compute.
  rewrite Hm in Hc. exact Hc.
Defined.

Lemma failed_restart_is_lost_witness :
  let p := configRun (H:=fragCodec) in_order node_viper 3 in
  let w' := snd (run broken_handler p text_world) in
  let again := sidecar (Codec:=fragCodec) in_order node_viper [3; 3] in
  fst (run broken_handler p text_world) = Some (Err (Wrapf "restarting containerd: %w" []
    (Wrapf "containerd restart via nsenter preamble: %w" [] (Ext UnknownCode "exit status 1")))) /\
  count is_restart (trace broken_handler again w') = 0.
Proof.
  intros p w' again.
  assert (Hr : fst (run broken_handler p text_world) = Some (Err (Wrapf "restarting containerd: %w" []
    (Wrapf "containerd restart via nsenter preamble: %w" [] (Ext UnknownCode "exit status 1")))))
    by by vm_compute.
  split; [exact Hr|].
  exact (proj2 (proj2 (failed_restart_is_lost (Codec:=fragCodec) in_order (fun _ _ => reflexivity _)
    broken_handler id node_viper 3 text_world node_text text_tree _ (lookup_insert_eq _ _ _)
    text_fragment text_round_trippable Hr) [3; 3])).
Defined.

(** ** Where the file is lost *)

(** The same runtime twice, and a file system that stops a write half-way. *)
Definition twice_viper : Viper := {|
  GetString := GetString node_viper;
  GetBool _ := false; GetInt _ := 0%Z; GetDuration _ := 0%Z;
  GetStringSlice _ := ["runc"; "runc "]; GetStringMapString _ := ∅ |}.

Lemma twice_legible : legible text_tree (GetParams twice_viper).
Proof.
  split; [by vm_compute|by repeat constructor|].
  intros rt base Hin Hb. assert (rt = mkRuntimeEntry "runc-pv" "runc") as ->.
  { change (rt ∈ [mkRuntimeEntry "runc-pv" "runc"; mkRuntimeEntry "runc-pv" "runc"]) in Hin.
    set_solver. }
  injection Hb as <-. exact text_runc_flat.
Qed.

Lemma named_twice_is_lost_witness :
  let p := configRun (H:=fragCodec) in_order twice_viper 3 in
  let w' := snd (run node_handler p text_world) in
  fst (run node_handler p text_world) = Some (Ok tt) /\
  count is_restart (trace node_handler p text_world) = 1 /\
  (forall fuel, fst (run node_handler (configRun (H:=fragCodec) in_order node_viper fuel) w')
                <> Some (Ok tt)) /\
  snd (run node_handler (sidecar (Codec:=fragCodec) in_order node_viper [3; 3]) w') = w'.
Proof.
  intros p w'.
  assert (Hr : fst (run node_handler p text_world) = Some (Ok tt)) by by vm_compute.
  assert (Htwice : named_twice twice_viper "runc").
  { split; [done|]. exists [], "runc", [], "runc ", []. by split_and!. }
  destruct (named_twice_is_lost (Codec:=fragCodec) in_order (fun _ _ => reflexivity _) node_handler
    id twice_viper 3 text_world node_text text_tree "runc" Htwice (lookup_insert_eq _ _ _)
    text_fragment twice_legible ltac:(by vm_compute) Hr) as (Hc & _ & Hlater).
  destruct (Hlater node_viper) as [Hfail Hstay]; [by vm_compute|].
  split_and!; [exact Hr|exact Hc|exact Hfail|exact (proj1 (Hstay [3; 3]))].
Defined.

Definition torn_handler (n : nat) : handler hostE (gmap string string) := fun X e =>
  match e in hostE X return gmap string string -> X * gmap string string with
  | FileWriteString path text => fun w =>
      match w !! path with
      | Some raw => (Err (Ext UnknownCode "no space left on device"),
                     <[path := raw +:+ String.substring 0 n text]> w)
      | None => (Err (Ext NotFound "no such file"), w)
      end
  | e => node_handler _ e
  end.

(** The command on the fragment's codec: does it succeed, how often does it
    restart containerd, and what does it leave in the file? *)
Definition attempt (h : handler hostE (gmap string string)) (viper : Viper)
    (w : gmap string string) : bool * nat * string :=
  let p := configRun (H:=fragCodec) in_order viper 3 in
  (match fst (run h p w) with Some (Ok _) => true | _ => false end,
   count is_restart (trace h p w),
   default "" (snd (run h p w) !! "/etc/containerd/config.toml")).
Definition left_with (text : string) : gmap string string :=
  <["/etc/containerd/config.toml" := text]> ∅.

(** Two ways in which the command makes the configuration unreadable for
    good.  A runtime that is named twice is written twice: the command reports
    success and restarts containerd on a file that no longer parses.  An append
    that stops half-way is not taken back.  In both cases every later run fails
    and leaves the file as it is, also when the cause is gone. *)
Theorem unreadable_for_good :
  let '(ok1, restarts1, twice) := attempt node_handler twice_viper text_world in
  let '(ok2, restarts2, torn) := attempt (torn_handler 60) node_viper text_world in
  ok1 = true /\ restarts1 = 1 /\ ok2 = false /\ restarts2 = 0 /\
  frag_tree node_text = Some text_tree /\ frag_tree twice = None /\ frag_tree torn = None /\
  HasPrefix twice node_text = true /\ HasPrefix torn node_text = true /\
  attempt node_handler node_viper (left_with twice) = (false, 0, twice) /\
  attempt node_handler node_viper (left_with torn) = (false, 0, torn).
Proof. vm_compute. repeat split. Qed.

(** ** Where settings are misplaced *)

(** A codec that also writes the tables below a table: by headers that start
    from the document it is writing, as a TOML encoder does. *)
Definition nestCodec : TomlCodec := {|
  toml_Unmarshal := @toml_Unmarshal fragCodec;
  toml_Marshal m :=
    Ok (print_table (scalars m) +:+
        foldr (fun kv out => "[" +:+ key_text (fst kv) +:+ "]" +:+ newline +:+
                             print_table (snd kv) +:+ out) "" (subtables m))
|}.

#[export] Instance nestCodec_laws : TomlLaws (Codec:=nestCodec).
Proof.
  split; [exact (@unmarshal_frag fragCodec _)|]. intros m Hm.
  destruct (@marshal_frag fragCodec _ m Hm) as (b & es & [= <-] & He & Hp).
  exists (print_table m), es. split_and!; [|done|done].
  assert (scalars m = m /\ subtables m = []) as [Hs Ht].
  { destruct Hm as [_ Hm]. clear He Hp. unfold scalars, subtables.
    induction m as [|[k v] m IH]; [done|].
    destruct (Hm k v) as [_ Hv]; [by left|].
    destruct IH as [IH1 IH2]; [intros k0 v0 Hin; apply Hm; by right|].
    destruct v; try done; (split; [exact (f_equal (cons _) IH1)|exact IH2]). }
  cbn [toml_Marshal nestCodec]. rewrite Hs, Ht. cbn [foldr]. by rewrite app_nil_r_str.
Qed.

(** Two runtimes whose options have a table of limits below them. *)
Definition kata_text : string :=
  foldr (fun l out => l +:+ newline +:+ out) ""
    ["[plugins.'io.containerd.grpc.v1.cri'.containerd.runtimes.kata]";
     "[plugins.'io.containerd.grpc.v1.cri'.containerd.runtimes.kata.options]";
     "ConfigPath = '/etc/kata.toml'";
     "[plugins.'io.containerd.grpc.v1.cri'.containerd.runtimes.kata.options.limits]";
     "cpus = 4";
     "[plugins.'io.containerd.grpc.v1.cri'.containerd.runtimes.kata-fc.options.limits]";
     "cpus = 2"].
Definition kata_viper (bases : list string) : Viper := {|
  GetString := GetString node_viper;
  GetBool _ := false; GetInt _ := 0%Z; GetDuration _ := 0%Z;
  GetStringSlice _ := bases; GetStringMapString _ := ∅ |}.
Definition kata_after (bases : list string) : result bool * option table :=
  let (r, w) := run node_handler
    (Apply (H:=nestCodec) in_order (GetParams (kata_viper bases))) (left_with kata_text) in
  (r, frag_tree (default "" (w !! "/etc/containerd/config.toml"))).

(** The settings of a base runtime are kept only down to its sub-tables: a table
    below a sub-table is marshalled with a header that starts from the root, and
    so the limits of [kata] become a table of the whole document, not of
    [kata-pv].  With two such runtimes that table is opened twice, and the file
    does not parse any more. *)
Theorem nested_settings_misplaced :
  let limits n := Some (TTable [("cpus", TInt n)]) in
  let at_path p tree := lookup_path p (TTable tree) in
  (exists tree, frag_tree kata_text = Some tree /\
     at_path (v2_path "kata" ++ ["options"; "limits"]) tree = limits 4%Z /\
     at_path ["limits"] tree = None) /\
  (exists tree', kata_after ["kata"] = (Ok true, Some tree') /\
     at_path (v2_path "kata-pv" ++ ["options"; "ConfigPath"]) tree' =
       Some (TString "/etc/kata.toml") /\
     at_path (v2_path "kata-pv" ++ ["options"; "limits"]) tree' = None /\
     at_path ["limits"] tree' = limits 4%Z) /\
  kata_after ["kata"; "kata-fc"] = (Ok true, None).
Proof.
  split; [eexists; by vm_compute|]. split; [eexists; by vm_compute|by vm_compute].
Qed.
