(* ===== verification/RuntimeClass.v ===== *)
(** * The RuntimeClass of a pod and the runtime of a node

    The webhook sends an admitted pod to the RuntimeClass of its base with a
    suffix; the config command adds a runtime of that name to every node it
    runs on.  They are two processes with flags of their own; here their work is
    put together. *)

From S2P Require Import Prelude GoStrings Template Json JsonPatch Annotation Kube Webhook Patch.
From S2P Require Import HostCalls Patcher PatcherFacts TomlFragment TomlTree ConfigRoundTrip.
From S2P Require Import ConfigCommand ConfigContract AdmissionExamples TomlPrint ConfigExamples.
Local Open Scope go_scope.

(** The RuntimeClass that the webhook starts from: the pod's own, or the
    configured default. *)
Definition base_class `{TemplateEngine} (h : Handler) (pod : Pod) : string :=
  let own := default "" (pod_RuntimeClassName pod) in
  if decide (own = "") then defaultRuntimeClass h else own.

Lemma runtimeEntries_elem suffix bases base :
  base ∈ map TrimSpace bases -> base <> "" ->
  mkRuntimeEntry (base +:+ suffix) base ∈ runtimeEntries suffix bases.
Proof.
  intros Hin Hne. induction bases as [|b bases IH]; [by apply not_elem_of_nil in Hin|].
  cbn [runtimeEntries]. cbn [map] in Hin. apply elem_of_cons in Hin as [<-|Hin].
  - rewrite decide_False by done. by left.
  - case_decide; [by apply IH|right; by apply IH].
Qed.

(** Nothing is missing from a tree only if every runtime is there. *)
Lemma complete_runtime tree params rt :
  collectMissing tree params = [] -> rt ∈ p_Runtimes params ->
  hasRuntimeEntry tree (rt_Name rt) = true.
Proof.
  intros Hnil Hin. destruct (hasRuntimeEntry tree (rt_Name rt)) eqn:Hrt; [done|exfalso].
  assert (Hs : MissingRuntime (rt_Name rt) (lookupBaseRuntime tree (rt_BaseRuntimeName rt))
               ∈ collectMissing tree params).
  { unfold collectMissing. apply elem_of_app. right. apply missingRuntimes_elem. by exists rt. }
  rewrite Hnil in Hs. by apply not_elem_of_nil in Hs.
Qed.

Section RuntimeClass.
Context `{T : TemplateEngine} `{Codec : TomlCodec} {Laws : TomlLaws}.
Context (range_ : string -> list (string * table) -> list (string * table)).
Context (range_perm : forall name subs, range_ name subs ≡ₚ subs).
Context {W} (host : handler hostE W) (fv : W -> gmap string string) `{!FileLaws host fv}.

(** C38 An admitted pod finds its runtime on the node.  When the two processes
    are given the same suffix, the patched pod has the RuntimeClass [base] plus
    suffix, where [base] is its own class or the webhook's default; and on a
    node where the config command has succeeded with [base] among its
    [--runtime-classes], containerd's configuration has a runtime of that very
    name.  If the command added it, it has the settings of the base runtime, and
    the snapshotter pv-snapshotter, whose proxy plugin - where the command added
    that too - is the socket the command was given.  A pod without a class
    under a webhook without a default keeps no class, and so the node's default
    runtime. *)
Theorem patched_class_has_runtime (h : Handler) order pod pvcName data ops top md sp
    viper (w : W) raw tree :
  let params := GetParams viper in
  let base := base_class h pod in
  let name := base +:+ runtimeClassSuffix h in
  represents top md sp pod -> order ≡ₚ map_to_list (annotationTmpls h) ->
  buildPatch h order pod pvcName data = Ok ops ->
  runtimeClassSuffix h = GetString viper ConfigCommand.flagRuntimeClassSuffix ->
  fv w !! p_ConfigPath params = Some raw -> frag_tree raw = Some tree ->
  round_trippable tree params ->
  let (r, w') := run host (Apply range_ params) w in
  is_ok r = true ->
  exists top' sp' raw' tree',
    apply_patch (marshalPatch ops) (JObject top) = Some (JObject top') /\
    assoc "spec" top' = Some (JObject sp') /\
    fv w' !! p_ConfigPath params = Some raw' /\ toml_Unmarshal raw' = Ok tree' /\
    if decide (base = "") then assoc "runtimeClassName" sp' = assoc "runtimeClassName" sp
    else
      assoc "runtimeClassName" sp' = Some (JString name) /\
      (base ∈ map TrimSpace (GetStringSlice viper flagRuntimeClasses) ->
       hasRuntimeEntry tree' name = true /\
       (hasRuntimeEntry tree name = false -> exists m,
          lookup_path (v2_path name) (TTable tree') = Some (TTable m) /\
          assoc "snapshotter" m = Some (TString "pv-snapshotter") /\
          same_settings m (runtimeConfig (base_table tree base))) /\
       (lookup_path proxy_path (TTable tree) = None ->
        lookup_path proxy_path (TTable tree') =
          Some (TTable [("type", TString "snapshot"); ("address", TString (GetSocketPath viper))]))).
Proof.
  intros params base name Hrep Hperm Hb Hsuffix Hraw Hfrag Hrt.
  destruct (buildPatch_document h order pod pvcName data ops top md sp Hrep Hperm Hb)
    as (top' & _ & sp' & _ & Hp & _ & Hsp & _ & _ & _ & _ & _ & _ & _ & Hclass).
  pose proof (Apply_leaves range_ range_perm host fv params w raw tree Hraw Hfrag Hrt) as Hleaves.
  destruct (run host (Apply range_ params) w) as [r w']. intros Hr.
  destruct (Hleaves Hr) as (raw' & tree' & Hw' & Ht' & _ & Hnil & Hset).
  exists top', sp', raw', tree'. split_and!; [done..|].
  unfold runtimeClassFor in Hclass. fold (base_class h pod) in Hclass. fold base in Hclass.
  destruct (decide (base = "")) as [Hbase|Hbase]; [by rewrite decide_True in Hclass|].
  fold name in Hclass. assert (Hne : name <> "") by by intros [? _]%app_eq_nil_str.
  rewrite decide_False in Hclass by done. split; [done|]. intros Hin.
  assert (Hrt' : mkRuntimeEntry name base ∈ p_Runtimes params).
  { unfold name. rewrite Hsuffix. by apply runtimeEntries_elem. }
  split_and!.
  - exact (complete_runtime tree' params _ Hnil Hrt').
  - intros Hno. destruct (Hset (MissingRuntime name (lookupBaseRuntime tree base))) as (m & Hm & Hs).
    { unfold collectMissing. apply elem_of_app. right. apply missingRuntimes_elem.
      by exists (mkRuntimeEntry name base). }
    exists m. cbn [settled] in Hs. rewrite lookupBaseRuntime_path in Hs. split_and!; [done| |done].
    specialize (Hs "snapshotter"). unfold runtimeConfig in Hs. by rewrite table_set_eq in Hs.
  - intros Hno. destruct (Hset MissingProxyPlugin) as (m & Hm & ->); [|exact Hm].
    unfold collectMissing. apply elem_of_app. left.
    change (hasKey tree ["proxy_plugins"; "pv-snapshotter"]) with (hasKey tree proxy_path).
    destruct (hasKey tree proxy_path) eqn:Hk; [|by left].
    apply hasKey_path in Hk as [v Hv]; [|done]. congruence.
Qed.
End RuntimeClass.

(** The pod of class runc, and the node with a runc runtime. *)
Lemma patched_class_has_runtime_witness :
  fst (run node_handler (Apply (H:=fragCodec) in_order (GetParams node_viper)) text_world) = Ok true /\
  exists top' sp' raw' tree' m,
    apply_patch (marshalPatch web_ops) (JObject web_doc) = Some (JObject top') /\
    assoc "spec" top' = Some (JObject sp') /\
    assoc "runtimeClassName" sp' = Some (JString "runc-pv") /\
    snd (run node_handler (Apply (H:=fragCodec) in_order (GetParams node_viper)) text_world)
      !! "/etc/containerd/config.toml" = Some raw' /\
    frag_tree raw' = Some tree' /\
    lookup_path (v2_path "runc-pv") (TTable tree') = Some (TTable m) /\
    assoc "snapshotter" m = Some (TString "pv-snapshotter").
Proof.
  assert (Hrep : represents web_doc web_md web_sp web_pod).
  { split; try done; cbn [web_pod pod_Annotations pod_Volumes pod_Containers pc_VolumeMounts];
      [by right|by left|by do 2 eexists]. }
  assert (Hr : fst (run node_handler (Apply (H:=fragCodec) in_order (GetParams node_viper))
                      text_world) = Ok true) by by vm_compute.
  split; [exact Hr|].
  pose proof (patched_class_has_runtime (Codec:=fragCodec) in_order (fun _ _ => reflexivity _)
    node_handler id web_handler web_tmpls web_pod "web" web_data web_ops web_doc web_md web_sp
    node_viper text_world node_text text_tree Hrep) as Hall.
  cbv zeta in Hall.
  specialize (Hall ltac:(symmetry; apply map_to_list_to_map; by apply (bool_decide_unpack _))
    web_build eq_refl (lookup_insert_eq _ _ _) text_fragment text_round_trippable).
  destruct (run node_handler _ text_world) as [r w']. cbn [fst snd] in *. subst r.
  destruct (Hall eq_refl) as (top' & sp' & raw' & tree' & Hp & Hsp & Hw & Ht & Hrest).
  rewrite decide_False in Hrest by done. destruct Hrest as (Hc & Hin).
  destruct Hin as (_ & Hadded & _); [by left|].
  destruct (Hadded ltac:(by vm_compute)) as (m & Hm & Hs & _).
  exists top', sp', raw', tree', m. split_and!; [exact Hp|exact Hsp|exact Hc|exact Hw| |exact Hm|exact Hs].
  cbn in Ht. destruct (frag_tree raw'); congruence.
Defined.
