(* ===== verification/Startup.v ===== *)
(** * Starting the daemon ([cmd/daemon/main.go], [service.go], [overlay.go])

    Flags, the construction of the native snapshotter, [RegisterGRPCService]
    with its cleanup of half-built state, and the function the root command
    runs.  Error logs are calls of the model ([LogError]); [Info] logs are left
    out. *)

From S2P Require Import Prelude GoStrings System Template Json Annotation Resolver Dedup Service.
From S2P Require Import Sha256 Kube Webhook HostCalls ConfigCommand.
Local Open Scope go_scope.

(** ** Flags *)

(** One registration on a [pflag.FlagSet], with its default. *)
Inductive flag :=
| FString (name value : string)
| FBool (name : string) (value : bool)
| FInt (name : string) (value : Z)
| FDuration (name : string) (value : Z)
| FStringSlice (name : string) (value : list string)
| FStringToString (name : string) (value : list (string * string)).

Definition flag_name (f : flag) : string :=
  match f with
  | FString n _ | FBool n _ | FInt n _ | FDuration n _ | FStringSlice n _
  | FStringToString n _ => n
  end.

Definition flagUnixSocketPath := "unix-socket-path".
Definition defaultUnixSocketPath := "/var/run/pv-snapshotter/daemon.sock".
Definition flagContainerdSocket := "containerd-socket".
Definition defaultContainerdSocket := "/run/containerd/containerd.sock".
Definition flagShareOverlayfsLowers := "share-overlayfs-lowers".

Definition annotation_RegisterFlags : list flag := [FString flagPrefix defaultPrefix].

Definition snapshotter_RegisterFlags : list flag :=
  [FString flagUnixSocketPath defaultUnixSocketPath;
   FString flagContainerdSocket defaultContainerdSocket;
   FBool flagShareOverlayfsLowers false].

Definition webhook_RegisterFlags : list flag :=
  [FString flagPVCNameTemplate defaultPVCNameTemplate;
   FString flagPVCSelectorTemplate defaultPVCSelectorTemplate;
   FInt flagMaxOwnerDepth defaultMaxOwnerDepth;
   FString flagDefaultRuntimeClass defaultDefaultRuntimeClass;
   FString Webhook.flagRuntimeClassSuffix Webhook.defaultRuntimeClassSuffix;
   FStringToString flagAnnotationTemplates defaultAnnotationTemplates;
   FString flagStateMountPath defaultStateMountPath;
   FDuration flagBoundTimeout defaultBoundTimeout;
   FBool flagEnabled defaultEnabled].

Definition config_RegisterFlags : list flag :=
  [FString flagConfigPath defaultConfigPath;
   FStringSlice flagRuntimeClasses [];
   FString ConfigCommand.flagRuntimeClassSuffix ConfigCommand.defaultRuntimeClassSuffix;
   FString flagSocketPath ConfigCommand.defaultUnixSocketPath].

(** The flags of the root command. *)
Definition daemonFlags : list flag :=
  annotation_RegisterFlags ++ snapshotter_RegisterFlags ++ webhook_RegisterFlags.

Definition GetUnixSocketPath (viper : Viper) : string := GetString viper flagUnixSocketPath.

(** ** The native snapshotter ([overlay.go]) *)

Definition flagOverlaySnapshotterConfig := "overlay-snapshotter".
Definition defaultRootPath :=
  "/var/lib/containerd/io.containerd.snapshotter.v1.pv-snapshotter".

Record overlayConfig := mkOverlayConfig {
  RootPath : string;
  UpperDirLabel : bool;
  SyncRemove : bool;
  SlowChown : bool;
  MountOptions : list string
}.

(** [overlay.Opt] *)
Inductive overlayOpt :=
| WithUpperdirLabel
| AsynchronousRemove
| WithMountOptions (mos : list string)
| WithRemapIDs
| WithSlowChown.

(** ** Calls

    [OverlayNewSnapshotter] answers whether the snapshotter implements
    [snapshots.Cleaner]; [Sys] is a call of a running service. *)
Inductive startE : Type -> Type :=
| BaseContext (socket : string) : startE (result unit)
| ViperUnmarshalKey (key : string) : startE (result overlayConfig)
| SupportsIDMappedMounts : startE (result bool)
| OverlayNewSnapshotter (root : string) (opts : list overlayOpt) : startE (result bool)
| ContainerdNew (socket : string) : startE (result unit)
| RegisterSnapshotsServer (cleaner : bool) : startE unit
| RegisterServiceRoutes (routes : list (method * string)) : startE unit
| RegisterScrape : startE unit
| CtrlGetConfig : startE (result unit)
| NewTypedClient : startE (result unit)
| NewDynamicClient : startE (result unit)
| RegisterWebhookRoute (routes : list (method * string)) : startE unit
| HttpStart : startE (result unit)
| AwaitContext : startE unit
| LogError (e : error) (msg : string) : startE unit
| Sys (X : Type) (e : sysE X) : startE X.
Arguments Sys {X} e.

(** A program of the service inside the daemon. *)
Fixpoint lift {A} (p : prog sysE A) : prog startE A :=
  match p with
  | Ret a => Ret a
  | Vis e k => Vis (Sys e) (fun x => lift (k x))
  end.

Definition overlayOpts (cfg : overlayConfig) (idmapped : result bool) : list overlayOpt :=
  (if UpperDirLabel cfg then [WithUpperdirLabel] else []) ++
  (if negb (SyncRemove cfg) then [AsynchronousRemove] else []) ++
  (match MountOptions cfg with [] => [] | mos => [WithMountOptions mos] end) ++
  (match idmapped with Ok true => [WithRemapIDs] | _ => [] end) ++
  (if SlowChown cfg then [WithSlowChown] else []).

Definition createNativeOverlaySnapshotter : prog startE (result bool) :=
  try! cfg := call (ViperUnmarshalKey flagOverlaySnapshotterConfig)
  catch err => Ret (Err err) in
  let root := if decide (RootPath cfg = "") then defaultRootPath else RootPath cfg in
  let! idmapped := call SupportsIDMappedMounts in
  call (OverlayNewSnapshotter root (overlayOpts cfg idmapped)).

(** [Handler.RegisterRoute]; the route is served by [handle] of [Webhook.v]. *)
Definition webhook_RegisterRoute : list (method * string) := [(POST, "/mutate")].

(** ** RegisterGRPCService *)

(** What [closers] holds. *)
Inductive closer := CloserSnapshotter | CloserContainerd.
Definition closer_call (c : closer) : sysE (result unit) :=
  match c with CloserSnapshotter => SnClose | CloserContainerd => ClientClose end.

(** The deferred loop, over the order of the range; the error that is logged
    is the function's own. *)
Fixpoint closeAll (err : error) (order : list closer) : prog startE unit :=
  match order with
  | [] => Ret tt
  | c :: order' =>
      let! closed := call (Sys (closer_call c)) in
      match closed with
      | Err _ => let! _ := call (LogError err "close failed") in closeAll err order'
      | Ok _ => closeAll err order'
      end
  end.

Section Register.
Context `{DNSValidation} (range_ : list closer -> list closer).

Definition RegisterGRPCService (viper : Viper) (nodeName : string)
    : prog startE (result snapshotter) :=
  try! cleaner := createNativeOverlaySnapshotter
  catch err =>
    (let! _ := call (LogError err "failed to create overlay snapshotter") in
     let! _ := closeAll err (range_ []) in
     Ret (Err err)) in
  try! _ := call (ContainerdNew (GetString viper flagContainerdSocket))
  catch err =>
    (let! _ := call (LogError err "failed to create containerd client") in
     let! _ := closeAll err (range_ [CloserSnapshotter]) in
     Ret (Err err)) in
  match newResolver viper with
  | Err err =>
      let! _ := call (LogError err "failed to create containerd resolver") in
      let! _ := closeAll err (range_ [CloserSnapshotter; CloserContainerd]) in
      Ret (Err err)
  | Ok res =>
      let dedup := if GetBool viper flagShareOverlayfsLowers
                   then Some (newDedupManager nodeName) else None in
      let! _ := call (RegisterSnapshotsServer cleaner) in
      Ret (Ok (mkSnapshotter res dedup))
  end.

(** ** The root command *)

Context `{TemplateEngine}.

(** [webhook.New], with its three calls before the rest.  [tmpls]: the order
    of the range over the annotation templates. *)
Definition webhookNew (viper : Viper) (tmpls : list (string * string) -> list (string * string))
    : prog startE (result Handler) :=
  let! cfg := call CtrlGetConfig in
  match cfg with
  | Err _ => Ret (New viper cfg cfg cfg tmpls)
  | Ok _ =>
      let! kc := call NewTypedClient in
      match kc with
      | Err _ => Ret (New viper cfg kc kc tmpls)
      | Ok _ =>
          let! dc := call NewDynamicClient in
          Ret (New viper cfg kc dc tmpls)
      end
  end.

(** From the registered routes to the end of the run. *)
Definition serveHTTP : prog startE (result unit) :=
  try! _ := call HttpStart
  catch err => (let! _ := call (LogError err "start manager failed") in Ret (Err err)) in
  let! _ := call AwaitContext in
  Ret (Ok tt).

Definition daemonRun (viper : Viper) (nodeName : string)
    (tmpls : list (string * string) -> list (string * string)) : prog startE (result unit) :=
  try! _ := call (BaseContext (GetUnixSocketPath viper))
  catch err => Ret (Err err) in
  try! svc := RegisterGRPCService viper nodeName
  catch err =>
    (let! _ := call (LogError err "register snapshotter GRPC service failed") in Ret (Err err)) in
  let! res :=
    (let! _ := call (RegisterServiceRoutes (map fst (RegisterRoute svc))) in
     let! _ := call RegisterScrape in
     if Enabled viper then
       try! _ := webhookNew viper tmpls
       catch err => Ret (Err err) in
       let! _ := call (RegisterWebhookRoute webhook_RegisterRoute) in
       serveHTTP
     else serveHTTP) in
  (* deferred: *)
  let! closed := lift (Close svc) in
  match closed with
  | Err e =>
      let! _ := call (LogError e "close snapshotter grpc service failed") in Ret res
  | Ok _ => Ret res
  end.
End Register.

(** ** Flags are consistent *)

(** No two flags of a command have the same name (registering one twice
    panics), and every setting that the daemon, the webhook and the config
    command read by name is registered. *)
Theorem flags_registered :
  NoDup (map flag_name daemonFlags) /\ NoDup (map flag_name config_RegisterFlags) /\
  (forall name, name ∈ [flagPrefix; flagUnixSocketPath; flagContainerdSocket;
                        flagShareOverlayfsLowers; flagPVCNameTemplate; flagPVCSelectorTemplate;
                        flagMaxOwnerDepth; flagDefaultRuntimeClass;
                        Webhook.flagRuntimeClassSuffix; flagAnnotationTemplates;
                        flagStateMountPath; flagBoundTimeout; flagEnabled] ->
     name ∈ map flag_name daemonFlags) /\
  (forall name, name ∈ [flagConfigPath; flagRuntimeClasses;
                        ConfigCommand.flagRuntimeClassSuffix; flagSocketPath] ->
     name ∈ map flag_name config_RegisterFlags).
Proof.
  split_and!; [by apply (bool_decide_unpack _)..| |];
    intros name Hin; repeat (apply elem_of_cons in Hin as [->|Hin];
      [by apply (bool_decide_unpack _)|]); by apply not_elem_of_nil in Hin.
Qed.

(** ** The life of the daemon's resources

    What the daemon opens is the native snapshotter and the containerd client.
    [live] is an automaton over the events of a run: a resource is opened at
    most once, and closed at most once after that; the gRPC service is
    registered, and everything that serves requests - the HTTP routes, the
    scrape hook, the HTTP server, the wait for the end - happens, only while
    both are open. *)

Inductive handle := Unopened | Opened | Closed.
#[export] Instance handle_eq_dec : EqDecision handle.
Proof. solve_decision. Defined.

Record life := mkLife {
  l_sn : handle;
  l_client : handle;
  l_registered : bool
}.

Definition unborn : life := mkLife Unopened Unopened false.

Definition both_open (s : life) : bool :=
  bool_decide (l_sn s = Opened) && bool_decide (l_client s = Opened).

Definition close_handle (c : closer) (s : life) : option life :=
  match c with
  | CloserSnapshotter =>
      if decide (l_sn s = Opened) then Some (mkLife Closed (l_client s) (l_registered s)) else None
  | CloserContainerd =>
      if decide (l_client s = Opened) then Some (mkLife (l_sn s) Closed (l_registered s)) else None
  end.

Definition live (s : life) (ev : event startE) : option life :=
  match ev with
  | Ev (OverlayNewSnapshotter _ _) (Ok _) =>
      if decide (l_sn s = Unopened) then Some (mkLife Opened (l_client s) (l_registered s)) else None
  | Ev (ContainerdNew _) (Ok _) =>
      if decide (l_client s = Unopened) then Some (mkLife (l_sn s) Opened (l_registered s)) else None
  | Ev (RegisterSnapshotsServer _) _ =>
      if both_open s && negb (l_registered s) then Some (mkLife (l_sn s) (l_client s) true) else None
  | Ev (RegisterServiceRoutes _) _ | Ev RegisterScrape _ | Ev (RegisterWebhookRoute _) _
  | Ev HttpStart _ | Ev AwaitContext _ =>
      if both_open s && l_registered s then Some s else None
  | Ev (Sys SnClose) _ => close_handle CloserSnapshotter s
  | Ev (Sys ClientClose) _ => close_handle CloserContainerd s
  | _ => Some s
  end.

Fixpoint lived (s : life) (tr : list (event startE)) : option life :=
  match tr with
  | [] => Some s
  | ev :: tr' => match live s ev with Some s' => lived s' tr' | None => None end
  end.

(** Nothing is left open. *)
Definition at_rest (s : life) : Prop := l_sn s <> Opened /\ l_client s <> Opened.

Lemma lived_app s tr1 tr2 :
  lived s (tr1 ++ tr2) = match lived s tr1 with Some s' => lived s' tr2 | None => None end.
Proof.
  revert s. induction tr1 as [|ev tr1 IH]; intros s; [done|]. cbn [lived app].
  destruct (live s ev); [apply IH|done].
Qed.

Fixpoint close_handles (order : list closer) (s : life) : option life :=
  match order with
  | [] => Some s
  | c :: order' => match close_handle c s with Some s' => close_handles order' s' | None => None end
  end.

(** The deferred loop closes the closers it is given, one after the other. *)
Lemma closeAll_lived err order s tr u :
  exec (closeAll err order) tr u -> lived s tr = close_handles order s.
Proof.
  revert s tr. induction order as [|c order IH]; intros s tr Hx; simpl in Hx.
  { by destruct Hx as [-> _]. }
  destruct Hx as (closed & tr' & -> & Hx). cbn [lived close_handles].
  assert (Hc : live s (Ev (Sys (closer_call c)) closed) = close_handle c s) by by destruct c.
  rewrite Hc. destruct (close_handle c s) as [s'|]; [|done].
  destruct closed as [x|e]; simpl in Hx; [by apply IH|].
  destruct Hx as ([] & tr2 & -> & Hx). cbn [lived live]. by apply IH.
Qed.

Section Life.
Context `{DNSValidation} `{TemplateEngine}.
Context (range_ : list closer -> list closer).
Hypothesis range_perm : forall l, range_ l ≡ₚ l.

(** A failing branch: in whichever order the closers are visited, what was open
    is closed. *)
Lemma closed_branch err l s tr (res : result snapshotter) :
  exec (let! _ := closeAll err (range_ l) in Ret (Err err))%go tr res ->
  (l = [] /\ s = unborn) \/
  (l = [CloserSnapshotter] /\ s = mkLife Opened Unopened false) \/
  (l = [CloserSnapshotter; CloserContainerd] /\ s = mkLife Opened Opened false) ->
  res = Err err /\ exists s', lived s tr = Some s' /\ at_rest s' /\ l_registered s' = false.
Proof.
  intros (tr1 & u & tr2 & -> & Hc & [-> ->])%exec_bind Hl. split; [done|].
  rewrite app_nil_r, (closeAll_lived _ _ s _ _ Hc). pose proof (range_perm l) as Hp.
  destruct Hl as [[-> ->]|[[-> ->]|[-> ->]]].
  - apply Permutation_nil_r in Hp as ->. by eexists.
  - apply Permutation_singleton_r in Hp as ->. by eexists.
  - symmetry in Hp. apply Permutation_length_2_inv in Hp as [-> | ->]; by eexists.
Qed.

Lemma RegisterGRPCService_lived viper node tr res :
  exec (RegisterGRPCService range_ viper node) tr res ->
  match res with
  | Ok _ => lived unborn tr = Some (mkLife Opened Opened true)
  | Err _ => exists s, lived unborn tr = Some s /\ at_rest s /\ l_registered s = false
  end.
Proof.
  unfold RegisterGRPCService, createNativeOverlaySnapshotter. intros Hx.
  exec_inv Hx; [reflexivity|..];
    (eapply closed_branch in Hx as [-> (s & Hs & ?)];
     [|first [by left|by right; left|by right; right]];
     exists s; split; [exact Hs|done]).
Qed.

(** Once registered, the daemon serves with both open and then closes them. *)
Lemma served_lived viper tmpls svc tr res :
  exec
    (let! res :=
      (let! _ := call (RegisterServiceRoutes (map fst (RegisterRoute svc))) in
       let! _ := call RegisterScrape in
       if Enabled viper then
         try! _ := webhookNew viper tmpls
         catch err => Ret (Err err) in
         let! _ := call (RegisterWebhookRoute webhook_RegisterRoute) in
         serveHTTP
       else serveHTTP) in
     let! closed := lift (Close svc) in
     match closed with
     | Err e =>
         let! _ := call (LogError e "close snapshotter grpc service failed") in Ret res
     | Ok _ => Ret res
     end)%go tr res ->
  lived (mkLife Opened Opened true) tr = Some (mkLife Closed Closed true) /\
  (res = Ok tt -> Ev HttpStart (Ok tt) ∈ tr /\ Ev AwaitContext tt ∈ tr).
Proof.
  unfold webhookNew, serveHTTP, Close. cbn [lift call bind]. intros Hx.
  exec_inv Hx; (split; [reflexivity|intros Hres; try discriminate Hres]);
    repeat match goal with u : unit |- _ => destruct u end; (split; in_trace).
Qed.

(** C31 The life of the daemon, whatever the environment answers: the native
    snapshotter and the containerd client are opened at most once each, and
    what was opened is closed exactly once - on every failure of the start-up,
    those of [RegisterGRPCService] through its deferred loop, in whichever
    order it visits the closers, and those of the webhook and the HTTP server
    through the service's [Close], and at the end of a normal run.  The gRPC
    service is registered, and requests are served, only after both were
    opened and before either is closed; and a run that ends without an error
    has served. *)
Theorem daemonRun_closes viper node tmpls tr res :
  exec (daemonRun range_ viper node tmpls) tr res ->
  exists s, lived unborn tr = Some s /\ at_rest s /\
    (res = Ok tt -> s = mkLife Closed Closed true /\
       Ev HttpStart (Ok tt) ∈ tr /\ Ev AwaitContext tt ∈ tr).
Proof.
  unfold daemonRun. intros Hx. apply exec_bind in Hx as (tr0 & base & tr1 & -> & Hb & Hx).
  apply exec_call in Hb as ->. destruct base as [[]|err].
  2: { destruct Hx as [-> <-]. exists unborn. split; [reflexivity|]. split; [by split|by intros [=]]. }
  apply exec_bind in Hx as (tr2 & svc & tr3 & -> & Hreg & Hx).
  apply RegisterGRPCService_lived in Hreg. cbn [lived app live]. rewrite lived_app.
  destruct svc as [svc|err].
  - rewrite Hreg. destruct (served_lived _ _ _ _ _ Hx) as [-> Hok].
    eexists. split; [reflexivity|]. split; [done|]. intros [? ?]%Hok.
    split; [done|]. split; apply elem_of_cons; right; apply elem_of_app; by right.
  - destruct Hreg as (s & -> & Hs & _). exec_inv Hx. by exists s.
Qed.
End Life.
