(* ===== verification/StartupExamples.v ===== *)
(** * A daemon that fails to start, and one that serves

    In the first run the containerd socket answers, but the annotation prefix is
    refused: both resources were open, and both are closed.  In the second the
    daemon serves until it is stopped. *)

From S2P Require Import Prelude GoStrings System Template Annotation Resolver Service Kube Webhook.
From S2P Require Import AdmissionExamples Pipeline Startup.
Local Open Scope go_scope.

Definition bad_viper : Viper := {|
  GetString k := if decide (k = flagPrefix) then "kubernetes.io" else "";
  GetStringSlice _ := [];
  GetInt _ := 0%Z;
  GetBool _ := false;
  GetDuration _ := 0%Z;
  GetStringMapString _ := ∅
|}.

Definition bad_prefix : error :=
  match @ResolvePrefix dns1123Validation bad_viper with Err e => e | Ok _ => Errorf "" [] end.

(** The map of closers is ranged over in reverse; closing the client fails. *)
Definition bad_trace : list (event startE) :=
  [Ev (BaseContext "") (Ok tt);
   Ev (ViperUnmarshalKey flagOverlaySnapshotterConfig) (Ok (mkOverlayConfig "" true false false []));
   Ev SupportsIDMappedMounts (Ok true);
   Ev (OverlayNewSnapshotter defaultRootPath [WithUpperdirLabel; AsynchronousRemove; WithRemapIDs])
      (Ok true);
   Ev (ContainerdNew "") (Ok tt);
   Ev (LogError bad_prefix "failed to create containerd resolver") tt;
   Ev (Sys ClientClose) (Err (Ext Unavailable "closing"));
   Ev (LogError bad_prefix "close failed") tt;
   Ev (Sys SnClose) (Ok tt);
   Ev (LogError bad_prefix "register snapshotter GRPC service failed") tt].

(** A daemon that serves, without the webhook, until it is stopped. *)
Definition good_viper : Viper := {|
  GetString k := if decide (k = flagPrefix) then defaultPrefix else "";
  GetStringSlice _ := [];
  GetInt _ := 0%Z;
  GetBool _ := false;
  GetDuration _ := 0%Z;
  GetStringMapString _ := ∅
|}.

Definition good_trace : list (event startE) :=
  [Ev (BaseContext "") (Ok tt);
   Ev (ViperUnmarshalKey flagOverlaySnapshotterConfig) (Ok (mkOverlayConfig "" true false false []));
   Ev SupportsIDMappedMounts (Ok true);
   Ev (OverlayNewSnapshotter defaultRootPath [WithUpperdirLabel; AsynchronousRemove; WithRemapIDs])
      (Ok true);
   Ev (ContainerdNew "") (Ok tt);
   Ev (RegisterSnapshotsServer true) tt;
   Ev (RegisterServiceRoutes (map fst (RegisterRoute (mkSnapshotter default_resolver None)))) tt;
   Ev RegisterScrape tt;
   Ev HttpStart (Ok tt);
   Ev AwaitContext tt;
   Ev (Sys ClientClose) (Ok tt);
   Ev (Sys SnClose) (Ok tt)].

Lemma daemonRun_closes_witness :
  exec (@daemonRun dns1123Validation (@rev closer) fragEngine
          bad_viper "node-1" id) bad_trace (Err bad_prefix) /\
  (exists s, lived unborn bad_trace = Some s /\ at_rest s) /\
  exec (@daemonRun dns1123Validation (@rev closer) fragEngine
          good_viper "node-1" id) good_trace (Ok tt) /\
  lived unborn good_trace = Some (mkLife Closed Closed true).
Proof.
  assert (Hrev : forall l : list closer, rev l ≡ₚ l)
    by (intros l; symmetry; apply Permutation_rev).
  assert (Hex : exec (@daemonRun dns1123Validation (@rev closer) fragEngine
          bad_viper "node-1" id) bad_trace (Err bad_prefix)) by exec_compute.
  assert (Hgood : exec (@daemonRun dns1123Validation (@rev closer) fragEngine
          good_viper "node-1" id) good_trace (Ok tt)) by exec_compute.
  destruct (@daemonRun_closes dns1123Validation fragEngine (@rev closer)
              Hrev bad_viper "node-1" id bad_trace _ Hex) as (s & Hs & Hr & _).
  destruct (@daemonRun_closes dns1123Validation fragEngine (@rev closer)
              Hrev good_viper "node-1" id good_trace _ Hgood) as (s' & Hs' & _ & Hok).
  split; [exact Hex|]. split; [by exists s|]. split; [exact Hgood|].
  rewrite Hs'. by destruct (Hok eq_refl) as [-> _].
Defined.
