(* ===== verification/Defaults.v ===== *)
(** * The defaults

    What the commands read when they are started with the flags of
    [Startup.v]: [viper_of] answers the getters from a list of registrations,
    values given on the command line first.  The daemon and the config command
    are two processes with flags of their own; their defaults meet what
    [Startup.v], [EndToEnd.v] and [RuntimeClass.v] ask of them. *)

From S2P Require Import Prelude GoStrings Template Json Annotation Resolver Sha256 Kube Webhook.
From S2P Require Import Admission Patch Pipeline EndToEnd HostCalls Patcher ConfigCommand RuntimeClass.
From S2P Require Import Startup.
Local Open Scope go_scope.

(** ** Reading flags *)

(** A flag is read by its name, with the getter of its type; any other getter
    finds nothing of use. *)
Definition lookup_flag (name : string) (flags : list flag) : option flag :=
  List.find (fun f => bool_decide (flag_name f = name)) flags.

Definition viper_of (flags : list flag) : Viper := {|
  GetString k := match lookup_flag k flags with Some (FString _ v) => v | _ => "" end;
  GetBool k := match lookup_flag k flags with Some (FBool _ v) => v | _ => false end;
  GetInt k := match lookup_flag k flags with Some (FInt _ v) => v | _ => 0%Z end;
  GetDuration k := match lookup_flag k flags with Some (FDuration _ v) => v | _ => 0%Z end;
  GetStringSlice k := match lookup_flag k flags with Some (FStringSlice _ v) => v | _ => [] end;
  GetStringMapString k :=
    match lookup_flag k flags with Some (FStringToString _ v) => list_to_map v | _ => ∅ end
|}.

(** The daemon with its defaults; the config command with [--runtime-classes]. *)
Definition daemon_viper : Viper := viper_of daemonFlags.
Definition config_viper (bases : list string) : Viper :=
  viper_of (FStringSlice flagRuntimeClasses bases :: config_RegisterFlags).

Section Defaults.
Context `{T : TemplateEngine} `{!TemplateLaws T} `{V : DNSValidation}.

(** A text of the fragment parses. *)
Lemma fragment_parses text ns name :
  frag_parse (map fst templateFuncs) text = POk ns -> exists t, parseTemplate name text = Ok t.
Proof.
  intros Hp. destruct (engine_ok templateFuncs text ns Hp) as (t & Ht & _). by exists t.
Qed.

(** With the default flags, the resolver and the webhook's handler exist and
    use the same keys; both processes have one suffix for runtime names; and the
    config command probes, and registers with containerd, the socket that the
    daemon listens on. *)
Lemma defaults_fit range_ :
  (forall l, range_ l ≡ₚ l) -> IsDNS1123Subdomain defaultPrefix = [] ->
  newResolver daemon_viper = Ok default_resolver /\ has_default_templates daemon_viper /\
  exists h, New daemon_viper (Ok tt) (Ok tt) (Ok tt) range_ = Ok h /\
    pvcNameTmplAnnotation h = Key defaultPrefix annotationSuffixPVCNameTemplate /\
    is_Some (annotationTmpls h !! keyTemplate default_resolver) /\
    forall bases,
      runtimeClassSuffix h = GetString (config_viper bases) ConfigCommand.flagRuntimeClassSuffix /\
      GetSocketPath (config_viper bases) = GetUnixSocketPath daemon_viper.
Proof.
  intros Hperm Hdns.
  assert (Hval : validatePrefix defaultPrefix = Ok tt) by (unfold validatePrefix; by rewrite Hdns).
  assert (Hc : constructible daemon_viper (Ok tt) (Ok tt) (Ok tt)).
  { split; [done|exact Hval|by eapply (fragment_parses _ [NField "OwnerName" []])
      |by eapply (fragment_parses _ [])|].
    intros k text Hk. apply elem_of_list_to_map_2 in Hk. unfold defaultAnnotationTemplates in Hk.
    apply elem_of_cons in Hk as [[= -> ->]|Hk]; [by eapply fragment_parses, default_nodes_parse|].
    apply list_elem_of_singleton in Hk as [= -> ->].
    by eapply (fragment_parses _ [NField "PVName" []]). }
  split; [unfold newResolver, ResolvePrefix; change (GetString daemon_viper flagPrefix) with defaultPrefix;
          by rewrite Hval|]. split; [done|].
  apply (New_constructible _ _ _ _ range_ Hperm) in Hc as [h Hh]. exists h. split; [done|].
  destruct (New_well_formed _ _ _ _ _ _ Hperm Hh) as [_ _ Ho Ht _ (_ & Hs & _)].
  split; [exact Ho|]. split.
  - specialize (Ht (keyTemplate default_resolver)). destruct Ht as (t & _ & Ht). by exists t.
  - intros bases. by split.
Qed.
End Defaults.
