(* ===== verification/Concurrent.v ===== *)
(** * Requests served at the same time

    The gRPC and HTTP servers run every request in a goroutine of its own.
    Here a list of programs shares one world and the mutex of [dedupManager];
    one step is one call of one of them, chosen by nobody in particular.  A
    [Protocol] is an automaton over the events of a single goroutine that
    tells whether it is in the critical section; goroutines that follow one
    exclude each other, never deadlock and always finish. *)

From S2P Require Import Prelude GoStrings System Laws Mount Template Json Resolver Dedup Service.
Local Open Scope go_scope.

(** ** Interleavings *)

Definition is_mutex {X} (e : sysE X) : bool :=
  match e with MuLock | MuUnlock => true | _ => false end.

Record config (W A : Type) := mkConfig {
  threads : list (prog sysE A);
  holder : option nat;           (** who holds the mutex *)
  world : W
}.
Arguments mkConfig {W A}.
Arguments threads {W A}.
Arguments holder {W A}.
Arguments world {W A}.

Definition label := (nat * event sysE)%type.

(** [Lock] waits until the mutex is free.  [Unlock] frees it, whoever holds it:
    a Go mutex belongs to no goroutine (unlocking a free one is fatal: there
    is no step). *)
Inductive step {W A} (h : handler sysE W) : config W A -> label -> config W A -> Prop :=
| step_lock ts w i k :
    ts !! i = Some (Vis MuLock k) ->
    step h (mkConfig ts None w) (i, Ev MuLock tt) (mkConfig (<[i := k tt]> ts) (Some i) w)
| step_unlock ts o w i k :
    ts !! i = Some (Vis MuUnlock k) ->
    step h (mkConfig ts (Some o) w) (i, Ev MuUnlock tt) (mkConfig (<[i := k tt]> ts) None w)
| step_call ts o w i X (e : sysE X) k :
    ts !! i = Some (Vis e k) -> is_mutex e = false ->
    step h (mkConfig ts o w) (i, Ev e (fst (h X e w)))
         (mkConfig (<[i := k (fst (h X e w))]> ts) o (snd (h X e w))).

Inductive steps {W A} (h : handler sysE W) : config W A -> list label -> config W A -> Prop :=
| steps_refl c : steps h c [] c
| steps_snoc c tr c1 l c2 : steps h c tr c1 -> step h c1 l c2 -> steps h c (tr ++ [l]) c2.

(** All goroutines, none started, the mutex free. *)
Definition start {W A} (ps : list (prog sysE A)) (w : W) : config W A := mkConfig ps None w.

Definition finished {W A} (c : config W A) : Prop :=
  holder c = None /\ Forall (fun p => exists a, p = Ret a) (threads c).

(** A schedule, executed: at each turn the goroutine named next makes a step;
    [None] when it cannot. *)
Definition perform {W A X} (h : handler sysE W) (c : config W A) (i : nat) (e : sysE X)
    : (X -> prog sysE A) -> option (config W A) :=
  match e in sysE X return (X -> prog sysE A) -> option (config W A) with
  | MuLock => fun k =>
      match holder c with
      | None => Some (mkConfig (<[i := k tt]> (threads c)) (Some i) (world c))
      | Some _ => None
      end
  | MuUnlock => fun k =>
      match holder c with
      | Some _ => Some (mkConfig (<[i := k tt]> (threads c)) None (world c))
      | None => None
      end
  | e' => fun k =>
      let (x, w) := h _ e' (world c) in
      Some (mkConfig (<[i := k x]> (threads c)) (holder c) w)
  end.
Definition turn {W A} (h : handler sysE W) (c : config W A) (i : nat) : option (config W A) :=
  match threads c !! i with
  | Some (Vis e k) => perform h c i e k
  | _ => None
  end.

Fixpoint turns {W A} (h : handler sysE W) (c : config W A) (order : list nat)
    : option (config W A) :=
  match order with
  | [] => Some c
  | i :: order' => match turn h c i with Some c' => turns h c' order' | None => None end
  end.

Lemma turn_label {W A} (h : handler sysE W) (c : config W A) i c' :
  turn h c i = Some c' ->
  match threads c !! i with
  | Some (Vis e _) => step h c (i, Ev e (fst (h _ e (world c)))) c'
  | _ => False
  end.
Proof.
  unfold turn. destruct c as [ts o w]; simpl. destruct (ts !! i) as [[a|X e k]|] eqn:Hp; [done| |done].
  unfold perform. intros Ht. destruct (is_mutex e) eqn:Hm.
  - destruct e; try discriminate; destruct o; try discriminate; injection Ht as <-;
      destruct (fst _); by constructor.
  - assert (Heq : Some c' = Some (mkConfig (<[i := k (fst (h X e w))]> ts) o (snd (h X e w)))).
    { rewrite <-Ht. destruct e; try discriminate; cbn; by destruct (h _ _ w). }
    injection Heq as ->. by apply step_call.
Qed.

Lemma turn_step {W A} (h : handler sysE W) (c : config W A) i c' :
  turn h c i = Some c' -> exists ev, step h c (i, ev) c'.
Proof.
  intros Ht%turn_label. destruct (threads c !! i) as [[a|X e k]|]; [done|by eexists|done].
Qed.

Lemma steps_cons {W A} (h : handler sysE W) (c c1 c2 : config W A) l tr :
  step h c l c1 -> steps h c1 tr c2 -> steps h c (l :: tr) c2.
Proof.
  intros Hs Hst. revert Hs. induction Hst as [c1|c1 tr c2 l' c3 Hst IH Hs']; intros Hs.
  - exact (steps_snoc h c [] c l c1 (steps_refl h c) Hs).
  - rewrite app_comm_cons. eapply steps_snoc; [by apply IH|done].
Qed.

Lemma steps_app {W A} (h : handler sysE W) (c c1 c2 : config W A) tr1 tr2 :
  steps h c tr1 c1 -> steps h c1 tr2 c2 -> steps h c (tr1 ++ tr2) c2.
Proof.
  intros H1. induction 1 as [c1|c1 tr c2 l c3 _ IH Hs]; [by rewrite app_nil_r|].
  rewrite app_assoc. eapply steps_snoc; [by apply IH|done].
Qed.

Lemma turns_steps {W A} (h : handler sysE W) (c : config W A) order c' :
  turns h c order = Some c' -> exists tr, steps h c tr c' /\ map fst tr = order.
Proof.
  revert c. induction order as [|i order IH]; intros c; simpl.
  - intros [= <-]. exists []. by split; [constructor|].
  - destruct (turn h c i) as [c1|] eqn:Ht; [|done]. intros Hts.
    destruct (turn_step _ _ _ _ Ht) as [ev Hs], (IH _ Hts) as (tr & Hst & <-).
    exists ((i, ev) :: tr). split; [by eapply steps_cons|done].
Qed.

(** The trace that an executed schedule leaves. *)
Fixpoint labels {W A} (h : handler sysE W) (c : config W A) (order : list nat) : list label :=
  match order with
  | [] => []
  | i :: order' =>
      match threads c !! i, turn h c i with
      | Some (Vis e _), Some c' => (i, Ev e (fst (h _ e (world c)))) :: labels h c' order'
      | _, _ => []
      end
  end.

Lemma turns_labels {W A} (h : handler sysE W) (c : config W A) order c' :
  turns h c order = Some c' -> steps h c (labels h c order) c'.
Proof.
  revert c. induction order as [|i order IH]; intros c; simpl; [intros [= <-]; constructor|].
  destruct (turn h c i) as [c1|] eqn:Ht; [|done]. intros Hts. apply turn_label in Ht.
  destruct (threads c !! i) as [[a|X e k]|]; [done| |done].
  eapply steps_cons; [exact Ht|by apply IH].
Qed.

(** A schedule, cut at one of its steps. *)
Lemma steps_split {W A} (h : handler sysE W) (c c' : config W A) before l after :
  steps h c (before ++ l :: after) c' ->
  exists c1 c2, steps h c before c1 /\ step h c1 l c2 /\ steps h c2 after c'.
Proof.
  intros Hst. remember (before ++ l :: after) as tr eqn:Htr. revert after Htr.
  induction Hst as [c|c tr c1 l' c2 Hst IH Hs]; intros after Htr; [by destruct before|].
  destruct after as [|l2 after _] using rev_ind.
  - apply app_inj_tail in Htr as [-> ->]. exists c1, c2. split_and!; [done|done|constructor].
  - rewrite app_comm_cons, app_assoc in Htr. apply app_inj_tail in Htr as [-> ->].
    destruct (IH _ eq_refl) as (c3 & c4 & H1 & H2 & H3). exists c3, c4.
    split_and!; [done|done|by eapply steps_snoc].
Qed.

(** Who is in the critical section after a trace. *)
Definition in_section (o : option nat) (l : label) : option nat :=
  match l with
  | (i, Ev MuLock _) => Some i
  | (_, Ev MuUnlock _) => None
  | _ => o
  end.
Definition owner (tr : list label) : option nat := fold_left in_section tr None.

(** ** Protocols *)

Class Protocol (St : Type) := {
  initial : St;
  inside : St -> bool;
  move : St -> event sysE -> option St;
  initial_outside : inside initial = false;
  move_lock : forall s s', move s (Ev MuLock tt) = Some s' -> inside s = false /\ inside s' = true;
  move_unlock : forall s s', move s (Ev MuUnlock tt) = Some s' ->
    inside s = true /\ inside s' = false;
  move_other : forall s X (e : sysE X) x s', is_mutex e = false ->
    move s (Ev e x) = Some s' -> inside s' = inside s
}.

Section Conforms.
Context `{Protocol St} {A : Type}.

(** Whatever its calls answer, [p] started in [s] makes only moves of the
    protocol, and [Q] holds where it ends. *)
Fixpoint conforms (s : St) (p : prog sysE A) (Q : St -> A -> Prop) : Prop :=
  match p with
  | Ret a => Q s a
  | Vis e k => forall x, exists s', move s (Ev e x) = Some s' /\ conforms s' (k x) Q
  end.
End Conforms.

Definition follows `{Protocol St} {A} (p : prog sysE A) : Prop :=
  conforms initial p (fun s _ => inside s = false).

Lemma conforms_weaken `{Protocol St} {A} s (p : prog sysE A) (Q R : St -> A -> Prop) :
  (forall s' a, Q s' a -> R s' a) -> conforms s p Q -> conforms s p R.
Proof.
  intros HQ. revert s. induction p as [a|X e k IH]; intros s; simpl; [apply HQ|].
  intros Hc x. destruct (Hc x) as (s' & Hm & Hk). eauto.
Qed.

Lemma conforms_bind `{Protocol St} {A B} s (p : prog sysE A) (f : A -> prog sysE B) Q :
  conforms s p (fun s' a => conforms s' (f a) Q) -> conforms s (bind p f) Q.
Proof.
  revert s. induction p as [a|X e k IH]; intros s; simpl; [done|].
  intros Hc x. destruct (Hc x) as (s' & Hm & Hk). eauto.
Qed.

(** ** Goroutines that follow a protocol *)

Section Discipline.
Context `{Protocol St} {W A : Type} (h : handler sysE W).
Implicit Types c : config W A.

(** Every goroutine conforms from its state, and is in the critical section
    exactly when it holds the mutex. *)
Definition well (c : config W A) (ss : list St) : Prop :=
  length ss = length (threads c) /\
  (forall i s p, ss !! i = Some s -> threads c !! i = Some p ->
     conforms s p (fun s' _ => inside s' = false) /\ (inside s = true <-> holder c = Some i)) /\
  (forall i, holder c = Some i -> i < length ss).

Lemma start_well (ps : list (prog sysE A)) w :
  Forall follows ps -> well (start ps w) (replicate (length ps) initial).
Proof.
  intros Hf. split_and!; [by rewrite length_replicate| |done].
  intros i s p (-> & _)%lookup_replicate Hp. split.
  - exact (Forall_lookup_1 _ _ _ _ Hf Hp).
  - simpl. by rewrite initial_outside.
Qed.

Lemma well_state c ss i p :
  well c ss -> threads c !! i = Some p -> exists s, ss !! i = Some s.
Proof.
  intros (Hlen & _ & _) Hp. apply lookup_lt_Some in Hp. rewrite <-Hlen in Hp.
  by apply lookup_lt_is_Some_2 in Hp.
Qed.

(** One goroutine moves from [s] to [s'], the others stay. *)
Lemma well_move ts ts' o o' w w' ss i s s' p' :
  well (mkConfig ts o w) ss -> ss !! i = Some s -> ts' = <[i := p']> ts ->
  conforms s' p' (fun s' _ => inside s' = false) ->
  (inside s' = true <-> o' = Some i) ->
  (forall j, j <> i -> (o = Some j <-> o' = Some j)) ->
  well (mkConfig ts' o' w') (<[i := s']> ss).
Proof.
  intros (Hlen & Hall & Hlt) Hs -> Hc Hin Hother; unfold well; simpl in *. split_and!.
  - by rewrite !length_insert.
  - intros j sj pj Hsj Hpj. destruct (decide (j = i)) as [->|Hne].
    + rewrite list_lookup_insert_eq in Hsj by by eapply lookup_lt_Some.
      rewrite list_lookup_insert_eq in Hpj by (rewrite <-Hlen; by eapply lookup_lt_Some).
      by simplify_eq.
    + rewrite list_lookup_insert_ne in Hsj by done. rewrite list_lookup_insert_ne in Hpj by done.
      destruct (Hall _ _ _ Hsj Hpj) as [? ->]. split; [done|]. by apply Hother.
  - intros j Hj. rewrite length_insert. destruct (decide (j = i)) as [->|Hne].
    + by eapply lookup_lt_Some.
    + apply Hlt. by apply Hother.
Qed.

Lemma step_well c ss i ev c' :
  well c ss -> step h c (i, ev) c' ->
  exists s s', ss !! i = Some s /\ move s ev = Some s' /\ well c' (<[i := s']> ss) /\
    holder c' = in_section (holder c) (i, ev).
Proof.
  intros Hw Hst. inversion Hst as
    [ts w j k Hp|ts o w j k Hp|ts o w j X e k Hp Hm]; subst;
    destruct (well_state _ _ _ _ Hw Hp) as [s Hs]; destruct Hw as (Hlen & Hall & Hlt) eqn:Hweq;
    clear Hweq; destruct (Hall _ _ _ Hs Hp) as [Hc Hin]; simpl in Hin.
  - destruct (Hc tt) as (s' & Hmv & Hk). exists s, s'.
    destruct (move_lock _ _ Hmv) as [_ Hin'].
    split_and!; [done..| |done].
    eapply well_move; [exact Hw|done..| |]; [by rewrite Hin'|].
    intros l Hne. split; [done|]. intros [= ->]. done.
  - destruct (Hc tt) as (s' & Hmv & Hk). exists s, s'.
    destruct (move_unlock _ _ Hmv) as [Hins Hin'].
    apply Hin in Hins as [= ->].
    split_and!; [done..| |done].
    eapply well_move; [exact Hw|done..| |]; [by rewrite Hin'|].
    intros l Hne. split; [intros [= ->]; done|done].
  - destruct (Hc (fst (h X e w))) as (s' & Hmv & Hk). exists s, s'.
    pose proof (move_other _ _ _ _ _ Hm Hmv) as Hin'.
    split_and!; [done..| |by destruct e].
    eapply well_move; [exact Hw|done..| |done]. by rewrite Hin'.
Qed.

Lemma steps_well c ss tr c' :
  well c ss -> steps h c tr c' ->
  exists ss', well c' ss' /\ holder c' = fold_left in_section tr (holder c).
Proof.
  intros Hw Hst. induction Hst as [c|c tr c1 [i ev] c2 Hst IH Hs]; [by exists ss|].
  destruct (IH Hw) as (ss1 & Hw1 & Ho1).
  destruct (step_well _ _ _ _ _ Hw1 Hs) as (s & s' & _ & _ & Hw2 & Ho2).
  exists (<[i := s']> ss1). split; [done|]. by rewrite fold_left_app, <-Ho1.
Qed.

(** An event that the protocol only allows inside comes from the owner. *)
Lemma steps_guarded (g : event sysE -> bool) c ss tr c' :
  (forall s ev s', move s ev = Some s' -> g ev = true -> inside s = true) ->
  well c ss -> holder c = None -> steps h c tr c' ->
  forall before i ev after, tr = before ++ (i, ev) :: after -> g ev = true ->
  owner before = Some i.
Proof.
  intros Hg Hw Hfree Hst. induction Hst as [c|c tr c1 [j ev'] c2 Hst IH Hs];
    intros before i ev after Heq Hev; [by destruct before|].
  destruct after as [|l after _] using rev_ind.
  - apply app_inj_tail in Heq as [-> [= <- <-]].
    destruct (steps_well _ _ _ _ Hw Hst) as (ss1 & Hw1 & Ho). rewrite Hfree in Ho.
    destruct (step_well _ _ _ _ _ Hw1 Hs) as (s & s' & Hl & Hm & _ & _).
    specialize (Hg _ _ _ Hm Hev). destruct Hw1 as (Hlen & Hall & _).
    assert (Hp : j < length (threads c1)) by (rewrite <-Hlen; by eapply lookup_lt_Some).
    apply lookup_lt_is_Some_2 in Hp as [p Hp]. destruct (Hall _ _ _ Hl Hp) as [_ Hin].
    unfold owner. rewrite <-Ho. by apply Hin.
  - rewrite app_comm_cons, app_assoc in Heq. apply app_inj_tail in Heq as [Heq _].
    by eapply IH.
Qed.

Lemma all_returned_or (ts : list (prog sysE A)) :
  Forall (fun p => exists a, p = Ret a) ts \/
  exists i X (e : sysE X) k, ts !! i = Some (Vis e k).
Proof.
  induction ts as [|[a|X e k] ts IH].
  - by left.
  - destruct IH as [IH|(i & IH)]; [left; constructor; eauto|]. right. by exists (S i).
  - right. by exists 0, X, e, k.
Qed.

(** Some goroutine can always go on until all have returned. *)
Lemma well_progress c ss : well c ss -> finished c \/ exists l c', step h c l c'.
Proof.
  intros (Hlen & Hall & Hlt). destruct c as [ts o w]; simpl in *. destruct o as [j|].
  - right. specialize (Hlt j eq_refl). pose proof Hlt as Hlt'. rewrite Hlen in Hlt'.
    apply lookup_lt_is_Some_2 in Hlt as [s Hs]. apply lookup_lt_is_Some_2 in Hlt' as [p Hp].
    destruct (Hall _ _ _ Hs Hp) as [Hc Hin]. assert (Hi : inside s = true) by by apply Hin.
    destruct p as [a|X e k]; [simpl in Hc; congruence|].
    destruct (is_mutex e) eqn:Hm; [|by eexists _, _; apply step_call].
    destruct e; try discriminate; [|by eexists _, _; apply step_unlock].
    destruct (Hc tt) as (s' & [? _]%move_lock & _). congruence.
  - destruct (all_returned_or ts) as [Hf|(i & X & e & k & Hp)]; [by left|right].
    destruct (is_mutex e) eqn:Hm; [|by eexists _, _; apply step_call].
    destruct e; try discriminate; [by eexists _, _; apply step_lock|].
    assert (Hs : i < length ss) by (rewrite Hlen; by eapply lookup_lt_Some).
    apply lookup_lt_is_Some_2 in Hs as [s Hs].
    destruct (Hall _ _ _ Hs Hp) as [Hc Hin].
    destruct (Hc tt) as (s' & [Hi _]%move_unlock & _). apply Hin in Hi. discriminate.
Qed.
End Discipline.

(** ** Every schedule ends *)

(** A step replaces one program by a subprogram of it. *)
Definition child {A} (p' p : prog sysE A) : Prop :=
  match p with Ret _ => False | Vis e k => exists x, p' = k x end.
Definition shrinks {A} (ts' ts : list (prog sysE A)) : Prop :=
  exists i p p', ts !! i = Some p /\ child p' p /\ ts' = <[i := p']> ts.

Lemma step_shrinks {W A} (h : handler sysE W) (c : config W A) l c' :
  step h c l c' -> shrinks (threads c') (threads c).
Proof.
  intros Hs. inversion Hs; subst; simpl; eexists _, _, _; (split_and!; [eassumption| |reflexivity]);
    by eexists.
Qed.

Lemma shrinks_nil {A} : Acc (@shrinks A) [].
Proof. constructor. intros ts' (i & p & p' & Hl & _). by rewrite lookup_nil in Hl. Qed.

Lemma shrinks_cons {A} (p : prog sysE A) ts : Acc shrinks ts -> Acc shrinks (p :: ts).
Proof.
  intros Hts. revert p. induction Hts as [ts _ IHts]. intros p.
  induction p as [a|X e k IHk]; constructor; intros ts' ([|i] & q & q' & Hl & Hq & ->);
    simpl in Hl |- *; try (apply IHts; by exists i, q, q'); simplify_eq; simpl in Hq; [done|].
  destruct Hq as [x ->]. apply IHk.
Qed.

Lemma shrinks_wf {A} (ts : list (prog sysE A)) : Acc shrinks ts.
Proof. induction ts as [|p ts IH]; [apply shrinks_nil|by apply shrinks_cons]. Qed.

(** No schedule is infinite. *)
Lemma step_wf {W A} (h : handler sysE W) (c : config W A) :
  Acc (fun c' c => exists l, step h c l c') c.
Proof.
  remember (threads c) as ts eqn:Hts. revert c Hts.
  induction (shrinks_wf ts) as [ts _ IH]. intros c ->. constructor.
  intros c' [l Hs]. eapply IH; [|reflexivity]. by eapply step_shrinks.
Qed.

(** ** The lock discipline of the service *)

(** The file system below a snapshot is only rewritten under the mutex. *)
Definition rewrites_layer (ev : event sysE) : bool :=
  match ev with Ev (OsRemoveAll _) _ | Ev (OsSymlink _ _) _ => true | _ => false end.

Definition lock_move (locked : bool) (ev : event sysE) : option bool :=
  match ev with
  | Ev MuLock _ => if locked then None else Some true
  | Ev MuUnlock _ => if locked then Some false else None
  | Ev (OsRemoveAll _) _ | Ev (OsSymlink _ _) _ => if locked then Some true else None
  | _ => Some locked
  end.

#[export, refine] Instance lockProtocol : Protocol bool := {|
  initial := false; inside locked := locked; move := lock_move
|}.
Proof.
  - done.
  - by intros [] [].
  - by intros [] [].
  - by intros [] X [] x [].
Defined.

(** Take a program through its calls; [conform tac] uses [tac] for the parts
    that are loops. *)
Ltac conform tac :=
  repeat first
    [ progress cbn [conforms bind call]
    | match goal with
      | |- forall _, _ => let x := fresh "x" in intros x
      | |- exists s', _ = Some s' /\ _ => eexists; split; [reflexivity|]
      | |- conforms _ (match ?x with _ => _ end) _ => destruct x
      | |- conforms _ (bind (match ?x with _ => _ end) _) _ => destruct x
      | |- conforms _ (bind (bind _ _) _) _ => apply conforms_bind
      end
    | tac ].

Section Serve.
Context `{TemplateEngine} `{JsonParser}.

(** Runs outside or inside the critical section alike, and stays there. *)
Definition neutral {A} (p : prog sysE A) : Prop := forall s, conforms s p (fun s' _ => s' = s).

Lemma neutral_bind {A B} s (p : prog sysE A) (f : A -> prog sysE B) Q :
  neutral p -> (forall a, conforms s (f a) Q) -> conforms s (bind p f) Q.
Proof.
  intros Hp Hf. apply conforms_bind. eapply conforms_weaken; [|apply Hp].
  intros s' a ->. apply Hf.
Qed.

Lemma unpinLoop_neutral m ns all : neutral (unpinLoop m ns all).
Proof. intros s. induction all as [|l all IH]; simpl; conform ltac:(first [exact IH|done]). Qed.
Lemma countLoop_neutral ctx all n : neutral (countLoop ctx all n).
Proof.
  intros s. revert n. induction all as [|l all IH]; intros n; simpl;
    conform ltac:(first [apply IH|done]).
Qed.
Lemma gcLoop_neutral m ctx ns all n : neutral (gcLoop m ctx ns all n).
Proof.
  intros s. revert n. induction all as [|l all IH]; intros n; simpl;
    conform ltac:(first [apply IH|done]).
Qed.
Lemma mkSubdirs_neutral root subs : neutral (mkSubdirs root subs).
Proof.
  intros s. induction subs as [|d subs IH]; simpl; conform ltac:(first [apply IH|done]).
Qed.
Lemma resolve_neutral r key : neutral (resolveAtMountsTime r key).
Proof.
  intros s. unfold resolveAtMountsTime, upperdirFromSandboxID, upperdirFromSandboxContainer.
  conform done.
Qed.
Lemma ready_neutral root : neutral (ensureUpperdirReady root).
Proof. intros s. unfold ensureUpperdirReady. conform ltac:(apply mkSubdirs_neutral || done). Qed.
Lemma pinLayer_neutral m ns chainID key : neutral (pinLayer m ns chainID key).
Proof. intros s. unfold pinLayer. conform done. Qed.

Lemma Stat_follows sn ctx key : follows (Stat sn ctx key).
Proof.
  unfold follows, Stat, statWithLazyMaterialise, overlayfsLayerPath, materialiseLocked,
    resolveParentChainID, materializeReference, replaceWithSymlink.
  conform done.
Qed.

Lemma follows_unit {A} (p : prog sysE A) : follows p -> follows (p ;; Ret tt).
Proof.
  intros Hp. apply conforms_bind. eapply conforms_weaken; [|exact Hp]. done.
Qed.

(** Every request of the service keeps to the lock discipline. *)
Lemma serve_follows sn q : follows (serve sn q).
Proof.
  destruct q; unfold serve; try (apply follows_unit); try apply Stat_follows;
    unfold follows, Update, Usage_, Mounts, Prepare, View, Commit, Remove, Walk, Cleanup,
      RegisterScrapeHook, countOrphanLeases, handleListLeases, listManagedLeases,
      handleDeleteLease, deleteLease, handleGCLeases, gcOrphanLeases, unpinByActiveKey;
    conform ltac:(first
      [ apply neutral_bind; [first [apply resolve_neutral | apply ready_neutral
                                   | apply pinLayer_neutral | apply unpinLoop_neutral
                                   | apply countLoop_neutral | apply gcLoop_neutral]|]
      | done ]).
Qed.
End Serve.

(** ** Schedules of the service *)

(** What only the owner of the mutex may do: rewrite a layer's directory, and
    unlock. *)
Definition owner_only (ev : event sysE) : bool :=
  match ev with Ev MuUnlock _ => true | _ => rewrites_layer ev end.

Lemma lock_guards s ev s' : lock_move s ev = Some s' -> owner_only ev = true -> s = true.
Proof. destruct ev as [X e x]. destruct s; [done|]. by destruct e. Qed.

Section Schedules.
Context `{TemplateEngine} `{JsonParser} {W : Type} (h : handler sysE W).

(** C20 Requests served at the same time, in any number and order, against any
    environment: only the goroutine that holds the mutex rewrites a layer's
    directory or unlocks; as long as a request is unanswered some goroutine
    can go on (no deadlock), and when all have returned the mutex is free; and
    no schedule is infinite. *)
Theorem service_schedules sn qs w tr c :
  steps h (start (map (serve sn) qs) w) tr c ->
  holder c = owner tr /\
  (forall before i ev after, tr = before ++ (i, ev) :: after -> owner_only ev = true ->
     owner before = Some i) /\
  (finished c \/ exists l c', step h c l c') /\
  Acc (fun c' c => exists l, step h c l c') c.
Proof.
  intros Hst.
  assert (Hw : well (start (map (serve sn) qs) w) (replicate (length (map (serve sn) qs)) initial)).
  { apply start_well. apply Forall_forall. intros p (q & -> & _)%list_elem_of_fmap.
    apply serve_follows. }
  destruct (steps_well h _ _ _ _ Hw Hst) as (ss & Hw' & Ho).
  split_and!; [exact Ho| | |apply step_wf].
  - exact (steps_guarded h owner_only _ _ _ _ lock_guards Hw eq_refl Hst).
  - exact (well_progress h _ _ Hw').
Qed.
End Schedules.
