(* ===== verification/Materialise.v ===== *)
(** * Concurrent [Stat]s materialise a layer once

    containerd asks for every layer of an image, often for several pods at the
    same time.  The protocol of one [Stat] (below) says what it may do in its
    critical section; over a snapshotter that keeps its documented promises
    ([SnapLaws]) it follows that a layer that is there is not built again. *)

From S2P Require Import Prelude GoStrings System Laws Mount Template Json Resolver Dedup Service.
From S2P Require Import Concurrent.
Local Open Scope go_scope.

(** ** The protocol of one [Stat]

    [Absent k]: in the critical section, after the re-check did not find the
    layer [k] and before it was committed. *)
Inductive phase := Outside | Inside | Absent (k : string).

Definition stat_move (s : phase) (ev : event sysE) : option phase :=
  match ev with
  | Ev MuLock _ => match s with Outside => Some Inside | _ => None end
  | Ev MuUnlock _ => match s with Outside => None | _ => Some Outside end
  | Ev (SnStat _ _) (Ok _) => match s with Outside => Some Outside | _ => Some Inside end
  | Ev (SnStat _ key) (Err _) =>
      match s with
      | Outside => Some Outside
      | _ => if isChainID key then Some (Absent key) else None
      end
  | Ev (SnPrepare _ key _ _) _ | Ev (SnRemove _ key) _ =>
      match s with
      | Absent k => if decide (key = refTmpKey k) then Some s else None
      | _ => None
      end
  | Ev (SnCommit _ name key _) x =>
      match s with
      | Absent k =>
          if decide (name = k /\ key = refTmpKey k)
          then Some (match x with Ok _ => Inside | Err _ => s end) else None
      | _ => None
      end
  | Ev (OsRemoveAll _) _ | Ev (OsSymlink _ _) _ =>
      match s with Absent _ => Some s | _ => None end
  | Ev (SnMounts _ _) _ | Ev (OvlStat _ _) _ | Ev (OvlView _ _ _) _ | Ev (OvlRemove _ _) _ =>
      Some s
  | _ => None
  end.

Definition in_phase (s : phase) : bool := match s with Outside => false | _ => true end.

Ltac phase_cases Hm :=
  repeat match type of Hm with
  | context [match ?x with _ => _ end] => destruct x
  end; simplify_eq.

#[export, refine] Instance statProtocol : Protocol phase := {|
  initial := Outside; inside := in_phase; move := stat_move
|}.
Proof.
  - done.
  - by intros [] s' [= <-].
  - by intros [] s' [= <-].
  - intros s X e x s' He Hm. destruct e; try discriminate; simpl in *; phase_cases Hm; done.
Defined.

Lemma Stat_phases sn ctx key : follows (St:=phase) (Stat sn ctx key).
Proof.
  unfold follows, Stat, statWithLazyMaterialise, overlayfsLayerPath, materialiseLocked,
    resolveParentChainID, materializeReference, replaceWithSymlink.
  destruct (isChainID key) eqn:Hkey; cbn [negb];
    conform ltac:(first
      [ match goal with
        | |- context [move _ (Ev (SnStat _ _) ?x)] => is_var x; destruct x
        end
      | eexists; split;
          [cbn [move statProtocol stat_move];
           rewrite ?Hkey, ?decide_True by done; reflexivity|]
      | done ]).
Qed.

(** ** What the phases mean for the snapshots *)

Lemma chainID_not_tmp k k' : isChainID k = true -> k <> refTmpKey k'.
Proof. by intros Hk ->. Qed.

(** Work on the layer [name]: preparing its temporary snapshot, or committing
    it. *)
Definition works_on (name : string) (ev : event sysE) : bool :=
  match ev with
  | Ev (SnPrepare _ key _ _) _ => bool_decide (key = refTmpKey name)
  | Ev (SnCommit _ n _ _) _ => bool_decide (n = name)
  | _ => false
  end.
Definition commits (name : string) (ev : event sysE) : bool :=
  match ev with Ev (SnCommit _ n _ _) (Ok _) => bool_decide (n = name) | _ => false end.

Lemma refTmpKey_inj k k' : refTmpKey k = refTmpKey k' -> k = k'.
Proof. unfold refTmpKey. intros H. by repeat injection H as H. Qed.

Lemma works_on_absent s ev s' name :
  stat_move s ev = Some s' -> works_on name ev = true -> s = Absent name.
Proof.
  destruct ev as [X e x]. intros Hm Hw. destruct e; simpl in *; try done;
    apply bool_decide_eq_true in Hw; subst; phase_cases Hm; repeat case_decide; simplify_eq;
    destruct_and?; simplify_eq; try done; f_equal; symmetry; by apply refTmpKey_inj.
Qed.

Section Once.
Context {W : Type} (h : handler sysE W) (sv : W -> gset string).
Context `{!SnapLaws h sv} (reliable : stat_reliable h sv).

(** What a goroutine in phase [s] knows. *)
Definition knows (s : phase) (w : W) : Prop :=
  forall k, s = Absent k -> isChainID k = true /\ k ∉ sv w.

(** One call of a [Stat], as a change from [w] to [w']: its own knowledge stays
    true, no layer is lost, and outside the critical section no snapshot
    changes. *)
Definition sound_step (s s' : phase) (committed : string -> bool) (w w' : W) : Prop :=
  knows s' w' /\
  (forall k, isChainID k = true -> k ∈ sv w \/ committed k = true -> k ∈ sv w') /\
  (s = Outside -> sv w' = sv w).

Lemma sound_kept s s' w w' :
  knows s w -> sv w' = sv w -> (forall k, s' = Absent k -> s = Absent k) ->
  sound_step s s' (fun _ => false) w w'.
Proof.
  unfold sound_step, knows. intros Hk -> Hs. split_and!; [by eauto| |done].
  by intros k _ [Hin|?].
Qed.

(** Adding or deleting the temporary key of [k0] touches no layer. *)
Lemma sound_tmp k0 w w' :
  knows (Absent k0) w ->
  sv w' = sv w \/ sv w' = {[refTmpKey k0]} ∪ sv w \/ sv w' = sv w ∖ {[refTmpKey k0]} ->
  sound_step (Absent k0) (Absent k0) (fun _ => false) w w'.
Proof.
  intros Hk Hsv. unfold sound_step, knows in *. destruct (Hk k0 eq_refl) as [Hc Hni].
  pose proof (chainID_not_tmp k0 k0 Hc). split_and!; [|intros k Hck [Hin|]; [|done]|done].
  - intros k [= <-]. split; [done|]. destruct Hsv as [->|[->| ->]]; set_solver.
  - pose proof (chainID_not_tmp k k0 Hck). destruct Hsv as [->|[->| ->]]; set_solver.
Qed.

Lemma stat_call s X (e : sysE X) w s' :
  knows s w -> stat_move s (Ev e (fst (h X e w))) = Some s' ->
  sound_step s s' (fun k => commits k (Ev e (fst (h X e w)))) w (snd (h X e w)).
Proof.
  intros Hk Hm.
  assert (Hkeep : keeps_snaps e = true -> sv (snd (h X e w)) = sv w) by apply snap_keep.
  destruct e; cbn [stat_move keeps_snaps commits] in *; try discriminate;
    try (apply sound_kept; [done|by apply Hkeep|intros k ->; phase_cases Hm; done]).
  - pose proof (reliable ctx key w) as Hr. specialize (Hkeep eq_refl).
    destruct (h _ (SnStat ctx key) w) as [[i|e] w']; simpl in *.
    + apply sound_kept; [done..|]. intros k ->. by phase_cases Hm.
    + unfold sound_step, knows. rewrite Hkeep. split_and!; [|by intros k _ [?|?]|done].
      intros k ->. destruct s; simplify_eq; destruct (isChainID key) eqn:Hc; simplify_eq;
        (split; [done|by eapply Hr]).
  - destruct s as [| |k0]; try discriminate. case_decide; simplify_eq. apply sound_tmp; [done|].
    pose proof (snap_prepare ctx (refTmpKey k0) parent opts w) as Hp.
    destruct (h _ (SnPrepare _ _ _ _) w) as [[|] w']; simpl in *; auto.
  - destruct s as [| |k0]; try discriminate. case_decide as Hd; simplify_eq.
    destruct Hd as [-> ->].
    pose proof (snap_commit ctx k0 (refTmpKey k0) opts w) as Hp.
    destruct (h _ (SnCommit _ _ _ _) w) as [[u|e] w']; simpl in *; [|by apply sound_tmp; auto].
    unfold sound_step, knows. rewrite Hp. split_and!; [done| |done].
    intros k Hck [Hin|Heq%bool_decide_eq_true].
    + pose proof (chainID_not_tmp k k0 Hck). set_solver.
    + set_solver.
  - destruct s as [| |k0]; try discriminate. case_decide; simplify_eq. apply sound_tmp; [done|].
    pose proof (snap_remove ctx (refTmpKey k0) w) as Hp.
    destruct (h _ (SnRemove _ _) w) as [[|] w']; simpl in *; auto.
Qed.

(** ** Schedules of [Stat]s *)

Context {A : Type}.
Implicit Types c : config W A.

Lemma step_sound c ss i ev c' :
  well (St:=phase) c ss -> (forall j s, ss !! j = Some s -> knows s (world c)) ->
  step h c (i, ev) c' ->
  exists s s', ss !! i = Some s /\ stat_move s ev = Some s' /\ well c' (<[i := s']> ss) /\
    sound_step s s' (fun k => commits k ev) (world c) (world c').
Proof.
  intros Hw Hk Hst. destruct (step_well h _ _ _ _ _ Hw Hst) as (s & s' & Hs & Hm & Hw' & _).
  exists s, s'. split_and!; [done..|]. specialize (Hk _ _ Hs).
  inversion Hst; subst; simpl in *;
    [apply sound_kept; [done..|intros k' ->; by destruct s]
    |apply sound_kept; [done..|intros k' ->; by destruct s]|by apply stat_call].
Qed.

(** The others know what they knew. *)
Lemma others_know c ss i s s' committed c' j sj :
  well (St:=phase) c ss -> ss !! i = Some s ->
  (forall j s, ss !! j = Some s -> knows s (world c)) ->
  sound_step s s' committed (world c) (world c') ->
  <[i := s']> ss !! j = Some sj -> knows sj (world c').
Proof.
  intros (Hlen & Hall & _) Hs Hk (Hown & _ & Hout) Hj.
  destruct (decide (j = i)) as [->|Hne].
  { rewrite list_lookup_insert_eq in Hj by by eapply lookup_lt_Some. by simplify_eq. }
  rewrite list_lookup_insert_ne in Hj by done. intros k ->. rewrite Hout; [by eapply Hk|].
  assert (Hin : forall l sl, ss !! l = Some sl -> in_phase sl = true -> holder c = Some l).
  { intros l sl Hl Hi. assert (Hp : l < length (threads c)) by (rewrite <-Hlen; by eapply lookup_lt_Some).
    apply lookup_lt_is_Some_2 in Hp as [p Hp]. by apply (Hall _ _ _ Hl Hp). }
  pose proof (Hin _ _ Hj eq_refl) as Hhj.
  destruct s; [done|pose proof (Hin _ _ Hs eq_refl); congruence..].
Qed.

(** The state of a schedule from [w0]. *)
Definition stat_inv (w0 : W) (tr : list label) (c : config W A) (ss : list phase) : Prop :=
  well c ss /\ (forall j s, ss !! j = Some s -> knows s (world c)) /\
  (forall k, isChainID k = true -> k ∈ sv w0 \/ count (commits k) (map snd tr) <> 0 ->
     k ∈ sv (world c)).

Lemma steps_inv (ps : list (prog sysE A)) w0 c tr c' :
  Forall (follows (St:=phase)) ps -> c = start ps w0 -> steps h c tr c' ->
  exists ss, stat_inv w0 tr c' ss.
Proof.
  intros Hf Hc Hst. induction Hst as [c|c tr c1 [i ev] c2 Hst IH Hs].
  - subst c. exists (replicate (length ps) initial). split_and!.
    + by apply start_well.
    + intros j s [-> _]%lookup_replicate k [=].
    + by intros k _ [Hin|[]].
  - destruct (IH Hc) as (ss & Hw & Hk & Hl).
    destruct (step_sound _ _ _ _ _ Hw Hk Hs) as (s & s' & Hi & Hm & Hw2 & Hsd).
    exists (<[i := s']> ss). split_and!; [done| |].
    { intros j sj Hj. exact (others_know _ _ _ _ _ _ _ _ _ Hw Hi Hk Hsd Hj). }
    intros k Hck Hin. destruct Hsd as (_ & Hsd & _). apply Hsd; [done|].
    rewrite map_app, count_app in Hin. cbn [map count snd] in Hin.
    destruct (commits k ev); [by right|left]. apply Hl; [done|].
    destruct Hin as [?|Hn]; [by left|right]. by rewrite Nat.add_0_r in Hn.
Qed.

Lemma steps_work (ps : list (prog sysE A)) w0 c tr c' :
  Forall (follows (St:=phase)) ps -> c = start ps w0 -> steps h c tr c' ->
  forall before i ev after name, tr = before ++ (i, ev) :: after -> works_on name ev = true ->
  isChainID name = true /\ name ∉ sv w0 /\ count (commits name) (map snd before) = 0.
Proof.
  intros Hf Hc Hst. induction Hst as [c|c tr c1 [j ev'] c2 Hst IH Hs];
    intros before i ev after name Heq Hev; [by destruct before|].
  destruct after as [|l after _] using rev_ind.
  - apply app_inj_tail in Heq as [-> [= <- <-]].
    destruct (steps_inv _ _ _ _ _ Hf Hc Hst) as (ss & Hw & Hk & Hl).
    destruct (step_sound _ _ _ _ _ Hw Hk Hs) as (s & s' & Hi & Hm & _ & _).
    rewrite (works_on_absent _ _ _ _ Hm Hev) in Hi.
    destruct (Hk _ _ Hi name eq_refl) as [Hck Hni].
    split_and!; [done|contradict Hni; by apply Hl; [|left]|].
    destruct (decide (count (commits name) (map snd before) = 0)) as [|Hn]; [done|].
    contradict Hni. by apply Hl; [|right].
  - rewrite app_comm_cons, app_assoc in Heq. apply app_inj_tail in Heq as [Heq _].
    by eapply IH.
Qed.
End Once.

(** C19 A layer is built once.  However many [Stat]s run at the same time, none
    of them prepares or commits a layer that was there at the start or that
    one of them has committed since - so no materialisation fails because
    another one won, and none is repeated.  The one at work holds the mutex. *)
Theorem materialised_once {W} (h : handler sysE W) (sv : W -> gset string) sn qs w tr c :
  SnapLaws h sv -> stat_reliable h sv ->
  steps h (start (map (fun '(ctx, key) => Stat sn ctx key) qs) w) tr c ->
  forall before i ev after name, tr = before ++ (i, ev) :: after -> works_on name ev = true ->
  owner before = Some i /\ isChainID name = true /\ name ∉ sv w /\
  count (commits name) (map snd before) = 0.
Proof.
  intros HL Hrel Hst before i ev after name Heq Hev.
  assert (Hf : Forall (follows (St:=phase)) (map (fun '(ctx, key) => Stat sn ctx key) qs)).
  { apply Forall_forall. intros p ([ctx key] & -> & _)%list_elem_of_fmap. apply Stat_phases. }
  split; [|by eapply steps_work].
  refine (steps_guarded h (works_on name) _ _ _ _ _ (start_well _ _ Hf) eq_refl Hst _ _ _ _ Heq Hev).
  intros s ev' s' Hm Hw. by rewrite (works_on_absent _ _ _ _ Hm Hw).
Qed.
