(* ===== verification/Survival.v ===== *)
(** * Leases under concurrent requests

    [LeaseState.v] follows a lease through requests that are served one after
    the other.  Here they are served at the same time: a sweep may look at a
    lease, wait, and go on after any number of other calls.  The argument is
    rely and guarantee over the calls of one goroutine: as long as the answers
    it gets are those of a world with the lease and its snapshot, it makes no
    call that takes either away.  A lease that is only being created is covered
    from its first call: no sweep can have seen it without the snapshot that
    owns it.  A lease that stays keeps the layer it was given to hold. *)

From S2P Require Import Prelude GoStrings System Laws Mount Template Json Annotation.
From S2P Require Import Resolver Dedup Service LeaseState Concurrent Materialise.
Local Open Scope go_scope.

(** ** Keys *)

(** The temporary snapshot of a layer has no owner's key. *)
Lemma refTmpKey_not_owner key chainID :
  is_Some (parseSnapshotKey key) -> isChainID chainID = true -> key <> refTmpKey chainID.
Proof.
  intros [[ns id] (seq & -> & _)%parseSnapshotKey_iff] (hex & -> & _ & Hhex)%isChainID_iff Heq.
  assert (Hin : "/"%char ∈ bytes (refTmpKey ("sha256:" +:+ hex))).
  { rewrite <-Heq, !bytes_app. set_solver. }
  unfold refTmpKey in Hin. rewrite !bytes_app in Hin.
  apply elem_of_app in Hin as [Hin|[Hin|Hin]%elem_of_app].
  - revert Hin. by apply (bool_decide_unpack _).
  - revert Hin. by apply (bool_decide_unpack _).
  - apply Hhex in Hin. change (nat_of_ascii "/") with 47 in Hin. lia.
Qed.

(** ** Rely and guarantee *)

Section Lease.
(** The lease [id] of namespace [ns], and the snapshot that owns it. *)
Context (ns id : string) (labels : gmap string string) (key : string).

(** Calls that would end the lease or its snapshot. *)
Definition harms {X} (e : sysE X) : bool :=
  match e with
  | LeaseDelete n i => bool_decide (n = ns /\ i = id)
  | SnRemove _ k | SnCommit _ _ k _ => bool_decide (k = key)
  | _ => false
  end.

Definition creates {X} (e : sysE X) : bool :=
  match e with LeaseCreate _ _ => true | _ => false end.

(** Never harmful, whatever the answers, and without a lease of its own. *)
Fixpoint quiet {A} (p : prog sysE A) : Prop :=
  match p with
  | Ret _ => True
  | Vis e k => creates e = false /\ harms e = false /\ forall x, quiet (k x)
  end.

(** The answer that makes the lease. *)
Definition born {X} (e : sysE X) : X -> Prop :=
  match e with
  | LeaseCreate n _ => fun r => exists l, r = Ok l /\ n = ns /\ lease_ID l = id
  | _ => fun _ => False
  end.

(** Right after it: about to add the resource, and quiet once it was added. *)
Definition awaits {A} (p : prog sysE A) : Prop :=
  match p with
  | Vis e k =>
      match e in sysE X return (X -> prog sysE A) -> Prop with
      | LeaseAddResource _ _ _ => fun k => forall u, quiet (k (Ok u))
      | _ => fun _ => False
      end k
  | Ret _ => False
  end.

(** Answers in a world that has both the lease and the snapshot; with [looks]
    false nothing is assumed of [Stat]. *)
Definition credible (looks : bool) {X} (e : sysE X) : X -> Prop :=
  match e with
  | LeaseCreate n _ => fun r => ~ exists l, r = Ok l /\ n = ns /\ lease_ID l = id
  | LeaseList n f => fun r => forall ls l, r = Ok ls -> l ∈ ls -> n = ns -> lease_ID l = id ->
      lease_Labels l = labels /\ labels !! lf_key f = Some (lf_value f)
  | SnStat _ k => fun r => looks = true -> k = key -> is_ok r = true
  | _ => fun _ => True
  end.

Fixpoint spares (looks : bool) {A} (p : prog sysE A) : Prop :=
  match p with
  | Ret _ => True
  | Vis e k => harms e = false /\ (forall x, born e x -> awaits (k x)) /\
               forall x, credible looks e x -> spares looks (k x)
  end.

(** Answers in a world where the id has not been given away yet. *)
Definition unissued {X} (e : sysE X) : X -> Prop :=
  match e with
  | LeaseCreate n _ => fun r => ~ exists l, r = Ok l /\ n = ns /\ lease_ID l = id
  | LeaseList n f => fun r => forall ls l, r = Ok ls -> l ∈ ls -> n = ns -> lease_ID l <> id
  | _ => fun _ => True
  end.

(** Whenever the lease is made, what is left of the program spares it. *)
Fixpoint calm {A} (p : prog sysE A) : Prop :=
  spares true p /\
  match p with
  | Ret _ => True
  | Vis e k => forall x, unissued e x -> calm (k x)
  end.

(** *** Composition *)

Lemma quiet_bind {A B} (p : prog sysE A) (f : A -> prog sysE B) :
  quiet p -> (forall a, quiet (f a)) -> quiet (bind p f).
Proof.
  intros Hp Hf. induction p as [a|X e k IH]; cbn [bind quiet] in *; [apply Hf|].
  destruct Hp as (Hc & He & Hk). auto.
Qed.

Lemma quiet_spares looks {A} (p : prog sysE A) : quiet p -> spares looks p.
Proof.
  induction p as [a|X e k IH]; cbn [quiet spares]; [done|]. intros (Hc & He & Hk).
  split_and!; [done| |auto]. intros x. by destruct e.
Qed.

Lemma spares_bind looks {A B} (p : prog sysE A) (f : A -> prog sysE B) :
  spares looks p -> (forall a, quiet (f a)) -> spares looks (bind p f).
Proof.
  intros Hp Hf. induction p as [a|X e k IH]; cbn [bind spares] in *; [by apply quiet_spares|].
  destruct Hp as (He & Hb & Hk). split_and!; [done| |auto].
  intros x Hx. specialize (Hb x Hx). destruct (k x) as [|Y e' k']; [done|].
  cbn [bind]. destruct e'; try done. intros u. apply quiet_bind; [apply Hb|done].
Qed.

Lemma spares_weaken {A} (p : prog sysE A) : spares false p -> spares true p.
Proof.
  induction p as [a|X e k IH]; cbn [spares]; [done|]. intros (He & Hb & Hk).
  split_and!; [done..|]. intros x Hx. apply IH, Hk. by destruct e.
Qed.

Lemma calm_spares {A} (p : prog sysE A) : calm p -> spares true p.
Proof. destruct p; [done|]. by intros [? _]. Qed.

Lemma spares_calm {A} (p : prog sysE A) : spares false p -> calm p.
Proof.
  induction p as [a|X e k IH]; [done|]. intros Hp. split; [by apply spares_weaken|].
  destruct Hp as (_ & _ & Hk). intros x Hx. apply IH, Hk. destruct e; try done.
  intros ls l Hr Hin Hn Hi. by destruct (Hx ls l Hr Hin Hn).
Qed.

Lemma quiet_calm {A} (p : prog sysE A) : quiet p -> calm p.
Proof. intros. by apply spares_calm, quiet_spares. Qed.

Lemma calm_bind {A B} (p : prog sysE A) (f : A -> prog sysE B) :
  calm p -> (forall a, quiet (f a)) -> calm (bind p f).
Proof.
  intros Hp Hf. induction p as [a|X e k IH]; [apply quiet_calm, Hf|].
  destruct Hp as [Hs Hk]. split; [by apply (spares_bind true (Vis e k))|]. auto.
Qed.

(** *** The world *)

Section World.
Context {W} (h : handler sysE W) (lv : W -> leases_view) (sv : W -> gset string).
Context (rv : W -> string * string -> gset Resource).
Context `{!LeaseLaws h lv} `{!SnapLaws h sv} `{!HoldLaws h rv} (reliable : stat_reliable h sv).

Definition alive (w : W) : Prop := lv w !! (ns, id) = Some labels /\ key ∈ sv w.

Lemma alive_credible X (e : sysE X) w : alive w -> credible true e (fst (h X e w)).
Proof.
  intros [Hl Hk]. destruct e; cbn [credible]; try done.
  - intros _ ->. destruct (fst (h _ (SnStat ctx key) w)) as [i|e] eqn:He; [done|].
    by apply reliable in He.
  - intros (l & Hr & -> & <-). pose proof (lease_create ns labels0 w) as Hc.
    destruct (h _ (LeaseCreate ns labels0) w) as [r w']. simpl in Hr. subst r.
    destruct Hc as [Hn _]. congruence.
  - intros ls l Hr Hin -> <-. destruct (lease_list ns filter w ls Hr) as [_ Hall].
    destruct (Hall l Hin) as [Hl' Hf]. rewrite Hl in Hl'. injection Hl' as Heq. by rewrite Heq.
Qed.

Lemma snapshot_stays X (e : sysE X) w :
  key ∈ sv w -> harms e = false -> key ∈ sv (snd (h X e w)).
Proof.
  intros Hk He. destruct (keeps_snaps e) eqn:Hkeep; [by rewrite snap_keep|].
  destruct e; try discriminate; cbn [harms] in He.
  - pose proof (snap_prepare ctx key0 parent opts w) as Hs.
    destruct (h _ _ w) as [[|] w']; simpl in *; set_solver.
  - pose proof (snap_view ctx key0 parent opts w) as Hs.
    destruct (h _ _ w) as [[|] w']; simpl in *; set_solver.
  - apply bool_decide_eq_false in He. pose proof (snap_commit ctx name key0 opts w) as Hs.
    destruct (h _ _ w) as [[|] w']; simpl in *; set_solver.
  - apply bool_decide_eq_false in He. pose proof (snap_remove ctx key0 w) as Hs.
    destruct (h _ _ w) as [[|] w']; simpl in *; set_solver.
Qed.

Lemma alive_call X (e : sysE X) w : alive w -> harms e = false -> alive (snd (h X e w)).
Proof.
  intros [Hl Hk] He. split; [|by apply snapshot_stays].
  destruct (keeps_leases e) eqn:Hkeep; [by rewrite lease_keep|].
  pose proof (call_keeps_lease h lv X e w (ns, id) labels) as Hc.
  destruct e; try discriminate.
  - destruct (h _ _ w) as [x w']. by apply Hc.
  - cbn [harms] in He. apply bool_decide_eq_false in He.
    pose proof (lease_delete ns0 id0 w) as Hd. destruct (h _ _ w) as [[u|er] w']; simpl.
    + destruct Hd as [_ ->]. rewrite lookup_delete_ne; [done|]. intros [= -> ->]. by destruct He.
    + by rewrite Hd.
Qed.

(** The event that puts the resource [r] into the lease. *)
Definition adds (r : Resource) (ev : event sysE) : Prop :=
  match ev with
  | Ev (LeaseAddResource n l r') (Ok _) => n = ns /\ lease_ID l = id /\ r' = r
  | _ => False
  end.

(** A call after which the lease is still there did not take its resources. *)
Lemma alive_holds X (e : sysE X) w r :
  alive (snd (h X e w)) -> r ∈ rv w (ns, id) \/ adds r (Ev e (fst (h X e w))) ->
  r ∈ rv (snd (h X e w)) (ns, id).
Proof.
  intros [Hl _] [Hr|Hr].
  - apply (hold_keep X e w); [|done]. destruct e; try done. cbn [deletes].
    pose proof (lease_delete ns0 id0 w) as Hd. destruct (h _ _ w) as [[u|er] w']; [|done].
    cbn [fst snd] in *. apply bool_decide_eq_false. intros [= -> ->].
    destruct Hd as [_ Hd]. by rewrite Hd, lookup_delete_eq in Hl.
  - destruct e; try done. pose proof (hold_add (h:=h) ns0 l r0 w) as Ha.
    destruct (h _ _ w) as [[u|er] w']; [|done]. destruct Hr as (-> & <- & ->). by eapply Ha.
Qed.

(** An invariant of the steps under which the lease is alive: it keeps what it
    holds, and what is added to it on the way. *)
Lemma alive_steps {A} (Inv : config W A -> Prop) (ok : label -> Prop) (c c' : config W A) tr :
  (forall c l c', Inv c -> ok l -> step h c l c' -> Inv c') ->
  (forall c, Inv c -> alive (world c)) ->
  Inv c -> Forall ok tr -> steps h c tr c' ->
  Inv c' /\
  forall r, r ∈ rv (world c) (ns, id) \/ Exists (fun l => adds r l.2) tr ->
    r ∈ rv (world c') (ns, id).
Proof.
  intros Hstep Halive Hc Hok Hst. induction Hst as [c|c tr c1 l c2 Hst IH Hs].
  { split; [done|]. by intros r [?|?%Exists_nil]. }
  apply Forall_app in Hok as [Hok [Hl _]%Forall_cons]. destruct (IH Hc Hok) as [Hc1 Hr1].
  pose proof (Hstep _ _ _ Hc1 Hl Hs) as Hc2. split; [done|]. intros r Hr.
  assert (Hr' : r ∈ rv (world c1) (ns, id) \/ adds r l.2).
  { rewrite Exists_app, Exists_cons, Exists_nil in Hr. destruct Hr as [Hr|[Hr|[Hr|[]]]]; auto. }
  apply Halive in Hc2. inversion Hs; subst; simpl in *; [by destruct Hr'|by destruct Hr'|].
  by apply alive_holds.
Qed.

(** Goroutines that spare the lease keep it alive, in every schedule. *)
Definition spared {A} (c : config W A) : Prop :=
  Forall (spares true) (threads c) /\ alive (world c).

Lemma spares_step {A} (c c' : config W A) l : spared c -> step h c l c' -> spared c'.
Proof.
  intros [Hall Ha] Hst. inversion Hst as
    [ts w j k Hp|ts o w j k Hp|ts o w j X e k Hp Hm]; subst; simpl in *;
    pose proof (Forall_lookup_1 _ _ _ _ Hall Hp) as (He & _ & Hk); split; try done.
  - apply Forall_insert; [done|]. by apply Hk.
  - apply Forall_insert; [done|]. by apply Hk.
  - apply Forall_insert; [done|]. apply Hk. by apply alive_credible.
  - by apply alive_call.
Qed.

Lemma spares_steps {A} (c c' : config W A) tr :
  spared c -> steps h c tr c' ->
  alive (world c') /\ forall r, r ∈ rv (world c) (ns, id) -> r ∈ rv (world c') (ns, id).
Proof.
  intros Hc Hst. destruct (alive_steps spared (fun _ => True) c c' tr) as [[_ Ha] Hr]; try done.
  - intros. by eapply spares_step.
  - by intros ? [].
  - by apply Forall_forall.
  - auto.
Qed.

(** *** Before the lease is made *)

Context (issued : W -> gset (string * string)) `{!IssueLaws h lv issued}.

Lemma unissued_answer X (e : sysE X) w :
  (ns, id) ∉ issued (snd (h X e w)) -> unissued e (fst (h X e w)).
Proof.
  intros Hni. destruct e; cbn [unissued]; try done.
  - intros (l & Hr & -> & <-). apply Hni. pose proof (lease_create ns labels0 w) as Hc.
    destruct (h _ (LeaseCreate ns labels0) w) as [r w']. simpl in *. subst r.
    destruct Hc as (_ & _ & Hlv). apply (issue_lease w' _ labels0). rewrite Hlv.
    apply lookup_insert_eq.
  - intros ls l Hr Hin -> <-. apply Hni. apply (issue_mono _ _ w).
    destruct (lease_list ns filter w ls Hr) as [_ Hall]. destruct (Hall l Hin) as [Hl _].
    by eapply issue_lease.
Qed.

Definition prepares (k : string) (ev : event sysE) : Prop :=
  match ev with Ev (SnPrepare _ k' _ _) (Ok _) => k' = k | _ => False end.

Lemma prepares_there X (e : sysE X) w :
  prepares key (Ev e (fst (h X e w))) -> key ∈ sv (snd (h X e w)).
Proof.
  destruct e; try done. intros Hp. pose proof (snap_prepare ctx key0 parent opts w) as Hs.
  destruct (h _ _ w) as [[|] w']; simpl in *; [subst; rewrite Hs; set_solver|done].
Qed.

Lemma calm_step {A} (c c' : config W A) l :
  Forall calm (threads c) -> (ns, id) ∉ issued (world c') -> step h c l c' ->
  Forall calm (threads c') /\ (key ∈ sv (world c) \/ prepares key l.2 -> key ∈ sv (world c')).
Proof.
  intros Hall Hni Hst. inversion Hst as
    [ts w j k Hp|ts o w j k Hp|ts o w j X e k Hp Hm]; subst; simpl in *;
    pose proof (Forall_lookup_1 _ _ _ _ Hall Hp) as [(He & _ & _) Hk]; split.
  - apply Forall_insert; [done|]. by apply Hk.
  - by intros [?|[]].
  - apply Forall_insert; [done|]. by apply Hk.
  - by intros [?|[]].
  - apply Forall_insert; [done|]. apply Hk. by apply unissued_answer.
  - intros [Hin|Hin]; [by apply snapshot_stays|by apply prepares_there].
Qed.

Lemma steps_issued {A} (c c' : config W A) tr :
  steps h c tr c' -> issued (world c) ⊆ issued (world c').
Proof.
  induction 1 as [c|c tr c1 l c2 Hst IH Hs]; [done|]. etransitivity; [exact IH|].
  inversion Hs; subst; simpl; [done|done|apply issue_mono].
Qed.

Lemma calm_steps {A} (c c' : config W A) tr :
  Forall calm (threads c) -> (ns, id) ∉ issued (world c') -> steps h c tr c' ->
  Forall calm (threads c') /\ (Exists (fun l => prepares key l.2) tr -> key ∈ sv (world c')).
Proof.
  intros Hall Hni Hst. induction Hst as [c|c tr c1 l c2 Hst IH Hs].
  { split; [done|]. by intros ?%Exists_nil. }
  assert (Hni1 : (ns, id) ∉ issued (world c1)).
  { intros Hin. apply Hni. apply (steps_issued c1 c2 [l]); [|done].
    eapply (steps_snoc _ _ []); [constructor|done]. }
  destruct (IH Hall Hni1) as [Hall1 Hk1]. destruct (calm_step _ _ _ Hall1 Hni Hs) as [Hall2 Hk2].
  split; [done|]. rewrite Exists_app, Exists_cons, Exists_nil. tauto.
Qed.

(** *** Making it *)

(** Goroutine [i] has just made the lease, or has added the resource to it. *)
Definition making {A} (i : nat) (ts : list (prog sysE A)) : Prop :=
  forall j p, ts !! j = Some p -> (j = i /\ awaits p) \/ spares true p.

Lemma making_insert {A} i (ts : list (prog sysE A)) j p :
  making i ts -> spares true p -> making i (<[j := p]> ts).
Proof.
  intros Hm Hp k q Hq. apply list_lookup_insert_Some in Hq as [(_ & <- & _)|[_ Hq]]; [by right|eauto].
Qed.

Definition in_making {A} (i : nat) (c : config W A) : Prop :=
  making i (threads c) /\ alive (world c).

Lemma making_step {A} i (c c' : config W A) l :
  in_making i c -> (l.1 = i -> is_add_err l.2 = false) -> step h c l c' -> in_making i c'.
Proof.
  intros [Hall Ha] Herr Hst. inversion Hst as
    [ts w j k Hp|ts o w j k Hp|ts o w j X e k Hp Hm]; subst; simpl in *;
    destruct (Hall _ _ Hp) as [[-> Haw]|(He & _ & Hk)]; try done.
  - split; [|done]. apply making_insert; [done|]. by apply Hk.
  - split; [|done]. apply making_insert; [done|]. by apply Hk.
  - specialize (Herr eq_refl). destruct e; try done. split; [|by apply alive_call].
    apply making_insert; [done|]. destruct (fst (h _ _ w)) as [u|er]; [|done].
    apply quiet_spares, Haw.
  - split; [|by apply alive_call]. apply making_insert; [done|]. apply Hk. by apply alive_credible.
Qed.

Lemma making_steps {A} i (c c' : config W A) tr :
  in_making i c -> Forall (fun l => l.1 = i -> is_add_err l.2 = false) tr ->
  steps h c tr c' ->
  alive (world c') /\
  forall r, Exists (fun l => adds r l.2) tr -> r ∈ rv (world c') (ns, id).
Proof.
  intros Hc Herr Hst. destruct (alive_steps (in_making i) _ c c' tr
    (fun c l c' => making_step i c c' l) ltac:(by intros ? []) Hc Herr Hst) as [[_ Ha] Hr]. auto.
Qed.

(** The call that makes it. *)
Definition makes (ev : event sysE) : Prop :=
  match ev with
  | Ev (LeaseCreate n ls) (Ok l) => n = ns /\ ls = labels /\ lease_ID l = id
  | _ => False
  end.

Lemma makes_fresh {A} i ev (c c' : config W A) :
  makes ev -> step h c (i, ev) c' -> (ns, id) ∉ issued (world c).
Proof.
  intros Hmk Hst. inversion Hst as
    [ts w j k Hp|ts o w j k Hp|ts o w j X e k Hp Hm]; subst; simpl in *; [done|done|].
  destruct e; try done. destruct (h _ (LeaseCreate ns0 labels0) w) as [[l|er] w'] eqn:Hh; [|done].
  destruct Hmk as (<- & _ & <-). by eapply issue_fresh.
Qed.

Lemma makes_step {A} i ev (c c' : config W A) :
  Forall calm (threads c) -> key ∈ sv (world c) -> makes ev -> step h c (i, ev) c' ->
  in_making i c'.
Proof.
  intros Hall Hk Hmk Hst. inversion Hst as
    [ts w j k Hp|ts o w j k Hp|ts o w j X e k Hp Hm]; subst; simpl in *; [done|done|].
  pose proof (Forall_lookup_1 _ _ _ _ Hall Hp) as [(He & Hb & _) _].
  destruct e; try done. pose proof (lease_create ns0 labels0 w) as Hc.
  pose proof (snap_keep _ (LeaseCreate ns0 labels0) w eq_refl) as Hs.
  destruct (h _ (LeaseCreate ns0 labels0) w) as [[l|er] w']; [|done]. simpl in *.
  destruct Hmk as (-> & -> & Hid), Hc as (_ & _ & Hlv). rewrite Hid in Hlv. split.
  - intros j' p Hp'. apply list_lookup_insert_Some in Hp' as [(-> & <- & _)|[_ Hp']].
    + left. split; [done|]. apply Hb. by exists l.
    + right. apply calm_spares. by apply (Forall_lookup_1 _ _ _ _ Hall Hp').
  - split; simpl; [rewrite Hlv; apply lookup_insert_eq|by rewrite Hs].
Qed.
End World.

(** ** The service spares a lease *)

(** Take a program through its calls; [hush tac] uses [tac] for its parts. *)
Ltac hush tac :=
  repeat first
    [ progress cbn [quiet bind call]
    | match goal with
      | |- _ /\ _ => split; [done|]
      | |- forall _, _ => let x := fresh "x" in intros x
      | |- quiet (match ?x with _ => _ end) => destruct x
      | |- quiet (bind (match ?x with _ => _ end) _) => destruct x
      | |- quiet (bind _ _) => apply quiet_bind; [|intros ?]
      end
    | tac ].

Lemma mkSubdirs_quiet root subs : quiet (mkSubdirs root subs).
Proof. induction subs as [|d subs IH]; simpl; hush ltac:(first [apply IH|done]). Qed.
Lemma ready_quiet root : quiet (ensureUpperdirReady root).
Proof. unfold ensureUpperdirReady. hush ltac:(first [apply mkSubdirs_quiet|done]). Qed.
Lemma resolve_quiet `{TemplateEngine} `{JsonParser} r k : quiet (resolveAtMountsTime r k).
Proof.
  unfold resolveAtMountsTime, upperdirFromSandboxID, upperdirFromSandboxContainer. hush done.
Qed.
Lemma countLoop_quiet ctx all n : quiet (countLoop ctx all n).
Proof. revert n. induction all as [|l all IH]; intros n; simpl; hush ltac:(first [apply IH|done]). Qed.

(** Materialising a layer touches the layer and its temporary snapshot. *)
Lemma Stat_quiet sn ctx k : is_Some (parseSnapshotKey key) -> quiet (Stat sn ctx k).
Proof.
  intros Hkey. unfold Stat, statWithLazyMaterialise, overlayfsLayerPath, materialiseLocked,
    resolveParentChainID, materializeReference, replaceWithSymlink.
  destruct (isChainID k) eqn:Hk; cbn [negb]; [|hush done].
  assert (Htmp : bool_decide (refTmpKey k = key) = false).
  { apply bool_decide_eq_false. intros Heq. by apply (refTmpKey_not_owner key k). }
  hush ltac:(first [split; [exact Htmp|]|done]).
Qed.

(** Making a lease: [pinLayer]'s own cleanup deletes the lease it has made, and
    no other. *)
Lemma pinLayer_spares m n chainID k : spares false (pinLayer m n chainID k).
Proof.
  unfold pinLayer. cbn [bind call spares]. split; [done|]. split.
  { intros r (l & -> & -> & <-). cbn [bind call awaits]. intros u. hush done. }
  intros [l|e] Hx; [|done]. cbn [bind spares]. split; [done|]. split; [by intros ? []|].
  intros [u|er] _; cbn [bind spares]; [by split_and!|].
  split; [|by split_and!]. apply bool_decide_eq_false. intros [-> <-]. apply Hx. by exists l.
Qed.

Lemma unpinLoop_quiet m n all :
  (forall l, l ∈ all -> ~ (n = ns /\ lease_ID l = id)) -> quiet (unpinLoop m n all).
Proof.
  induction all as [|l all IH]; intros Hall; [done|]. cbn [unpinLoop bind call quiet].
  split; [done|]. split; [apply bool_decide_eq_false, Hall; by left|].
  assert (Hrest : quiet (unpinLoop m n all)) by (apply IH; intros l' Hl'; apply Hall; by right).
  intros x. hush ltac:(exact Hrest).
Qed.

(** Releasing another snapshot's leases: the listing does not have this one. *)
Lemma unpin_spares m n k :
  labels !! leaseLabelOwnerKey = Some key -> k <> key -> spares false (unpinByActiveKey m n k).
Proof.
  intros Hown Hne. unfold unpinByActiveKey. cbn [bind call spares]. split; [done|].
  split; [by intros ? []|].
  intros [all|e] Hx; [|done]. apply quiet_spares, unpinLoop_quiet. intros l Hl [Hn Hi].
  destruct (Hx all l eq_refl Hl Hn Hi) as [_ Hf]. cbn in Hf. congruence.
Qed.

(** The sweep looks before it deletes, and finds the owner; a sweep whose
    listing is from before the lease does not know it. *)
Lemma gcLoop_spares looks m ctx n all d :
  (forall l, l ∈ all -> n = ns -> lease_ID l = id -> looks = true /\ ownerOf l = key) ->
  spares looks (gcLoop m ctx n all d).
Proof.
  revert d. induction all as [|l all IH]; intros d Hall; [done|]. cbn [gcLoop].
  assert (Hrest : forall d', spares looks (gcLoop m ctx n all d'))
    by (intros d'; apply IH; intros l' Hl'; apply Hall; by right).
  case_decide; [apply Hrest|]. cbn [bind call spares]. split; [done|]. split; [by intros ? []|].
  intros [i|e] Hx; [apply Hrest|]. cbn [bind spares]. split; [|split; [by intros ? []|]].
  - apply bool_decide_eq_false. intros [Hn Hi].
    destruct (Hall l ltac:(by left) Hn Hi) as [Hlooks Hkey]. by specialize (Hx Hlooks Hkey).
  - intros [u|er] _; [|apply Hrest]. cbn [bind spares]. split_and!; [done|by intros ? []|].
    intros x _. apply Hrest.
Qed.

Lemma gc_calm m ctx n :
  labels !! leaseLabelOwnerKey = Some key -> calm (gcOrphanLeases m ctx n).
Proof.
  intros Hown. unfold gcOrphanLeases. cbn [bind call calm spares]. split.
  - split; [done|]. split; [by intros ? []|]. intros [all|e] Hx; [|done].
    apply gcLoop_spares. intros l Hl Hn Hi. split; [done|].
    destruct (Hx all l eq_refl Hl Hn Hi) as [Heq _]. unfold ownerOf. by rewrite Heq, Hown.
  - intros [all|e] Hx; [|done]. apply spares_calm, gcLoop_spares. intros l Hl Hn Hi.
    by destruct (Hx all l eq_refl Hl Hn).
Qed.

(** Requests that do not ask for the lease or its snapshot to go.  Sweeps are
    always among them. *)
Definition leaves_alone (q : request) : Prop :=
  match q with
  | ReqRemove _ k | ReqCommit _ _ k _ => k <> key
  | ReqDeleteLease _ i => i <> id
  | _ => True
  end.

Lemma Prepare_calm sn ctx k parent opts : calm (Prepare sn ctx k parent opts).
Proof.
  apply spares_calm. unfold Prepare. cbn [bind call spares]. split_and!; [done|by intros ? []|].
  intros res _. destruct (sn_dedup sn), (parseSnapshotKey k) as [[]|],
    (parseSnapshotKey parent) as [[]|]; try done.
  destruct (_ && _); [|done]. by apply spares_bind; [apply pinLayer_spares|].
Qed.

Lemma Remove_calm sn ctx k :
  labels !! leaseLabelOwnerKey = Some key -> k <> key -> calm (Remove sn ctx k).
Proof.
  intros Hown Hk. apply spares_calm. unfold Remove. cbn [bind call spares].
  split_and!; [by apply bool_decide_eq_false|by intros ? []|].
  intros res _. destruct (sn_dedup sn), (parseSnapshotKey k) as [[]|]; try done.
  by apply spares_bind; [apply unpin_spares|].
Qed.

Lemma serve_calm `{TemplateEngine} `{JsonParser} sn q :
  labels !! leaseLabelOwnerKey = Some key -> is_Some (parseSnapshotKey key) -> leaves_alone q ->
  calm (serve sn q).
Proof.
  intros Hown Hkey Hq. destruct q; cbn [leaves_alone] in Hq; unfold serve;
    try (by apply calm_bind; [apply Prepare_calm|]);
    try (by apply calm_bind; [apply Remove_calm|]);
    try (by apply quiet_calm, quiet_bind; [apply Stat_quiet|]).
  all: unfold Update, Usage_, Mounts, View, Commit, Walk, Cleanup,
      RegisterScrapeHook, countOrphanLeases, handleListLeases, listManagedLeases,
      handleDeleteLease, deleteLease, handleGCLeases.
  all: try match goal with |- context [sn_dedup ?s] => destruct (sn_dedup s); [|done] end.
  all: try (apply calm_bind; [apply calm_bind; [by apply gc_calm|done]|done]).
  all: apply quiet_calm; hush ltac:(first
      [ apply resolve_quiet | apply ready_quiet | apply countLoop_quiet
      | split; [by apply bool_decide_eq_false|]
      | split; [apply bool_decide_eq_false; by intros [_ ?]|]
      | done ]).
Qed.
End Lease.

(** ** Schedules *)

Lemma service_calm `{TemplateEngine} `{JsonParser} {W} sn qs ns id labels key (w : W) :
  labels !! leaseLabelOwnerKey = Some key -> is_Some (parseSnapshotKey key) ->
  Forall (leaves_alone id key) qs ->
  Forall (calm ns id labels key) (threads (start (map (serve sn) qs) w)).
Proof.
  intros Hown Hkey Hqs. apply Forall_map. eapply Forall_impl; [exact Hqs|].
  intros q Hq. by apply serve_calm.
Qed.

(** C12 A pinned layer stays pinned under concurrency too: whatever requests run
    at the same time and however their calls interleave - sweeps, other
    containers' preparation and removal, layers being materialised, failing
    calls - a lease whose snapshot exists stays, with its labels and with the
    layer it holds, and so does the snapshot, as long as no request removes or
    commits that snapshot or deletes that lease by its id.  In particular a
    sweep never deletes it, although it lists, looks and deletes in separate
    calls. *)
Theorem lease_survives_schedules `{TemplateEngine} `{JsonParser} {W} (h : handler sysE W)
    (lv : W -> leases_view) (sv : W -> gset string) (rv : W -> string * string -> gset Resource)
    sn qs ns id labels key w tr c :
  LeaseLaws h lv -> SnapLaws h sv -> HoldLaws h rv -> stat_reliable h sv ->
  labels !! leaseLabelOwnerKey = Some key -> is_Some (parseSnapshotKey key) ->
  Forall (leaves_alone id key) qs ->
  lv w !! (ns, id) = Some labels -> key ∈ sv w ->
  steps h (start (map (serve sn) qs) w) tr c ->
  lv (world c) !! (ns, id) = Some labels /\ key ∈ sv (world c) /\
  rv w (ns, id) ⊆ rv (world c) (ns, id).
Proof.
  intros HL HS HR Hrel Hown Hkey Hqs Hl Hk Hst.
  pose proof (service_calm sn qs ns id labels key w Hown Hkey Hqs) as Hcalm.
  eapply Forall_impl in Hcalm; [|intros p; apply calm_spares].
  destruct (spares_steps ns id labels key h lv sv rv Hrel _ _ _ (conj Hcalm (conj Hl Hk)) Hst)
    as [[Hl' Hk'] Hr]. by split_and!.
Qed.

(** C5 A lease is safe from the moment it is made: in every schedule, once
    containerd has answered a request with the new lease of a snapshot that was
    prepared before, that lease is there with its labels, holding the layers
    that were added to it, and so is the snapshot - however far the other
    requests had come, sweeps that had listed the leases before it existed
    included - unless the layer could not be added to it, the snapshot is
    removed or committed, or the lease is deleted by its id. *)
Theorem fresh_lease_survives `{TemplateEngine} `{JsonParser} {W} (h : handler sysE W)
    (lv : W -> leases_view) (sv : W -> gset string) (rv : W -> string * string -> gset Resource)
    (issued : W -> gset (string * string)) sn qs ns key w c before i l after :
  LeaseLaws h lv -> SnapLaws h sv -> HoldLaws h rv -> IssueLaws h lv issued ->
  stat_reliable h sv ->
  is_Some (parseSnapshotKey key) -> Forall (leaves_alone (lease_ID l) key) qs ->
  steps h (start (map (serve sn) qs) w)
    (before ++ (i, Ev (LeaseCreate ns (leaseLabels key)) (Ok l)) :: after) c ->
  Exists (fun lab => prepares key lab.2) before ->
  Forall (fun lab => lab.1 = i -> is_add_err lab.2 = false) after ->
  lv (world c) !! (ns, lease_ID l) = Some (leaseLabels key) /\ key ∈ sv (world c) /\
  forall r, Exists (fun lab => adds ns (lease_ID l) r lab.2) after ->
    r ∈ rv (world c) (ns, lease_ID l).
Proof.
  intros HL HS HR HI Hrel Hkey Hqs (c1 & c2 & Hst1 & Hmk & Hst2)%steps_split Hprep Herr.
  assert (Hown : leaseLabels key !! leaseLabelOwnerKey = Some key).
  { unfold leaseLabels. by rewrite lookup_insert_ne, lookup_insert_eq. }
  pose proof (service_calm sn qs ns (lease_ID l) (leaseLabels key) key w Hown Hkey Hqs) as Hcalm.
  assert (Hmakes : makes ns (lease_ID l) (leaseLabels key) (Ev (LeaseCreate ns (leaseLabels key)) (Ok l)))
    by done.
  pose proof (makes_fresh ns (lease_ID l) (leaseLabels key) h lv issued i _ c1 c2 Hmakes Hmk) as Hni.
  destruct (calm_steps ns (lease_ID l) (leaseLabels key) key h lv sv rv Hrel issued _ _ _ Hcalm
              Hni Hst1) as [Hcalm1 Hk].
  pose proof (makes_step ns (lease_ID l) (leaseLabels key) key h lv sv i _ c1 c2 Hcalm1 (Hk Hprep)
              Hmakes Hmk) as Hmaking.
  destruct (making_steps ns (lease_ID l) (leaseLabels key) key h lv sv rv Hrel i c2 c after
           Hmaking Herr Hst2) as [[Hl Hkey'] Hr]. by split_and!.
Qed.
