(* ===== verification/Gauge.v ===== *)
(** * The gauge under concurrent requests

    What one goroutine does in a schedule is a behaviour of its own program;
    so properties of single traces add up.  Applied to the books of [Dedup.v]:
    the pinned gauge keeps pace with the leases in every schedule. *)

From S2P Require Import Prelude GoStrings System Laws Mount Template Json Annotation.
From S2P Require Import Resolver Dedup Service Concurrent.
Local Open Scope go_scope.

(** ** One goroutine of a schedule *)

Definition events (i : nat) (tr : list label) : list (event sysE) :=
  omap (fun '(j, ev) => if decide (j = i) then Some ev else None) tr.

(** [p] after the events [tr] is [p']. *)
Inductive reaches {A} (p : prog sysE A) : list (event sysE) -> prog sysE A -> Prop :=
| reaches_refl : reaches p [] p
| reaches_snoc tr X (e : sysE X) k x :
    reaches p tr (Vis e k) -> reaches p (tr ++ [Ev e x]) (k x).

Lemma reaches_exec {A} (p p' : prog sysE A) tr tr' a :
  reaches p tr p' -> exec p' tr' a -> exec p (tr ++ tr') a.
Proof.
  intros Hr. revert tr'. induction Hr as [|tr X e k x Hr IH]; intros tr' Hex; [done|].
  rewrite <-app_assoc. apply IH. cbn [exec app]. by exists x, tr'.
Qed.

Section Projection.
Context {W A : Type} (h : handler sysE W).
Implicit Types c : config W A.

Lemma step_inv c i ev c' :
  step h c (i, ev) c' ->
  exists X (e : sysE X) k x, ev = Ev e x /\ threads c !! i = Some (Vis e k) /\
    threads c' = <[i := k x]> (threads c).
Proof. intros Hs. inversion Hs; subst; simpl; by eexists _, _, _, _. Qed.

Lemma steps_length c tr c' : steps h c tr c' -> length (threads c') = length (threads c).
Proof.
  induction 1 as [|c tr c1 [i ev] c2 _ IH Hs]; [done|].
  apply step_inv in Hs as (X & e & k & x & _ & _ & ->). by rewrite length_insert.
Qed.

Lemma steps_reaches c tr c' i p p' :
  steps h c tr c' -> threads c !! i = Some p -> threads c' !! i = Some p' ->
  reaches p (events i tr) p'.
Proof.
  intros Hst Hp. revert p'. induction Hst as [c|c tr c1 [j ev] c2 Hst IH Hs]; intros p' Hp'.
  { rewrite Hp in Hp'. injection Hp' as ->. constructor. }
  apply step_inv in Hs as (X & e & k & x & -> & Hj & Hts). rewrite Hts in Hp'.
  unfold events. rewrite omap_app. cbn [omap list_omap]. destruct (decide (j = i)) as [->|Hne].
  - rewrite list_lookup_insert_eq in Hp' by by eapply lookup_lt_Some. injection Hp' as <-.
    constructor. by apply IH.
  - rewrite list_lookup_insert_ne in Hp' by done. rewrite app_nil_r. by apply IH.
Qed.

Lemma steps_index c tr c' :
  steps h c tr c' -> Forall (fun l => fst l < length (threads c)) tr.
Proof.
  induction 1 as [|c tr c1 [i ev] c2 Hst IH Hs]; [done|]. apply Forall_app. split; [done|].
  apply Forall_singleton. rewrite <-(steps_length _ _ _ Hst).
  apply step_inv in Hs as (X & e & k & x & _ & Hi & _). by eapply lookup_lt_Some.
Qed.
End Projection.

(** ** Counting by goroutine *)

Fixpoint total (f : nat -> nat) (n : nat) : nat :=
  match n with 0 => 0 | S n' => total f n' + f n' end.

Lemma total_zero f n : (forall i, i < n -> f i = 0) -> total f n = 0.
Proof. induction n as [|n IH]; intros Hf; simpl; [done|]. rewrite IH, Hf by auto with lia. lia. Qed.

Lemma total_plus f g n : total (fun i => f i + g i) n = total f n + total g n.
Proof. induction n as [|n IH]; simpl; [done|]. lia. Qed.

Lemma total_one i n m : i < n -> total (fun j => if decide (i = j) then m else 0) n = m.
Proof.
  induction n as [|n IH]; [lia|]. intros Hi. simpl. case_decide.
  - subst. rewrite total_zero; [lia|]. intros j Hj. by rewrite decide_False by lia.
  - rewrite IH by lia. lia.
Qed.

Lemma total_ext f g n : (forall i, f i = g i) -> total f n = total g n.
Proof. intros Hfg. induction n as [|n IH]; simpl; [done|]. by rewrite IH, Hfg. Qed.

Lemma count_total P tr n :
  Forall (fun l => fst l < n) tr -> count P (map snd tr) = total (fun i => count P (events i tr)) n.
Proof.
  induction 1 as [|[j ev] tr Hj _ IH].
  { symmetry. by apply total_zero. }
  cbn [map snd count]. rewrite IH. simpl in Hj.
  rewrite <-(total_one j n (if P ev then 1 else 0) Hj), <-total_plus.
  apply total_ext. intros i. unfold events. cbn [omap list_omap]. by case_decide.
Qed.

Lemma balanced_total tr n :
  Forall (fun l => fst l < n) tr -> (forall i, i < n -> balanced (events i tr)) ->
  balanced (map snd tr).
Proof.
  unfold balanced. intros Hn Hb. rewrite !(count_total _ tr n Hn). clear Hn.
  induction n as [|n IH]; simpl; [lia|].
  destruct (Hb n ltac:(lia)), (IH (fun i Hi => Hb i ltac:(lia))). lia.
Qed.

(** ** The books of a schedule *)

Section Books.
Context `{TemplateEngine} `{JsonParser} {W : Type} (h : handler sysE W).
Context (lv : W -> leases_view) `{!LeaseLaws h lv}.

Lemma steps_size {A} (c c' : config W A) tr :
  steps h c tr c' ->
  size (lv (world c')) + count is_delete_ok (map snd tr) =
  size (lv (world c)) + count is_create_ok (map snd tr).
Proof.
  induction 1 as [|c tr c1 l c2 _ IH Hs]; [done|].
  rewrite map_app, !count_app. cbn [map count].
  inversion Hs as [ts w j k Hp|ts o w j k Hp|ts o w j X e k Hp Hm]; subst;
    cbn [world snd] in *; unfold label in *; [cbn [is_delete_ok is_create_ok]; lia..|].
  pose proof (call_size h lv X e w) as Hc. destruct (h X e w) as [x w']. cbn [fst snd]. lia.
Qed.

Lemma schedule_balanced sn qs w tr c :
  steps h (start (map (serve sn) qs) w) tr c ->
  Forall (fun p => exists a, p = Ret a) (threads c) -> balanced (map snd tr).
Proof.
  intros Hst Hdone. eapply balanced_total; [by eapply steps_index|]. intros i Hi.
  pose proof Hi as Hi'. rewrite <-(steps_length h _ _ _ Hst) in Hi'.
  apply lookup_lt_is_Some_2 in Hi as [p Hp]. apply lookup_lt_is_Some_2 in Hi' as [p' Hp'].
  pose proof (steps_reaches h _ _ _ _ _ _ Hst Hp Hp') as Hr.
  destruct (Forall_lookup_1 _ _ _ _ Hdone Hp') as [[] ->].
  simpl in Hp. apply list_lookup_fmap_Some in Hp as (q & -> & _).
  apply (serve_balanced sn q). rewrite <-(app_nil_r (events i tr)).
  eapply reaches_exec; [exact Hr|by split].
Qed.

(** C26 The pinned gauge keeps pace with the leases in every schedule: when
    requests run at the same time, whatever fails and however they interleave,
    then once all have returned the change of the number of leases exceeds the
    change of the gauge by at least zero and at most the number of leases
    whose layer could not be added.  Without such failures they agree. *)
Theorem gauge_tracks_schedules sn qs w tr c :
  steps h (start (map (serve sn) qs) w) tr c ->
  Forall (fun p => exists a, p = Ret a) (threads c) ->
  let evs := map snd tr in
  let leases := (Z.of_nat (size (lv (world c))) - Z.of_nat (size (lv w)))%Z in
  let gauge := (Z.of_nat (count is_inc evs) - Z.of_nat (count is_dec evs))%Z in
  (gauge <= leases <= gauge + Z.of_nat (count is_add_err evs))%Z.
Proof.
  intros Hst Hdone. pose proof (schedule_balanced sn qs w tr c Hst Hdone) as [H1 H2].
  pose proof (steps_size _ _ _ Hst) as Hs. simpl in *. lia.
Qed.
End Books.
