(* ===== verification/Probes.v ===== *)
(** * Two looks at one layer

    Before it takes the mutex, [Stat] looks for the layer in overlayfs: it makes
    a view, reads the layer's directory from its mounts, and removes the view.
    The key of the view depends on the layer alone, and containerd allows a key
    once: this file shows what that means for [Stat]s that run at the same
    time. *)

From S2P Require Import Prelude GoStrings System Laws Mount Template Json Resolver Dedup Service.
From S2P Require Import Concurrent Gauge.
Local Open Scope go_scope.

(** The view [k] is removed. *)
Definition removes (k : string * string) (ev : event sysE) : bool :=
  match ev with Ev (OvlRemove ns key) _ => bool_decide ((ns, key) = k) | _ => false end.

Definition stats (sn : snapshotter) (qs : list (Ctx * string)) : list (prog sysE (result Info)) :=
  map (fun '(ctx, key) => Stat sn ctx key) qs.

Definition probe_error (ev : event sysE) : option error :=
  match ev with Ev (OvlView _ _ _) (Err e) => Some e | _ => None end.

(** A [Stat] whose probe fails, fails with the probe's error. *)
Lemma Stat_probe_failed sn ctx key tr res e :
  exec (Stat sn ctx key) tr res -> e ∈ omap probe_error tr ->
  res = Err (Wrapf "resolving overlayfs layer path for %s: %w" [key]
              (Wrapf "creating probe view for chainID %s: %w" [key] e)).
Proof.
  unfold Stat, statWithLazyMaterialise, overlayfsLayerPath, materialiseLocked,
    resolveParentChainID, materializeReference, replaceWithSymlink.
  intros Hex Hin. exec_inv Hex; cbn in Hin;
    first [by apply not_elem_of_nil in Hin|by apply list_elem_of_singleton in Hin as ->].
Qed.

Section Probes.
Context {W : Type} (h : handler sysE W) (vv : W -> gset (string * string)).
Context `{!ViewLaws h vv}.

(** A view stays until somebody removes it. *)
Lemma step_view {A} (c c' : config W A) l k :
  step h c l c' -> removes k l.2 = false -> k ∈ vv (world c) -> k ∈ vv (world c').
Proof.
  inversion 1 as [ts w i p Hts|ts o w i p Hts|ts o w i X e p Hts Hm]; subst; cbn [world snd]; [done..|].
  intros Hk Hin. destruct (keeps_views e) eqn:Hv; [by rewrite view_keep|].
  destruct e; try discriminate Hv.
  - match goal with |- _ ∈ vv (snd (h _ (OvlView ?ns ?key ?parent) w)) =>
      pose proof (view_made ns key parent w) as Hmade end.
    destruct (h _ (OvlView _ _ _) w). by apply Hmade.
  - apply view_removed, elem_of_difference. split; [done|].
    intros ->%elem_of_singleton. cbn in Hk. by rewrite bool_decide_eq_true_2 in Hk.
Qed.

Lemma steps_view {A} (c c' : config W A) tr k :
  steps h c tr c' -> Forall (fun l => removes k l.2 = false) tr ->
  k ∈ vv (world c) -> k ∈ vv (world c').
Proof.
  induction 1 as [|c tr c1 l c2 _ IH Hs]; intros Htr; [done|].
  apply Forall_app in Htr as [Htr [Hl _]%Forall_cons]. intros Hk.
  eapply step_view; [exact Hs|done|by apply IH].
Qed.

(** A probe of the view [k], and what it answers. *)
Definition probes (k : string * string) (ev : event sysE) : Prop :=
  match ev with Ev (OvlView ns key _) _ => (ns, key) = k | _ => False end.

Lemma step_opens {A} (c c' : config W A) i ev k :
  step h c (i, ev) c' -> probes k ev -> probe_error ev = None -> k ∈ vv (world c').
Proof.
  inversion 1 as [ts w j p Hts|ts o w j p Hts|ts o w j X e p Hts Hm]; subst; [done..|].
  destruct e; try done. cbn [probes probe_error world].
  match goal with |- (?ns, ?key) = _ -> match fst (h _ (OvlView _ _ ?parent) w) with _ => _ end = _ -> _ =>
    pose proof (view_made ns key parent w) as Hmade end.
  destruct (h _ (OvlView _ _ _) w) as [[ms|e] w']; [|done]. intros <- _. by apply Hmade.
Qed.

Lemma step_taken {A} (c c' : config W A) i ev k :
  step h c (i, ev) c' -> probes k ev -> k ∈ vv (world c) ->
  exists e, probe_error ev = Some e /\ is_not_found e = false.
Proof.
  inversion 1 as [ts w j p Hts|ts o w j p Hts|ts o w j X e p Hts Hm]; subst; [done..|].
  destruct e; try done. cbn [probes probe_error world]. intros <- Hk.
  match goal with |- context [h _ (OvlView _ _ ?parent) w] =>
    destruct (view_taken _ _ parent _ Hk) as (e & -> & He) end.
  by exists e.
Qed.

(** What a goroutine's events tell of its answer. *)
Lemma events_elem i ev tr : (i, ev) ∈ tr -> ev ∈ events i tr.
Proof.
  intros Hin. unfold events. apply list_elem_of_omap. exists (i, ev). split; [done|].
  by rewrite decide_True.
Qed.

Lemma steps_answer (c c' : config W (result Info)) tr j p res :
  steps h c tr c' -> threads c !! j = Some p -> threads c' !! j = Some (Ret res) ->
  exec p (events j tr) res.
Proof.
  intros Hst Hp Hr. pose proof (steps_reaches h _ _ _ _ _ _ Hst Hp Hr) as Hreach.
  rewrite <-(app_nil_r (events j tr)). by apply (reaches_exec _ _ _ _ _ Hreach).
Qed.

Lemma stats_lookup sn qs (w : W) j p :
  threads (start (stats sn qs) w) !! j = Some p -> exists ctx key, p = Stat sn ctx key.
Proof.
  cbn [start threads]. unfold stats. rewrite list_lookup_fmap.
  destruct (qs !! j) as [[ctx key]|]; [|done]. intros [= <-]. eauto.
Qed.

(** ** An overlap can happen *)

Context (sv : W -> gset string) `{!SnapLaws h sv}.

Definition stat_namespace (ctx : Ctx) : string :=
  if decide (ctx_namespace ctx = "") then containerdNamespaceK8s else ctx_namespace ctx.

(** [lw] are the worlds in which overlayfs has a layer: looking at snapshots,
    and looking for the layer, does not take it away, and a view of it can be
    made when the key is free. *)
Record keeps_layer (ctx : Ctx) (key : string) (lw : W -> Prop) : Prop := {
  kl_layer : forall w, lw w ->
    exists i, fst (h _ (OvlStat (stat_namespace ctx) key) w) = Ok i;
  kl_view : forall w, lw w -> (stat_namespace ctx, probeKey key) ∉ vv w ->
    exists ms, fst (h _ (OvlView (stat_namespace ctx) (probeKey key) key) w) = Ok ms;
  kl_looks : forall w, lw w ->
    lw (snd (h _ (SnStat ctx key) w)) /\ lw (snd (h _ (OvlStat (stat_namespace ctx) key) w)) /\
    lw (snd (h _ (OvlView (stat_namespace ctx) (probeKey key) key) w))
}.

(** A chain id whose snapshot is not there yet, in a world with the layer and
    without a view of it. *)
Record fresh_layer (ctx : Ctx) (key : string) (lw : W -> Prop) (w : W) : Prop := {
  fl_chain : isChainID key = true;
  fl_absent : key ∉ sv w;
  fl_stat : forall w' i, fst (h _ (SnStat ctx key) w') = Ok i -> key ∈ sv w';
  fl_keeps : keeps_layer ctx key lw;
  fl_layer : lw w;
  fl_free : (stat_namespace ctx, probeKey key) ∉ vv w
}.

(** What a [Stat] does after its third call, by what the view answered. *)
Definition after_probe (ctx : Ctx) (key : string) (r : result (list Mount)) (p : prog sysE (result Info))
    : Prop :=
  match r with
  | Ok _ => True
  | Err e => p = Ret (Err (Wrapf "resolving overlayfs layer path for %s: %w" [key]
                            (Wrapf "creating probe view for chainID %s: %w" [key] e)))
  end.

(** The first three calls of such a [Stat], whoever ran before. *)
Lemma Stat_starts sn m ctx key lw w0 ts o w i :
  sn_dedup sn = Some m -> fresh_layer ctx key lw w0 -> key ∉ sv w -> lw w ->
  ts !! i = Some (Stat sn ctx key) ->
  let k := (stat_namespace ctx, probeKey key) in
  exists tr p r w',
    steps h (mkConfig ts o w) (tr ++ [(i, Ev (OvlView k.1 k.2 key) r)])
      (mkConfig (<[i := p]> ts) o w') /\
    Forall (fun l => removes k l.2 = false) tr /\ key ∉ sv w' /\ lw w' /\
    after_probe ctx key r p /\ (k ∉ vv w -> exists ms, r = Ok ms).
Proof.
  intros Hm [Hchain _ Hstat [Hlayer Hview Hlooks] _ _] Hk Hlw Hts. simpl.
  assert (Hlen : i < length ts) by by eapply lookup_lt_Some.
  destruct (Hlooks w Hlw) as (Hl1 & _).
  destruct (h _ (SnStat ctx key) w) as [x1 w1] eqn:H1. cbn [snd] in Hl1.
  destruct (Hlooks w1 Hl1) as (_ & Hl2 & _).
  pose proof (snap_keep _ (SnStat ctx key) w eq_refl) as Hs1.
  pose proof (view_keep _ (SnStat ctx key) w eq_refl) as Hv1. rewrite H1 in Hs1, Hv1.
  assert (exists e1, x1 = Err e1) as [e1 ->].
  { destruct x1 as [i1|e1]; [|by eexists]. destruct Hk. apply (Hstat w i1). by rewrite H1. }
  destruct (h _ (OvlStat (stat_namespace ctx) key) w1) as [x2 w2] eqn:H2. cbn [snd] in Hl2.
  destruct (Hlooks w2 Hl2) as (_ & _ & Hl3).
  pose proof (snap_keep _ (OvlStat (stat_namespace ctx) key) w1 eq_refl) as Hs2.
  pose proof (view_keep _ (OvlStat (stat_namespace ctx) key) w1 eq_refl) as Hv2.
  rewrite H2 in Hs2, Hv2.
  assert (exists i2, x2 = Ok i2) as [i2 ->] by (destruct (Hlayer w1 Hl1) as [i2 Hi]; rewrite H2 in Hi; eauto).
  destruct (h _ (OvlView (stat_namespace ctx) (probeKey key) key) w2) as [r w3] eqn:H3.
  pose proof (snap_keep _ (OvlView (stat_namespace ctx) (probeKey key) key) w2 eq_refl) as Hs3.
  rewrite H3 in Hs3. cbn [snd] in *.
  set (p1 := statWithLazyMaterialise ctx key).
  assert (Hp : exists k1 k2 k3, Stat sn ctx key = Vis (SnStat ctx key) k1 /\
    k1 (Err e1) = Vis (OvlStat (stat_namespace ctx) key) k2 /\
    k2 (Ok i2) = Vis (OvlView (stat_namespace ctx) (probeKey key) key) k3 /\
    after_probe ctx key r (k3 r)).
  { unfold Stat, statWithLazyMaterialise. cbn [bind call]. eexists _. do 2 eexists.
    split; [reflexivity|]. cbv beta iota. rewrite Hm, Hchain. cbn [negb]. fold (stat_namespace ctx).
    cbn [overlayfsLayerPath bind call]. split; [reflexivity|]. split; [reflexivity|].
    by destruct r. }
  destruct Hp as (k1 & k2 & k3 & Hp0 & Hp1 & Hp2 & Hp3). rewrite Hp0 in Hts.
  exists [(i, Ev (SnStat ctx key) (Err e1)); (i, Ev (OvlStat (stat_namespace ctx) key) (Ok i2))].
  exists (k3 r), r, w3. split_and!; [|by repeat constructor|congruence|done|done|].
  - pose proof (step_call h ts o w i _ (SnStat ctx key) k1 Hts eq_refl) as S1. rewrite H1 in S1.
    cbn [fst snd] in S1. rewrite Hp1 in S1.
    pose proof (step_call h _ o w1 i _ (OvlStat (stat_namespace ctx) key) k2
                  (list_lookup_insert_eq _ _ _ Hlen) eq_refl) as S2. rewrite H2 in S2.
    cbn [fst snd] in S2. rewrite Hp2, list_insert_insert_eq in S2.
    pose proof (step_call h _ o w2 i _ (OvlView (stat_namespace ctx) (probeKey key) key) k3
                  (list_lookup_insert_eq _ _ _ Hlen) eq_refl) as S3. rewrite H3 in S3.
    cbn [fst snd] in S3. rewrite list_insert_insert_eq in S3.
    eapply steps_cons; [exact S1|]. eapply steps_cons; [exact S2|].
    eapply steps_cons; [exact S3|constructor].
  - intros Hfree. destruct (Hview w2 Hl2) as [ms Hms]; [by rewrite Hv2, Hv1|].
    rewrite H3 in Hms. by exists ms.
Qed.

(** C23 Two [Stat]s of a layer that overlayfs has disturb each other when they
    look at it at the same time.  In every schedule, in every environment that
    lets a key be used once: while the probe view of one is there, the probe of
    another for the same layer fails, and that [Stat] ends in an error, which is
    not even of the not-found class.  And such a schedule always exists: from
    any world in which overlayfs has the layer and the snapshot is not there
    yet, two [Stat]s can be run so that the second fails. *)
Theorem overlapping_probes_fail sn :
  (forall qs w tr c before i between j after ns chainID ms r,
     let probe := OvlView ns (probeKey chainID) chainID in
     steps h (start (stats sn qs) w) tr c ->
     tr = before ++ (i, Ev probe (Ok ms)) :: between ++ (j, Ev probe r) :: after ->
     Forall (fun l => removes (ns, probeKey chainID) l.2 = false) between ->
     is_ok r = false /\
     forall res, threads c !! j = Some (Ret res) ->
       exists e, res = Err e /\ is_not_found e = false) /\
  (forall m ctx key lw w,
     sn_dedup sn = Some m -> fresh_layer ctx key lw w ->
     exists tr c e, steps h (start (stats sn [(ctx, key); (ctx, key)]) w) tr c /\
       threads c !! 1 = Some (Ret (Err e)) /\ is_not_found e = false).
Proof.
  split.
  - intros qs w tr c before i between j after ns chainID ms r probe Hst -> Hbet.
    apply steps_split in Hst as Hcut. destruct Hcut as (c1 & c2 & Hst1 & Hs & Hst2).
    apply (step_opens _ _ _ _ (ns, probeKey chainID)) in Hs as Hopen; [|done..].
    apply steps_split in Hst2 as (c3 & c4 & Hst3 & Hs' & _).
    pose proof (steps_view _ _ _ _ Hst3 Hbet Hopen) as Hview.
    destruct (step_taken _ _ _ _ _ Hs' eq_refl Hview) as (e & He & Hnf).
    split; [by destruct r|]. intros res Hres.
    destruct (threads (start (stats sn qs) w) !! j) as [p|] eqn:Hp.
    2: { apply lookup_ge_None in Hp. apply lookup_lt_Some in Hres.
         rewrite (steps_length h _ _ _ Hst) in Hres. lia. }
    pose proof (steps_answer _ _ _ _ _ _ Hst Hp Hres) as Hex.
    apply stats_lookup in Hp as (ctx & key & ->).
    rewrite (Stat_probe_failed _ _ _ _ _ e Hex); [by eexists|].
    apply list_elem_of_omap. exists (Ev probe r). split; [|done]. apply events_elem.
    apply elem_of_app. right. right. apply elem_of_app. right. left.
  - intros m ctx key lw w Hm Hf. set (p := Stat sn ctx key).
    destruct (Stat_starts sn m ctx key lw w [p; p] None w 0 Hm Hf (fl_absent _ _ _ _ Hf)
                (fl_layer _ _ _ _ Hf) eq_refl)
      as (tr1 & p1 & r1 & w1 & Hst1 & _ & Hk1 & Hl1 & _ & Hok). destruct (Hok (fl_free _ _ _ _ Hf)) as [ms ->].
    destruct (Stat_starts sn m ctx key lw w [p1; p] None w1 1 Hm Hf Hk1 Hl1 eq_refl)
      as (tr2 & p2 & r2 & w2 & Hst2 & Hbet & _ & _ & Hafter & _).
    apply steps_split in Hst1 as Hcut. destruct Hcut as (c1 & c2 & _ & Hs & Hst1').
    inversion Hst1' as [|? tr' ? ? ? ? ? Htr]; [subst|by destruct tr'].
    apply (step_opens _ _ _ _ (stat_namespace ctx, probeKey key)) in Hs as Hopen; [|done..].
    apply steps_split in Hst2 as Hcut2. destruct Hcut2 as (c3 & c4 & Hst3 & Hs' & _).
    pose proof (steps_view _ _ _ _ Hst3 Hbet Hopen) as Hview.
    destruct (step_taken _ _ _ _ _ Hs' eq_refl Hview) as (e & He & Hnf).
    destruct r2 as [ms2|e2]; [done|]. injection He as ->. cbn [after_probe] in Hafter.
    eexists _, _, _. split; [exact (steps_app h _ _ _ _ _ Hst1 Hst2)|]. rewrite Hafter. by split.
Qed.
End Probes.
