(* ===== verification/MemWorld.v ===== *)
(** * A concrete environment

    An in-memory leases service, local snapshotter and overlayfs, as a handler
    of [sysE]: it satisfies the laws of [Laws.v], and the theorems of the
    other files are applied to it here.  Calls outside these services fail.  A
    second environment refuses to remove snapshots. *)

From S2P Require Import Prelude GoStrings System Laws Mount Template Json Annotation.
From S2P Require Import Resolver Dedup Service LeaseState LeaseSpec.
Local Open Scope go_scope.

(** ** The world *)

Record mem := mkMem {
  mem_leases : leases_view;
  mem_next : nat;                  (** names the next lease *)
  mem_snaps : gset string;         (** local snapshots *)
  mem_layers : gset string;        (** layers of overlayfs *)
  mem_held : gmap (string * string) (gset Resource)   (** what the leases hold *)
}.
Definition mem_holds (w : mem) (k : string * string) : gset Resource := default ∅ (mem_held w !! k).

Definition missing {A} : result A := Err (Ext NotFound "not found").
Definition unavailable {A} : result A := Err (Ext Unavailable "unavailable").

Definition mem_info (key : string) : Info := mkInfo KindCommitted key "" ∅.
Definition mem_mounts : list Mount :=
  [mkMount "overlay" "overlay" ""
     ["index=off"; "workdir=/s/1/work"; "upperdir=/s/1/fs"; "lowerdir=/s/2/fs"]].

Definition mem_list (ns : string) (f : LabelFilter) (w : mem) : list Lease :=
  omap (fun '((ns', id), labels) =>
          if decide (ns' = ns /\ labels !! lf_key f = Some (lf_value f))
          then Some (mkLease id 0 labels) else None)
       (map_to_list (mem_leases w)).

Definition mem_create (ns : string) (labels : gmap string string) (w : mem)
    : result Lease * mem :=
  let id := "lease-" +:+ digits 4 (Z.of_nat (mem_next w)) in
  match mem_leases w !! (ns, id) with
  | Some _ => (Err (Ext AlreadyExists "exists"), w)
  | None =>
      (Ok (mkLease id 0 labels),
       mkMem (<[(ns, id) := labels]> (mem_leases w)) (S (mem_next w)) (mem_snaps w) (mem_layers w)
         (mem_held w))
  end.

Definition mem_delete (ns id : string) (w : mem) : result unit * mem :=
  match mem_leases w !! (ns, id) with
  | Some _ =>
      (Ok tt, mkMem (delete (ns, id) (mem_leases w)) (mem_next w) (mem_snaps w) (mem_layers w)
                (delete (ns, id) (mem_held w)))
  | None => (missing, w)
  end.

Definition mem_add (k : string * string) (r : Resource) (w : mem) : result unit * mem :=
  if decide (res_ID r ∈ mem_layers w /\ is_Some (mem_leases w !! k)) then
    (Ok tt, mkMem (mem_leases w) (mem_next w) (mem_snaps w) (mem_layers w)
              (<[k := {[r]} ∪ mem_holds w k]> (mem_held w)))
  else (missing, w).

Definition set_snaps (S : gset string) (w : mem) : mem :=
  mkMem (mem_leases w) (mem_next w) S (mem_layers w) (mem_held w).

Definition mem_handler : handler sysE mem := fun X e =>
  match e in sysE X return mem -> X * mem with
  | SnStat _ key => fun w =>
      (if decide (key ∈ mem_snaps w) then Ok (mem_info key) else missing, w)
  | SnPrepare _ key _ _ => fun w => (Ok mem_mounts, set_snaps ({[key]} ∪ mem_snaps w) w)
  | SnCommit _ name key _ => fun w => (Ok tt, set_snaps ({[name]} ∪ mem_snaps w ∖ {[key]}) w)
  | SnRemove _ key => fun w => (Ok tt, set_snaps (mem_snaps w ∖ {[key]}) w)
  | SnMounts _ _ => fun w => (Ok mem_mounts, w)
  | SnUpdate _ info _ => fun w => (Ok info, w)
  | SnUsage _ _ => fun w => (missing, w)
  | SnView _ key _ _ => fun w => (Ok mem_mounts, set_snaps ({[key]} ∪ mem_snaps w) w)
  | SnWalk _ _ _ => fun w => (Ok tt, w)
  | SnClose => fun w => (Ok tt, w)
  | SnCleanup _ => fun w => (Ok tt, w)
  | OvlStat _ key => fun w =>
      (if decide (key ∈ mem_layers w) then Ok (mem_info key) else missing, w)
  | OvlView _ _ _ => fun w => (Ok mem_mounts, w)
  | OvlRemove _ _ => fun w => (Ok tt, w)
  | LeaseCreate ns labels => mem_create ns labels
  | LeaseAddResource ns l r => mem_add (ns, lease_ID l) r
  | LeaseDelete ns id => mem_delete ns id
  | LeaseList ns f => fun w => (Ok (mem_list ns f w), w)
  | CtrContainers _ _ => fun w => (unavailable, w)
  | CtrInfo _ _ => fun w => (unavailable, w)
  | CtrExtensions _ _ => fun w => (unavailable, w)
  | ClientClose => fun w => (Ok tt, w)
  | OsStat _ => fun w => (missing, w)
  | SyscallStat _ => fun w => (missing, w)
  | OsMkdirAll _ _ => fun w => (Ok tt, w)
  | OsRemoveAll _ => fun w => (Ok tt, w)
  | OsSymlink _ _ => fun w => (Ok tt, w)
  | PinnedInc _ => fun w => (tt, w)
  | PinnedDec _ => fun w => (tt, w)
  | UnpinFailuresInc _ => fun w => (tt, w)
  | OrphanSet _ _ => fun w => (tt, w)
  | MuLock => fun w => (tt, w)
  | MuUnlock => fun w => (tt, w)
  end.

(** ** The laws hold *)

Lemma mem_list_spec ns f w l :
  l ∈ mem_list ns f w <->
  exists id labels, l = mkLease id 0 labels /\ mem_leases w !! (ns, id) = Some labels /\
    labels !! lf_key f = Some (lf_value f).
Proof.
  unfold mem_list. rewrite list_elem_of_omap. split.
  - intros ([[ns' id] labels] & Hin & H). apply elem_of_map_to_list in Hin.
    case_decide as Hd; [|done]. destruct Hd as [-> Hl]. simplify_eq. eauto.
  - intros (id & labels & -> & Hin & Hl). exists (ns, id, labels).
    rewrite elem_of_map_to_list. split; [done|]. by rewrite decide_True.
Qed.

Lemma mem_list_NoDup ns f w : NoDup (lease_ID <$> mem_list ns f w).
Proof.
  unfold mem_list. generalize (NoDup_fst_map_to_list (mem_leases w)).
  induction (map_to_list (mem_leases w)) as [|[[ns' id] labels] ls IH]; simpl;
    [intros; apply NoDup_nil_2|].
  intros [Hni Hnd]%NoDup_cons. case_decide as Hd; simpl; [|by apply IH].
  apply NoDup_cons. split; [|by apply IH].
  intros (l & -> & Hin)%list_elem_of_fmap. simpl in *.
  apply list_elem_of_omap in Hin as ([[ns2 id2] labels2] & Hin & H).
  case_decide as Hd2; [|done]. simplify_eq. simpl in Hni. apply Hni.
  apply list_elem_of_fmap. exists (ns2, id2, labels2). simpl.
  destruct Hd as [-> _], Hd2 as [-> _]. done.
Qed.

#[export] Instance mem_LeaseLaws : LeaseLaws mem_handler mem_leases.
Proof.
  split; simpl.
  - intros ns labels w. unfold mem_create.
    by destruct (mem_leases w !! _) eqn:Hl.
  - intros ns id w. unfold mem_delete.
    destruct (mem_leases w !! _) eqn:Hl; [|done]. by split; [eexists|].
  - intros ns f w ls [= <-]. split; [apply mem_list_NoDup|].
    intros l (id & labels & -> & Hl & Hf)%mem_list_spec. done.
  - intros ns f w ls id labels [= <-] Hl Hf. exists (mkLease id 0 labels).
    rewrite mem_list_spec. split; [eauto|done].
  - intros X e w. destruct e; try done. intros _. cbn [mem_handler]. unfold mem_add. by case_decide.
Qed.

#[export] Instance mem_HoldLaws : HoldLaws mem_handler mem_holds.
Proof.
  split.
  - intros ns l r w u w'. cbn [mem_handler]. unfold mem_add. case_decide; [|done].
    intros [= <- <-]. unfold mem_holds. cbn [mem_held]. rewrite lookup_insert_eq. set_solver.
  - intros X e w k Hd. destruct e; try done; cbn [mem_handler] in *.
    + unfold mem_create. by destruct (mem_leases w !! _).
    + unfold mem_add. case_decide; [|done]. unfold mem_holds. cbn [snd mem_held].
      destruct (decide (k = (ns, lease_ID l))) as [->|Hne].
      * rewrite lookup_insert_eq. set_solver.
      * by rewrite lookup_insert_ne.
    + unfold mem_delete in *. destruct (mem_leases w !! _); [|done].
      cbn [fst deletes] in Hd. apply bool_decide_eq_false in Hd.
      unfold mem_holds. cbn [snd mem_held]. by rewrite lookup_delete_ne.
Qed.

#[export] Instance mem_StatLaws : StatLaws mem_handler mem_snaps.
Proof.
  split; simpl.
  - done.
  - intros ctx key w i. by case_decide.
  - intros X e w. destruct e; simpl; try done; intros _.
    + unfold mem_create. by destruct (mem_leases w !! _).
    + unfold mem_delete. by destruct (mem_leases w !! _).
  - done.
  - done.
Qed.

#[export] Instance mem_SnapLaws : SnapLaws mem_handler mem_snaps.
Proof.
  split; try done. intros X e w He. destruct e; try discriminate; try done; simpl.
  - unfold mem_create. by destruct (mem_leases w !! _).
  - unfold mem_add. by case_decide.
  - unfold mem_delete. by destruct (mem_leases w !! _).
Qed.

Lemma mem_stat_reliable : stat_reliable mem_handler mem_snaps.
Proof. intros ctx key w e. simpl. by case_decide. Qed.

(** A decoder for the one document used below. *)
Definition table_parser (table : list (string * json)) : JsonParser := {|
  json_parse s :=
    match assoc s table with
    | Some j => Ok j
    | None => Err (Errorf "invalid character" [])
    end
|}.

Definition sandbox_doc : json :=
  JObject [("Metadata", JObject [("Config", JObject
    [("metadata", JObject [("name", JString "web"); ("uid", JString "u1");
                           ("namespace", JString "default")]);
     ("annotations", JObject
       [("pv/upperdir-path-template", JString "/mnt/{{ .PodName }}/{{ .disk }}");
        ("pv/var.disk", JString "d0")])])])].
Definition doc_parser : JsonParser := table_parser [("meta", sandbox_doc)].
Definition doc_resolver : resolver :=
  mkResolver "pv/upperdir-path" "pv/upperdir-path-template" "pv/var.".

(** ** The theorems at work *)

Definition k8s_ctx : Ctx := mkCtx "k8s.io".
Definition zeros64 : string := "0000000000000000000000000000000000000000000000000000000000000000".
Definition layer0 : string := "sha256:" +:+ zeros64.
Definition node1 : dedupManager := newDedupManager "node1".
Definition sharing : snapshotter := mkSnapshotter doc_resolver (Some node1).
Definition plain : snapshotter := mkSnapshotter doc_resolver None.

(** A world with the layer in overlayfs and one container snapshot pinned, a
    second lease whose snapshot is gone. *)
Definition world0 : mem :=
  mkMem (<[("k8s.io", "lease-a") := leaseLabels "k8s.io/1/c1"]>
          (<[("k8s.io", "lease-b") := leaseLabels "k8s.io/2/c2"]> ∅))
        7 {["k8s.io/1/c1"]} {[layer0]}
        (<[("k8s.io", "lease-a") := {[mkResource layer0 "snapshots/overlayfs"]}]> ∅).

Lemma resolveAtMountsTime_path_iff_witness :
  exists tr, exec (resolveAtMountsTime (H0:=doc_parser) doc_resolver "k8s.io/5/c1") tr
    (Ok "/mnt/web/d0") /\ length tr = 4.
Proof.
  set (info := mkContainerInfo (<[criKindLabel := criKindContainer]> ∅) "sb1").
  set (exts := <[criSandboxMetadataExtension := "meta"]> (∅ : gmap string string)).
  exists [Ev (CtrContainers "k8s.io" "id==c1") (Ok [mkContainer "c1"]);
          Ev (CtrInfo "k8s.io" (mkContainer "c1")) (Ok info);
          Ev (CtrContainers "k8s.io" "id==sb1") (Ok [mkContainer "sb1"]);
          Ev (CtrExtensions "k8s.io" (mkContainer "sb1")) (Ok exts)].
  split; [|done].
  apply (resolveAtMountsTime_path_iff (H0:=doc_parser)); [done|].
  exists "k8s.io", "c1", (mkContainer "c1"), [], info, (mkContainer "sb1"), [], exts, "meta".
  eexists. split_and!; [by vm_compute|by vm_compute|done|by vm_compute| | |reflexivity].
  - unfold unmarshalSandboxMetadata. vm_compute. reflexivity.
  - by vm_compute.
Defined.

Lemma materializeReference_all_or_nothing_witness :
  let run0 := materializeReference k8s_ctx layer0 "" "/ovl/9/fs" in
  fst (run mem_handler run0 world0) = Ok tt /\
  exists pm ms fs x1 x2 x3, upperdirFromMounts ms = Ok fs /\
    trace mem_handler run0 world0 =
      [Ev (SnPrepare k8s_ctx (refTmpKey layer0) "" []) (Ok pm);
       Ev (SnMounts k8s_ctx (refTmpKey layer0)) (Ok ms);
       Ev (OsRemoveAll fs) (Ok x1); Ev (OsSymlink "/ovl/9/fs" fs) (Ok x2);
       Ev (SnCommit k8s_ctx layer0 (refTmpKey layer0) []) (Ok x3)].
Proof.
  intros run0. split; [by vm_compute|].
  assert (Hex : exec run0 (trace mem_handler run0 world0) (Ok tt))
    by exact (run_exec mem_handler run0 world0).
  exact (materializeReference_all_or_nothing _ _ _ _ _ _ Hex).
Defined.

Lemma dedup_off_transparent_witness :
  sn_dedup plain = None /\
  exec (Remove plain k8s_ctx "k8s.io/1/c1") [Ev (SnRemove k8s_ctx "k8s.io/1/c1") (Ok tt)] (Ok tt).
Proof.
  split; [done|].
  destruct (dedup_off_transparent plain k8s_ctx "k8s.io/1/c1" "" [] eq_refl) as (_ & _ & Hrm).
  by apply Hrm.
Defined.

(** A lazily materialised layer: the local snapshotter does not have it,
    overlayfs does. *)
Lemma Stat_info_is_local_witness :
  let p := Stat sharing k8s_ctx layer0 in
  fst (run mem_handler p world0) = Ok (mem_info layer0) /\
  length (trace mem_handler p world0) = 14 /\
  Ev (SnStat k8s_ctx layer0) (Ok (mem_info layer0)) ∈ trace mem_handler p world0.
Proof.
  intros p. split; [by vm_compute|]. split; [by vm_compute|].
  assert (Hex : exec p (trace mem_handler p world0) (Ok (mem_info layer0))).
  { replace (Ok (mem_info layer0)) with (fst (run mem_handler p world0)) by by vm_compute.
    apply run_exec. }
  exact (Stat_info_is_local sharing k8s_ctx layer0 _ _ Hex).
Defined.

Lemma Stat_dedup_not_chainID_witness :
  sn_dedup sharing = Some node1 /\
  isChainID ("k8s.io/3/" +:+ layer0) = false /\
  exists e, exec (Stat sharing k8s_ctx ("k8s.io/3/" +:+ layer0))
              [Ev (SnStat k8s_ctx ("k8s.io/3/" +:+ layer0)) missing] (Err e) /\
            is_not_found e = false.
Proof.
  split; [done|].
  destruct (Stat_dedup_not_chainID sharing k8s_ctx ("k8s.io/3/" +:+ layer0) node1 eq_refl)
    as [Hns Hst].
  assert (Hc : isChainID ("k8s.io/3/" +:+ layer0) = false)
    by (apply Hns; vm_compute; by eexists).
  split; [exact Hc|]. set (e := Errorf "not a chainID: %s" ["k8s.io/3/" +:+ layer0]).
  exists e. split; [|done]. apply (Hst Hc). right. by exists (Ext NotFound "not found"), e.
Defined.

Lemma handleDeleteLease_status_witness :
  let p := handleDeleteLease sharing k8s_ctx "nope" in
  trace mem_handler p world0 = [Ev (LeaseDelete "k8s.io" "nope") missing] /\
  ((trace mem_handler p world0 =
      [Ev (LeaseDelete "k8s.io" "nope") (Ok tt); Ev (PinnedDec "node1") tt] /\
    fst (run mem_handler p world0) = mkResponse 204 NoBody) \/
   (exists e, trace mem_handler p world0 = [Ev (LeaseDelete "k8s.io" "nope") (Err e)] /\
      resp_status (fst (run mem_handler p world0)) = 500%Z)).
Proof.
  intros p. split; [by vm_compute|].
  exact (handleDeleteLease_status sharing k8s_ctx "nope" _ _ (run_exec mem_handler p world0)).
Defined.

Lemma gauge_tracks_leases_witness :
  let qs := [ReqPrepare k8s_ctx "k8s.io/9/c9" ("k8s.io/3/" +:+ layer0) [];
             ReqGCLeases k8s_ctx; ReqRemove k8s_ctx "k8s.io/9/c9"] in
  let tr := trace mem_handler (serveAll (H0:=doc_parser) sharing qs) world0 in
  let w' := snd (run mem_handler (serveAll (H0:=doc_parser) sharing qs) world0) in
  count is_inc tr = 1 /\ count is_dec tr = 2 /\ count is_add_err tr = 0 /\
  (Z.of_nat (size (mem_leases w')) = 1)%Z.
Proof.
  intros qs tr w'.
  assert (Hi : count is_inc tr = 1) by by vm_compute.
  assert (Hd : count is_dec tr = 2) by by vm_compute.
  assert (He : count is_add_err tr = 0) by by vm_compute.
  split_and!; [done..|].
  pose proof (gauge_tracks_leases (H0:=doc_parser) mem_handler mem_leases sharing qs world0) as Hg.
  cbv zeta in Hg. fold tr in Hg. fold w' in Hg. rewrite Hi, Hd, He in Hg.
  change (size (mem_leases world0)) with 2 in Hg. lia.
Defined.

Lemma unpinByActiveKey_state_witness :
  let w' := snd (run mem_handler (unpinByActiveKey node1 "k8s.io" "k8s.io/2/c2") world0) in
  mem_leases w' !! ("k8s.io", "lease-a") = Some (leaseLabels "k8s.io/1/c1").
Proof.
  destruct (unpinByActiveKey_state mem_handler mem_leases node1 "k8s.io" "k8s.io/2/c2" world0)
    as (_ & Hkeep & _).
  intros w'. apply Hkeep; [apply lookup_insert_eq|]. right. by vm_compute.
Defined.

Lemma gcOrphanLeases_exact_witness :
  let '(deleted, w') := run mem_handler (gcOrphanLeases node1 k8s_ctx "k8s.io") world0 in
  deleted = 1%Z /\ mem_leases w' !! ("k8s.io", "lease-b") = None /\
  mem_leases w' !! ("k8s.io", "lease-a") = Some (leaseLabels "k8s.io/1/c1").
Proof.
  pose proof (gcOrphanLeases_exact mem_handler mem_leases mem_snaps node1 k8s_ctx "k8s.io" world0
                mem_stat_reliable) as Hgc.
  assert (Hd : fst (run mem_handler (gcOrphanLeases node1 k8s_ctx "k8s.io") world0) = 1%Z)
    by by vm_compute.
  destruct (run mem_handler (gcOrphanLeases node1 k8s_ctx "k8s.io") world0) as [deleted w'].
  destruct Hgc as (Hl & _ & _); [by vm_compute|]. split_and!; [exact Hd|..].
  - rewrite (Hl "k8s.io" "lease-b"). by vm_compute.
  - rewrite (Hl "k8s.io" "lease-a"). unfold world0. cbn [mem_leases].
    by rewrite lookup_insert_eq.
Defined.

Lemma lease_survives_witness :
  let qs := [ReqGCLeases k8s_ctx; ReqStat k8s_ctx layer0; ReqRemove k8s_ctx "k8s.io/2/c2";
             ReqDeleteLease k8s_ctx "lease-b"; ReqScrape k8s_ctx] in
  mem_leases (snd (run mem_handler (serveAll (H0:=doc_parser) sharing qs) world0))
    !! ("k8s.io", "lease-a") = Some (leaseLabels "k8s.io/1/c1").
Proof.
  intros qs.
  apply (lease_survives (H0:=doc_parser) mem_handler mem_leases mem_snaps sharing qs world0
           "k8s.io" "lease-a" (leaseLabels "k8s.io/1/c1") "k8s.io/1/c1" mem_stat_reliable).
  - by vm_compute.
  - cbn [never_released may_release qs]. split_and!; try done; try (by intros []).
  - apply lookup_insert_eq.
Defined.

Lemma serveAll_refines_witness :
  let qs := [ReqPrepare k8s_ctx "k8s.io/9/c9" ("k8s.io/3/" +:+ layer0) [];
             ReqGCLeases k8s_ctx; ReqRemove k8s_ctx "k8s.io/9/c9"] in
  map fst (found (H:=fragEngine) (H0:=doc_parser) mem_handler mem_snaps sharing qs world0) = qs /\
  book_run (found (H:=fragEngine) (H0:=doc_parser) mem_handler mem_snaps sharing qs world0)
    (mem_leases world0)
    (mem_leases (snd (run mem_handler (serveAll (H0:=doc_parser) sharing qs) world0))).
Proof.
  intros qs. split; [reflexivity|].
  exact (serveAll_refines (H0:=doc_parser) mem_handler mem_leases mem_snaps sharing qs world0
           mem_stat_reliable).
Defined.

(** A local snapshotter that refuses to remove anything. *)
Definition busy_handler : handler sysE mem := fun X e =>
  match e in sysE X return mem -> X * mem with
  | SnRemove _ _ => fun w => (unavailable, w)
  | e => mem_handler _ e
  end.

#[export] Instance busy_LeaseLaws : LeaseLaws busy_handler mem_leases.
Proof.
  split; try apply mem_LeaseLaws. intros X e w He.
  destruct e; try discriminate; try done; apply (lease_keep (h:=mem_handler) _ _ w He).
Qed.

#[export] Instance busy_SnapLaws : SnapLaws busy_handler mem_snaps.
Proof.
  split; try apply mem_SnapLaws; [done|]. intros X e w He.
  destruct e; try discriminate; apply (snap_keep (h:=mem_handler) _ _ w He).
Qed.

Lemma failed_remove_unpins_witness :
  let p := Remove sharing k8s_ctx "k8s.io/1/c1" in
  mem_leases world0 !! ("k8s.io", "lease-a") = Some (leaseLabels "k8s.io/1/c1") /\
  let (r, w') := run busy_handler p world0 in
  r = unavailable /\ "k8s.io/1/c1" ∈ mem_snaps w' /\
  forall id labels, mem_leases w' !! ("k8s.io", id) = Some labels ->
    labels !! leaseLabelOwnerKey <> Some "k8s.io/1/c1".
Proof.
  intros p. split; [apply lookup_insert_eq|].
  assert (Hin : "k8s.io/1/c1" ∈ mem_snaps world0) by by apply (bool_decide_unpack _).
  assert (Hc : count lease_call_failed (trace busy_handler p world0) = 0) by (vm_compute; reflexivity).
  exact (failed_remove_unpins busy_handler mem_leases mem_snaps sharing node1 k8s_ctx "k8s.io" "c1"
           "k8s.io/1/c1" world0 (Ext Unavailable "unavailable") eq_refl eq_refl Hin eq_refl Hc).
Defined.
