(* ===== verification/ConcurrentExamples.v ===== *)
(** * Requests at the same time, on concrete worlds

    The theorems of [Concurrent.v], [Materialise.v], [Survival.v], [Gauge.v] and
    [Probes.v] applied to worlds in memory.  In one schedule of two [Stat]s both
    have looked at the overlayfs layer before one of them builds the reference
    snapshot; in another both look at the same time, and the second one fails. *)

From S2P Require Import Prelude GoStrings System Laws Mount Template Json Annotation.
From S2P Require Import Resolver Dedup Service LeaseState Concurrent Materialise Survival Gauge Probes.
From S2P Require Import MemWorld.
Local Open Scope go_scope.

Definition two_stats : list (Ctx * string) := [(k8s_ctx, layer0); (k8s_ctx, layer0)].
Definition stat_threads : list (prog sysE (result Info)) :=
  map (fun '(ctx, key) => Stat sharing ctx key) two_stats.

(** ** Both look, then one builds *)

Definition late_lock : list nat :=
  repeat 0 4 ++ repeat 1 4 ++ repeat 0 10 ++ repeat 1 3.

Definition all_ok (ts : list (prog sysE (result Info))) : bool :=
  forallb (fun p => match p with Ret r => is_ok r | _ => false end) ts.

Lemma late_lock_runs : exists tr c,
  steps mem_handler (start stat_threads world0) tr c /\ map fst tr = late_lock /\
  all_ok (threads c) = true.
Proof.
  assert (Hv : match turns mem_handler (start stat_threads world0) late_lock with
               | Some c => all_ok (threads c) | None => false end = true)
    by (vm_compute; reflexivity).
  destruct (turns mem_handler (start stat_threads world0) late_lock) as [c|] eqn:Ht; [|done].
  destruct (turns_steps _ _ _ _ Ht) as (tr & Hst & Hm).
  exists tr, c. exact (conj Hst (conj Hm Hv)).
Qed.

Lemma materialised_once_witness : exists tr c,
  steps mem_handler (start stat_threads world0) tr c /\ map fst tr = late_lock /\
  all_ok (threads c) = true /\
  forall before i ev after, tr = before ++ (i, ev) :: after -> works_on layer0 ev = true ->
    owner before = Some i /\ count (commits layer0) (map snd before) = 0.
Proof.
  destruct late_lock_runs as (tr & c & Hst & Hm & Hok). exists tr, c. refine (conj Hst (conj Hm (conj Hok _))). intros before i ev after Heq Hev.
  destruct (materialised_once mem_handler mem_snaps sharing two_stats world0 tr c
              mem_SnapLaws mem_stat_reliable Hst before i ev after layer0 Heq Hev)
    as (Ho & _ & _ & Hc).
  exact (conj Ho Hc).
Defined.

(** The same schedule of the service's requests. *)
Lemma service_schedules_witness : exists tr c,
  steps mem_handler
    (start (map (serve (H0:=doc_parser) sharing)
              [ReqStat k8s_ctx layer0; ReqStat k8s_ctx layer0]) world0) tr c /\
  map fst tr = late_lock /\ (finished c \/ exists l c', step mem_handler c l c').
Proof.
  set (qs := [ReqStat k8s_ctx layer0; ReqStat k8s_ctx layer0]).
  set (c0 := start (map (serve (H0:=doc_parser) sharing) qs) world0).
  assert (Hv : match turns mem_handler c0 late_lock with
               | Some c => true | None => false end = true) by (vm_compute; reflexivity).
  destruct (turns mem_handler c0 late_lock) as [c|] eqn:Ht; [|done].
  destruct (turns_steps _ _ _ _ Ht) as (tr & Hst & Hm). exists tr, c.
  destruct (service_schedules (H0:=doc_parser) mem_handler sharing qs world0 tr c Hst)
    as (_ & _ & Hp & _).
  exact (conj Hst (conj Hm Hp)).
Defined.

(** ** A sweep with other requests in its middle *)

(** The sweep lists the leases; then one snapshot is removed and another one
    prepared; then it goes on. *)
Definition busy_requests : list request :=
  [ReqGCLeases k8s_ctx;
   ReqPrepare k8s_ctx "k8s.io/3/c3" ("k8s.io/4/" +:+ layer0) [];
   ReqRemove k8s_ctx "k8s.io/2/c2"].
Definition busy_order : list nat := [0] ++ repeat 2 4 ++ repeat 1 4 ++ repeat 0 3.

Lemma lease_survives_schedules_witness : exists tr c,
  steps mem_handler (start (map (serve (H0:=doc_parser) sharing) busy_requests) world0) tr c /\
  map fst tr = busy_order /\
  mem_leases (world c) !! ("k8s.io", "lease-a") = Some (leaseLabels "k8s.io/1/c1") /\
  "k8s.io/1/c1" ∈ mem_snaps (world c) /\
  mem_holds world0 ("k8s.io", "lease-a") ⊆ mem_holds (world c) ("k8s.io", "lease-a").
Proof.
  set (c0 := start (map (serve (H0:=doc_parser) sharing) busy_requests) world0).
  assert (Hv : match turns mem_handler c0 busy_order with
               | Some c => true | None => false end = true) by (vm_compute; reflexivity).
  assert (Hkey : is_Some (parseSnapshotKey "k8s.io/1/c1")) by by eexists.
  assert (Hqs : Forall (leaves_alone "lease-a" "k8s.io/1/c1") busy_requests)
    by by repeat constructor.
  assert (Hl : mem_leases world0 !! ("k8s.io", "lease-a") = Some (leaseLabels "k8s.io/1/c1"))
    by apply lookup_insert_eq.
  assert (Hs : "k8s.io/1/c1" ∈ mem_snaps world0) by by apply (bool_decide_unpack _).
  destruct (turns mem_handler c0 busy_order) as [c|] eqn:Ht; [|discriminate Hv].
  destruct (turns_steps _ _ _ _ Ht) as (tr & Hst & Hm). exists tr, c. clear Ht Hv.
  refine (conj Hst (conj Hm _)).
  exact (lease_survives_schedules (H0:=doc_parser) mem_handler mem_leases mem_snaps mem_holds sharing
    busy_requests "k8s.io" "lease-a" (leaseLabels "k8s.io/1/c1") "k8s.io/1/c1" world0 tr c
    _ mem_SnapLaws mem_HoldLaws mem_stat_reliable eq_refl Hkey Hqs Hl Hs Hst).
Defined.

(** The same services, with the ids that were ever given away in the world. *)
Definition ids (w : mem * gset (string * string)) : gset (string * string) :=
  dom (mem_leases w.1) ∪ w.2.
Definition ids_handler : handler sysE (mem * gset (string * string)) := fun X e =>
  match e in sysE X return _ -> X * _ with
  | LeaseCreate ns labels => fun w =>
      if decide ((ns, "lease-" +:+ digits 4 (Z.of_nat (mem_next w.1))) ∈ ids w)
      then (Err (Ext AlreadyExists "exists"), w)
      else let (x, m) := mem_create ns labels w.1 in (x, (m, ids w))
  | e => fun w => let (x, m) := mem_handler _ e w.1 in (x, (m, ids w))
  end.

Lemma ids_law {X} (e : sysE X) w :
  creates e = false -> ids_handler X e w = let (x, m) := mem_handler X e w.1 in (x, (m, ids w)).
Proof. by destruct e. Qed.

#[export] Instance ids_LeaseLaws : LeaseLaws ids_handler (mem_leases ∘ fst).
Proof.
  split.
  - intros ns labels w. cbn [ids_handler compose]. case_decide; [done|].
    pose proof (lease_create (h:=mem_handler) ns labels w.1) as Hc. cbn [mem_handler] in Hc.
    by destruct (mem_create ns labels w.1) as [[l|er] m].
  - intros ns id w. rewrite ids_law by done.
    pose proof (lease_delete (h:=mem_handler) ns id w.1) as Hc.
    by destruct (mem_handler _ (LeaseDelete ns id) w.1) as [[l|er] m].
  - intros ns f w ls. rewrite ids_law by done. apply (lease_list (h:=mem_handler) ns f w.1 ls).
  - intros ns f w ls id labels. rewrite ids_law by done.
    apply (lease_list_complete (h:=mem_handler) ns f w.1 ls).
  - intros X e w He. rewrite ids_law by by destruct e.
    pose proof (lease_keep (h:=mem_handler) X e w.1 He) as Hc. cbn [compose].
    by destruct (mem_handler X e w.1).
Qed.

#[export] Instance ids_SnapLaws : SnapLaws ids_handler (mem_snaps ∘ fst).
Proof.
  split; try done. intros X e w He. unfold compose. destruct (creates e) eqn:Hc.
  - destruct e; try discriminate. cbn [ids_handler]. case_decide; [done|].
    unfold mem_create. by destruct (mem_leases w.1 !! _).
  - rewrite ids_law by done. pose proof (snap_keep (h:=mem_handler) X e w.1 He) as Hk.
    by destruct (mem_handler X e w.1).
Qed.

#[export] Instance ids_IssueLaws : IssueLaws ids_handler (mem_leases ∘ fst) ids.
Proof.
  split.
  - intros ns labels w l w'. cbn [ids_handler]. case_decide as Hin; [done|].
    unfold mem_create. destruct (mem_leases w.1 !! _); [done|]. by intros [= <- _].
  - intros w k labels Hl. apply elem_of_union_l. by eapply elem_of_dom_2.
  - intros X e w. destruct (creates e) eqn:Hc.
    + destruct e; try discriminate. cbn [ids_handler]. case_decide; [done|].
      destruct (mem_create ns labels w.1) as [x m]. unfold ids at 2. set_solver.
    + rewrite ids_law by done. destruct (mem_handler X e w.1) as [x m]. unfold ids at 2. set_solver.
Qed.

#[export] Instance ids_HoldLaws : HoldLaws ids_handler (mem_holds ∘ fst).
Proof.
  split.
  - intros ns l r w u w'. rewrite ids_law by done.
    pose proof (hold_add (h:=mem_handler) ns l r w.1) as Ha.
    destruct (mem_handler _ (LeaseAddResource ns l r) w.1) as [x m]. intros [= -> <-]. by eapply Ha.
  - intros X e w k Hd. unfold compose. destruct (creates e) eqn:Hc.
    + destruct e; try discriminate. cbn [ids_handler] in *. case_decide; [done|].
      unfold mem_create. by destruct (mem_leases w.1 !! _).
    + rewrite ids_law in * by done. pose proof (hold_keep (h:=mem_handler) X e w.1 k) as Hk.
      destruct (mem_handler X e w.1). by apply Hk.
Qed.

Lemma ids_stat_reliable : stat_reliable ids_handler (mem_snaps ∘ fst).
Proof. intros ctx key w e. cbn. by case_decide. Qed.

(** The lease is made in the middle of the sweep, which had listed the leases
    before. *)
Definition busy_labels : list label :=
  labels ids_handler (start (map (serve (H0:=doc_parser) sharing) busy_requests) (world0, ∅))
    busy_order.
Definition new_lease : Lease := mkLease "lease-0007" 0 (leaseLabels "k8s.io/3/c3").

Lemma busy_makes :
  busy_labels !! 6 = Some (1, Ev (LeaseCreate "k8s.io" (leaseLabels "k8s.io/3/c3")) (Ok new_lease)).
Proof. vm_compute. reflexivity. Qed.

Lemma busy_split :
  busy_labels = take 6 busy_labels ++
    (1, Ev (LeaseCreate "k8s.io" (leaseLabels "k8s.io/3/c3")) (Ok new_lease)) :: drop 7 busy_labels.
Proof. symmetry. apply take_drop_middle, busy_makes. Qed.

Lemma busy_prepared : Exists (fun lab => prepares "k8s.io/3/c3" lab.2) (take 6 busy_labels).
Proof. vm_compute. do 5 right. left. reflexivity. Qed.

Lemma busy_added :
  Forall (fun lab : label => lab.1 = 1 -> is_add_err lab.2 = false) (drop 7 busy_labels).
Proof.
  assert (Hall : forallb (fun lab : label => negb (is_add_err lab.2)) (drop 7 busy_labels) = true)
    by (vm_compute; reflexivity).
  apply List.Forall_forall. intros lab Hin _. rewrite forallb_forall in Hall.
  by apply negb_true_iff, Hall.
Qed.

Lemma busy_layer :
  Exists (fun lab : label => adds "k8s.io" "lease-0007" (mkResource layer0 "snapshots/overlayfs") lab.2)
    (drop 7 busy_labels).
Proof. vm_compute. left. by split_and!. Qed.

Lemma fresh_lease_survives_witness : exists c,
  steps ids_handler (start (map (serve (H0:=doc_parser) sharing) busy_requests) (world0, ∅))
    busy_labels c /\
  mem_leases (fst (world c)) !! ("k8s.io", "lease-0007") = Some (leaseLabels "k8s.io/3/c3") /\
  "k8s.io/3/c3" ∈ mem_snaps (fst (world c)) /\
  mkResource layer0 "snapshots/overlayfs" ∈ mem_holds (fst (world c)) ("k8s.io", "lease-0007").
Proof.
  set (c0 := start (map (serve (H0:=doc_parser) sharing) busy_requests) (world0, ∅)).
  assert (Hv : match turns ids_handler c0 busy_order with
               | Some c => true | None => false end = true) by (vm_compute; reflexivity).
  assert (Hkey : is_Some (parseSnapshotKey "k8s.io/3/c3")) by by eexists.
  assert (Hqs : Forall (leaves_alone "lease-0007" "k8s.io/3/c3") busy_requests)
    by by repeat constructor.
  destruct (turns ids_handler c0 busy_order) as [c|] eqn:Ht; [|discriminate Hv].
  apply turns_labels in Ht. exists c. clear Hv. change (labels _ c0 _) with busy_labels in Ht.
  split; [exact Ht|]. rewrite busy_split in Ht.
  destruct (fresh_lease_survives (H0:=doc_parser) ids_handler (mem_leases ∘ fst) (mem_snaps ∘ fst)
    (mem_holds ∘ fst) ids sharing busy_requests "k8s.io" "k8s.io/3/c3" (world0, ∅) c
    (take 6 busy_labels) 1 new_lease (drop 7 busy_labels) ids_LeaseLaws ids_SnapLaws ids_HoldLaws
    ids_IssueLaws ids_stat_reliable Hkey Hqs Ht busy_prepared busy_added) as (Hl & Hs & Hr).
  split_and!; [exact Hl|exact Hs|exact (Hr _ busy_layer)].
Defined.

Definition returned {A} (ts : list (prog sysE A)) : bool :=
  forallb (fun p => match p with Ret _ => true | _ => false end) ts.

Lemma returned_Forall {A} (ts : list (prog sysE A)) :
  returned ts = true -> Forall (fun p => exists a, p = Ret a) ts.
Proof.
  unfold returned. induction ts as [|[a|X e k] ts IH]; simpl; [done| |done].
  intros Hts. constructor; [by exists a|by apply IH].
Qed.

(** One lease was released and one made: the gauge did not move either. *)
Lemma gauge_tracks_schedules_witness : exists tr c,
  steps mem_handler (start (map (serve (H0:=doc_parser) sharing) busy_requests) world0) tr c /\
  Forall (fun p => exists a, p = Ret a) (threads c) /\
  (count is_inc (map snd tr) <= count is_dec (map snd tr) <=
     count is_inc (map snd tr) + count is_add_err (map snd tr)).
Proof.
  set (c0 := start (map (serve (H0:=doc_parser) sharing) busy_requests) world0).
  assert (Hv : match turns mem_handler c0 busy_order with
               | Some c => returned (threads c) && Nat.eqb (size (mem_leases (world c))) 2
               | None => false end = true) by (vm_compute; reflexivity).
  destruct (turns mem_handler c0 busy_order) as [c|] eqn:Ht; [|discriminate Hv].
  destruct (turns_steps _ _ _ _ Ht) as (tr & Hst & _). clear Ht.
  apply andb_prop in Hv as [Hret%returned_Forall Hsize%Nat.eqb_eq].
  pose proof (gauge_tracks_schedules (H0:=doc_parser) mem_handler mem_leases sharing
    busy_requests world0 tr c Hst Hret) as Hg.
  exists tr, c. refine (conj Hst (conj Hret _)). cbv zeta in Hg. rewrite Hsize in Hg.
  change (size (mem_leases world0)) with 2 in Hg. clear -Hg. lia.
Defined.

(** ** Both look at the same time *)

(** [mem_handler] with an overlayfs that remembers its views: a key can only be
    used once at a time. *)
Definition probe_world : Type := mem * gset (string * string).
Definition probe_handler : handler sysE probe_world := fun X e =>
  match e in sysE X return probe_world -> X * probe_world with
  | OvlView ns key _ => fun w =>
      if decide ((ns, key) ∈ snd w) then (Err (Ext AlreadyExists "snapshot exists"), w)
      else (Ok mem_mounts, (fst w, {[(ns, key)]} ∪ snd w))
  | OvlRemove ns key => fun w => (Ok tt, (fst w, snd w ∖ {[(ns, key)]}))
  | e' => fun w => let (x, m) := mem_handler _ e' (fst w) in (x, (m, snd w))
  end.

Lemma probe_law {X} (e : sysE X) w :
  keeps_views e = true ->
  probe_handler X e w = let (x, m) := mem_handler X e (fst w) in (x, (m, snd w)).
Proof. by destruct e. Qed.

#[export] Instance probe_ViewLaws : ViewLaws probe_handler snd.
Proof.
  split.
  - intros ns key parent w Hk. cbn. rewrite decide_True by done. by eexists.
  - intros ns key parent w. cbn. case_decide; cbn; [done|]. set_solver.
  - intros ns key w. cbn. set_solver.
  - intros X e w He. rewrite probe_law by done. by destruct (mem_handler X e (fst w)).
Qed.

#[export] Instance probe_SnapLaws : SnapLaws probe_handler (mem_snaps ∘ fst).
Proof.
  split.
  - intros ctx key parent opts w. rewrite probe_law by done.
    pose proof (snap_prepare (h:=mem_handler) ctx key parent opts w.1) as Hp. cbn [fst] in *.
    by destruct (mem_handler _ (SnPrepare ctx key parent opts) w.1).
  - intros ctx key parent opts w. rewrite probe_law by done.
    pose proof (snap_view (h:=mem_handler) ctx key parent opts w.1) as Hp.
    by destruct (mem_handler _ (SnView ctx key parent opts) w.1).
  - intros ctx name key opts w. rewrite probe_law by done.
    pose proof (snap_commit (h:=mem_handler) ctx name key opts w.1) as Hp.
    by destruct (mem_handler _ (SnCommit ctx name key opts) w.1).
  - intros ctx key w. rewrite probe_law by done.
    pose proof (snap_remove (h:=mem_handler) ctx key w.1) as Hp.
    by destruct (mem_handler _ (SnRemove ctx key) w.1).
  - intros X e w He. destruct (keeps_views e) eqn:Hv.
    + rewrite probe_law by done. pose proof (snap_keep (h:=mem_handler) X e w.1 He) as Hk.
      by destruct (mem_handler X e w.1).
    + destruct e; try discriminate; cbn; [by case_decide|done].
Qed.

(** Overlayfs has [layer0], and no view of it is left over. *)
Lemma probe_fresh :
  fresh_layer probe_handler snd (mem_snaps ∘ fst) k8s_ctx layer0
    (fun w => layer0 ∈ mem_layers (fst w)) (world0, ∅).
Proof.
  split; [by vm_compute|by apply (bool_decide_unpack _)| |split| |done].
  - intros w i. cbn. by case_decide.
  - intros w Hw. cbn. rewrite decide_True by done. by eexists.
  - intros w Hw Hfree. cbn. rewrite decide_False by done. by eexists.
  - intros w Hw. cbn. repeat case_decide; by split_and!.
  - by apply (bool_decide_unpack _).
Qed.

(** Both look at the same time: the second fails.  One after the other, both
    succeed. *)
Lemma overlapping_probes_fail_witness :
  (exists tr c e,
     steps probe_handler (start stat_threads (world0, ∅)) tr c /\
     threads c !! 1 = Some (Ret (Err e)) /\ is_not_found e = false) /\
  (exists i1 i2,
     fst (run probe_handler (let! r1 := Stat sharing k8s_ctx layer0 in
                             let! r2 := Stat sharing k8s_ctx layer0 in
                             Ret (r1, r2)) (world0, ∅)) = (Ok i1, Ok i2)).
Proof.
  split; [|do 2 eexists; vm_compute; reflexivity].
  exact (proj2 (overlapping_probes_fail probe_handler snd (mem_snaps ∘ fst) sharing) _ k8s_ctx layer0
           _ (world0, ∅) eq_refl probe_fresh).
Defined.
